(* ===== verification/_CoqProject ===== *)
-Q . S2P
Prelude.v
Operand.v
Dag.v
Executor.v
CompositeOperator.v
Object.v
CompositeController.v
Sync.v
Mirror.v
StatelessAction.v
Rbac.v
Cert.v
CertManager.v
Admission.v
Webhook.v
Declarative.v
Cache.v
FieldIndex.v
Events.v
Pki.v
SelfSigned.v
Transform.v
Loader.v
Kubectl.v
Platform.v
Example.v
Game.v
ConfigMapWebhook.v
ExternalGame.v
Space.v
CertLifecycle.v
SelfSignedManager.v
Ready.v
Lifecycle.v
DeepCopy.v
Main.v
