(* ===== verification/Prelude.v ===== *)
(** * operator-toolkit: a verification development

    The operator toolkit is a Go library for writing Kubernetes operators.  A
    user describes the parts of an application as operands with dependencies; a
    composite operator orders them and ensures or cleans them up; controllers
    drive operators, external systems and actions from the events of a cluster;
    webhooks validate and default objects and manage their certificates; helper
    packages record permissions, load, build, apply and delete manifests, discover
    the cluster and stop runnables; an example operator puts them together.

    ** Files and what they model (paths under src/)

    - [Prelude]: errors, effects, results, names, and the shared lemmas, tactics
      and hints; no component of its own, apart from small helpers of the code
      such as [contains].
    - [Operand]: operator/v1/operand - operands, [CallEnsure], [CallCleanup],
      orders, [Reverse] and [StepRequeueStrategy].
    - [Dag]: operator/v1/dag - [NewOperandDAG], [solve], [solveStep], [Order].
    - [Executor]: operator/v1/executor - serial and concurrent execution of a
      step, and the loop over the steps of an order.
    - [CompositeOperator]: operator/v1/composite_operator.go - options,
      construction, [Ensure] ([co_Ensure]) and [Cleanup].
    - [Object]: object/, singleton/ and error/ - unstructured objects, nested
      fields, comparison of statuses, lists of names, singleton lookup.
    - [CompositeController]: controller/composite/v1 - the reconciler with
      initialization, finalizers and the deferred status update.
    - [Sync]: controller/sync/v1, controller/external-object-sync/v1 and
      controller/metadata-sync/v1 - the sync reconcilers, garbage collection and
      resynchronisation, and the periodic functions that run them.
    - [Mirror]: the external object sync of [Sync] over time, the worker and the
      garbage collector taking turns call by call with changes by users and
      outages, against a small abstract machine.
    - [StatelessAction]: controller/stateless-action/v1 - reconciliation and the
      timed loop that runs and checks an action.
    - [Rbac]: rbac/client - the client that records the permissions it uses.
    - [Cert]: internal/webhook/cert/writer and the generator interface - the
      validity of a certificate and the secret it is kept in.
    - [CertManager]: internal/webhook/cert/provisioner.go and webhook/cert -
      provisioning, injection of the CA, the refresh of a manager and its loop.
    - [Admission]: webhook/admission and webhook/function - what the mutating and
      validating handlers do with a request, and their functions.
    - [Webhook]: webhook/builder and the handlers of webhook/admission as objects
      of a server - registration, injection of the decoder, serving.
    - [Declarative]: declarative/ - kustomization mutations on shared maps,
      loading and writing kustomizations, manifest transforms, the builder.
    - [Cache]: cache/ and client/composite - the
      informers map with its concurrent callers, field indices, readers and the
      client that falls back to the API server.
    - [FieldIndex]: the index function of cache/informer_cache.go on slices in
      memory, against the pure one of [Cache].
    - [Events]: source/, predicate/ and controller/external/handler - delivery of
      informer notifications to event handlers.
    - [Pki]: internal/pkiutil - keys, certificates, requests, and their PEM files.
    - [SelfSigned]: internal/webhook/cert/generator - the generator that keeps a CA
      and signs serving certificates with the functions of [Pki]; it also gives
      [Cert] its certificate checks, so that both agree on what a certificate is.
    - [Transform]: the transform functions of declarative/transform.
    - [Loader]: declarative/loader - copying the packages of a channel from disk.
    - [Kubectl]: declarative/kubectl, applier and deleter.
    - [Platform]: discovery/cluster, runnable, telemetry and
      controller/external/builder.
    - [Example], [Game], [ConfigMapWebhook], [ExternalGame]: the controllers, the
      operator and the webhook of example/controllers, as clients of the files
      above.
    - [Space]: the mock API client and the cache of example/main.go, with the API
      types, their webhook methods and the controllers that share the cache.
    - [CertLifecycle]: what [CertManager] does over any number of refreshes, for
      any generator that keeps a promise ([issuing]) and any cluster that works
      ([cluster]); [SelfSignedManager] discharges the promise with [SelfSigned].
    - [Ready]: the interface of a reconciler ([Reconciles]), with the reconcilers
      of [CompositeController], [Sync] and [StatelessAction] as its instances.
    - [Lifecycle]: the reconciler of [CompositeController] over any number of
      requests for one object, with calls that fail, against an abstract machine
      of the phases of its life.
    - [DeepCopy]: example/api/v1alpha1/zz_generated.deepcopy.go - the generated
      deep copies, on a memory of slices.
    - [Main]: [main] of example/main.go, the sequence of the steps that put the
      parts together and start the manager.

    ** How the code is modelled

    - Pure code is a function.  Code with effects is in the state monad [M S A];
      the state is that of the environment (the cluster, an external system, the
      operands), which the callbacks of the program change.
    - Where a claim is about which calls are made and in which order, the state
      is a [World]: the environment and a log to which [logged] adds every call.
    - Code that can panic or loop returns an [outcome]: [Done], [Panic] or
      [OutOfFuel].  Errors are values of type [error] (sentinels, formatted and
      wrapping errors, errors of other packages); [errors_Is] follows wrapping.
    - What goroutines can interleave on is a [proc], a tree of atomic actions.
      The concurrent executor is a transition function on goroutines, two bounded
      channels and a wait group, and a schedule is a list of goroutine numbers;
      theorems quantify over all schedules.
    - Durations are integers in nanoseconds; in the action loop the callbacks say
      how long they take, and a choice function resolves simultaneous events.
    - Go maps are finite maps; the order in which a [range] visits one is given
      by the class [MapRange], about which only is known that it lists every
      entry once.  Where the code shares a map between values (the labels of a
      kustomization) the maps live in a [heap] and values hold references; the
      slices of [DeepCopy] and [FieldIndex] have addresses in a memory.
    - Interfaces the toolkit is given ([Operand], [Controller], [Manager], API
      clients) are records of callbacks.  Libraries outside the repository are
      classes of operations with classes of laws ([ErrorLib], [DAGLib],
      [ClientObject], [Scheme], [MetaLib], [CryptoLib], [NetLib], [FileSystem],
      [KustomizeLib], [AdmissionLib], [RbacLib], [CacheLib], [InformerLib],
      [X509Lib], [DiskLib], [TlsLib], [NodeLib], [HostDisk], [MemFiles],
      [KubectlLib], [SemverLib], [WebhookServer], [MetaCopy]); every law class that a theorem uses has a
      concrete instance, with which the witnesses are evaluated.
    - Sequences of fallible calls are written with [x ←? m; k], which stops at the
      first error, and [check m; k] for calls that return only an error.
    - Tracing spans, metrics, log lines and contexts that are only passed on do
      not influence results and are left out.  The context of an action has a
      deadline: the loop of [RunAction] looks at it, the methods of a manager,
      which are given it too, do not in the model.

    ** What the theorems show

    - Ordering ([Dag]): for valid operands, whose names are distinct, the order
      exists, contains every operand once and respects dependencies ([Order_total],
      [Order_dependencies]); dependents are in a strictly later step when every
      operand has one level ([Order_strict]), and not in general
      ([Order_shortcut]); without the acyclicity enforced by the graph library
      the solver does not stop ([solve_diverges]).
    - Execution ([Executor]): steps are barriers whatever the interleaving, and
      each starts every operand once with the call it was given
      ([ExecuteOperands_barrier]); concurrent execution neither deadlocks nor
      loses an error or a result ([concurrentExec_terminates],
      [concurrentExec_outcomes]) and refines to serial execution
      ([serial_refines_concurrent]).
    - Operators ([CompositeOperator]): construction, the outcome of [Ensure] on
      every branch ([Ensure_outcome]), and that a complete [Ensure] has made
      exactly the calls that ensure every operand and a complete [Cleanup] exactly
      those that delete every operand, up to the middle step which [Reverse] drops
      ([Ensure_complete], [Cleanup_complete], [Reverse_lookup]).
    - Controllers: a reconciliation is a refinement of an abstract protocol of
      calls, with what it returns and what it makes of the environment on every path
      ([Reconcile_follows_protocol]), from which follow that operations are
      guarded by the finalizer, finalizers are removed after cleanup, errors are
      kept and the object is written at most once.  Over many requests an object
      goes through the phases of an abstract machine ([lifecycle_refines]) and
      from every phase on to the next ones, deletion included
      ([lifecycle_live]).  The external object sync makes the external system a
      mirror of the cluster, through outages and missed events, once every key
      that is out of step had a request or a collection ([mirror_converges]); a
      collection during which an object appears can itself put its key out of step
      ([collectGarbage_race]); sync reconcilers make exactly
      the right external call ([sync_Reconcile]), actions terminate and are
      deferred once ([RunAction_terminates], [RunAction_calls]).
    - Composition ([Game], [Example], [ConfigMapWebhook]): a reconciliation that
      operates and succeeds has ensured every operand of the operator once, with the
      object and its owner reference, and one that does not operate has called none
      ([reconcile_ensures_operands]); the namespace recorder records a namespace
      ([nsRecorder_records]) and the space controller enqueues an object once
      ([space_enqueues_once]), each through the toolkit's own controllers.
    - Initialization ([Ready]): reconcilers that were initialized with the options
      of their packages have no nil pointer left to follow, and answer every
      sequence of requests without a panic ([initialized_serve]).
    - The program ([Main], [Space]): the manager is started only when all else has
      succeeded and the certificate is on disk, and the first step that fails ends
      the program with its message ([main_start_order]); reads of the
      space cache return what its server sent last ([space_cache_reads]).
    - The life of a certificate ([CertLifecycle], [SelfSignedManager]): after the
      start and after every tick the server, the secret and the webhook
      configurations agree on a certificate that is valid for months
      ([selfsigned_certificate_served]), as long as calls succeed, the validity is
      more than six months, the host is a service, and at the start there are no
      files on disk and no secret of someone else; an error between
      the renewal and the write leaves old files behind ([stale_files_stay]), and a
      start on the files of an earlier run stops the refreshes
      ([restart_stops_refreshing]).
    - Objects: status changes are detected exactly, singletons are found.
    - Webhooks: every path is served by the controller that claimed it first
      ([webhooks_served]), and a server fails closed: it admits exactly what the
      validating functions for the operation admit ([webhooks_fail_closed]);
      singletons are enforced ([singleton_enforced]); ensuring a certificate leaves
      it in the secret and is idempotent once it is valid ([EnsureCert_idempotent]),
      and a refresh leaves all configurations with one CA bundle that contains the
      CA.
    - Certificates: what the generator makes passes the check of the writer
      ([Generate_valid]) unless it is for an IP or too short, when it is made anew
      each time ([EnsureCert_rotates]); a valid CA is kept ([Generate_keeps_CA]);
      signed certificates stay within the bounds asked for and are verified with
      the CA as root ([NewSignedCertWithValidity_bounds]); what is written to disk is read back
      ([disk_roundtrip]); alternative names are those of a sorted, duplicate-free
      reference ([RemoveDuplicateAltNames_spec]).
    - [Rbac] and [Declarative]: the roles that are written grant exactly the
      permissions of the calls that were made ([recorded_permissions]);
      images are merged as documented; two ways in which kustomization mutations
      go beyond what their callers expect.
    - Packages: every file of the packages of a channel is loaded
      ([LoadManifests_loads]); transforms set labels and annotations and leave the
      other files ([package_labels]); deleting leaves no temporary file behind,
      whatever fails ([Delete_removes_file]), but for a file that cannot be removed
      ([Delete_leaves_file]).
    - [Platform]: a graceful runnable stops once, and only after its context
      ([graceful_stops_once]); versions compare by their numbers.
    - Deep copies ([DeepCopy]): a copy has the value of the original and shares
      nothing with it ([deepcopy_isolated]).
    - [Cache], [FieldIndex] and [Events]: one informer per kind however callers
      interleave, each run once; lists by a field are exact; the index function
      computes the values of its pure definition ([indexFunc_slices]), but writes
      into the slice of the extractor for cluster-scoped objects
      ([cluster_reindexed]); the composite client returns
      cached objects or those of the server, and a cache for all namespaces never
      answers for a namespaced object; exactly the accepted events are delivered.

    ** Fuel

    [solve] needs at most as many iterations as there are operands, since in an
    acyclic graph no walk has more vertices ([Order_total]).  [RunAction] needs at
    most one round more than the timeout has retry periods
    ([RunAction_terminates]).  [Reverse] is given the number of steps, twice what
    it needs.  A schedule that is too short leaves the concurrent executor
    waiting, which is [OutOfFuel]; every schedule can be extended to one that
    ends ([concurrentExec_terminates]).  [CopyDirectory] needs as much as the
    directory is deep ([LoadManifests_loads]).  The refresh loop of the certificate
    manager, which never ends, is given the list of the waits between its runs;
    theorems are about every such list.

    ** What is not modelled

    The fake certificate generator and the generated mocks, which only the tests
    use, and the test data with their deep copies, which are those of the example
    API.  Interfaces and constants without behaviour (api-object, event, constant)
    are left out, as are one-line methods that only pass a value on.  Flags,
    signals and the builders of controller-runtime are parameters of [Main].  The
    queue that turns events and requeues into requests is that of
    controller-runtime: [Lifecycle] and [Mirror] take any sequence of requests
    instead, and state which requests have to come. *)
From stdpp Require Export base gmap strings list list_monad sorting pretty relations.

(** * Go errors *)

(** A non-nil value of Go's [error] interface.  [sentinel] is a package-level
    [errors.New] variable, compared by identity; [errorf] is a fresh error: its
    format string, its rendered arguments, the errors shown with [%v] and the
    error wrapped with [%w]; [extError] is a value of an error type declared
    outside the repository: its type, its message and the errors its [Is]
    method visits; [typedError] is a value of an error struct declared in the
    repository, with the strings and the number it holds: none of these structs
    has an [Unwrap] or [Is] method. *)
Inductive error : Type :=
| sentinel (name : string)
| errorf (format : string) (args : list string) (shown : list error) (wrapped : option error)
| extError (typ : string) (msg : string) (members : list error)
| typedError (typ : string) (args : list string) (count : Z).

(** Go's [error] interface value: [None] is [nil]. *)
Abbreviation err := (option error).

(** [errors.Is(e, target)] for a sentinel target. *)
Fixpoint errors_Is (e : error) (target : string) : bool :=
  match e with
  | sentinel n => bool_decide (n = target)
  | errorf _ _ _ (Some w) => errors_Is w target
  | errorf _ _ _ None => false
  | extError _ _ ms => existsb (fun m => errors_Is m target) ms
  | typedError _ _ _ => false
  end.

(** [errors.Is] on an interface value that may be nil. *)
Definition err_Is (e : err) (target : string) : bool :=
  match e with Some e => errors_Is e target | None => false end.

(** [errors.New] with a text that is not bound to a package variable. *)
Definition errors_New (s : string) : error := errorf s [] [] None.

(** [fmt.Errorf] whose only verb for an error is [%v], and one with [%w]. *)
Definition errorf_v (format : string) (args : list string) (e : error) : error :=
  errorf format args [e] None.
Definition errorf_w (format : string) (args : list string) (e : error) : error :=
  errorf format args [] (Some e).

(** * Third-party error helpers *)

(** [k8s.io/apimachinery/pkg/util/errors.NewAggregate] and
    [k8s.io/apimachinery/pkg/api/errors], controller-runtime's
    [client.IgnoreNotFound] and [github.com/pkg/errors.Wrapf]. *)
Class ErrorLib := {
  NewAggregate : list err -> err;
  IsNotFound : error -> bool;
  IsAlreadyExists : error -> bool;
  IgnoreNotFound : err -> err;
  Wrapf : error -> string -> list string -> error;
}.

(** Documented behaviour: an aggregate drops the nil errors, is nil when
    nothing is left, and [errors.Is] looks into every member; [IgnoreNotFound]
    returns nil on nil and on NotFound errors and the error itself otherwise; a
    wrapped error unwraps to its cause. *)
Class ErrorLibLaws `{ErrorLib} : Prop := {
  NewAggregate_None : forall es, NewAggregate es = None <-> Forall (fun e => e = None) es;
  NewAggregate_Is : forall es e t,
    NewAggregate es = Some e -> errors_Is e t = existsb (fun x => err_Is x t) es;
  IgnoreNotFound_spec : forall e,
    IgnoreNotFound e = match e with Some x => if IsNotFound x then None else e | None => None end;
  Wrapf_Is : forall e f args t, errors_Is (Wrapf e f args) t = errors_Is e t;
}.

(** A concrete instance, for the witnesses. *)
Module RefErrors.
Definition new_aggregate (es : list err) : err :=
  match omap id es with
  | [] => None
  | l => Some (extError "aggregate" "" l)
  end.
Definition has_type (t : string) (e : error) : bool :=
  match e with extError t' _ _ => bool_decide (t' = t) | _ => false end.
Definition ignore_not_found (e : err) : err :=
  match e with Some x => if has_type "NotFound" x then None else e | None => None end.
Definition wrapf (e : error) (f : string) (args : list string) : error := errorf_w f args e.
#[export] Instance lib : ErrorLib := {|
  NewAggregate := new_aggregate;
  IsNotFound := has_type "NotFound";
  IsAlreadyExists := has_type "AlreadyExists";
  IgnoreNotFound := ignore_not_found;
  Wrapf := wrapf;
|}.
End RefErrors.

(** * State, effects and the call log *)

(** Stateful Go code is a function of the state it starts in. *)
Definition M (S A : Type) : Type := S -> S * A.
#[global] Instance M_ret S : MRet (M S) := fun A a s => (s, a).
#[global] Instance M_bind S : MBind (M S) := fun A B k m s => let '(s', a) := m s in k a s'.

(** The state of the world [W], which the code changes through the interfaces
    it calls, with the log of those calls. *)
Record World (W C : Type) := mkWorld { wst : W; wlog : list C }.
Arguments mkWorld {W C} wst wlog.
Arguments wst {W C} w.
Arguments wlog {W C} w.

(** One call of an interface method: it is appended to the log and the method
    acts on the state. *)
Definition logged {W C A} (c : C) (m : M W A) : M (World W C) A :=
  fun w => let '(s, a) := m (wst w) in (mkWorld s (wlog w ++ [c]), a).

(** Run a list of actions in order, ignoring nothing. *)
Fixpoint forM_ {S A} (l : list A) (f : A -> M S unit) : M S unit :=
  match l with
  | [] => mret tt
  | x :: l => _ ← f x; forM_ l f
  end.

(** Fallible code: [x ←? m; k] returns the error of [m], or goes on with its
    value; [on_error m f] changes an error, as [errors.Wrap] does; [check m; k] goes on
    when a call that only returns an error succeeds. *)
Declare Scope toolkit_scope.
Open Scope toolkit_scope.
Definition ebind {S A B} (m : M S (error + A)) (k : A -> M S (error + B)) : M S (error + B) :=
  m ≫= fun r => match r with inl e => mret (inl e) | inr a => k a end.
Definition on_error {S A} (m : M S (error + A)) (f : error -> error) : M S (error + A) :=
  m ≫= fun r => mret match r with inl e => inl (f e) | inr a => inr a end.
Definition echeck {S} (m k : M S err) : M S err :=
  m ≫= fun e => match e with Some e => mret (Some e) | None => k end.
Definition wrap_err {S} (m : M S err) (f : error -> error) : M S err :=
  m ≫= fun e => mret (f <$> e).
Definition lift_sum {S A} (r : error + A) : M S (error + A) := mret r.
Notation "x ←? m ; k" := (ebind m (fun x => k))
  (at level 20, m at level 100, k at level 200, right associativity, only parsing) : toolkit_scope.
Notation "' x ←? m ; k" := (ebind m (fun x => k))
  (at level 20, x pattern, m at level 100, k at level 200, right associativity, only parsing) : toolkit_scope.
Notation "'check' m ; k" := (echeck m k)
  (at level 20, m at level 100, k at level 200, right associativity, only parsing) : toolkit_scope.

(** Code that runs in a goroutine: its atomic actions on the shared state, in
    order, each followed by a continuation that sees what the action returned. *)
Inductive proc (S A : Type) : Type :=
| Ret (a : A)
| Act (u : S -> S) (k : S -> proc S A).
Arguments Ret {S A} a.
Arguments Act {S A} u k.

(** A call of an interface method is one atomic action. *)
Definition call {S A B} (m : M S A) (k : A -> proc S B) : proc S B :=
  Act (fun s => fst (m s)) (fun s => k (snd (m s))).

(** Running the code alone, with no interleaving. *)
Fixpoint run {S A} (p : proc S A) : M S A := fun s =>
  match p with
  | Ret a => (s, a)
  | Act u k => run (k s) (u s)
  end.

(** How a call ends: with its results, with a run-time panic, or not within
    the given fuel. *)
Inductive outcome (A : Type) : Type :=
| Done (a : A)
| Panic (msg : string)
| OutOfFuel.
Arguments Done {A} a.
Arguments Panic {A} msg.
Arguments OutOfFuel {A}.

(** * Controller results and keys *)

(** [sigs.k8s.io/controller-runtime.Result]; durations are nanoseconds. *)
Record Result := mkResult { Requeue : bool; RequeueAfter : Z }.
Definition emptyResult : Result := mkResult false 0.
Definition requeueResult : Result := mkResult true 0.

Definition second : Z := 1000000000.
Definition minute : Z := 60 * second.
Definition hour : Z := 60 * minute.

(** [k8s.io/apimachinery/pkg/types.NamespacedName]. *)
Record NamespacedName := mkNN { NNNamespace : string; NNName : string }.
#[global] Instance NamespacedName_eq_dec : EqDecision NamespacedName.
Proof. solve_decision. Defined.
#[global] Instance NamespacedName_countable : Countable NamespacedName.
Proof. apply (inj_countable' (fun k => (NNNamespace k, NNName k)) (fun '(a, b) => mkNN a b)). by intros []. Defined.
(** [schema.GroupVersionKind]. *)
Record GVK := mkGVK { gvk_Group : string; gvk_Version : string; gvk_Kind : string }.
Definition zeroGVK : GVK := mkGVK "" "" "".
#[global] Instance GVK_eq_dec : EqDecision GVK.
Proof. solve_decision. Defined.
#[global] Instance GVK_countable : Countable GVK :=
  inj_countable' (fun g => (gvk_Group g, gvk_Version g, gvk_Kind g)) (fun '(g, v, k) => mkGVK g v k)
    ltac:(by intros []).
#[global] Instance Result_eq_dec : EqDecision Result.
Proof. solve_decision. Defined.

(** * Go maps and slices *)

(** [for k, v := range m] visits every entry once, in an unspecified order. *)
Class MapRange := range_map : forall {V}, gmap string V -> list (string * V).
Class MapRangeLaws `{MapRange} : Prop :=
  range_map_perm : forall V (m : gmap string V), range_map m ≡ₚ map_to_list m.
Module RefRange.
#[export] Instance lib : MapRange := fun V m => map_to_list m.
#[export] Instance laws : MapRangeLaws.
Proof. intros V m. reflexivity. Qed.
End RefRange.

(** Values as texts, for instances of serialization libraries. *)
Module RefText.
Fixpoint print (p : positive) : string :=
  match p with
  | xH => "."
  | xO p => String (Ascii.Ascii false false false false true true false false) (print p)
  | xI p => String (Ascii.Ascii true false false false true true false false) (print p)
  end%positive.
Fixpoint scan (s : string) : positive :=
  match s with
  | String (Ascii.Ascii false false false false true true false false) s => xO (scan s)
  | String (Ascii.Ascii true false false false true true false false) s => xI (scan s)
  | _ => xH
  end.
Definition show `{Countable A} (x : A) : string := print (encode x).
Definition read `{Countable A} (s : string) : option A := decode (scan s).
Lemma scan_print p : scan (print p) = p.
Proof. induction p as [p IH|p IH|]; cbn; congruence. Qed.
Lemma read_show `{Countable A} (x : A) : read (show x) = Some x.
Proof. unfold read, show. by rewrite scan_print, decode_encode. Qed.
End RefText.

(** [for k, v := range new { m[k] = v }]. *)
Definition assignAll `{MapRange} (new m : gmap string string) : gmap string string :=
  foldl (fun m '(k, v) => <[k := v]> m) m (range_map new).

(** A linear search over a slice of strings, as several files write it. *)
Definition contains (slice : list string) (s : string) : bool :=
  existsb (fun e => bool_decide (e = s)) slice.

(** [sort.Strings]: ascending byte order. *)
Definition string_le (a b : string) : Prop := Is_true (String.leb a b).
#[global] Instance string_le_dec a b : Decision (string_le a b).
Proof. unfold string_le. apply _. Defined.
Definition sort_Strings (l : list string) : list string := merge_sort string_le l.

(** [strings.HasSuffix]. *)
Definition HasSuffix (s suffix : string) : bool :=
  bool_decide (String.length suffix <= String.length s) &&
  bool_decide (String.substring (String.length s - String.length suffix) (String.length suffix) s = suffix).

(** Strings form a monoid. *)
Lemma app_nil_string (s : string) : s +:+ "" = s.
Proof. induction s as [|a s IH]; [done|]. change (String a (s +:+ "") = String a s). by rewrite IH. Qed.
Lemma app_assoc_string (a b c : string) : (a +:+ b) +:+ c = a +:+ (b +:+ c).
Proof. induction a as [|x a IH]; [done|]. change (String x ((a +:+ b) +:+ c) = String x (a +:+ (b +:+ c))). by rewrite IH. Qed.

(** Whether a character occurs in a string. *)
Fixpoint has_char (c : Ascii.ascii) (s : string) : bool :=
  match s with
  | EmptyString => false
  | String a s => Ascii.eqb a c || has_char c s
  end.

(** * Automation *)

Create HintDb toolkit.
Create Rewrite HintDb toolkit_rw.

(** Expose the state-passing underneath the monad. *)
Ltac unfold_m := unfold mbind, M_bind, mret, M_ret, logged in *; cbn in *.

(** Case analysis on every [match] of the goal, then simplification. *)
Ltac crush_match := repeat (case_match; simplify_eq/=); auto with toolkit.

(** * Shared lemmas *)

Lemma run_call {S A B} (m : M S A) (k : A -> proc S B) s :
  run (call m k) s = (let '(s', a) := m s in run (k a) s').
Proof. cbn. by destruct (m s). Qed.
#[export] Hint Rewrite @run_call : toolkit_rw.

(** A fallible computation that succeeds has succeeded in every part. *)
Lemma ebind_inr {S A B} (m : M S (error + A)) (k : A -> M S (error + B)) s s' b :
  ebind m k s = (s', inr b) <-> exists s1 a, m s = (s1, inr a) /\ k a s1 = (s', inr b).
Proof.
  unfold ebind, mbind, M_bind. destruct (m s) as [s1 [e|a]]; [|naive_solver].
  split; [done|]. intros (? & ? & [=] & _).
Qed.
Lemma on_error_inr {S A} (m : M S (error + A)) f s s' a :
  on_error m f s = (s', inr a) <-> m s = (s', inr a).
Proof.
  unfold on_error, mbind, M_bind, mret, M_ret. destruct (m s) as [s1 [e|a']]; [done|].
  split; by intros [= -> ->].
Qed.
Lemma echeck_None {S} (m k : M S err) s s' :
  echeck m k s = (s', None) <-> exists s1, m s = (s1, None) /\ k s1 = (s', None).
Proof. unfold echeck, mbind, M_bind. destruct (m s) as [s1 [e|]]; [|naive_solver]. split; [done|]. naive_solver. Qed.
Lemma wrap_err_None {S} (m : M S err) f s s' : wrap_err m f s = (s', None) <-> m s = (s', None).
Proof.
  unfold wrap_err, mbind, M_bind, mret, M_ret. destruct (m s) as [s1 [e|]]; cbn; [done|].
  split; by intros [= ->].
Qed.

(** Take apart the hypothesis [H] that a fallible computation succeeded: the
    first part becomes [H1], and [H] is about the rest. *)
Ltac estrip H := repeat first [rewrite on_error_inr in H | rewrite wrap_err_None in H].
Ltac einv H H1 :=
  estrip H; first
    [ apply ebind_inr in H; destruct H as (? & ? & H1 & H)
    | apply echeck_None in H; destruct H as (? & H1 & H) ]; estrip H1; estrip H.

Lemma list_filter_nil_iff {A} (P : A -> Prop) `{forall x, Decision (P x)} (l : list A) :
  filter P l = [] <-> Forall (fun x => ~ P x) l.
Proof.
  induction l as [|x l IH]; [done|]. rewrite filter_cons, Forall_cons, <- IH.
  case_decide; naive_solver.
Qed.

(** Filters that agree on the elements of the list. *)
Lemma list_filter_ext {A} (P Q : A -> Prop) `{forall x, Decision (P x), forall x, Decision (Q x)} (l : list A) :
  (forall x, x ∈ l -> P x <-> Q x) -> filter P l = filter Q l.
Proof.
  induction l as [|x l IH]; intros Hl; [done|]. rewrite !filter_cons, IH by set_solver.
  pose proof (Hl x ltac:(set_solver)). repeat case_decide; naive_solver.
Qed.

Lemma list_filter_all {A} (P : A -> Prop) `{forall x, Decision (P x)} (l : list A) :
  (forall x, x ∈ l -> P x) -> filter P l = l.
Proof.
  induction l as [|x l IH]; intros Hl; [done|]. rewrite filter_cons_True by set_solver.
  f_equal. apply IH. set_solver.
Qed.

(** A row of a list of rows that grows or shrinks. *)
Lemma concat_insert_app {A} (l : list (list A)) i x y : l !! i = Some x -> concat (<[i := x ++ y]> l) ≡ₚ concat l ++ y.
Proof.
  revert i. induction l as [|r l IH]; intros [|i] Hi; simplify_eq/=.
  - rewrite <- !app_assoc. by rewrite (Permutation_app_comm y).
  - by rewrite (IH i Hi), app_assoc.
Qed.
Lemma concat_insert_rest {A} (l : list (list A)) i l1 l2 : l !! i = Some (l1 ++ l2) ->
  concat l ≡ₚ l1 ++ concat (<[i := l2]> l).
Proof.
  revert i. induction l as [|r l IH]; intros [|i] Hi; simplify_eq/=.
  - by rewrite app_assoc.
  - rewrite (IH i Hi). rewrite !app_assoc. by rewrite (Permutation_app_comm r l1).
Qed.

(** The byte order on strings is a total order. *)
#[global] Instance string_le_total : Total string_le.
Proof. intros a b. unfold string_le. rewrite !Is_true_true. apply String.leb_total. Qed.
#[global] Instance string_le_antisymm : AntiSymm (=) string_le.
Proof. intros a b. unfold string_le. rewrite !Is_true_true. apply String.leb_antisym. Qed.
#[global] Instance string_le_trans : Transitive string_le.
Proof.
  unfold string_le, String.leb. intros a b c. rewrite !Is_true_true. revert b c.
  induction a as [|x a IH]; intros [|y b] [|z c]; cbn; try done.
  unfold Ascii.compare. specialize (IH b c).
  destruct (N.compare_spec (Ascii.N_of_ascii x) (Ascii.N_of_ascii y)),
    (N.compare_spec (Ascii.N_of_ascii y) (Ascii.N_of_ascii z)),
    (N.compare_spec (Ascii.N_of_ascii x) (Ascii.N_of_ascii z)); try done; try lia; apply IH.
Qed.

(** Sorting is determined by the elements. *)
Lemma sort_Strings_sorted l : StronglySorted string_le (sort_Strings l).
Proof. apply StronglySorted_merge_sort; apply _. Qed.
Lemma sort_Strings_perm l : sort_Strings l ≡ₚ l.
Proof. apply merge_sort_Permutation. Qed.
Lemma sort_Strings_unique l k : StronglySorted string_le k -> k ≡ₚ l -> sort_Strings l = k.
Proof.
  intros Hs Hp. apply (StronglySorted_unique string_le); [apply sort_Strings_sorted|done|].
  by rewrite sort_Strings_perm.
Qed.

Lemma append_inj p a b : p +:+ a = p +:+ b -> a = b.
Proof. induction p as [|x p IH]; cbn; [done|]. intros [= Heq]. by apply IH. Qed.

(** A separator that does not occur in the first part splits a string. *)
Lemma join_char_inj c a1 b1 a2 b2 : has_char c a1 = false -> has_char c a2 = false ->
  a1 +:+ String c b1 = a2 +:+ String c b2 -> a1 = a2 /\ b1 = b2.
Proof.
  revert a2. induction a1 as [|x a1 IH]; intros [|y a2]; cbn; intros H1 H2 Heq; simplify_eq/=; try done.
  1, 2: by rewrite Ascii.eqb_refl in *.
  apply orb_false_iff in H1 as [_ H1], H2 as [_ H2]. by destruct (IH a2 H1 H2) as [-> ->].
Qed.

(** Whatever the order of the range, assigning all entries is a union. *)
Lemma assignAll_union `{MapRangeLaws} new m : assignAll new m = new ∪ m.
Proof.
  unfold assignAll. assert (range_map new ≡ₚ map_to_list new) as Hp by apply range_map_perm.
  assert (NoDup (range_map new).*1) as Hnd by (rewrite Hp; apply NoDup_fst_map_to_list).
  assert (forall l m, NoDup l.*1 -> foldl (fun m '(k, v) => <[k := v]> m) m l = list_to_map (M := gmap string string) l ∪ m) as Hl.
  { clear. induction l as [|[k v] l IH]; intros m Hnd; cbn; [by rewrite (left_id_L ∅ (∪))|].
    apply NoDup_cons in Hnd as [Hk Hnd]. rewrite IH by done. apply map_eq. intros i.
    destruct (decide (i = k)) as [->|Hne].
    - rewrite lookup_union, (not_elem_of_list_to_map_1 _ _ Hk), lookup_insert_eq, (left_id None _).
      by rewrite lookup_union, !lookup_insert_eq, union_Some_l.
    - by rewrite !lookup_union, !lookup_insert_ne. }
  rewrite Hl by done. f_equal. rewrite (list_to_map_proper _ _ Hnd Hp). apply list_to_map_to_list.
Qed.

Lemma contains_spec l s : contains l s = true <-> s ∈ l.
Proof.
  unfold contains. rewrite existsb_exists. setoid_rewrite bool_decide_eq_true.
  setoid_rewrite <- list_elem_of_In. naive_solver.
Qed.

Lemma contains_false l s : contains l s = false <-> s ∉ l.
Proof. rewrite <- contains_spec. destruct (contains l s); naive_solver. Qed.

#[global] Instance RefErrors_laws : ErrorLibLaws (H := RefErrors.lib).
Proof.
  split; [| |done|done].
  - intros es; cbn; unfold RefErrors.new_aggregate. induction es as [|[e|] es IH]; cbn.
    + by split.
    + split; [done|]. by inversion 1.
    + destruct (omap id es); split; intros H; inversion H; subst.
      * constructor; [done|]. by apply IH.
      * done.
      * by apply IH.
  - intros es e t; cbn; unfold RefErrors.new_aggregate. intros H.
    assert (e = extError "aggregate" "" (omap id es)) as ->.
    { destruct (omap id es); by inversion H. }
    cbn. clear H. induction es as [|[x|] es IH]; cbn; [done| |done]. by rewrite IH.
Qed.

Section aggregate_lemmas.
Context `{ErrorLibLaws}.

Lemma NewAggregate_Some es e : Some e ∈ es -> is_Some (NewAggregate es).
Proof.
  intros Hin. apply not_eq_None_Some. rewrite NewAggregate_None, Forall_forall.
  intros Hall. by specialize (Hall _ Hin).
Qed.

Lemma NewAggregate_pair e1 e2 :
  NewAggregate [e1; e2] = None <-> e1 = None /\ e2 = None.
Proof. rewrite NewAggregate_None, !Forall_cons, Forall_nil. naive_solver. Qed.

Lemma NewAggregate_pair_Is e1 e2 t :
  err_Is (NewAggregate [e1; e2]) t = err_Is e1 t || err_Is e2 t.
Proof.
  destruct (NewAggregate [e1; e2]) as [e|] eqn:E.
  - cbn. rewrite (NewAggregate_Is _ _ t E). cbn. by rewrite orb_false_r.
  - apply NewAggregate_pair in E as [-> ->]. done.
Qed.
End aggregate_lemmas.

(** Appending to the log commutes with the rest of the run; the log only grows. *)
Definition log_grows {W C A} (m : M (World W C) A) : Prop :=
  forall w, exists l, wlog (fst (m w)) = wlog w ++ l.

Lemma log_grows_ret {W C A} (a : A) : log_grows (W:=W) (C:=C) (mret a).
Proof. intros w. exists []. cbn. by rewrite app_nil_r. Qed.

Lemma log_grows_logged {W C A} (c : C) (m : M W A) : log_grows (logged c m).
Proof. intros w. exists [c]. unfold logged. by destruct (m (wst w)). Qed.

Lemma log_grows_bind {W C A B} (m : M (World W C) A) (k : A -> M (World W C) B) :
  log_grows m -> (forall a, log_grows (k a)) -> log_grows (m ≫= k).
Proof.
  intros Hm Hk w. destruct (Hm w) as [l Hl]. unfold mbind, M_bind.
  destruct (m w) as [w' a]; cbn in *. destruct (Hk a w') as [l' Hl'].
  exists (l ++ l'). by rewrite Hl', Hl, app_assoc.
Qed.
#[export] Hint Resolve log_grows_ret log_grows_logged log_grows_bind : toolkit.

(** * Reasoning about the calls a computation makes *)

(** [behaves m s P]: from the environment [s] and any log, [m] appends some calls
    [l] to the log, returns [a] and leaves the environment [t] with [P l a t].  One
    rule per way to build a computation. *)
Definition behaves {W C A} (m : M (World W C) A) (s : W) (P : list C -> A -> W -> Prop) : Prop :=
  forall lg, exists l, wlog (fst (m (mkWorld s lg))) = lg ++ l /\ P l (snd (m (mkWorld s lg))) (wst (fst (m (mkWorld s lg)))).

Lemma behaves_ret {W C A} (a : A) (s : W) (P : list C -> A -> W -> Prop) : P [] a s -> behaves (mret a) s P.
Proof. intros HP lg. exists []. cbn. by rewrite app_nil_r. Qed.

Lemma behaves_bind {W C A B} (m : M (World W C) A) (k : A -> M (World W C) B) s Q P :
  behaves m s Q -> (forall l a t, Q l a t -> behaves (k a) t (fun l' b u => P (l ++ l') b u)) -> behaves (m ≫= k) s P.
Proof.
  intros Hm Hk lg. destruct (Hm lg) as (l & Hl & HQ). unfold mbind, M_bind.
  destruct (m (mkWorld s lg)) as [[t lg'] a]; cbn in *. destruct (Hk l a t HQ lg') as (l' & Hl' & HP).
  exists (l ++ l'). split; [|done]. rewrite Hl'. subst lg'. by rewrite app_assoc.
Qed.

Lemma behaves_weaken {W C A} (m : M (World W C) A) s (P Q : list C -> A -> W -> Prop) :
  behaves m s P -> (forall l a t, P l a t -> Q l a t) -> behaves m s Q.
Proof. intros Hm HPQ lg. destruct (Hm lg) as (l & Hl & HP). eauto. Qed.

(** A logged call followed by a continuation. *)
Lemma behaves_call {W C A B} (c : C) (m : M W A) (k : A -> M (World W C) B) s P :
  (forall t a, m s = (t, a) -> behaves (k a) t (fun l b u => P (c :: l) b u)) -> behaves (logged c m ≫= k) s P.
Proof.
  intros Hk. eapply (behaves_bind _ _ _ (fun l a t => l = [c] /\ m s = (t, a))).
  - intros lg. exists [c]. unfold logged. cbn. by destruct (m s).
  - intros l a t (-> & Hm). by apply Hk.
Qed.

(** Step through a computation that is a sequence of logged calls. *)
Ltac call_step := first [apply behaves_ret | apply behaves_call; intros ? ? ?].
