(* ===== verification/Operand.v ===== *)
(** The operand package: [operator/v1/operand/operand.go] and [order.go].

    An [Operand] is a unit of work.  Its methods act on the world through the
    interfaces they call; every call is logged.  [OperandOrder] is the list of
    execution steps, each a list of operands that may run concurrently. *)
From S2P Require Import Prelude.

(** ** Operands *)

(** [type RequeueStrategy int] and its two constants. *)
Definition RequeueStrategy := Z.
Definition RequeueOnError : RequeueStrategy := 0%Z.
Definition RequeueAlways : RequeueStrategy := 1%Z.

(** [var ErrNotReady = errors.New("operand not ready")]. *)
Definition ErrNotReady_name : string := "operand.ErrNotReady".
Definition ErrNotReady : error := sentinel ErrNotReady_name.

(** The calls the operator makes on operands, with what it gives them, and on the
    event recorder. *)
Inductive OpCall (Obj Ref : Type) :=
| CEnsure (name : string) (obj : Obj) (ownerRef : Ref)
| CReadyCheck (name : string) (obj : Obj)
| CPostReady (name : string) (obj : Obj)
| CDelete (name : string) (obj : Obj)
| CRecord.
Arguments CEnsure {Obj Ref}. Arguments CReadyCheck {Obj Ref}. Arguments CPostReady {Obj Ref}.
Arguments CDelete {Obj Ref}. Arguments CRecord {Obj Ref}.

(** [type Operand interface].  [W] is the state of the world, [Obj] the type of
    [client.Object], [Ref] of [metav1.OwnerReference], [Ev] of
    [eventv1.ReconcilerEvent].  [Name], [Requires] and [RequeueStrategy] are
    getters; the others act on the world. *)
Record Operand (W Obj Ref Ev : Type) := mkOperand {
  Name : string;
  Requires : list string;
  Ensure : Obj -> Ref -> M W (option Ev * err);
  Delete : Obj -> M W (option Ev * err);
  GetRequeueStrategy : RequeueStrategy;
  ReadyCheck : Obj -> M W (bool * err);
  PostReady : Obj -> M W err;
}.
Arguments mkOperand {W Obj Ref Ev}.
Arguments Name {W Obj Ref Ev}.
Arguments Requires {W Obj Ref Ev}.
Arguments Ensure {W Obj Ref Ev}.
Arguments Delete {W Obj Ref Ev}.
Arguments GetRequeueStrategy {W Obj Ref Ev}.
Arguments ReadyCheck {W Obj Ref Ev}.
Arguments PostReady {W Obj Ref Ev}.

Section operand.
Context {W Obj Ref Ev : Type}.
Local Abbreviation Op := (Operand W Obj Ref Ev).
Local Abbreviation St := (World W (OpCall Obj Ref)).

(** What an operand call returns: an event and an error, either may be nil. *)
Local Abbreviation Out := (option Ev * err)%type.

(** [type OperandRunCall]: the code an executor runs for an operand. *)
Definition OperandRunCall := Op -> Obj -> Ref -> proc St Out.

(** [CallEnsure]: Ensure, then ReadyCheck, then PostReady, stopping at the first
    failure; a failing readiness check is an error that wraps [ErrNotReady]. *)
Definition CallEnsure : OperandRunCall := fun op obj ownerRef =>
  call (logged (CEnsure (Name op) obj ownerRef) (Ensure op obj ownerRef)) (fun '(event, e) =>
  match e with
  | Some _ => Ret (None, e)
  | None =>
    call (logged (CReadyCheck (Name op) obj) (ReadyCheck op obj)) (fun '(ready, readyErr) =>
    match readyErr with
    | Some _ => Ret (None, readyErr)
    | None =>
      if negb ready then
        Ret (None, Some (errorf_w
          "operand %q readiness check failed: not in the desired state yet: %w"
          [Name op] ErrNotReady))
      else
        call (logged (CPostReady (Name op) obj) (PostReady op obj)) (fun e =>
        match e with
        | Some _ => Ret (None, e)
        | None => Ret (event, None)
        end)
    end)
  end).

(** [CallCleanup]: Delete, ignoring the owner reference. *)
Definition CallCleanup : OperandRunCall := fun op obj _ =>
  call (logged (CDelete (Name op) obj) (Delete op obj)) (fun '(event, e) => Ret (event, e)).

(** ** Execution order *)

(** [type OperandOrder [][]Operand]. *)
Definition OperandOrder := list (list Op).

Definition newline : string := String (Ascii.ascii_of_nat 10) "".

(** [strings.Join(items, " ")]. *)
Definition strings_Join (sep : string) (items : list string) : string :=
  String.concat sep items.

(** The line of step [i] in [OperandOrder.String]. *)
Definition step_line (i : nat) (s : list Op) : string :=
  let items := sort_Strings (Name <$> s) in
  let itemsStr := strings_Join " " items in
  "  " +:+ pretty i +:+ ": [ " +:+ itemsStr +:+ " ]" +:+ newline.

(** [OperandOrder.String]. *)
Definition OperandOrder_String (o : list (list Op)) : string :=
  "[" +:+ newline +:+ foldr String.append "" (imap step_line o) +:+ "]".

(** The loop of [OperandOrder.Reverse]: [r[left], r[right] = o[right], o[left]]
    while [left < right].  The fuel bounds the number of iterations. *)
Fixpoint Reverse_loop (fuel : nat) (left right : Z) (o r : list (list Op)) : list (list Op) :=
  match fuel with
  | O => r
  | S fuel =>
    if (left <? right)%Z then
      let ol := o !!! Z.to_nat left in
      let or := o !!! Z.to_nat right in
      Reverse_loop fuel (left + 1) (right - 1) o
        (<[Z.to_nat right := ol]> (<[Z.to_nat left := or]> r))
    else r
  end.

(** [OperandOrder.Reverse]; [make(OperandOrder, len(o))] is a slice of nil steps. *)
Definition Reverse (o : list (list Op)) : list (list Op) :=
  Reverse_loop (length o) 0 (Z.of_nat (length o) - 1) o (replicate (length o) []).

(** [StepRequeueStrategy]: RequeueAlways when some operand of the step has it. *)
Fixpoint StepRequeueStrategy (step : list Op) : RequeueStrategy :=
  match step with
  | [] => RequeueOnError
  | o :: step =>
    if (GetRequeueStrategy o =? RequeueAlways)%Z then RequeueAlways
    else StepRequeueStrategy step
  end.

(** ** Properties *)

Lemma Reverse_loop_length fuel l r o acc : length (Reverse_loop fuel l r o acc) = length acc.
Proof.
  revert l r acc. induction fuel as [|fuel IH]; intros l r acc; cbn; [done|].
  case_match; [|done]. by rewrite IH, !length_insert.
Qed.

(** The loop invariant: with [k] steps swapped at both ends, position [i]
    already holds its mirror image when [i] is outside the middle window. *)
Lemma Reverse_loop_lookup fuel (k : nat) (o acc : list (list Op)) i :
  length acc = length o -> length o <= 2 * (k + fuel) ->
  (i < length o) ->
  Reverse_loop fuel (Z.of_nat k) (Z.of_nat (length o) - 1 - Z.of_nat k) o acc !! i =
  if decide ((k <= i /\ i + k < length o) /\ 2 * i + 1 <> length o)
  then o !! (length o - 1 - i) else acc !! i.
Proof.
  revert k acc. induction fuel as [|fuel IH]; intros k acc Hl Hf Hi; cbn [Reverse_loop].
  - rewrite decide_False; [done|]. lia.
  - destruct (Z.ltb_spec (Z.of_nat k) (Z.of_nat (length o) - 1 - Z.of_nat k)).
    + replace (Z.of_nat k + 1)%Z with (Z.of_nat (S k)) by lia.
      replace (Z.of_nat (length o) - 1 - Z.of_nat k - 1)%Z
        with (Z.of_nat (length o) - 1 - Z.of_nat (S k))%Z by lia.
      rewrite IH; [|by rewrite !length_insert|lia|done].
      replace (Z.to_nat (Z.of_nat (length o) - 1 - Z.of_nat k)) with (length o - 1 - k) by lia.
      rewrite Nat2Z.id.
      assert (forall j, j < length o -> o !! j = Some (o !!! j)) as Htot
        by (intros j Hj; by apply list_lookup_lookup_total_lt).
      destruct (decide (i = length o - 1 - k)) as [->|Hne1].
      { rewrite decide_False by lia. rewrite decide_True by lia.
        rewrite list_lookup_insert_eq by (rewrite length_insert; lia).
        rewrite Htot by lia. do 2 f_equal. lia. }
      rewrite list_lookup_insert_ne by done.
      destruct (decide (i = k)) as [->|Hne2].
      { rewrite decide_False by lia. rewrite decide_True by lia.
        rewrite list_lookup_insert_eq by lia. by rewrite Htot by lia. }
      rewrite list_lookup_insert_ne by done.
      destruct (decide ((S k <= i /\ i + S k < length o) /\ 2 * i + 1 <> length o)).
      * rewrite decide_True by lia. done.
      * rewrite decide_False by lia. done.
    + rewrite decide_False; [done|]. lia.
Qed.

Lemma Reverse_mirror (o : list (list Op)) i :
  i < length o ->
  Reverse o !! i = if decide (2 * i + 1 = length o) then Some [] else o !! (length o - 1 - i).
Proof.
  intros Hi. unfold Reverse.
  replace (Z.of_nat (length o) - 1)%Z with (Z.of_nat (length o) - 1 - Z.of_nat 0)%Z by lia.
  change 0%Z with (Z.of_nat 0) at 1.
  rewrite Reverse_loop_lookup; [|by rewrite length_replicate|lia|done].
  destruct (decide (2 * i + 1 = length o)).
  - rewrite decide_False by lia. by apply lookup_replicate_2.
  - rewrite decide_True by lia. done.
Qed.

(** [Reverse] mirrors every step of the order except the middle one of an
    order with an odd number of steps, which it replaces by an empty step. *)
Theorem Reverse_lookup (o : list (list Op)) i :
  i < length o ->
  Reverse o !! i = if decide (2 * i + 1 = length o) then Some [] else o !! (length o - 1 - i).
Proof. apply Reverse_mirror. Qed.

Lemma Reverse_length o : length (Reverse o) = length o.
Proof. unfold Reverse. by rewrite Reverse_loop_length, length_replicate. Qed.

(** With an even number of steps, [Reverse] is list reversal. *)
Lemma Reverse_even (o : list (list Op)) n : length o = 2 * n -> Reverse o = reverse o.
Proof.
  intros Hn. apply list_eq. intros i. destruct (decide (i < length o)).
  - rewrite Reverse_mirror by done. rewrite decide_False by lia.
    rewrite reverse_lookup by done. f_equal. lia.
  - rewrite !lookup_ge_None_2; [done| |]; rewrite ?length_reverse, ?Reverse_length; lia.
Qed.

Lemma StepRequeueStrategy_always step :
  StepRequeueStrategy step = RequeueAlways <->
  exists o, o ∈ step /\ GetRequeueStrategy o = RequeueAlways.
Proof.
  induction step as [|o step IH]; cbn.
  - split; [done|]. intros (o & Ho & _). by apply elem_of_nil in Ho.
  - destruct (Z.eqb_spec (GetRequeueStrategy o) RequeueAlways).
    + split; [|done]. intros _. exists o. split; [|done]. apply elem_of_cons. by left.
    + rewrite IH. setoid_rewrite elem_of_cons. naive_solver.
Qed.

Lemma StepRequeueStrategy_cases step :
  StepRequeueStrategy step = RequeueAlways \/ StepRequeueStrategy step = RequeueOnError.
Proof. induction step as [|o step IH]; cbn; [by right|]. case_match; auto. Qed.
End operand.

(** Concrete operands for examples: the world is the list of what was done, and
    Ensure and Delete produce an event. *)
Module Demo.
Definition operand (name : string) (req : list string) : Operand (list string) unit unit string :=
  mkOperand name req
    (fun _ _ w => (w ++ ["ensure " +:+ name], (Some name, None)))
    (fun _ w => (w ++ ["delete " +:+ name], (Some name, None)))
    RequeueOnError
    (fun _ w => (w, (true, None)))
    (fun _ w => (w, None)).
(** The same operand, never ready. *)
Definition pending (name : string) (req : list string) : Operand (list string) unit unit string :=
  mkOperand name req
    (fun _ _ w => (w ++ ["ensure " +:+ name], (Some name, None)))
    (fun _ w => (w ++ ["delete " +:+ name], (Some name, None)))
    RequeueOnError
    (fun _ w => (w, (false, None)))
    (fun _ w => (w, None)).
Definition w0 : World (list string) (OpCall unit unit) := mkWorld [] [].
End Demo.

Lemma Reverse_lookup_witness :
  Reverse [[Demo.operand "a" []]; [Demo.operand "b" []]; [Demo.operand "c" []]] !! 2 =
  Some [Demo.operand "a" []].
Proof.
  refine (Reverse_lookup [[Demo.operand "a" []]; [Demo.operand "b" []]; [Demo.operand "c" []]] 2 _).
  cbn. lia.
Defined.
