(* ===== verification/Dag.v ===== *)
(** The operand graph: [operator/v1/dag/dag.go].

    The graph itself is the library [github.com/goombaio/dag], a parameter
    ([DAGLib]) with its documented behaviour ([DAGLaws]).  [NewOperandDAG] builds
    the graph of the operands and [Order] assigns every operand to a step. *)
From S2P Require Import Prelude Operand.

(** ** The graph library *)

(** [dag.Vertex]: an identifier and a value. *)
Record Vertex (A : Type) := mkVertex { ID : string; Value : A }.
Arguments mkVertex {A} ID Value.
Arguments ID {A} v.
Arguments Value {A} v.

(** The methods of [dag.DAG] the code calls; [AddVertex] and [AddEdge] change
    the graph. *)
Class DAGLib (A : Type) := {
  DAG : Type;
  NewDAG : DAG;
  AddVertex : Vertex A -> M DAG err;
  GetVertex : DAG -> string -> error + Vertex A;
  AddEdge : Vertex A -> Vertex A -> M DAG err;
  SourceVertices : DAG -> list (Vertex A);
  Predecessors : DAG -> Vertex A -> error + list (Vertex A);
  Successors : DAG -> Vertex A -> error + list (Vertex A);
}.

(** Paths of a list of edges. *)
Definition edgeR (E : list (string * string)) : relation string := fun u v => (u, v) ∈ E.
Definition acyclic (E : list (string * string)) : Prop := forall x, ~ tc (edgeR E) x x.

(** The vertices and edges a graph holds, and what the methods do to them.
    Nothing is said about adding a vertex with an identifier the graph has: the
    code does not check the names of the operands, so theorems ask for distinct
    ones.
    Adding an edge is only required to succeed when it is new, both ends are
    present and no cycle arises: whether the library accepts an edge that closes
    a cycle is left open. *)
Class DAGLaws (A : Type) `{DAGLib A} := {
  vertices : DAG -> list (Vertex A);
  edges : DAG -> list (string * string);
  NewDAG_vertices : vertices NewDAG = [];
  NewDAG_edges : edges NewDAG = [];
  AddVertex_ok : forall v g, ID v ∉ ID <$> vertices g -> snd (AddVertex v g) = None;
  AddVertex_vertices : forall v g, ID v ∉ ID <$> vertices g ->
    vertices (fst (AddVertex v g)) ≡ₚ v :: vertices g;
  AddVertex_edges : forall v g, edges (fst (AddVertex v g)) ≡ₚ edges g;
  GetVertex_spec : forall g id v, GetVertex g id = inr v -> v ∈ vertices g /\ ID v = id;
  GetVertex_ok : forall g id, id ∈ ID <$> vertices g -> exists v, GetVertex g id = inr v;
  AddEdge_ok : forall t h g, t ∈ vertices g -> h ∈ vertices g ->
    (ID t, ID h) ∉ edges g -> acyclic ((ID t, ID h) :: edges g) -> snd (AddEdge t h g) = None;
  AddEdge_vertices : forall t h g, vertices (fst (AddEdge t h g)) ≡ₚ vertices g;
  AddEdge_edges : forall t h g, snd (AddEdge t h g) = None ->
    (ID t, ID h) ∉ edges g /\ edges (fst (AddEdge t h g)) ≡ₚ (ID t, ID h) :: edges g;
  SourceVertices_spec : forall g v,
    v ∈ SourceVertices g <-> v ∈ vertices g /\ forall u, (u, ID v) ∉ edges g;
  Predecessors_spec : forall g v, v ∈ vertices g -> exists pp, Predecessors g v = inr pp /\
    forall u, u ∈ pp <-> u ∈ vertices g /\ (ID u, ID v) ∈ edges g;
  Successors_spec : forall g v, v ∈ vertices g -> exists ss, Successors g v = inr ss /\
    forall u, u ∈ ss <-> u ∈ vertices g /\ (ID v, ID u) ∈ edges g;
}.

(** ** The operand graph *)

Section dag.
Context {W Obj Ref Ev : Type}.
Local Abbreviation Op := (Operand W Obj Ref Ev).
Local Abbreviation Vx := (Vertex Op).
Context `{DAGLib Op}.

(** First loop of [NewOperandDAG]: a vertex for every operand. *)
Fixpoint addVertices (operands : list Op) (od : DAG) : error + DAG :=
  match operands with
  | [] => inr od
  | op :: operands =>
    let v := mkVertex (Name op) op in
    match AddVertex v od with
    | (_, Some e) => inl e
    | (od, None) => addVertices operands od
    end
  end.

(** Inner loop: connect an operand to everything it requires. *)
Fixpoint connect (headVertex : Vx) (deps : list string) (od : DAG) : error + DAG :=
  match deps with
  | [] => inr od
  | dep :: deps =>
    match GetVertex od dep with
    | inl e => inl e
    | inr tailVertex =>
      match AddEdge tailVertex headVertex od with
      | (_, Some e) => inl e
      | (od, None) => connect headVertex deps od
      end
    end
  end.

(** Second loop of [NewOperandDAG]: the edges. *)
Fixpoint addEdges (operands : list Op) (od : DAG) : error + DAG :=
  match operands with
  | [] => inr od
  | op :: operands =>
    match GetVertex od (Name op) with
    | inl e => inl e
    | inr headVertex =>
      match connect headVertex (Requires op) od with
      | inl e => inl e
      | inr od => addEdges operands od
      end
    end
  end.

(** [NewOperandDAG]. *)
Definition NewOperandDAG (operands : list Op) : error + DAG :=
  match addVertices operands NewDAG with
  | inl e => inl e
  | inr od => addEdges operands od
  end.

(** [vertexExists]. *)
Definition vertexExists (vs : list Vx) (target : Vx) : bool :=
  existsb (fun v => bool_decide (ID v = ID target)) vs.

(** The loop of [addSuccessorsToNewRoots]. *)
Definition appendMissing (ss newRoots : list Vx) : list Vx :=
  foldl (fun nr s => if vertexExists nr s then nr else nr ++ [s]) newRoots ss.

(** [addSuccessorsToNewRoots]. *)
Definition addSuccessorsToNewRoots (od : DAG) (v : Vx) (newRoots : list Vx) : error + list Vx :=
  match Successors od v with
  | inl e => inl e
  | inr ss => inr (appendMissing ss newRoots)
  end.

(** One iteration of the loop of [solveStep], for the current root [c]. *)
Definition visit (od : DAG) (step : nat) (c : Vx) (newRoots : list Vx) (order : gmap string nat)
  : error + (list Vx * gmap string nat) :=
  match order !! ID c with
  | None =>
    match Predecessors od c with
    | inl perr => inl perr
    | inr pp =>
      if bool_decide (length pp = 0) then
        let order := <[ID c := step]> order in
        match addSuccessorsToNewRoots od c newRoots with
        | inl serr => inl serr
        | inr newRoots => inr (newRoots, order)
        end
      else
        let satisfied := forallb (fun p => bool_decide (is_Some (order !! ID p))) pp in
        let order := if satisfied then <[ID c := step]> order else order in
        match addSuccessorsToNewRoots od c newRoots with
        | inl serr => inl serr
        | inr newRoots => inr (newRoots, order)
        end
    end
  | Some _ =>
    match addSuccessorsToNewRoots od c newRoots with
    | inl serr => inl serr
    | inr newRoots => inr (newRoots, order)
    end
  end.

Fixpoint solveStep_loop (od : DAG) (step : nat) (currentRoots newRoots : list Vx)
  (order : gmap string nat) : error + (list Vx * gmap string nat) :=
  match currentRoots with
  | [] => inr (newRoots, order)
  | c :: currentRoots =>
    match visit od step c newRoots order with
    | inl e => inl e
    | inr (newRoots, order) => solveStep_loop od step currentRoots newRoots order
    end
  end.

(** [solveStep]: the new roots, and the order it updates in place. *)
Definition solveStep (od : DAG) (step : nat) (currentRoots : list Vx) (order : gmap string nat)
  : error + (list Vx * gmap string nat) :=
  solveStep_loop od step currentRoots [] order.

(** The loop of [solve]: [for len(newRoots) > 0]. *)
Fixpoint solve_loop (fuel : nat) (od : DAG) (step : nat) (newRoots : list Vx)
  (order : gmap string nat) : outcome (gmap string nat * nat * err) :=
  match newRoots with
  | [] => Done (order, step, None)
  | _ :: _ =>
    match fuel with
    | O => OutOfFuel
    | S fuel =>
      match solveStep od step newRoots order with
      | inl e => Done (∅, step, Some e)
      | inr (newRoots, order) => solve_loop fuel od (S step) newRoots order
      end
    end
  end.

(** [solve]: the step of every vertex and the number of steps. *)
Definition solve (fuel : nat) (od : DAG) : outcome (gmap string nat * nat * err) :=
  solve_loop fuel od 0 (SourceVertices od) ∅.

Context `{MapRange}.

(** The loop of [Order] over the solution map. *)
Fixpoint fill (od : DAG) (soln : list (string * nat)) (result : list (list Op))
  : outcome (list (list Op) * err) :=
  match soln with
  | [] => Done (result, None)
  | (name, step) :: soln =>
    match GetVertex od name with
    | inl verr => Done (result, Some verr)
    | inr v =>
      match result !! step with
      | None => Panic "index out of range"
      | Some row => fill od soln (<[step := row ++ [Value v]]> result)
      end
    end
  end.

(** [OperandDAG.Order]. *)
Definition Order (fuel : nat) (od : DAG) : outcome (list (list Op) * err) :=
  match solve fuel od with
  | OutOfFuel => OutOfFuel
  | Panic m => Panic m
  | Done (soln, steps, Some e) => Done ([], Some e)
  | Done (soln, steps, None) => fill od (range_map soln) (replicate steps [])
  end.
End dag.

(** ** Levels of a finite graph *)

(** [reach k x]: [x] is the end of a walk of exactly [k] edges from a source.
    The roots of step [k] of [solve] are exactly the vertices at level [k]. *)
Section levels.
Context (ids : list string) (E : list (string * string)).

Definition source (x : string) : Prop := x ∈ ids /\ Forall (fun e => e.2 <> x) E.

Fixpoint reach (k : nat) (x : string) : Prop :=
  match k with
  | O => source x
  | S k => Exists (fun e => e.2 = x /\ reach k e.1) E
  end.

#[export] Instance reach_dec k x : Decision (reach k x).
Proof. revert x. induction k as [|k IH]; intros x; cbn; apply _. Defined.

Lemma reach_S k x : reach (S k) x <-> exists p, edgeR E p x /\ reach k p.
Proof.
  cbn. rewrite Exists_exists. unfold edgeR. split.
  - intros ([u v] & Hin & <- & Hr). by exists u.
  - intros (p & Hin & Hr). by exists (p, x).
Qed.

Lemma source_alt x : source x <-> x ∈ ids /\ forall u, (u, x) ∉ E.
Proof.
  unfold source. rewrite Forall_forall. split; intros [Hx Hs]; split; try done.
  - intros u Hin. by apply (Hs _ Hin).
  - intros [u v] Hin Hv. cbn in Hv; subst. by apply (Hs u).
Qed.

Context (Hends : forall u v, (u, v) ∈ E -> u ∈ ids /\ v ∈ ids).

Lemma reach_ids k x : reach k x -> x ∈ ids.
Proof.
  destruct k; [by intros []|]. rewrite reach_S. intros (p & He & _). by apply Hends in He as [].
Qed.

Lemma pred_or_source x : x ∈ ids -> source x \/ exists p, edgeR E p x.
Proof.
  intros Hx. destruct (decide (Forall (fun e => e.2 <> x) E)) as [|Hn]; [by left; split|].
  apply not_Forall_Exists in Hn; [|apply _]. apply Exists_exists in Hn as ([u v] & Hin & Hv).
  cbn in Hv. right. exists u. apply dec_stable in Hv. by subst.
Qed.

Context (Hacyc : acyclic E).

(** Walks of an acyclic graph do not repeat a vertex, so levels are bounded. *)
Lemma reach_path k x : reach k x ->
  exists l, length l = k /\ NoDup l /\ (forall y, y ∈ l -> y ∈ ids /\ tc (edgeR E) y x).
Proof.
  revert x. induction k as [|k IH]; intros x Hr.
  - exists []. split_and!; [done|constructor|]. intros y Hy. by apply elem_of_nil in Hy.
  - apply reach_S in Hr as (p & He & Hp). destruct (IH p Hp) as (l & Hl & Hnd & Hall).
    exists (p :: l). split_and!; [by cbn; f_equal| |].
    + constructor; [|done]. intros Hpl. by apply (Hacyc p), Hall.
    + intros y [->|Hy]%elem_of_cons; [by split; [apply Hends in He as []|apply tc_once]|].
      destruct (Hall y Hy). split; [done|]. by eapply tc_r.
Qed.

Lemma reach_bound k x : reach k x -> k < length ids.
Proof.
  intros Hr. destruct (reach_path k x Hr) as (l & <- & Hnd & Hall).
  assert (NoDup (x :: l)) as Hnd'.
  { constructor; [|done]. intros Hx. by apply (Hacyc x), Hall. }
  change (length (x :: l) <= length ids). apply submseteq_length, NoDup_submseteq; [done|].
  intros y [->|Hy]%elem_of_cons; [by eapply reach_ids|by apply Hall].
Qed.

(** Every vertex of an acyclic graph is on some level. *)
Lemma reach_total_aux j : forall x l, x ∈ ids -> NoDup l ->
  (forall y, y ∈ l -> y ∈ ids /\ tc (edgeR E) x y) -> length l + j = length ids ->
  exists k, reach k x.
Proof.
  induction j as [|j IH]; intros x l Hx Hnd Hall Hlen.
  - exfalso. assert (length (x :: l) <= length ids); [|cbn in *; lia].
    apply submseteq_length, NoDup_submseteq.
    + constructor; [|done]. intros Hin. by apply (Hacyc x), Hall.
    + intros y [->|Hy]%elem_of_cons; [done|by apply Hall].
  - destruct (pred_or_source x Hx) as [Hs|[p He]]; [by exists 0|].
    destruct (IH p (x :: l)) as [k Hk].
    + by apply Hends in He as [].
    + constructor; [|done]. intros Hin. by apply (Hacyc x), Hall.
    + intros y [->|Hy]%elem_of_cons; [by split; [|apply tc_once]|].
      destruct (Hall y Hy). split; [done|]. by eapply tc_l.
    + cbn. lia.
    + exists (S k). apply reach_S. by exists p.
Qed.

Lemma reach_total x : x ∈ ids -> exists k, reach k x.
Proof.
  intros Hx. apply (reach_total_aux (length ids) x []); [done|constructor| |done].
  intros y Hy. by apply elem_of_nil in Hy.
Qed.

(** Hence every vertex has a last level. *)
Definition last_level (K : nat) (x : string) : Prop :=
  reach K x /\ forall j, K < j -> ~ reach j x.

Lemma last_level_below n k x :
  (forall j, n <= j -> ~ reach j x) -> reach k x -> exists K, last_level K x.
Proof.
  induction n as [|n IH]; intros Hn Hr; [by destruct (Hn k); [lia|]|].
  destruct (decide (reach n x)) as [Hrn|Hrn]; [by exists n|].
  apply IH; [|done]. intros j Hj. destruct (decide (j = n)) as [->|]; [done|]. apply Hn. lia.
Qed.

Lemma last_level_total x : x ∈ ids -> exists K, last_level K x.
Proof.
  intros Hx. destruct (reach_total x Hx) as [k Hk].
  apply (last_level_below (length ids) k x); [|done].
  intros j Hj Hr. apply reach_bound in Hr. lia.
Qed.

Lemma last_level_pred K K' p x :
  last_level K x -> last_level K' p -> edgeR E p x -> K' < K.
Proof.
  intros [_ Hx] [Hp _] He. destruct (decide (K' < K)); [done|].
  destruct (Hx (S K')); [lia|]. apply reach_S. by exists p.
Qed.
End levels.

(** A cycle below a source puts vertices on every level. *)
Section cycles.
Context (ids : list string) (E : list (string * string)).

Lemma reach_walk x y k : reach ids E k x -> rtc (edgeR E) x y -> exists j, k <= j /\ reach ids E j y.
Proof.
  intros Hk Hxy. revert k Hk. induction Hxy as [|x z y He Hzy IH]; intros k Hk; [by exists k|].
  destruct (IH (S k)) as (j & Hj & Hr).
  - apply reach_S. by exists x.
  - exists j. split; [lia|done].
Qed.

Lemma reach_cycle c n k : reach ids E k c -> tc (edgeR E) c c -> exists j, n <= j /\ reach ids E j c.
Proof.
  intros Hk Hc. induction n as [|n (j & Hj & Hr)]; [exists k; split; [lia|done]|].
  inversion Hc as [? ? He|? z ? He Hz]; subst.
  - exists (S j). split; [lia|]. apply reach_S. by exists c.
  - destruct (reach_walk z c (S j)) as (i & Hi & Hri).
    + apply reach_S. by exists c.
    + by apply tc_rtc.
    + exists i. split; [lia|done].
Qed.

Lemma reach_down k x : reach ids E k x -> forall j, j <= k -> exists y, reach ids E j y.
Proof.
  revert x. induction k as [|k IH]; intros x Hr j Hj.
  - exists x. by replace j with 0 by lia.
  - destruct (decide (j = S k)) as [->|]; [by exists x|].
    apply reach_S in Hr as (p & _ & Hp). apply (IH p Hp). lia.
Qed.

Lemma reach_cycle_levels s c k :
  source ids E s -> rtc (edgeR E) s c -> tc (edgeR E) c c -> exists y, reach ids E k y.
Proof.
  intros Hs Hsc Hc. destruct (reach_walk s c 0 Hs Hsc) as (i & _ & Hi).
  destruct (reach_cycle c k i Hi Hc) as (j & Hj & Hr). by eapply reach_down.
Qed.
End cycles.

(** ** Correctness of [solveStep], [solve] and [Order] *)

Section solve_facts.
Context {W Obj Ref Ev : Type}.
Local Abbreviation Op := (Operand W Obj Ref Ev).
Local Abbreviation Vx := (Vertex Op).
Context `{DAGLaws Op}.
Context (g : DAG).
Local Abbreviation V := (vertices g).
Local Abbreviation ids := (ID <$> vertices g).
Local Abbreviation E := (edges g).

(** A well-formed graph: identifiers are unique and edges join vertices. *)
Definition wf_dag (g : DAG) : Prop :=
  NoDup (ID <$> vertices g) /\
  forall u v, (u, v) ∈ edges g -> u ∈ ID <$> vertices g /\ v ∈ ID <$> vertices g.

Context (Hwf : wf_dag g).

Lemma ID_inj u v : u ∈ V -> v ∈ V -> ID u = ID v -> u = v.
Proof.
  destruct Hwf as [Hnd _]. intros Hu Hv Heq.
  apply list_elem_of_lookup in Hu as [i Hi], Hv as [j Hj].
  assert (i = j) as <-; [|congruence].
  eapply NoDup_lookup; [exact Hnd| |]; rewrite list_lookup_fmap; [by rewrite Hi|].
  by rewrite Hj, Heq.
Qed.

Lemma ids_vertex x : x ∈ ids -> exists v, v ∈ V /\ ID v = x.
Proof. intros (v & -> & Hv)%list_elem_of_fmap. by exists v. Qed.

Lemma vertexExists_spec nr t :
  (forall x, x ∈ nr -> x ∈ V) -> t ∈ V -> vertexExists nr t = true <-> t ∈ nr.
Proof.
  intros Hnr Ht. unfold vertexExists. rewrite existsb_exists. split.
  - intros (x & Hx%list_elem_of_In & Heq%bool_decide_eq_true).
    by rewrite <- (ID_inj x t (Hnr x Hx) Ht Heq).
  - intros Hin. exists t. rewrite <- list_elem_of_In. by rewrite bool_decide_true.
Qed.

Lemma appendMissing_spec ss nr :
  (forall x, x ∈ nr -> x ∈ V) -> (forall x, x ∈ ss -> x ∈ V) ->
  forall x, x ∈ appendMissing ss nr <-> x ∈ nr \/ x ∈ ss.
Proof.
  revert nr. induction ss as [|s ss IH]; intros nr Hnr Hss x.
  - cbn. rewrite elem_of_nil. naive_solver.
  - change (appendMissing (s :: ss) nr)
      with (appendMissing ss (if vertexExists nr s then nr else nr ++ [s])).
    assert (s ∈ V) as HsV by (apply Hss; by left).
    rewrite IH.
    + rewrite elem_of_cons. destruct (vertexExists nr s) eqn:Ev1.
      * apply vertexExists_spec in Ev1; naive_solver.
      * rewrite elem_of_app, list_elem_of_singleton. naive_solver.
    + case_match; [done|]. intros y Hy. apply elem_of_app in Hy as [Hy|Hy]; [auto|]. apply list_elem_of_singleton in Hy. by subst.
    + intros y Hy. apply Hss. by right.
Qed.

(** What one visit does: the successors are queued, and the vertex is placed
    exactly when it is not placed yet and all its predecessors are. *)
Lemma visit_spec step c nr order :
  (forall x, x ∈ nr -> x ∈ V) -> c ∈ V ->
  exists nr', visit g step c nr order =
      inr (nr', if decide (order !! ID c = None /\
                           Forall (fun e => e.2 = ID c -> is_Some (order !! e.1)) E)
                then <[ID c := step]> order else order) /\
    forall x, x ∈ nr' <-> x ∈ nr \/ (x ∈ V /\ (ID c, ID x) ∈ E).
Proof.
  intros Hnr Hc. destruct (Successors_spec g c Hc) as (ss & Hss & Hssin).
  exists (appendMissing ss nr). split.
  - unfold visit, addSuccessorsToNewRoots. rewrite Hss. destruct (order !! ID c) eqn:Ho.
    { rewrite decide_False; [done|]. by intros [? _]. }
    destruct (Predecessors_spec g c Hc) as (pp & -> & Hpp).
    assert (forall u, (u, ID c) ∈ E -> exists p, p ∈ pp /\ ID p = u) as Hpred.
    { intros u Hu. destruct (proj2 Hwf u (ID c) Hu) as [[v [Hv <-]]%ids_vertex _].
      exists v. split; [|done]. by apply Hpp. }
    assert (Forall (fun e => e.2 = ID c -> is_Some (order !! e.1)) E <->
            forallb (fun p => bool_decide (is_Some (order !! ID p))) pp = true) as Hsat.
    { rewrite forallb_forall, Forall_forall. split.
      - intros HE p Hp%list_elem_of_In. apply bool_decide_eq_true.
        apply Hpp in Hp as [_ Hp]. by apply (HE _ Hp).
      - intros Hall [u v] Hin Heq; cbn in *; subst. destruct (Hpred u Hin) as (p & Hp & <-).
        apply list_elem_of_In in Hp. by apply Hall, bool_decide_eq_true in Hp. }
    case_bool_decide as Hlen.
    + rewrite decide_True; [done|]. split; [done|]. apply Hsat.
      by apply nil_length_inv in Hlen as ->.
    + destruct (forallb _ pp) eqn:Hf; [rewrite decide_True|rewrite decide_False]; try done.
      * split; [done|]. by apply Hsat.
      * intros [_ Hbad%Hsat]. congruence.
  - intros x. rewrite appendMissing_spec; [|done|by intros y Hy; apply Hssin in Hy as []].
    by rewrite Hssin.
Qed.

(** What a pass over the current roots does to the order. *)
Record pass (step : nat) (cur : list Vx) (order order' : gmap string nat) : Prop := {
  pass_keeps : forall x s, order !! x = Some s -> order' !! x = Some s;
  pass_new : forall x s, order' !! x = Some s -> order !! x = Some s \/
    (s = step /\ (exists c, c ∈ cur /\ ID c = x) /\
     forall u, (u, x) ∈ E -> is_Some (order' !! u));
  pass_ready : forall c, c ∈ cur ->
    (forall u, (u, ID c) ∈ E -> is_Some (order !! u)) -> is_Some (order' !! ID c);
}.

Lemma pass_cons step c cur order order' :
  pass step cur
    (if decide (order !! ID c = None /\ Forall (fun e => e.2 = ID c -> is_Some (order !! e.1)) E)
     then <[ID c := step]> order else order) order' ->
  pass step (c :: cur) order order'.
Proof.
  intros [Hk Hn Hr]. case_decide as Hd.
  - destruct Hd as [Hnone Hsat]. rewrite Forall_forall in Hsat.
    assert (forall x s, order !! x = Some s -> order' !! x = Some s) as Hkeep.
    { intros x s Hx. apply Hk. rewrite lookup_insert_ne; [done|]. by intros <-; rewrite Hx in Hnone. }
    split; [done| |].
    + intros x s Hx. destruct (Hn x s Hx) as [Hin|(-> & (c' & Hc' & <-) & Hp)].
      * destruct (decide (x = ID c)) as [->|Hne]; [|rewrite lookup_insert_ne in Hin by done; by left].
        rewrite lookup_insert_eq in Hin. simplify_eq. right. split_and!; [done| |].
        { exists c. split; [by left|done]. }
        intros u Hu. destruct (Hsat _ Hu eq_refl) as [su Hsu]. exists su. by apply Hkeep.
      * right. split_and!; [done| |done]. exists c'. split; [by right|done].
    + intros c' [->|Hc']%elem_of_cons Hu.
      * exists step. apply Hk. apply lookup_insert_eq.
      * apply Hr; [done|]. intros u Hin. destruct (Hu u Hin) as [su Hsu].
        destruct (decide (ID c = u)) as [->|]; [rewrite lookup_insert_eq; eauto|].
        rewrite lookup_insert_ne by done. eauto.
  - split; [done| |].
    + intros x s Hx. destruct (Hn x s Hx) as [Hin|(-> & (c' & Hc' & <-) & Hp)]; [by left|].
      right. split_and!; [done| |done]. exists c'. split; [by right|done].
    + intros c' [->|Hc']%elem_of_cons Hu; [|by apply Hr].
      destruct (order !! ID c) as [s|] eqn:Ho; [eauto|]. exfalso. apply Hd. split; [done|].
      apply Forall_forall. intros [u v] Hin Heq; cbn in *; subst. by apply Hu.
Qed.

Lemma solveStep_loop_spec step cur nr order :
  (forall x, x ∈ cur -> x ∈ V) -> (forall x, x ∈ nr -> x ∈ V) ->
  exists nr' order', solveStep_loop g step cur nr order = inr (nr', order') /\
    (forall x, x ∈ nr' <-> x ∈ nr \/ (x ∈ V /\ exists c, c ∈ cur /\ (ID c, ID x) ∈ E)) /\
    pass step cur order order'.
Proof.
  revert nr order. induction cur as [|c cur IH]; intros nr order Hcur Hnr; cbn.
  - exists nr, order. split_and!; [done| |split; auto].
    + intros x. split; [by left|]. intros [?|(_ & c & Hc & _)]; [done|]. by apply elem_of_nil in Hc.
    + intros c Hc. by apply elem_of_nil in Hc.
  - assert (c ∈ V) as HcV by (apply Hcur; by left).
    destruct (visit_spec step c nr order Hnr HcV) as (nr1 & -> & Hnr1).
    edestruct (IH nr1) as (nr' & order' & -> & Hnr' & Hp).
    { intros x Hx. apply Hcur. by right. }
    { intros x [?|[? _]]%Hnr1; auto. }
    exists nr', order'. split_and!; [done| |by apply pass_cons].
    intros x. rewrite Hnr', Hnr1. setoid_rewrite elem_of_cons. naive_solver.
Qed.

(** The invariant of the loop of [solve]: the roots of a step are the vertices
    of that level, a vertex is placed on one of its levels, after or together
    with its predecessors, and no later than its last level. *)
Record solve_inv (step : nat) (roots : list Vx) (order : gmap string nat) : Prop := {
  inv_roots : forall x, x ∈ roots <-> x ∈ V /\ reach ids E step (ID x);
  inv_placed : forall x s, order !! x = Some s -> s < step /\ reach ids E s x;
  inv_preds : forall u v sv, (u, v) ∈ E -> order !! v = Some sv ->
    exists su, order !! u = Some su /\ su <= sv;
  inv_last : acyclic E -> forall x K, last_level ids E K x -> K < step -> is_Some (order !! x);
}.

Lemma solve_inv_init : solve_inv 0 (SourceVertices g) ∅.
Proof.
  split; try done; [|by intros; lia].
  intros x. rewrite SourceVertices_spec. cbn. rewrite source_alt. split.
  - intros [Hx Hs]. split_and!; [done|by apply list_elem_of_fmap_2|done].
  - by intros (Hx & _ & Hs).
Qed.

Lemma solve_inv_step step roots order : solve_inv step roots order ->
  exists nr order', solveStep g step roots order = inr (nr, order') /\ solve_inv (S step) nr order'.
Proof.
  intros [Hr Hpl Hpr Hlast].
  destruct (solveStep_loop_spec step roots [] order) as (nr & order' & Hs & Hnr & [Hk Hn Hrd]).
  { by intros x [Hx _]%Hr. }
  { intros x Hx. by apply elem_of_nil in Hx. }
  assert (forall x s, order' !! x = Some s -> s < S step /\ reach ids E s x) as Hpl'.
  { intros x s Hx. destruct (Hn x s Hx) as [Ho|(-> & (c & [_ Hc]%Hr & <-) & _)].
    - destruct (Hpl x s Ho). split; [lia|done].
    - split; [lia|done]. }
  exists nr, order'. split; [done|]. split; [|done| |].
  - intros x. rewrite Hnr, reach_S. split.
    + intros [Hx|(Hx & c & [_ Hc]%Hr & He)]; [by apply elem_of_nil in Hx|].
      split; [done|]. by exists (ID c).
    + intros (Hx & p & He & Hp). right. split; [done|].
      destruct (ids_vertex p) as (c & Hc & <-); [by apply (proj2 Hwf _ _ He)|].
      exists c. split; [|done]. by apply Hr.
  - intros u v sv He Hv. destruct (Hn v sv Hv) as [Ho|(-> & _ & Hp)].
    + destruct (Hpr u v sv He Ho) as (su & Hsu & Hle). exists su. split; [by apply Hk|done].
    + destruct (Hp u He) as [su Hsu]. exists su. split; [done|]. apply Hpl' in Hsu as []. lia.
  - intros Hac x K HK Hlt. destruct (decide (K < step)) as [Hlt'|].
    + destruct (Hlast Hac x K HK Hlt') as [s Hsx]. exists s. by apply Hk.
    + assert (K = step) as -> by lia.
      destruct (ids_vertex x) as (c & HcV & <-); [by eapply reach_ids, HK; apply Hwf|].
      apply Hrd; [apply Hr; split; [done|apply HK]|].
      intros u Hu. destruct (last_level_total ids E) with (x := u) as [K' HK'];
        [apply Hwf|done|by apply (proj2 Hwf _ _ Hu)|].
      apply (Hlast Hac u K' HK'). by eapply last_level_pred.
Qed.

Lemma solve_loop_spec fuel step roots order :
  acyclic E -> solve_inv step roots order -> length V <= fuel + step ->
  exists order' steps, solve_loop fuel g step roots order = Done (order', steps, None) /\
    solve_inv steps [] order'.
Proof.
  intros Hac. revert step roots order.
  induction fuel as [|fuel IH]; intros step roots order Hinv Hf.
  all: destruct roots as [|r roots]; cbn [solve_loop]; [by exists order, step|].
  - exfalso. assert (reach ids E step (ID r)) as Hr by (apply Hinv; by left).
    apply reach_bound in Hr; [|apply Hwf|done]. rewrite length_fmap in Hr. lia.
  - destruct (solve_inv_step _ _ _ Hinv) as (nr & order' & -> & Hinv').
    apply (IH (S step) nr order' Hinv'). lia.
Qed.

(** No fuel is enough when every level is inhabited. *)
Lemma solve_loop_diverges fuel step roots order :
  (forall k, exists y, reach ids E k y) -> solve_inv step roots order ->
  solve_loop fuel g step roots order = OutOfFuel.
Proof.
  intros Hall. revert step roots order. induction fuel as [|fuel IH]; intros step roots order Hinv.
  all: assert (exists r roots', roots = r :: roots') as (r & roots' & ->).
  1, 3: destruct roots as [|r roots']; [|by exists r, roots'];
    destruct (Hall step) as [y Hy]; exfalso;
    destruct (ids_vertex y) as (c & Hc & <-); [by eapply reach_ids, Hy; apply Hwf|];
    assert (c ∈ []) as Hn by (by apply Hinv); by apply elem_of_nil in Hn.
  - done.
  - cbn [solve_loop]. destruct (solve_inv_step _ _ _ Hinv) as (nr & order' & -> & Hinv'). by apply IH.
Qed.
End solve_facts.

(** ** [Order] *)

Lemma acyclic_sub E E' : (forall e, e ∈ E' -> e ∈ E) -> acyclic E -> acyclic E'.
Proof.
  intros Hsub Hac x Hx. apply (Hac x).
  eapply tc_congruence with (f := id); [|exact Hx]. intros u v. apply Hsub.
Qed.

Section order_facts.
Context {W Obj Ref Ev : Type}.
Local Abbreviation Op := (Operand W Obj Ref Ev).
Local Abbreviation Vx := (Vertex Op).
Context `{DAGLaws Op} `{MapRangeLaws}.

(** The operand [op] of [order] is in step [i]. *)
Definition in_step (order : list (list Op)) (i : nat) (op : Op) : Prop :=
  exists row, order !! i = Some row /\ op ∈ row.

Lemma fill_spec g l result : wf_dag g ->
  (forall n s, (n, s) ∈ l -> n ∈ ID <$> vertices g /\ s < length result) ->
  exists result', fill g l result = Done (result', None) /\
    (exists vs, Forall (fun v => v ∈ vertices g) vs /\ ID <$> vs = l.*1 /\
       concat result' ≡ₚ (Value <$> vs) ++ concat result) /\
    forall i op, in_step result' i op <->
      in_step result i op \/ exists v, v ∈ vertices g /\ Value v = op /\ (ID v, i) ∈ l.
Proof.
  intros Hwf. revert result. induction l as [|[n s] l IH]; intros result Hl; cbn.
  - exists result. split_and!; [done| |].
    + by exists [].
    + intros i op. setoid_rewrite elem_of_nil. naive_solver.
  - destruct (Hl n s) as [Hn Hs]; [by left|].
    destruct (GetVertex_ok g n Hn) as [v Hv]. rewrite Hv.
    apply GetVertex_spec in Hv as [HvV <-].
    destruct (lookup_lt_is_Some_2 result s Hs) as [row Hrow]. rewrite Hrow.
    destruct (IH (<[s := row ++ [Value v]]> result)) as (r' & -> & (vs & Hvs & Hid & Hperm) & Hin).
    { intros n' s' Hin. rewrite length_insert. apply Hl. by right. }
    exists r'. split_and!; [done| |].
    + exists (v :: vs). split_and!; [by constructor|by cbn; rewrite Hid|].
      rewrite Hperm, (concat_insert_app _ _ _ _ Hrow), (Permutation_app_comm _ [_]). cbn. by rewrite Permutation_middle.
    + intros i op. rewrite Hin. setoid_rewrite elem_of_cons. unfold in_step.
      destruct (decide (i = s)) as [->|Hne].
      * rewrite list_lookup_insert_eq by done. split.
        -- intros [(? & [= <-] & Hop)|(v' & ? & ? & ?)]; [|by right; exists v'; auto].
           apply elem_of_app in Hop as [Hop|Hop%list_elem_of_singleton]; [by left; exists row|].
           right. exists v. auto.
        -- intros [(row' & Hr' & Hop)|(v' & Hv' & <- & [Heq|Hl'])].
           ++ left. eexists. split; [done|]. simplify_eq. apply elem_of_app. by left.
           ++ left. eexists. split; [done|]. simplify_eq.
              rewrite (ID_inj g Hwf v' v) by done. apply elem_of_app. right. by constructor.
           ++ right. by exists v'.
      * rewrite list_lookup_insert_ne by done. naive_solver.
Qed.

(** The steps [solve] assigns, for an acyclic graph and enough fuel. *)
Lemma solve_spec g fuel : wf_dag g -> acyclic (edges g) -> length (vertices g) <= fuel ->
  exists order steps, solve fuel g = Done (order, steps, None) /\ solve_inv g steps [] order /\
    forall x, x ∈ ID <$> vertices g <-> is_Some (order !! x).
Proof.
  intros Hwf Hac Hf. destruct (solve_loop_spec g Hwf fuel 0 (SourceVertices g) ∅)
    as (order & steps & Hs & Hinv); [done|by apply solve_inv_init|lia|].
  exists order, steps. split_and!; [done|done|]. intros x. split.
  - intros Hx. destruct (last_level_total _ _ (proj2 Hwf) Hac x Hx) as [K HK].
    apply (inv_last _ _ _ _ Hinv Hac x K HK).
    destruct (decide (K < steps)) as [|Hge]; [done|]. exfalso.
    destruct (reach_down _ _ K x (proj1 HK) steps) as [y Hy]; [lia|].
    destruct (ids_vertex g y) as (c & Hc & <-); [by eapply reach_ids, Hy; apply Hwf|].
    assert (c ∈ []) as Hn by (by apply (inv_roots _ _ _ _ Hinv)). by apply elem_of_nil in Hn.
  - intros [s Hs']. apply (inv_placed _ _ _ _ Hinv) in Hs' as [_ Hr].
    by eapply reach_ids, Hr; apply Hwf.
Qed.

(** [Order] on an acyclic graph: every vertex once, predecessors never later,
    and one step apart when every vertex has a single level. *)
Lemma Order_spec g fuel : wf_dag g -> acyclic (edges g) -> length (vertices g) <= fuel ->
  exists order, Order fuel g = Done (order, None) /\
    concat order ≡ₚ Value <$> vertices g /\
    exists place : gmap string nat,
      (forall i op, in_step order i op <->
         exists v, v ∈ vertices g /\ Value v = op /\ place !! ID v = Some i) /\
      (forall x s, place !! x = Some s -> reach (ID <$> vertices g) (edges g) s x) /\
      (forall u v sv, (u, v) ∈ edges g -> place !! v = Some sv ->
         exists su, place !! u = Some su /\ su <= sv).
Proof.
  intros Hwf Hac Hf. destruct (solve_spec g fuel Hwf Hac Hf) as (soln & steps & Hs & Hinv & Hdom).
  unfold Order. rewrite Hs.
  pose proof (range_map_perm nat soln) as Hperm.
  assert (forall n s, (n, s) ∈ range_map soln <-> soln !! n = Some s) as Hrange.
  { intros n s. rewrite Hperm. apply elem_of_map_to_list. }
  destruct (fill_spec g (range_map soln) (replicate steps []) Hwf)
    as (order & -> & (vs & Hvs & Hid & Hconcat) & Hin).
  { intros n s Hns%Hrange. rewrite length_replicate. split; [by apply Hdom|].
    by apply (inv_placed _ _ _ _ Hinv) in Hns as []. }
  exists order. split_and!; [done| |exists soln; split_and!].
  - rewrite Hconcat. assert (concat (replicate steps ([] : list Op)) = []) as ->.
    { clear. induction steps; cbn; done. }
    rewrite app_nil_r. apply Permutation_map.
    apply NoDup_Permutation.
    + apply (NoDup_fmap_1 ID). rewrite Hid, Hperm. apply NoDup_fst_map_to_list.
    + apply (NoDup_fmap_1 ID), Hwf.
    + rewrite Forall_forall in Hvs. intros v. split; [by apply Hvs|]. intros Hv.
      assert (ID v ∈ ID <$> vs) as Hv'.
      { rewrite Hid, Hperm. destruct (proj1 (Hdom (ID v))) as [s Hsv]; [by apply list_elem_of_fmap_2|].
        apply list_elem_of_fmap. exists (ID v, s). split; [done|]. by apply elem_of_map_to_list. }
      apply list_elem_of_fmap in Hv' as (v' & Heq & Hv').
      by rewrite (ID_inj g Hwf v v'); auto.
  - intros i op. rewrite Hin. setoid_rewrite Hrange. split; [|by right].
    intros [(row & Hrow & Hop)|]; [|done]. apply lookup_replicate in Hrow as [-> _].
    by apply elem_of_nil in Hop.
  - intros x s Hx. by apply (inv_placed _ _ _ _ Hinv) in Hx as [].
  - apply (inv_preds _ _ _ _ Hinv).
Qed.
End order_facts.

(** ** [NewOperandDAG] *)

Section build_facts.
Context {W Obj Ref Ev : Type}.
Local Abbreviation Op := (Operand W Obj Ref Ev).
Context `{DAGLaws Op} `{MapRangeLaws}.

Definition opVertex (op : Op) : Vertex Op := mkVertex (Name op) op.

(** The dependencies the operands declare, as (required, operand) pairs. *)
Definition opDeps (op : Op) : list (string * string) := (fun d => (d, Name op)) <$> Requires op.
Definition depEdges (ops : list Op) : list (string * string) := concat (opDeps <$> ops).

Lemma depEdges_cons op ops : depEdges (op :: ops) = opDeps op ++ depEdges ops.
Proof. done. Qed.

Lemma depEdges_elem ops u v :
  (u, v) ∈ depEdges ops <-> exists op, op ∈ ops /\ Name op = v /\ u ∈ Requires op.
Proof.
  unfold depEdges, opDeps. induction ops as [|op ops IH]; cbn.
  - rewrite elem_of_nil. setoid_rewrite elem_of_nil. naive_solver.
  - rewrite elem_of_app, IH, list_elem_of_fmap. setoid_rewrite elem_of_cons. naive_solver.
Qed.

Lemma addVertices_spec ops od g : NoDup (Name <$> ops) -> (forall op, op ∈ ops -> Name op ∉ ID <$> vertices od) ->
  addVertices ops od = inr g -> vertices g ≡ₚ (opVertex <$> ops) ++ vertices od /\ edges g ≡ₚ edges od.
Proof.
  revert od. induction ops as [|op ops IH]; intros od Hnd Hfresh; cbn; [by intros [= ->]|].
  apply NoDup_cons in Hnd as [Hn Hnd].
  pose proof (AddVertex_vertices (opVertex op) od (Hfresh op ltac:(by left))) as Hv.
  pose proof (AddVertex_edges (opVertex op) od) as He. unfold opVertex in *.
  destruct (AddVertex _ od) as [od' [e|]]; [done|]. cbn in *. intros Hg.
  destruct (IH od' Hnd) as (Hv' & He'); [|done|].
  - intros op' Hop'. rewrite Hv. cbn. intros [Heq|Hin]%elem_of_cons.
    + apply Hn. rewrite <- Heq. by apply list_elem_of_fmap_2.
    + apply (Hfresh op'); [by right|done].
  - split; [|by rewrite He']. rewrite Hv', Hv. by rewrite Permutation_middle.
Qed.

Lemma connect_spec h deps od g : NoDup (ID <$> vertices od) -> connect h deps od = inr g ->
  vertices g ≡ₚ vertices od /\
  edges g ≡ₚ ((fun d => (d, ID h)) <$> deps) ++ edges od /\
  (forall d, d ∈ deps -> d ∈ ID <$> vertices od).
Proof.
  revert od. induction deps as [|d deps IH]; intros od Hnd; cbn.
  - intros [= ->]. split_and!; [done|done|]. intros d Hd. by apply elem_of_nil in Hd.
  - destruct (GetVertex od d) as [|t] eqn:Ht; [done|]. apply GetVertex_spec in Ht as [HtV <-].
    pose proof (AddEdge_vertices t h od) as Hv. pose proof (AddEdge_edges t h od) as He.
    destruct (AddEdge t h od) as [od' [e|]]; [done|]. cbn in *. intros Hg.
    destruct (IH od') as (Hv' & He' & Hd); [by rewrite Hv|done|].
    destruct He as [_ He]; [done|]. split_and!.
    + by rewrite Hv'.
    + rewrite He', He. by rewrite Permutation_middle.
    + intros d [->|Hin]%elem_of_cons; [by apply list_elem_of_fmap_2|].
      specialize (Hd d Hin). by rewrite Hv in Hd.
Qed.

Lemma addEdges_spec ops od g : NoDup (ID <$> vertices od) -> addEdges ops od = inr g ->
  vertices g ≡ₚ vertices od /\ edges g ≡ₚ depEdges ops ++ edges od /\
  (forall u v, (u, v) ∈ depEdges ops -> u ∈ ID <$> vertices od /\ v ∈ ID <$> vertices od).
Proof.
  revert od. induction ops as [|op ops IH]; intros od Hnd; cbn.
  - intros [= ->]. split_and!; [done|done|]. intros u v Hin. by apply elem_of_nil in Hin.
  - destruct (GetVertex od (Name op)) as [|h] eqn:Hh; [done|]. apply GetVertex_spec in Hh as [HhV Hid].
    destruct (connect h (Requires op) od) as [|od'] eqn:Hc; [done|].
    destruct (connect_spec h _ od od' Hnd Hc) as (Hv & He & Hd). intros Hg.
    destruct (IH od') as (Hv' & He' & Hends); [by rewrite Hv|done|]. split_and!.
    + by rewrite Hv'.
    + rewrite He', He, Hid. unfold depEdges. cbn. unfold opDeps.
      rewrite !app_assoc. by rewrite (Permutation_app_comm (concat _)).
    + intros u v. unfold depEdges; cbn. rewrite elem_of_app. intros [Hin|Hin].
      * apply list_elem_of_fmap in Hin as (d & [= -> ->] & Hin). split; [by apply Hd|].
        rewrite <- Hid. by apply list_elem_of_fmap_2.
      * apply Hends in Hin. by rewrite Hv in Hin.
Qed.

(** When [NewOperandDAG] succeeds the graph holds the operands and exactly the
    dependencies they declare. *)
Lemma NewOperandDAG_spec ops g : NoDup (Name <$> ops) -> NewOperandDAG ops = inr g ->
  wf_dag g /\ vertices g ≡ₚ opVertex <$> ops /\ edges g ≡ₚ depEdges ops.
Proof.
  intros Hnd. unfold NewOperandDAG. destruct (addVertices ops NewDAG) as [|od] eqn:Hod; [done|]. intros Hg.
  destruct (addVertices_spec ops NewDAG od Hnd) as (Hv & He); [|done|].
  { intros op _. rewrite NewDAG_vertices. apply not_elem_of_nil. }
  rewrite NewDAG_vertices, app_nil_r in Hv. rewrite NewDAG_edges in He.
  assert (NoDup (ID <$> vertices od)) as Hnd'.
  { rewrite Hv, <- list_fmap_compose. exact Hnd. }
  destruct (addEdges_spec ops od g Hnd' Hg) as (Hv' & He' & Hends).
  rewrite He, app_nil_r in He'. split_and!.
  - split; [by rewrite Hv'|]. intros u v Hin. rewrite He' in Hin. rewrite Hv'. by apply Hends.
  - by rewrite Hv'.
  - done.
Qed.

Lemma addVertices_ok ops od : NoDup (Name <$> ops) ->
  (forall op, op ∈ ops -> Name op ∉ ID <$> vertices od) -> exists g, addVertices ops od = inr g.
Proof.
  revert od. induction ops as [|op ops IH]; intros od Hnd Hf; cbn; [by exists od|].
  inversion Hnd as [|? ? Hnin Hnd']; subst.
  pose proof (AddVertex_ok (opVertex op) od (Hf op ltac:(by left))) as Hok.
  pose proof (AddVertex_vertices (opVertex op) od (Hf op ltac:(by left))) as Hv. unfold opVertex in *.
  destruct (AddVertex _ od) as [od' e]; cbn in *; subst. apply IH; [done|].
  intros op' Hop'. rewrite Hv. cbn. intros [Heq|Hin]%elem_of_cons.
  - apply Hnin. rewrite <- Heq. by apply list_elem_of_fmap_2.
  - apply (Hf op'); [by right|done].
Qed.

Lemma connect_ok h deps od :
  h ∈ vertices od -> (forall d, d ∈ deps -> d ∈ ID <$> vertices od) -> NoDup deps ->
  (forall d, d ∈ deps -> (d, ID h) ∉ edges od) ->
  acyclic (((fun d => (d, ID h)) <$> deps) ++ edges od) ->
  exists g, connect h deps od = inr g.
Proof.
  revert od. induction deps as [|d deps IH]; intros od Hh Hd Hnd Hnew Hac; cbn; [by exists od|].
  inversion Hnd as [|? ? Hnin Hnd']; subst.
  destruct (GetVertex_ok od d) as [t Ht]; [apply Hd; by left|]. rewrite Ht.
  apply GetVertex_spec in Ht as [HtV <-].
  assert (snd (AddEdge t h od) = None) as Hok.
  { apply AddEdge_ok; [done|done|apply Hnew; by left|].
    eapply acyclic_sub, Hac. intros e [->|He]%elem_of_cons; [by left|].
    apply elem_of_app. by right. }
  pose proof (AddEdge_edges t h od Hok) as [_ He]. pose proof (AddEdge_vertices t h od) as Hv.
  destruct (AddEdge t h od) as [od' e]; cbn in *; subst.
  apply IH; [by rewrite Hv| |done| |].
  - intros d Hin. rewrite Hv. apply Hd. by right.
  - intros d Hin. rewrite He. intros [[= ->]|Hbad]%elem_of_cons; [done|].
    apply (Hnew d); [by right|done].
  - eapply acyclic_sub, Hac. intros e. rewrite elem_of_app, He, !elem_of_cons, elem_of_app. tauto.
Qed.

Lemma addEdges_ok ops od : NoDup (ID <$> vertices od) -> NoDup (Name <$> ops) ->
  (forall op, op ∈ ops -> Name op ∈ ID <$> vertices od /\ NoDup (Requires op) /\
     (forall d, d ∈ Requires op -> d ∈ ID <$> vertices od /\ (d, Name op) ∉ edges od)) ->
  acyclic (depEdges ops ++ edges od) -> exists g, addEdges ops od = inr g.
Proof.
  revert od. induction ops as [|op ops IH]; intros od Hnd Hnames Hops Hac; cbn; [by exists od|].
  inversion Hnames as [|? ? Hnin Hnames']; subst.
  destruct (Hops op) as (Hin & HndR & HR); [by left|].
  destruct (GetVertex_ok od (Name op) Hin) as [h Hh]. rewrite Hh.
  apply GetVertex_spec in Hh as [HhV Hid].
  destruct (connect_ok h (Requires op) od) as [od' Hod'].
  - done.
  - intros d Hd. by apply HR.
  - done.
  - intros d Hd. rewrite Hid. by apply HR.
  - eapply acyclic_sub, Hac. intros e. rewrite Hid. unfold depEdges, opDeps; cbn.
    rewrite !elem_of_app. tauto.
  - rewrite Hod'. destruct (connect_spec h _ od od' Hnd Hod') as (Hv & He & _).
    rewrite Hid in He. apply IH; [by rewrite Hv|done| |].
    + intros op' Hop'. destruct (Hops op') as (Hin' & HndR' & HR'); [by right|].
      split_and!; [by rewrite Hv|done|]. intros d Hd. rewrite Hv. split; [by apply HR'|].
      rewrite He. intros [Hbad|Hbad]%elem_of_app; [|by apply (HR' d Hd)].
      apply list_elem_of_fmap in Hbad as (d' & [= _ Heq] & _). apply Hnin.
      rewrite <- Heq. by apply list_elem_of_fmap_2.
    + eapply acyclic_sub, Hac. intros e. rewrite depEdges_cons. unfold opDeps.
      rewrite !elem_of_app, He, elem_of_app. tauto.
Qed.

(** Operands whose names are distinct and whose dependencies are known, listed
    once each, and acyclic. *)
Record valid_operands (ops : list Op) : Prop := {
  valid_names : NoDup (Name <$> ops);
  valid_requires : Forall (fun op => NoDup (Requires op) /\
    Forall (fun d => d ∈ Name <$> ops) (Requires op)) ops;
  valid_acyclic : acyclic (depEdges ops);
}.

Lemma NewOperandDAG_ok ops : valid_operands ops -> exists g, NewOperandDAG ops = inr g.
Proof.
  intros [Hnd Hreq Hac]. rewrite Forall_forall in Hreq. unfold NewOperandDAG.
  destruct (addVertices_ok ops NewDAG Hnd) as [od Hod].
  { intros op _. rewrite NewDAG_vertices. apply not_elem_of_nil. }
  rewrite Hod. destruct (addVertices_spec ops NewDAG od Hnd) as (Hv & He); [|done|].
  { intros op _. rewrite NewDAG_vertices. apply not_elem_of_nil. }
  rewrite NewDAG_vertices, app_nil_r in Hv. rewrite NewDAG_edges in He.
  assert (ID <$> vertices od ≡ₚ Name <$> ops) as Hids.
  { by rewrite Hv, <- list_fmap_compose. }
  apply addEdges_ok; [by rewrite Hids|done| |].
  - intros op Hop. destruct (Hreq op Hop) as [HndR HR]. rewrite Forall_forall in HR. rewrite Hids. split_and!.
    + by apply list_elem_of_fmap_2.
    + done.
    + intros d Hd. rewrite Hids, He. split; [by apply HR|]. apply not_elem_of_nil.
  - eapply acyclic_sub, Hac. intros e. rewrite elem_of_app, He, elem_of_nil. tauto.
Qed.
End build_facts.

(** ** A reference graph library *)

(** Vertices and edges in insertion order; a vertex replaces one with its
    identifier, and edges are not checked for cycles. *)
Module RefDag.
Section ref.
Context {A : Type}.
Record graph := mkGraph { rv : list (Vertex A); re : list (string * string) }.

Definition has (g : graph) (id : string) : bool := bool_decide (id ∈ ID <$> rv g).

Definition add_vertex (v : Vertex A) : M graph err := fun g =>
  (mkGraph (filter (fun u => ID u <> ID v) (rv g) ++ [v]) (re g), None).

Definition get_vertex (g : graph) (id : string) : error + Vertex A :=
  match List.find (fun v => bool_decide (ID v = id)) (rv g) with
  | Some v => inr v
  | None => inl (errorf "vertex %s not found in the graph" [id] [] None)
  end.

Definition add_edge (t h : Vertex A) : M graph err := fun g =>
  if negb (has g (ID t)) || negb (has g (ID h)) || bool_decide ((ID t, ID h) ∈ re g)
  then (g, Some (errorf "dag: cannot add edge (%s, %s)" [ID t; ID h] [] None))
  else (mkGraph (rv g) (re g ++ [(ID t, ID h)]), None).

Definition sources (g : graph) : list (Vertex A) :=
  filter (fun v => Forall (fun e => e.2 <> ID v) (re g)) (rv g).

Definition preds (g : graph) (v : Vertex A) : error + list (Vertex A) :=
  if has g (ID v) then inr (filter (fun u => (ID u, ID v) ∈ re g) (rv g))
  else inl (errorf "dag: Vertex %s not found in the graph" [ID v] [] None).

Definition succs (g : graph) (v : Vertex A) : error + list (Vertex A) :=
  if has g (ID v) then inr (filter (fun u => (ID v, ID u) ∈ re g) (rv g))
  else inl (errorf "dag: Vertex %s not found in the graph" [ID v] [] None).

#[export] Instance lib : DAGLib A := {|
  DAG := graph;
  NewDAG := mkGraph [] [];
  AddVertex := add_vertex;
  GetVertex := get_vertex;
  AddEdge := add_edge;
  SourceVertices := sources;
  Predecessors := preds;
  Successors := succs;
|}.

Lemma has_vertex g v : v ∈ rv g -> has g (ID v) = true.
Proof. intros Hv. apply bool_decide_eq_true. by apply list_elem_of_fmap_2. Qed.

#[export, refine] Instance laws : DAGLaws A (H := lib) := {| vertices := rv; edges := re |}.
Proof.
  - done.
  - done.
  - done.
  - intros v g Hn. cbn. rewrite list_filter_all; [by rewrite Permutation_app_comm|].
    intros u Hu Heq. apply Hn. rewrite <- Heq. by apply list_elem_of_fmap_2.
  - done.
  - intros g id v. cbn. unfold get_vertex. destruct (List.find _ _) as [v'|] eqn:Hf; [|done].
    intros [= ->]. apply List.find_some in Hf as [Hin Heq%bool_decide_eq_true].
    by rewrite list_elem_of_In.
  - intros g id (v & -> & Hv)%list_elem_of_fmap. cbn. unfold get_vertex.
    destruct (List.find _ _) as [v'|] eqn:Hf; [by eexists|].
    apply list_elem_of_In in Hv. apply (List.find_none _ _ Hf) in Hv.
    by apply bool_decide_eq_false in Hv.
  - intros t h g Ht Hh Hn _. cbn. unfold add_edge.
    rewrite !has_vertex by done. by rewrite bool_decide_false.
  - intros t h g. cbn. unfold add_edge. by case_match.
  - intros t h g. cbn. unfold add_edge. destruct (has g (ID t)), (has g (ID h)); cbn; try done.
    case_bool_decide; [done|]. intros _; cbn. split; [done|]. by rewrite Permutation_app_comm.
  - intros g v. cbn. unfold sources. rewrite list_elem_of_filter, Forall_forall. split.
    + intros [HE Hv]. split; [done|]. intros u Hu. by apply (HE _ Hu).
    + intros [Hv HE]. split; [|done]. intros [u x] Hin Heq; cbn in *; subst. by apply (HE u).
  - intros g v Hv. cbn. unfold preds. rewrite has_vertex by done. eexists. split; [done|].
    intros u. rewrite list_elem_of_filter. tauto.
  - intros g v Hv. cbn. unfold succs. rewrite has_vertex by done. eexists. split; [done|].
    intros u. rewrite list_elem_of_filter. tauto.
Defined.
End ref.
End RefDag.

(** ** The claims about ordering *)

Section order_claims.
Context {W Obj Ref Ev : Type}.
Local Abbreviation Op := (Operand W Obj Ref Ev).
Context `{DAGLaws Op} `{MapRangeLaws}.

(** [ops] are the operands, [order] what [Order] returns for their graph. *)
Definition ordered (fuel : nat) (ops : list Op) (order : list (list Op)) : Prop :=
  exists g, NewOperandDAG ops = inr g /\ Order fuel g = Done (order, None).

(** Every vertex of the dependency graph is reached from the sources by walks of
    one length only. *)
Definition single_level (ops : list Op) : Prop :=
  forall x j k, reach (Name <$> ops) (depEdges ops) j x ->
    reach (Name <$> ops) (depEdges ops) k x -> j = k.

Lemma reach_perm ids ids' E E' k x :
  ids ≡ₚ ids' -> E ≡ₚ E' -> reach ids E k x -> reach ids' E' k x.
Proof.
  intros Hi He. revert x. induction k as [|k IH]; intros x; cbn.
  - unfold source. by rewrite Hi, He.
  - rewrite !Exists_exists. intros (e & Hin & Heq & Hr). exists e.
    split_and!; [by rewrite <- He|done|by apply IH].
Qed.

Lemma ordered_spec fuel ops order :
  NoDup (Name <$> ops) -> acyclic (depEdges ops) -> length ops <= fuel -> ordered fuel ops order ->
  concat order ≡ₚ ops /\ exists place : gmap string nat,
    (forall i op, in_step order i op <-> op ∈ ops /\ place !! Name op = Some i) /\
    (forall x s, place !! x = Some s -> reach (Name <$> ops) (depEdges ops) s x) /\
    (forall u v sv, (u, v) ∈ depEdges ops -> place !! v = Some sv ->
       exists su, place !! u = Some su /\ su <= sv).
Proof.
  intros Hnd Hac Hf (g & Hg & Ho). destruct (NewOperandDAG_spec ops g Hnd Hg) as (Hwf & Hv & He).
  destruct (Order_spec g fuel) as (order' & Ho' & Hperm & place & Hin & Hreach & Hpreds).
  - done.
  - eapply acyclic_sub, Hac. intros e. by rewrite He.
  - by rewrite Hv, length_fmap.
  - rewrite Ho in Ho'. simplify_eq. split.
    { rewrite Hperm, Hv, <- list_fmap_compose. by rewrite list_fmap_id. }
    exists place. split_and!.
    + intros i op. rewrite Hin. setoid_rewrite Hv. setoid_rewrite list_elem_of_fmap. split.
      * intros (v & (op' & -> & Hop') & <- & Hp). done.
      * intros [Hop Hp]. exists (opVertex op). split_and!; [by exists op|done|done].
    + intros x s Hx. eapply reach_perm, (Hreach x s Hx); [|done].
      by rewrite Hv, <- list_fmap_compose.
    + intros u v sv Hin'. apply Hpreds. by rewrite He.
Qed.

Lemma ordered_total ops fuel :
  valid_operands ops -> length ops <= fuel ->
  exists order, ordered fuel ops order /\ concat order ≡ₚ ops.
Proof.
  intros Hval Hf. destruct (NewOperandDAG_ok ops Hval) as [g Hg].
  destruct (NewOperandDAG_spec ops g (valid_names _ Hval) Hg) as (Hwf & Hv & He).
  destruct (Order_spec g fuel Hwf) as (order & Ho & _).
  - eapply acyclic_sub, Hval. intros e. by rewrite He.
  - by rewrite Hv, length_fmap.
  - assert (ordered fuel ops order) as Hord by (by exists g).
    exists order. split; [done|]. by apply (ordered_spec fuel ops order); [apply Hval|apply Hval| |].
Qed.


(** C1: an operand is never in an earlier step than an operand it requires, when
    the names of the operands are distinct. *)
Theorem Order_dependencies ops fuel order a b i j :
  NoDup (Name <$> ops) -> acyclic (depEdges ops) -> length ops <= fuel -> ordered fuel ops order ->
  a ∈ ops -> b ∈ ops -> Name a ∈ Requires b ->
  in_step order i a -> in_step order j b -> i <= j.
Proof.
  intros Hnd Hac Hf Ho Ha Hb Hreq Hi Hj.
  destruct (ordered_spec fuel ops order Hnd Hac Hf Ho) as (_ & place & Hin & _ & Hpreds).
  apply Hin in Hi as [_ Hi], Hj as [_ Hj].
  destruct (Hpreds (Name a) (Name b) j) as (su & Hsu & Hle); [|done|congruence].
  apply depEdges_elem. by exists b.
Qed.

(** When every operand has a single level in the dependency graph, an operand
    is in the step right after the operands it requires, so a requirement is
    always complete before its dependents start. *)
Theorem Order_strict ops fuel order a b i j :
  NoDup (Name <$> ops) -> acyclic (depEdges ops) -> length ops <= fuel -> ordered fuel ops order ->
  single_level ops -> a ∈ ops -> b ∈ ops -> Name a ∈ Requires b ->
  in_step order i a -> in_step order j b -> j = S i.
Proof.
  intros Hnd Hac Hf Ho Hsl Ha Hb Hreq Hi Hj.
  destruct (ordered_spec fuel ops order Hnd Hac Hf Ho) as (_ & place & Hin & Hreach & _).
  apply Hin in Hi as [_ Hi], Hj as [_ Hj].
  apply (Hsl (Name b)); [by apply Hreach|]. apply reach_S. exists (Name a).
  split; [|by apply Hreach]. apply depEdges_elem. by exists b.
Qed.

(** [solve] has no cycle check of its own: on a graph in which a cycle can be
    reached from a source its loop never ends, whatever the fuel. *)
Theorem solve_diverges g s c fuel :
  wf_dag g -> source (ID <$> vertices g) (edges g) s ->
  rtc (edgeR (edges g)) s c -> tc (edgeR (edges g)) c c ->
  solve fuel g = OutOfFuel.
Proof.
  intros Hwf Hs Hsc Hc. apply solve_loop_diverges; [done| |by apply solve_inv_init].
  intros k. by eapply reach_cycle_levels.
Qed.
End order_claims.

(** ** Witnesses and examples *)

Lemma acyclic_rank (rank : string -> nat) E :
  Forall (fun e => rank e.1 < rank e.2) E -> acyclic E.
Proof.
  rewrite Forall_forall. intros HE x Hx.
  assert (forall u v, tc (edgeR E) u v -> rank u < rank v) as Hr.
  { induction 1 as [u v Hin|u v z Hin _ IH]; [by apply (HE _ Hin)|].
    specialize (HE _ Hin). cbn in *. lia. }
  specialize (Hr x x Hx). lia.
Qed.

Module DagDemo.
Import RefRange RefDag.
(** A chain with a shortcut: c requires both a and b, b requires a. *)
Definition ops := [Demo.operand "a" []; Demo.operand "b" ["a"]; Demo.operand "c" ["a"; "b"]].
(** A chain without one. *)
Definition chain := [Demo.operand "a" []; Demo.operand "b" ["a"]; Demo.operand "c" ["b"]].
Definition rank (x : string) : nat :=
  if bool_decide (x = "a") then 0 else if bool_decide (x = "b") then 1 else 2.

Lemma ops_valid : valid_operands ops.
Proof.
  split.
  - apply (bool_decide_unpack _). vm_compute. exact I.
  - apply (bool_decide_unpack _). vm_compute. exact I.
  - apply (acyclic_rank rank). apply (bool_decide_unpack _). vm_compute. exact I.
Qed.

Lemma chain_names : NoDup (Name <$> chain).
Proof. apply (bool_decide_unpack _). vm_compute. exact I. Qed.

Lemma chain_acyclic : acyclic (depEdges chain).
Proof. apply (acyclic_rank rank). apply (bool_decide_unpack _). vm_compute. exact I. Qed.

Lemma chain_ordered :
  ordered 3 chain [[Demo.operand "a" []]; [Demo.operand "b" ["a"]]; [Demo.operand "c" ["b"]]].
Proof. eexists. split; vm_compute; reflexivity. Qed.

(** The order of the repository's own test, [dag_test.go]. *)
Definition test_ops := [Demo.operand "A" []; Demo.operand "B" []; Demo.operand "C" ["B"];
  Demo.operand "D" ["A"; "C"]; Demo.operand "E" ["D"]; Demo.operand "F" ["C"]].
Definition show (o : outcome (list (list (Operand (list string) unit unit string)) * err)) : string :=
  match o with Done (o, None) => OperandOrder_String o | _ => "" end.
Definition show_order (ops : list (Operand (list string) unit unit string)) : string :=
  match NewOperandDAG ops with inl _ => "" | inr g => show (Order 10 g) end.
Example test_order : show_order test_ops =
  "[" +:+ newline +:+ "  0: [ A B ]" +:+ newline +:+ "  1: [ C ]" +:+ newline +:+
  "  2: [ D F ]" +:+ newline +:+ "  3: [ E ]" +:+ newline +:+ "]".
Proof. vm_compute. reflexivity. Qed.
End DagDemo.

Import RefRange RefDag.


(** With the shortcut a -> c beside a -> b -> c, [Order] puts c into the step
    of b although c requires b: a vertex placed earlier in the same pass counts
    as satisfied.  The two run concurrently, so c may start before b is done. *)
Theorem Order_shortcut :
  exists order b c, ordered 3 DagDemo.ops order /\
    b ∈ DagDemo.ops /\ c ∈ DagDemo.ops /\ Name b ∈ Requires c /\
    in_step order 1 b /\ in_step order 1 c.
Proof.
  exists [[Demo.operand "a" []]; [Demo.operand "c" ["a"; "b"]; Demo.operand "b" ["a"]]; []].
  exists (Demo.operand "b" ["a"]), (Demo.operand "c" ["a"; "b"]).
  split_and!.
  - eexists. split; vm_compute; reflexivity.
  - by right; left.
  - by right; right; left.
  - by right; left.
  - eexists. split; [reflexivity|]. vm_compute. repeat constructor.
  - eexists. split; [reflexivity|]. vm_compute. repeat constructor.
Qed.

Lemma Order_dependencies_witness : 0 <= 1.
Proof.
  apply (Order_dependencies DagDemo.chain 3
    [[Demo.operand "a" []]; [Demo.operand "b" ["a"]]; [Demo.operand "c" ["b"]]]
    (Demo.operand "a" []) (Demo.operand "b" ["a"]) 0 1).
  - exact DagDemo.chain_names.
  - exact DagDemo.chain_acyclic.
  - exact (le_n 3).
  - exact DagDemo.chain_ordered.
  - by left.
  - by right; left.
  - by left.
  - eexists. split; [reflexivity|by left].
  - eexists. split; [reflexivity|by left].
Defined.

Lemma chain_single_level : single_level DagDemo.chain.
Proof.
  assert (forall k x, reach (Name <$> DagDemo.chain) (depEdges DagDemo.chain) k x ->
    k = DagDemo.rank x) as Hr.
  { induction k as [|k IH]; intros x.
    - intros [Hx HE]. cbn in Hx, HE. rewrite !elem_of_cons, elem_of_nil in Hx.
      rewrite !Forall_cons in HE. cbn in HE. naive_solver.
    - rewrite reach_S. intros (p & He & Hp). apply IH in Hp. unfold edgeR in He. cbn in He.
      rewrite !elem_of_cons, elem_of_nil in He.
      destruct He as [[= -> ->]|[[= -> ->]|[]]]; cbn in Hp |- *; by rewrite Hp. }
  intros x j k Hj Hk. by rewrite (Hr j x Hj), (Hr k x Hk).
Qed.

Lemma Order_strict_witness : 1 = S 0.
Proof.
  apply (Order_strict DagDemo.chain 3
    [[Demo.operand "a" []]; [Demo.operand "b" ["a"]]; [Demo.operand "c" ["b"]]]
    (Demo.operand "a" []) (Demo.operand "b" ["a"]) 0 1).
  - exact DagDemo.chain_names.
  - exact DagDemo.chain_acyclic.
  - exact (le_n 3).
  - exact DagDemo.chain_ordered.
  - exact chain_single_level.
  - by left.
  - by right; left.
  - by left.
  - eexists. split; [reflexivity|by left].
  - eexists. split; [reflexivity|by left].
Defined.

(** a below which b and c require each other. *)
Definition cyclic_graph : DAG (A := Operand (list string) unit unit string) :=
  RefDag.mkGraph
    [opVertex (Demo.operand "a" []); opVertex (Demo.operand "b" ["a"; "c"]);
     opVertex (Demo.operand "c" ["b"])]
    [("a", "b"); ("c", "b"); ("b", "c")].

Lemma solve_diverges_witness : solve 1000 cyclic_graph = OutOfFuel.
Proof.
  apply (solve_diverges cyclic_graph "a" "b" 1000).
  - split; [apply (bool_decide_unpack _); vm_compute; exact I|].
    intros u v He. cbn in He. rewrite !elem_of_cons, elem_of_nil in He.
    destruct He as [[= -> ->]|[[= -> ->]|[[= -> ->]|[]]]]; split;
      apply (bool_decide_unpack _); vm_compute; exact I.
  - split; apply (bool_decide_unpack _); vm_compute; exact I.
  - apply rtc_once. by left.
  - eapply tc_l with "c"; [|apply tc_once]; unfold edgeR; cbn; [by right; right; left|by right; left].
Defined.
