(* ===== verification/Executor.v ===== *)
(** The executor: [operator/v1/executor/executor.go].

    The steps of an order run one after the other; the operands of a step run
    serially or in one goroutine each.  Goroutines interleave: a schedule says
    which of them makes its next atomic move, the channels are buffered with the
    capacity the code gives them, and the main goroutine goes on once the wait
    group is at zero. *)
From S2P Require Import Prelude Operand.

(** [type ExecutionStrategy int] and its constants. *)
Definition ExecutionStrategy := Z.
Definition Parallel : ExecutionStrategy := 0%Z.
Definition Serial : ExecutionStrategy := 1%Z.

(** [type Executor struct]: [recorder] is what [event.Record(exe.recorder)] does
    to the world. *)
Record Executor (W Ev : Type) := mkExecutor {
  execStrategy : ExecutionStrategy;
  recorder : Ev -> M W unit;
}.
Arguments mkExecutor {W Ev}.
Arguments execStrategy {W Ev}.
Arguments recorder {W Ev}.

(** [NewExecutor]. *)
Definition NewExecutor {W Ev} (e : ExecutionStrategy) (r : Ev -> M W unit) : Executor W Ev :=
  mkExecutor e r.

Section executor.
Context {W Obj Ref Ev : Type} `{ErrorLib}.
Local Abbreviation Op := (Operand W Obj Ref Ev).
Local Abbreviation St := (World W (OpCall Obj Ref)).
Local Abbreviation Out := (option Ev * err)%type.
Local Abbreviation Call := (Operand W Obj Ref Ev -> Obj -> Ref -> proc (World W (OpCall Obj Ref)) (option Ev * err)).

(** ** Serial execution *)

(** The loop of [serialExec]. *)
Fixpoint serialExec_loop (exe : Executor W Ev) (ops : list Op) (call : Call) (obj : Obj)
  (ownerRef : Ref) (result : option Result) : M St (option Result * err) :=
  match ops with
  | [] => mret (result, None)
  | op :: ops =>
    '(event, e) ← run (call op obj ownerRef);
    match e with
    | Some _ => mret (result, NewAggregate [None; e])
    | None =>
      match event with
      | Some ev =>
        _ ← logged CRecord (recorder exe ev);
        serialExec_loop exe ops call obj ownerRef (Some emptyResult)
      | None => serialExec_loop exe ops call obj ownerRef result
      end
    end
  end.

(** [serialExec]. *)
Definition serialExec (exe : Executor W Ev) (ops : list Op) (call : Call) (obj : Obj)
  (ownerRef : Ref) : M St (option Result * err) :=
  serialExec_loop exe ops call obj ownerRef None.

(** ** Concurrent execution *)

(** Where a goroutine of [operateWithWaitGroup] is: running [f], about to send
    its error, about to record its event, about to send its result, about to run
    the deferred [wg.Done()], or finished. *)
Inductive goroutine :=
| GRun (p : proc St Out)
| GErr (event : option Ev) (e : err)
| GRec (event : option Ev) (e : err)
| GSend (event : Ev) (e : err)
| GWg (event : option Ev) (e : err)
| GExit (event : option Ev) (e : err).

(** The state the goroutines share: the world, the two buffered channels and the
    counter of the wait group. *)
Record shared := mkShared {
  world : St;
  errChan : list error;
  resultChan : nat;
  wg : Z;
}.

(** One move of a goroutine running [operateWithWaitGroup]; [None] when it is
    blocked on a full channel or has finished.  [cap] is the capacity of the
    channels. *)
Definition operateWithWaitGroup (exe : Executor W Ev) (cap : nat) (g : goroutine) (s : shared)
  : option (goroutine * shared) :=
  match g with
  | GRun (Act u k) =>
    Some (GRun (k (world s)), mkShared (u (world s)) (errChan s) (resultChan s) (wg s))
  | GRun (Ret (event, e)) => Some (GErr event e, s)
  | GErr event None => Some (GRec event None, s)
  | GErr event (Some e) =>
    if bool_decide (length (errChan s) < cap) then
      Some (GRec event (Some e), mkShared (world s) (errChan s ++ [e]) (resultChan s) (wg s))
    else None
  | GRec None e => Some (GWg None e, s)
  | GRec (Some ev) e =>
    Some (GSend ev e,
      mkShared (fst (logged CRecord (recorder exe ev) (world s))) (errChan s) (resultChan s) (wg s))
  | GSend event e =>
    if bool_decide (resultChan s < cap) then
      Some (GWg (Some event) e, mkShared (world s) (errChan s) (S (resultChan s)) (wg s))
    else None
  | GWg event e =>
    Some (GExit event e, mkShared (world s) (errChan s) (resultChan s) (wg s - 1)%Z)
  | GExit _ _ => None
  end.

(** The goroutines of a step and what they share. *)
Record config := mkConfig { gors : list goroutine; sh : shared }.

(** The scheduler lets goroutine [i] move; a goroutine that cannot move is
    passed over. *)
Definition move (exe : Executor W Ev) (cap : nat) (i : nat) (c : config) : config :=
  match gors c !! i with
  | Some g =>
    match operateWithWaitGroup exe cap g (sh c) with
    | Some (g', s') => mkConfig (<[i := g']> (gors c)) s'
    | None => c
    end
  | None => c
  end.

Definition moves (exe : Executor W Ev) (cap : nat) (sched : list nat) (c : config) : config :=
  foldl (fun c i => move exe cap i c) c sched.

(** [wg.Add(totalOperands)] and one goroutine for every operand. *)
Definition spawn (ops : list Op) (call : Call) (obj : Obj) (ownerRef : Ref) (w : St) : config :=
  mkConfig ((fun op => GRun (call op obj ownerRef)) <$> ops)
           (mkShared w [] 0 (Z.of_nat (length ops))).

(** Draining the closed error channel. *)
Definition drainErrors (errs : list error) : err :=
  foldl (fun rerr e => NewAggregate [rerr; Some e]) None errs.

(** [concurrentExec] under a schedule; as long as the wait group is not at zero
    the caller stays blocked in [wg.Wait()]. *)
Definition concurrentExec (exe : Executor W Ev) (sched : list nat) (ops : list Op) (call : Call)
  (obj : Obj) (ownerRef : Ref) (w : St) : outcome (St * (option Result * err)) :=
  let totalOperands := length ops in
  let c := moves exe totalOperands sched (spawn ops call obj ownerRef w) in
  if (wg (sh c) =? 0)%Z then
    let rerr := drainErrors (errChan (sh c)) in
    let result := if bool_decide (0 < resultChan (sh c)) then Some emptyResult else None in
    Done (world (sh c), (result, rerr))
  else OutOfFuel.

(** ** Executing an order *)

(** The loop of [ExecuteOperands]; [scheds] has the schedule of every step. *)
Fixpoint ExecuteOperands (exe : Executor W Ev) (scheds : list (list nat)) (order : list (list Op))
  (call : Call) (obj : Obj) (ownerRef : Ref) (w : St) : outcome (St * (Result * err)) :=
  match order with
  | [] => Done (w, (emptyResult, None))
  | ops :: order =>
    let requeueStrategy := StepRequeueStrategy ops in
    let after (out : outcome (St * (option Result * err))) :=
      match out with
      | Done (w, (res, Some e)) => Done (w, (requeueResult, Some e))
      | Done (w, (res, None)) =>
        if match res with Some _ => true | None => false end
           && (requeueStrategy =? RequeueAlways)%Z
        then Done (w, (requeueResult, None))
        else ExecuteOperands exe (tail scheds) order call obj ownerRef w
      | Panic m => Panic m
      | OutOfFuel => OutOfFuel
      end in
    if (execStrategy exe =? Serial)%Z then
      after (Done (serialExec exe ops call obj ownerRef w))
    else if (execStrategy exe =? Parallel)%Z then
      after (concurrentExec exe (default [] (head scheds)) ops call obj ownerRef w)
    else Done (w, (emptyResult,
           Some (errorf "unknown operands execution strategy: %v" [pretty (execStrategy exe)] [] None)))
  end.
End executor.

(** ** Goroutines: no send blocks, nothing is lost *)

Section concurrency.
Context {W Obj Ref Ev : Type} `{ErrorLib}.
Local Abbreviation Op := (Operand W Obj Ref Ev).
Local Abbreviation St := (World W (OpCall Obj Ref)).
Local Abbreviation Out := (option Ev * err)%type.
Local Abbreviation Call := (Operand W Obj Ref Ev -> Obj -> Ref -> proc (World W (OpCall Obj Ref)) (option Ev * err)).
Local Abbreviation Gor := (goroutine (W := W) (Obj := Obj) (Ref := Ref) (Ev := Ev)).
Local Abbreviation Config := (config (W := W) (Obj := Obj) (Ref := Ref) (Ev := Ev)).

(** The error a goroutine has sent so far, whether it has sent a result and
    whether it is still counted by the wait group. *)
Definition sent_err (g : Gor) : err :=
  match g with GRec _ e | GSend _ e | GWg _ e | GExit _ e => e | _ => None end.
Definition sent_res (g : Gor) : bool :=
  match g with GWg (Some _) _ | GExit (Some _) _ => true | _ => false end.
Definition running (g : Gor) : bool := match g with GExit _ _ => false | _ => true end.

(** The channels hold exactly what was sent and the wait group counts the
    goroutines that have not finished. *)
Record cinv (cap : nat) (c : Config) : Prop := {
  cinv_len : length (gors c) = cap;
  cinv_err : errChan (sh c) ≡ₚ omap sent_err (gors c);
  cinv_res : resultChan (sh c) = length (filter (fun g => sent_res g) (gors c));
  cinv_wg : wg (sh c) = Z.of_nat (length (filter (fun g => running g) (gors c)));
}.

Lemma gors_split (l : list Gor) i g : l !! i = Some g ->
  exists rest, l ≡ₚ g :: rest /\ (forall g', <[i := g']> l ≡ₚ g' :: rest) /\ S (length rest) = length l.
Proof.
  intros Hi. pose proof (lookup_lt_Some _ _ _ Hi) as Hlt. exists (delete i l). split_and!.
  - by apply delete_Permutation.
  - intros g'. rewrite (delete_Permutation (<[i := g']> l) i g').
    + by rewrite !delete_take_drop, take_insert_ge, drop_insert_lt by lia.
    + by apply list_lookup_insert_eq.
  - rewrite length_delete by eauto. lia.
Qed.

Lemma omap_length_le {A B} (f : A -> option B) (l : list A) : length (omap f l) <= length l.
Proof. induction l as [|x l IH]; cbn; [done|]. case_match; cbn; lia. Qed.

Lemma cinv_spawn ops (call : Call) obj ref w : cinv (length ops) (spawn ops call obj ref w).
Proof.
  split; cbn.
  - by rewrite length_fmap.
  - induction ops as [|op ops IH]; [done|]. exact IH.
  - induction ops as [|op ops IH]; [done|]. exact IH.
  - f_equal. induction ops as [|op ops IH]; [done|].
    cbn [fmap list_fmap]. rewrite filter_cons, decide_True by done. cbn. by rewrite <- IH.
Qed.

(** A goroutine that has not finished can always move: its sends find room. *)
Lemma cinv_progress exe cap c i g : cinv cap c -> gors c !! i = Some g -> running g = true ->
  is_Some (operateWithWaitGroup exe cap g (sh c)).
Proof.
  intros [Hlen Herr Hres _] Hi Hrun. destruct (gors_split _ _ _ Hi) as (rest & Hp & _ & Hl).
  assert (sent_err g = None -> length (errChan (sh c)) < cap) as He.
  { intros Hg. rewrite Herr, Hp. cbn. rewrite Hg. pose proof (omap_length_le sent_err rest). lia. }
  assert (sent_res g = false -> resultChan (sh c) < cap) as Hr.
  { intros Hg. rewrite Hres, Hp, filter_cons, decide_False by (rewrite Hg; intros []).
    pose proof (length_filter (fun g => sent_res g) rest). lia. }
  destruct g as [[[]|]|? []|[]| | |]; cbn in *; try done; try (by eexists).
  all: rewrite bool_decide_true; [by eexists|auto].
Qed.

Lemma cinv_move exe cap c i : cinv cap c -> cinv cap (move exe cap i c).
Proof.
  intros Hc. unfold move. destruct (gors c !! i) as [g|] eqn:Hi; [|done].
  destruct (operateWithWaitGroup exe cap g (sh c)) as [[g' s']|] eqn:Hm; [|done].
  destruct Hc as [Hlen Herr Hres Hwg].
  destruct (gors_split _ _ _ Hi) as (rest & Hp & Hp' & Hl).
  rewrite Hp in Herr, Hres, Hwg.
  split; cbn; [by rewrite length_insert| | |]; rewrite Hp'.
  all: destruct g as [[[]|]|? []|[]| | |]; cbn in *;
       repeat case_bool_decide; simplify_eq/=; try done;
       rewrite ?filter_cons in *; cbn in *; repeat case_decide; cbn in *; try done; try lia.
  all: rewrite ?Herr, ?Hres; try done; try lia. by rewrite Permutation_app_comm.
Qed.

Lemma cinv_moves exe cap sched c : cinv cap c -> cinv cap (moves exe cap sched c).
Proof.
  revert c. induction sched as [|i sched IH]; intros c Hc; [done|]. apply IH. by apply cinv_move.
Qed.

Lemma moves_app exe cap s1 s2 (c : Config) :
  moves exe cap (s1 ++ s2) c = moves exe cap s2 (moves exe cap s1 c).
Proof. apply foldl_app. Qed.

(** [drivable i g]: from every consistent state where goroutine [i] is at [g], it
    can be run to its end, whatever the others do not do. *)
Definition drivable (exe : Executor W Ev) (cap i : nat) (g : Gor) : Prop :=
  forall c, cinv cap c -> gors c !! i = Some g ->
  exists m ev e, gors (moves exe cap (replicate m i) c) = <[i := GExit ev e]> (gors c).

Lemma drivable_step exe cap i g : running g = true ->
  (forall s g' s', operateWithWaitGroup exe cap g s = Some (g', s') -> drivable exe cap i g') ->
  drivable exe cap i g.
Proof.
  intros Hrun Hnext c Hc Hi.
  destruct (cinv_progress exe cap c i g Hc Hi Hrun) as [[g' s'] Hm].
  assert (move exe cap i c = mkConfig (<[i := g']> (gors c)) s') as Hmv.
  { unfold move. by rewrite Hi, Hm. }
  destruct (Hnext _ _ _ Hm (move exe cap i c)) as (m & ev & e & Hd).
  - by apply cinv_move.
  - rewrite Hmv. apply list_lookup_insert_eq. by eapply lookup_lt_Some.
  - exists (S m), ev, e. cbn. unfold moves in Hd. rewrite Hd, Hmv. cbn. by rewrite list_insert_insert_eq.
Qed.

Lemma drivable_all exe cap i g : drivable exe cap i g.
Proof.
  assert (forall ev e, drivable exe cap i (GExit ev e)) as Hexit.
  { intros ev e c _ Hi. exists 0, ev, e. by rewrite list_insert_id. }
  assert (forall ev e, drivable exe cap i (GWg ev e)) as Hwg.
  { intros ev e. apply drivable_step; [done|]. intros s g' s' [= <- <-]. auto. }
  assert (forall ev e, drivable exe cap i (GSend ev e)) as Hsend.
  { intros ev e. apply drivable_step; [done|]. intros s g' s' Hm. cbn in Hm.
    case_bool_decide; simplify_eq. auto. }
  assert (forall ev e, drivable exe cap i (GRec ev e)) as Hrec.
  { intros [ev|] e; (apply drivable_step; [done|]); intros s g' s' [= <- <-]; auto. }
  assert (forall ev e, drivable exe cap i (GErr ev e)) as Herr.
  { intros ev [e|]; (apply drivable_step; [done|]); intros s g' s' Hm; cbn in Hm;
      try case_bool_decide; simplify_eq; auto. }
  destruct g; auto.
  induction p as [[ev e]|u k IH]; (apply drivable_step; [done|]); intros s g' s' [= <- <-]; auto.
Qed.

Definition exited (c : Config) (j : nat) : Prop := exists ev e, gors c !! j = Some (GExit ev e).

Lemma finish_some exe cap (js : list nat) c : cinv cap c ->
  exists sched, forall j, j < cap -> (exited c j \/ j ∈ js) -> exited (moves exe cap sched c) j.
Proof.
  revert c. induction js as [|i js IH]; intros c Hc.
  - exists []. intros j _ [?|Hj]; [done|]. by apply elem_of_nil in Hj.
  - destruct (decide (i < cap)) as [Hlt|Hge].
    + assert (i < length (gors c)) as Hlt' by (by rewrite (cinv_len _ _ Hc)).
      destruct (lookup_lt_is_Some_2 _ _ Hlt') as [g Hg].
      destruct (drivable_all exe cap i g c Hc Hg) as (m & ev & e & Hm).
      destruct (IH (moves exe cap (replicate m i) c)) as [sched Hs]; [by apply cinv_moves|].
      exists (replicate m i ++ sched). intros j Hj Hor. rewrite moves_app. apply Hs; [done|].
      destruct (decide (j = i)) as [->|Hne].
      * left. exists ev, e. rewrite Hm. by apply list_lookup_insert_eq.
      * destruct Hor as [(ev' & e' & He)|[->|Hin]%elem_of_cons]; [|done|by right].
        left. exists ev', e'. rewrite Hm. by rewrite list_lookup_insert_ne.
    + destruct (IH c Hc) as [sched Hs]. exists sched. intros j Hj [Hex|[->|Hin]%elem_of_cons]; [auto|lia|auto].
Qed.

Lemma all_exited_wg cap c : cinv cap c -> (forall j, j < cap -> exited c j) -> wg (sh c) = 0%Z.
Proof.
  intros Hc Hall. rewrite (cinv_wg _ _ Hc).
  assert (filter (fun g => running g) (gors c) = []) as ->; [|done].
  apply list_filter_nil_iff. apply Forall_forall. intros g Hg.
  apply list_elem_of_lookup in Hg as [j Hj].
  destruct (Hall j) as (ev & e & He); [rewrite <- (cinv_len _ _ Hc); by eapply lookup_lt_Some|].
  rewrite Hj in He. simplify_eq. by intros [].
Qed.

(** What a goroutine's code can return, under some interleaving. *)
Fixpoint may_return (p : proc St Out) (o : Out) : Prop :=
  match p with
  | Ret o' => o = o'
  | Act u k => exists s, may_return (k s) o
  end.

Definition gor_from (p : proc St Out) (g : Gor) : Prop :=
  match g with
  | GRun p' => forall o, may_return p' o -> may_return p o
  | GErr ev e | GRec ev e | GWg ev e | GExit ev e => may_return p (ev, e)
  | GSend ev e => may_return p (Some ev, e)
  end.

Lemma gor_from_moves exe cap sched ps c :
  Forall2 gor_from ps (gors c) -> Forall2 gor_from ps (gors (moves exe cap sched c)).
Proof.
  revert c. induction sched as [|i sched IH]; intros c Hc; [done|]. apply IH. unfold move.
  destruct (gors c !! i) as [g|] eqn:Hi; [|done].
  destruct (operateWithWaitGroup exe cap g (sh c)) as [[g' s']|] eqn:Hm; [|done]. cbn.
  destruct (Forall2_lookup_r _ _ _ _ _ Hc Hi) as (p & Hp & Hg).
  rewrite <- (list_insert_id ps i p Hp). apply Forall2_insert; [done|].
  destruct g as [[[]|u k]|? []|[]| | |]; cbn in *; try case_bool_decide; simplify_eq/=; auto.
  intros o Ho. apply Hg. by eexists.
Qed.

(** When the wait group is at zero every goroutine has finished, so the channels
    hold the errors and results of all of them. *)
Lemma wg_zero_outcomes cap c : cinv cap c -> wg (sh c) = 0%Z ->
  exists outs : list Out, gors c = (fun o => GExit o.1 o.2) <$> outs /\
    errChan (sh c) ≡ₚ omap snd outs /\
    (resultChan (sh c) = 0 <-> Forall (fun o => o.1 = None) outs).
Proof.
  intros [Hlen Herr Hres Hwg] H0.
  assert (exists outs : list Out, gors c = (fun o => GExit o.1 o.2) <$> outs) as [outs Houts].
  { assert (filter (fun g => running g) (gors c) = []) as Hnil.
    { apply nil_length_inv. lia. }
    apply list_filter_nil_iff in Hnil. clear -Hnil.
    induction (gors c) as [|g l IH]; [by exists []|]. apply Forall_cons in Hnil as [Hg Hl].
    destruct (IH Hl) as [outs ->]. destruct g as [| | | | |ev e]; try by destruct Hg.
    by exists ((ev, e) :: outs). }
  exists outs. split_and!; [done| |].
  - rewrite Herr, Houts. clear. induction outs as [|[ev [e|]] outs IH]; cbn; [done| |done].
    by rewrite IH.
  - rewrite Hres, Houts. clear. split.
    + intros Hz%nil_length_inv%list_filter_nil_iff. rewrite Forall_fmap in Hz.
      eapply Forall_impl; [exact Hz|]. intros [[ev|] e] Hr; [by destruct Hr|done].
    + intros Hn. apply length_zero_iff_nil, list_filter_nil_iff. rewrite Forall_fmap.
      eapply Forall_impl; [exact Hn|]. intros [ev e] Hr; cbn in *; subst. by intros [].
Qed.
End concurrency.

(** ** Claims about concurrent execution *)

Section concurrent_claims.
Context {W Obj Ref Ev : Type} `{ErrorLibLaws}.
Local Abbreviation Op := (Operand W Obj Ref Ev).
Local Abbreviation St := (World W (OpCall Obj Ref)).
Local Abbreviation Out := (option Ev * err)%type.
Local Abbreviation Call := (Operand W Obj Ref Ev -> Obj -> Ref -> proc (World W (OpCall Obj Ref)) (option Ev * err)).

Lemma drainErrors_snoc errs e : drainErrors (errs ++ [e]) = NewAggregate [drainErrors errs; Some e].
Proof. unfold drainErrors. by rewrite foldl_app. Qed.

Lemma drainErrors_None errs : drainErrors errs = None <-> errs = [].
Proof.
  destruct errs as [|e errs _] using rev_ind; [done|]. rewrite drainErrors_snoc.
  split; [|by intros ?%app_eq_nil; naive_solver]. by intros [_ ?]%NewAggregate_pair.
Qed.

Lemma drainErrors_Is errs t :
  err_Is (drainErrors errs) t = existsb (fun e => errors_Is e t) errs.
Proof.
  induction errs as [|e errs IH] using rev_ind; [done|].
  rewrite drainErrors_snoc, NewAggregate_pair_Is, IH, existsb_app. cbn. by rewrite orb_false_r.
Qed.

Lemma existsb_perm {A} (f : A -> bool) l l' : l ≡ₚ l' -> existsb f l = existsb f l'.
Proof. induction 1; cbn; try congruence. by destruct (f x), (f y). Qed.

(** C10: whatever the interleaving, [concurrentExec] returns what the operands
    returned: it fails exactly when some operand fails, its error matches a
    sentinel exactly when the error of some operand does, and it reports a change
    exactly when some operand returned an event. *)
Theorem concurrentExec_outcomes exe sched (ops : list Op) (call : Call) obj ref w w' res e :
  concurrentExec exe sched ops call obj ref w = Done (w', (res, e)) ->
  exists outs : list Out,
    Forall2 (fun op o => may_return (call op obj ref) o) ops outs /\
    (e = None <-> Forall (fun o => o.2 = None) outs) /\
    (forall t, err_Is e t = existsb (fun o => err_Is o.2 t) outs) /\
    (res = None <-> Forall (fun o => o.1 = None) outs).
Proof.
  unfold concurrentExec. destruct (Z.eqb_spec (wg (sh (moves exe (length ops) sched
    (spawn ops call obj ref w)))) 0) as [Hwg|]; [|done]. intros [= <- <- <-].
  set (c := moves _ _ _ _) in *.
  assert (cinv (length ops) c) as Hc by apply cinv_moves, cinv_spawn.
  destruct (wg_zero_outcomes _ c Hc Hwg) as (outs & Hg & Herr & Hres). exists outs. split_and!.
  - assert (Forall2 gor_from ((fun op => call op obj ref) <$> ops) (gors c)) as Hf.
    { apply gor_from_moves. cbn. clear. induction ops as [|op ops IH]; cbn; [constructor|].
      constructor; [by intros o Ho|exact IH]. }
    rewrite Hg in Hf. rewrite Forall2_fmap in Hf. eapply Forall2_impl; [exact Hf|].
    intros op [ev e]; cbn. done.
  - rewrite drainErrors_None. split.
    + intros Hn. rewrite Hn in Herr. symmetry in Herr. apply Permutation_nil_r in Herr. clear -Herr.
      induction outs as [|[ev [e|]] outs IH]; cbn in *; [done|done|]. constructor; auto.
    + intros Hn. apply Permutation_nil_r. rewrite Herr. clear -Hn.
      induction Hn as [|[ev e] outs Hx _ IH]; cbn in *; [done|]. by subst.
  - intros t. rewrite drainErrors_Is, (existsb_perm _ _ _ Herr). clear.
    induction outs as [|[ev [e|]] outs IH]; cbn; [done| |done]. by rewrite IH.
  - rewrite <- Hres. case_bool_decide; split; try done; lia.
Qed.

(** C11: concurrent execution cannot deadlock: every schedule can be continued to
    one under which all goroutines finish and [concurrentExec] returns. *)
Theorem concurrentExec_terminates exe sched (ops : list Op) (call : Call) obj ref w :
  exists more w' r, concurrentExec exe (sched ++ more) ops call obj ref w = Done (w', r).
Proof.
  set (cap := length ops). set (c := moves exe cap sched (spawn ops call obj ref w)).
  assert (cinv cap c) as Hc by apply cinv_moves, cinv_spawn.
  destruct (finish_some exe cap (seq 0 cap) c Hc) as [more Hmore]. exists more.
  unfold concurrentExec. fold cap. rewrite moves_app. fold c.
  rewrite (all_exited_wg cap); [eauto|by apply cinv_moves|].
  intros j Hj. apply Hmore; [done|]. right. apply elem_of_seq. lia.
Qed.

(** Running goroutine [i] alone from the start of its code to its end. *)
Definition finish (exe : Executor W Ev) (p : proc St Out) (s : shared) : shared :=
  let '(w, (ev, e)) := run p (world s) in
  mkShared (match ev with Some ev => fst (logged CRecord (recorder exe ev) w) | None => w end)
           (errChan s ++ option_list e)
           (match ev with Some _ => S (resultChan s) | None => resultChan s end)
           (wg s - 1)%Z.

Lemma moves_S (exe : Executor W Ev) cap m i (c : config (W := W) (Obj := Obj) (Ref := Ref) (Ev := Ev)) g g' s' : gors c !! i = Some g ->
  operateWithWaitGroup exe cap g (sh c) = Some (g', s') ->
  moves exe cap (replicate (S m) i) c =
  moves exe cap (replicate m i) (mkConfig (<[i := g']> (gors c)) s').
Proof. intros Hi Hm. cbn. unfold move. by rewrite Hi, Hm. Qed.

Lemma drive_run (exe : Executor W Ev) cap i p : forall c, cinv cap c -> gors c !! i = Some (GRun p) ->
  exists m, moves exe cap (replicate m i) c =
    mkConfig (<[i := GExit (snd (run p (world (sh c)))).1 (snd (run p (world (sh c)))).2]> (gors c))
             (finish exe p (sh c)).
Proof.
  induction p as [[ev e]|u k IH]; intros c Hc Hi.
  - pose proof (lookup_lt_Some _ _ _ Hi) as Hlt.
    destruct (gors_split _ _ _ Hi) as (rest & Hp & _ & Hl). destruct Hc as [Hlen Herr Hres _].
    assert (length (errChan (sh c)) < cap) as He.
    { rewrite Herr, Hp. cbn. pose proof (omap_length_le sent_err rest). lia. }
    assert (resultChan (sh c) < cap) as Hr.
    { rewrite Hres, Hp, filter_cons, decide_False by (by intros []).
      pose proof (length_filter (fun g => sent_res g) rest). lia. }
    exists (match ev with Some _ => 5 | None => 4 end). unfold finish. cbn [run snd fst].
    destruct ev as [ev|], e as [e|].
    all: repeat (erewrite moves_S;
      [|cbn; first [exact Hi|apply list_lookup_insert_eq; rewrite ?length_insert; exact Hlt]
       |cbn; rewrite ?bool_decide_true by (cbn; first [exact He|exact Hr]); reflexivity]).
    all: cbn; rewrite ?list_insert_insert_eq, ?app_nil_r; done.
  - set (c1 := mkConfig (<[i := GRun (k (world (sh c)))]> (gors c))
       (mkShared (u (world (sh c))) (errChan (sh c)) (resultChan (sh c)) (wg (sh c)))).
    assert (move exe cap i c = c1) as Hmv by (unfold move; by rewrite Hi).
    destruct (IH (world (sh c)) c1) as [m Hm].
    + rewrite <- Hmv. by apply cinv_move.
    + apply list_lookup_insert_eq. by eapply lookup_lt_Some.
    + exists (S m). erewrite moves_S; [|exact Hi|reflexivity]. fold c1. rewrite Hm. cbn.
      by rewrite list_insert_insert_eq.
Qed.

Lemma serial_simulated (exe : Executor W Ev) (ops : list Op) : forall (call : Call) obj ref done w result res w' r wgn cap,
  serialExec_loop exe ops call obj ref result w = (w', (res, None)) ->
  cinv cap (mkConfig (done ++ ((fun op => GRun (call op obj ref)) <$> ops)) (mkShared w [] r wgn)) ->
  result = (if bool_decide (0 < r) then Some emptyResult else None) ->
  exists sched c', moves exe cap sched
      (mkConfig (done ++ ((fun op => GRun (call op obj ref)) <$> ops)) (mkShared w [] r wgn)) = c' /\
    world (sh c') = w' /\ errChan (sh c') = [] /\ wg (sh c') = (wgn - Z.of_nat (length ops))%Z /\
    res = (if bool_decide (0 < resultChan (sh c')) then Some emptyResult else None).
Proof.
  induction ops as [|op ops IH]; intros call obj ref dn w result res w' r wgn cap Hser Hc Hres.
  - cbn in Hser. unfold_m. simplify_eq. exists []. eexists. split; [reflexivity|]. cbn. split_and!; auto. lia.
  - set (c := mkConfig _ _) in *.
    assert (gors c !! length dn = Some (GRun (call op obj ref))) as Hi.
    { cbn. rewrite lookup_app_r, Nat.sub_diag by done. done. }
    destruct (drive_run exe cap (length dn) _ c Hc Hi) as [m Hm].
    assert (cinv cap (moves exe cap (replicate m (length dn)) c)) as Hc' by (by apply cinv_moves).
    cbn [serialExec_loop] in Hser. unfold mbind, M_bind in Hser. unfold finish in Hm. cbn in Hm.
    destruct (run (call op obj ref) w) as [w1 [ev [e|]]]; cbn in Hm.
    { unfold mret, M_ret in Hser. injection Hser as -> -> Hagg.
      apply NewAggregate_pair in Hagg as [_ ?]. done. }
    rewrite insert_app_r_alt, Nat.sub_diag in Hm by done. cbn in Hm.
    rewrite (cons_middle _ dn), app_assoc in Hm. rewrite Hm in Hc'.
    destruct ev as [ev|].
    + destruct (logged CRecord (recorder exe ev) w1) as [w2 []] eqn:Hrec. cbn in Hm, Hc'.
      destruct (IH call obj ref _ w2 (Some emptyResult) res w' (S r) (wgn - 1)%Z cap Hser Hc')
        as (sched & c' & Hmv & Hw & He & Hwg & Hr); [by rewrite bool_decide_true by lia|].
      exists (replicate m (length dn) ++ sched), c'. rewrite moves_app, Hm. split_and!; try done. cbn. lia.
    + destruct (IH call obj ref _ w1 result res w' r (wgn - 1)%Z cap Hser Hc')
        as (sched & c' & Hmv & Hw & He & Hwg & Hr); [done|].
      exists (replicate m (length dn) ++ sched), c'. rewrite moves_app, Hm. split_and!; try done. cbn. lia.
Qed.

(** C12: serial execution is one of the behaviours of concurrent execution: when
    [serialExec] runs a step without error, some schedule makes [concurrentExec]
    end in the same world with the same result. *)
Theorem serial_refines_concurrent exe (ops : list Op) (call : Call) obj ref w w' res :
  serialExec exe ops call obj ref w = (w', (res, None)) ->
  exists sched, concurrentExec exe sched ops call obj ref w = Done (w', (res, None)).
Proof.
  intros Hser.
  destruct (serial_simulated exe ops call obj ref [] w None res w' 0 (Z.of_nat (length ops))
    (length ops) Hser) as (sched & c' & Hm & Hw & He & Hwg & Hr); [apply cinv_spawn|done|].
  exists sched. unfold concurrentExec. cbn in Hm. unfold spawn. rewrite Hm, Hwg.
  rewrite Z.sub_diag. cbn. by rewrite Hw, He, <- Hr.
Qed.
End concurrent_claims.

(** ** Steps are barriers *)

(** The operand a call belongs to, and the calls that start the execution of an
    operand. *)
Definition owner {Obj Ref} (c : OpCall Obj Ref) : option string :=
  match c with CEnsure n _ _ | CReadyCheck n _ | CPostReady n _ | CDelete n _ => Some n | CRecord => None end.
Definition started {Obj Ref} (c : OpCall Obj Ref) : option (OpCall Obj Ref) :=
  match c with CEnsure _ _ _ | CDelete _ _ => Some c | _ => None end.
(** The calls on operands among those of a log. *)
Definition on_operand {Obj Ref} (c : OpCall Obj Ref) : option (OpCall Obj Ref) :=
  match c with CRecord => None | _ => Some c end.

Section barrier.
Context {W Obj Ref Ev : Type} `{ErrorLibLaws}.
Local Abbreviation Op := (Operand W Obj Ref Ev).
Local Abbreviation St := (World W (OpCall Obj Ref)).
Local Abbreviation Out := (option Ev * err)%type.
Local Abbreviation Call := (Operand W Obj Ref Ev -> Obj -> Ref -> proc (World W (OpCall Obj Ref)) (option Ev * err)).
Local Abbreviation Gor := (goroutine (W := W) (Obj := Obj) (Ref := Ref) (Ev := Ev)).
Local Abbreviation OpC := (OpCall Obj Ref).

(** The code makes calls of operand [n] only, and [l] are those that
    start it. *)
Fixpoint pcalls (n : string) (p : proc St Out) (l : list OpC) : Prop :=
  match p with
  | Ret _ => l = []
  | Act u k => forall s, exists lg l2, wlog (u s) = wlog s ++ lg /\
      Forall (fun c => owner c = Some n) lg /\ l = omap started lg ++ l2 /\ pcalls n (k s) l2
  end.

(** A run call that starts its operand exactly once, with the call [first]. *)
Definition starts_with (call : Call) (first : Op -> Obj -> Ref -> OpC) : Prop :=
  forall op obj ref, pcalls (Name op) (call op obj ref) [first op obj ref].
(** How the two run calls start their operand. *)
Definition by_Ensure (op : Op) (obj : Obj) (ref : Ref) : OpC := CEnsure (Name op) obj ref.
Definition by_Delete (op : Op) (obj : Obj) (ref : Ref) : OpC := CDelete (Name op) obj.

Lemma pcalls_call {A} n c (m : M W A) k l l2 : owner c = Some n ->
  l = option_list (started c) ++ l2 -> (forall a, pcalls n (k a) l2) -> pcalls n (call (logged c m) k) l.
Proof.
  intros Hc Hl Hk s. exists [c], l2. unfold logged. destruct (m (wst s)) as [s' a]. cbn. split_and!.
  - done.
  - by repeat constructor.
  - rewrite Hl. by destruct (started c).
  - apply Hk.
Qed.

Lemma CallEnsure_starts : starts_with CallEnsure by_Ensure.
Proof.
  intros op obj ref. eapply pcalls_call; [done|done|]. intros [ev [e|]]; [done|].
  eapply pcalls_call; [done|done|]. intros [[] [e|]]; try done.
  eapply pcalls_call; [done|done|]. by intros [e|].
Qed.

Lemma CallCleanup_starts : starts_with CallCleanup by_Delete.
Proof. intros op obj ref. eapply pcalls_call; [done|done|]. by intros [ev e]. Qed.

Lemma pcalls_run n p l : forall s, pcalls n p l -> exists lg, wlog (fst (run p s)) = wlog s ++ lg /\
  Forall (fun c => owner c = Some n) lg /\ omap started lg = l.
Proof.
  revert l. induction p as [o|u k IH]; intros l s; cbn.
  - intros ->. exists []. by rewrite app_nil_r.
  - intros Hp. destruct (Hp s) as (lg & l2 & Hlg & Hown & -> & Hk).
    destruct (IH s l2 (u s) Hk) as (lg' & Hlg' & Hown' & <-). exists (lg ++ lg').
    rewrite Hlg', Hlg, app_assoc, omap_app. split_and!; [done|by apply Forall_app|done].
Qed.

(** The part [seg] of the log a step leaves: only its operands are called, and they
    are started by the calls [start]. *)
Definition owned (ops : list Op) (seg : list OpC) : Prop :=
  Forall (fun c => forall n, owner c = Some n -> n ∈ Name <$> ops) seg.
Definition seg_full (start : Op -> OpC) (ops : list Op) (seg : list OpC) : Prop :=
  owned ops seg /\ omap started seg ≡ₚ start <$> ops.
Definition seg_part (start : Op -> OpC) (ops : list Op) (seg : list OpC) : Prop :=
  owned ops seg /\ exists rest, omap started seg ++ rest = start <$> ops.

Lemma owned_mono ops ops' seg : (forall x, x ∈ ops -> x ∈ ops') -> owned ops seg -> owned ops' seg.
Proof.
  intros Hsub Ho. eapply Forall_impl; [exact Ho|]. intros c Hc n Hn. apply Hc in Hn.
  apply list_elem_of_fmap in Hn as (op & -> & Hop). by apply list_elem_of_fmap_2, Hsub.
Qed.

Lemma owned_one (op : Op) ops seg : op ∈ ops ->
  Forall (fun c => owner c = Some (Name op)) seg -> owned ops seg.
Proof.
  intros Hop Ho. eapply Forall_impl; [exact Ho|]. intros c Hc n Hn. rewrite Hc in Hn. simplify_eq.
  by apply list_elem_of_fmap_2.
Qed.

Lemma serial_segment exe (ops : list Op) (call : Call) first obj ref : starts_with call first ->
  forall w result w' res e, serialExec_loop exe ops call obj ref result w = (w', (res, e)) ->
  exists seg, wlog w' = wlog w ++ seg /\ seg_part (fun op => first op obj ref) ops seg /\ (e = None -> seg_full (fun op => first op obj ref) ops seg).
Proof.
  intros Hcall. induction ops as [|op ops IH]; intros w result w' res e Hser.
  - cbn in Hser. unfold_m. simplify_eq. exists []. rewrite app_nil_r. split_and!; [done| |].
    + split; [constructor|by exists []].
    + by split; [constructor|].
  - cbn [serialExec_loop] in Hser. unfold mbind, M_bind in Hser.
    destruct (pcalls_run _ _ _ w (Hcall op obj ref)) as (lg & Hlg & Hown & Hst).
    destruct (run (call op obj ref) w) as [w1 [ev ee]]. cbn in Hlg.
    assert (owned (op :: ops) lg) as Ho by (eapply owned_one, Hown; by left).
    assert (forall w2 seg1 res0, wlog w2 = wlog w1 ++ seg1 -> owned (op :: ops) seg1 ->
      omap started seg1 = [] -> serialExec_loop exe ops call obj ref res0 w2 = (w', (res, e)) ->
      exists seg, wlog w' = wlog w ++ seg /\ seg_part (fun op => first op obj ref) (op :: ops) seg /\
        (e = None -> seg_full (fun op => first op obj ref) (op :: ops) seg)) as Hrest.
    { intros w2 seg1 res0 Hw2 Ho1 Hs1 Hs. destruct (IH _ _ _ _ _ Hs) as (seg & Hseg & [Hp1 [rest Hp2]] & Hf).
      assert (owned (op :: ops) seg) as Ho2 by (eapply owned_mono, Hp1; by right).
      exists (lg ++ seg1 ++ seg). rewrite Hseg, Hw2, Hlg, <- !app_assoc. split_and!; [done| |].
      - split; [by repeat apply Forall_app_2|]. exists rest. rewrite !omap_app, Hst, Hs1. cbn.
        by rewrite Hp2.
      - intros Hnone. destruct (Hf Hnone) as [_ Hfull]. split; [by repeat apply Forall_app_2|].
        rewrite !omap_app, Hst, Hs1. cbn. by rewrite Hfull. }
    destruct ee as [ee|]; [|destruct ev as [ev|]].
    + unfold mret, M_ret in Hser. simplify_eq. exists lg. split_and!; [done| |].
      * split; [done|]. exists ((fun op => first op obj ref) <$> ops). by rewrite Hst.
      * by intros [_ ?]%NewAggregate_pair.
    + destruct (logged CRecord (recorder exe ev) w1) as [w2 []] eqn:Hrec.
      apply (Hrest w2 [CRecord] (Some emptyResult)); [|by repeat constructor|done|done].
      unfold logged in Hrec. destruct (recorder exe ev (wst w1)). by simplify_eq.
    + apply (Hrest w1 [] result); [by rewrite app_nil_r|constructor|done|done].
Qed.

(** What goroutine [g] of operand [n] still starts. *)
Definition gcalls (n : string) (g : Gor) (l : list OpC) : Prop :=
  match g with GRun p => pcalls n p l | _ => l = [] end.

(** The log since the step began, and what is left to start. *)
Definition seg_inv (start : Op -> OpC) (ops : list Op) (w : St) (c : config (W := W) (Ev := Ev)) : Prop :=
  exists seg rem, wlog (world (sh c)) = wlog w ++ seg /\ owned ops seg /\
    length rem = length ops /\ length (gors c) = length ops /\
    (forall i op g l, ops !! i = Some op -> gors c !! i = Some g -> rem !! i = Some l ->
       gcalls (Name op) g l) /\
    omap started seg ++ concat rem ≡ₚ start <$> ops.

Lemma seg_inv_spawn (ops : list Op) (call : Call) first obj ref w : starts_with call first ->
  seg_inv (fun op => first op obj ref) ops w (spawn ops call obj ref w).
Proof.
  intros Hcall. exists [], ((fun op => [first op obj ref]) <$> ops). cbn. rewrite app_nil_r, !length_fmap.
  split_and!; [done|constructor|done|done| |].
  - intros i op g l Hop. rewrite !list_lookup_fmap, Hop. cbn. intros [= <-] [= <-]. apply Hcall.
  - clear. induction ops as [|op ops IH]; cbn; [done|]. by rewrite IH.
Qed.

Lemma seg_inv_move exe cap i start ops w c : seg_inv start ops w c -> seg_inv start ops w (move exe cap i c).
Proof.
  intros (seg & rem & Hlog & Hown & Hlr & Hlg & Hg & Hperm). unfold move.
  destruct (gors c !! i) as [g|] eqn:Hi; [|by exists seg, rem].
  destruct (operateWithWaitGroup exe cap g (sh c)) as [[g' s']|] eqn:Hm; [|by exists seg, rem].
  assert (i < length ops) as Hlt by (rewrite <- Hlg; by eapply lookup_lt_Some).
  destruct (lookup_lt_is_Some_2 ops i Hlt) as [op Hop].
  destruct (lookup_lt_is_Some_2 rem i) as [l Hl]; [lia|].
  pose proof (Hg i op g l Hop Hi Hl) as Hgi.
  assert (op ∈ ops) as Hin by (by eapply list_elem_of_lookup_2).
  (* it is enough to know what the move adds to the log and leaves to start *)
  assert (forall lg l2, wlog (world s') = wlog (world (sh c)) ++ lg -> owned ops lg ->
    l = omap started lg ++ l2 -> gcalls (Name op) g' l2 ->
    seg_inv start ops w (mkConfig (<[i := g']> (gors c)) s')) as Hstep.
  { intros lg l2 Hw Ho -> Hg'. exists (seg ++ lg), (<[i := l2]> rem). cbn.
    rewrite !length_insert. split_and!; [by rewrite Hw, Hlog, app_assoc|by apply Forall_app_2|done|done| |].
    - intros j op' g'' l'' Hop'. destruct (decide (i = j)) as [<-|Hne].
      + rewrite !list_lookup_insert_eq by lia. intros [= <-] [= <-]. by rewrite Hop in Hop'; simplify_eq.
      + rewrite !list_lookup_insert_ne by done. by apply Hg.
    - rewrite <- Hperm, omap_app, <- app_assoc. by rewrite (concat_insert_rest rem i _ _ Hl). }
  destruct g as [[[ev e]|u k]|ev [e|]|[ev|] e|ev e|ev e|ev e]; cbn in Hm; try case_bool_decide; simplify_eq;
    cbn in Hgi; try (apply (Hstep [] l); cbn; [by rewrite app_nil_r|constructor|done|done]).
  - destruct (Hgi (world (sh c))) as (lg & l2 & Hw & Ho & -> & Hk).
    apply (Hstep lg l2); [done|by eapply owned_one|done|done].
  - apply (Hstep [CRecord] l); cbn; [|by repeat constructor|done|done].
    unfold logged. by destruct (recorder exe ev (wst (world (sh c)))).
Qed.

Lemma concurrent_segment exe sched (ops : list Op) (call : Call) first obj ref w w' r : starts_with call first ->
  concurrentExec exe sched ops call obj ref w = Done (w', r) ->
  exists seg, wlog w' = wlog w ++ seg /\ seg_full (fun op => first op obj ref) ops seg.
Proof.
  intros Hcall. unfold concurrentExec.
  destruct (Z.eqb_spec (wg (sh (moves exe (length ops) sched (spawn ops call obj ref w)))) 0)
    as [Hwg|]; [|done]. intros [= <- _].
  assert (seg_inv (fun op => first op obj ref) ops w (moves exe (length ops) sched (spawn ops call obj ref w))) as Hs.
  { generalize (seg_inv_spawn ops call first obj ref w Hcall).
    generalize (spawn ops call obj ref w). clear Hwg.
    induction sched as [|i sched IH]; intros c Hc; [done|]. apply IH. by apply seg_inv_move. }
  destruct (wg_zero_outcomes (length ops) _ (cinv_moves _ _ _ _ (cinv_spawn ops call obj ref w)) Hwg)
    as (outs & Hg & _).
  destruct Hs as (seg & rem & Hlog & Hown & Hlr & Hlg & Hgc & Hperm). exists seg.
  split_and!; [done|split; [done|]]. rewrite <- Hperm.
  assert (concat rem = []) as ->; [|by rewrite app_nil_r].
  apply List.concat_nil_Forall, Forall_forall. intros l Hl. apply list_elem_of_lookup in Hl as [i Hi].
  pose proof (lookup_lt_Some _ _ _ Hi) as Hlt.
  destruct (lookup_lt_is_Some_2 ops i) as [op Hop]; [lia|].
  destruct (lookup_lt_is_Some_2 outs i) as [o Ho].
  { rewrite Hg, length_fmap in Hlg. lia. }
  apply (Hgc i op (GExit o.1 o.2) l Hop); [|done]. rewrite Hg. by rewrite list_lookup_fmap, Ho.
Qed.

(** The log of an execution of [order]: one full segment for every executed step,
    in the order of the steps, and possibly the start of a failing serial step. *)
Definition barrier (start : Op -> OpC) (order : list (list Op)) (w w' : St) (res : Result) (e : err) : Prop :=
  exists segs last, wlog w' = wlog w ++ concat segs ++ last /\
    Forall2 (seg_full start) (take (length segs) order) segs /\
    (last = [] \/ exists ops, order !! length segs = Some ops /\ seg_part start ops last) /\
    (e = None -> last = []) /\
    (e = None -> Requeue res = false -> length segs = length order).

Lemma barrier_nil start order w res e : (e <> None \/ order = []) -> barrier start order w w res e.
Proof. intros Ho. exists [], []. cbn. rewrite app_nil_r. split_and!; naive_solver. Qed.

Lemma barrier_cons start ops order w w1 w' res e seg : wlog w1 = wlog w ++ seg -> seg_full start ops seg ->
  barrier start order w1 w' res e -> barrier start (ops :: order) w w' res e.
Proof.
  intros Hw1 Hseg (segs & last & Hlog & Hf & Hl & Hn & Hall).
  exists (seg :: segs), last. cbn. rewrite Hlog, Hw1, <- !app_assoc. split_and!; try done.
  - by constructor.
  - intros He Hq. f_equal. by apply Hall.
Qed.

Lemma barrier_last start ops order w w1 res e seg : wlog w1 = wlog w ++ seg -> seg_full start ops seg ->
  (e <> None \/ Requeue res = true) -> barrier start (ops :: order) w w1 res e.
Proof.
  intros Hw1 Hseg Hstop. exists [seg], []. cbn. rewrite !app_nil_r.
  split_and!; [done|by (constructor; [exact Hseg|rewrite take_0; constructor])|by left|done|].
  intros -> Hq. destruct Hstop; congruence.
Qed.

Lemma ExecuteOperands_segments exe (call : Call) first obj ref order scheds w w' res e :
  starts_with call first ->
  ExecuteOperands exe scheds order call obj ref w = Done (w', (res, e)) ->
  barrier (fun op => first op obj ref) order w w' res e.
Proof.
  intros Hcall. revert scheds w. induction order as [|ops order IH]; intros scheds w Hexec.
  { cbn in Hexec. simplify_eq. apply barrier_nil. by right. }
  cbn [ExecuteOperands] in Hexec. destruct (execStrategy exe =? Serial)%Z;
    [|destruct (execStrategy exe =? Parallel)%Z].
  - destruct (serialExec exe ops call obj ref w) as [w1 [r1 e1]] eqn:Hser.
    destruct (serial_segment exe ops call first obj ref Hcall _ _ _ _ _ Hser) as (seg & Hw1 & Hp & Hf).
    destruct e1 as [e1|].
    + simplify_eq. exists [], seg. cbn. split_and!; [done|done| |done|done]. right. eauto.
    + case_match; [|by eapply barrier_cons; eauto]. simplify_eq. eapply barrier_last; eauto.
  - destruct (concurrentExec _ _ ops _ _ _ _) as [[w1 [r1 e1]]| |] eqn:Hc; try done.
    destruct (concurrent_segment _ _ _ _ _ _ _ _ _ _ Hcall Hc) as (seg & Hw1 & Hf).
    destruct e1 as [e1|]; [simplify_eq; eapply barrier_last; eauto|].
    case_match; [|by eapply barrier_cons; eauto]. simplify_eq. eapply barrier_last; eauto.
  - simplify_eq. apply barrier_nil. by left.
Qed.


(** ** What a successful execution has called *)

(** The code, when it returns without an error, has made exactly the calls [full]:
    it has made [past], and goes on to the rest. *)
Fixpoint pdone (full past : list OpC) (p : proc St Out) : Prop :=
  match p with
  | Ret o => o.2 = None -> past = full
  | Act u k => forall s, exists lg, wlog (u s) = wlog s ++ lg /\ omap on_operand lg = lg /\ pdone full (past ++ lg) (k s)
  end.

(** A run call whose success takes exactly the calls [full]. *)
Definition completes (call : Call) (full : Op -> Obj -> Ref -> list OpC) : Prop :=
  forall op obj ref, pdone (full op obj ref) [] (call op obj ref).
Definition calls_Ensure (op : Op) (obj : Obj) (ref : Ref) : list OpC :=
  [CEnsure (Name op) obj ref; CReadyCheck (Name op) obj; CPostReady (Name op) obj].
Definition calls_Cleanup (op : Op) (obj : Obj) (ref : Ref) : list OpC := [CDelete (Name op) obj].

Lemma pdone_call {A} full past c (m : M W A) k : on_operand c = Some c ->
  (forall a, pdone full (past ++ [c]) (k a)) -> pdone full past (call (logged c m) k).
Proof.
  intros Hc Hk s. exists [c]. unfold logged. destruct (m (wst s)) as [s' a]. cbn. split_and!; [done|by rewrite Hc|apply Hk].
Qed.

Lemma CallEnsure_completes : completes CallEnsure calls_Ensure.
Proof.
  intros op obj ref. apply pdone_call; [done|]. intros [ev [e|]]; [done|].
  apply pdone_call; [done|]. intros [[] [e|]]; try done.
  apply pdone_call; [done|]. by intros [e|].
Qed.
Lemma CallCleanup_completes : completes CallCleanup calls_Cleanup.
Proof. intros op obj ref. apply pdone_call; [done|]. by intros [ev e]. Qed.

Lemma pdone_run full p : forall past s s' ev, pdone full past p -> run p s = (s', (ev, None)) ->
  exists lg, wlog s' = wlog s ++ lg /\ omap on_operand lg = lg /\ past ++ lg = full.
Proof.
  induction p as [o|u k IH]; intros past s s' ev; cbn.
  - intros Hp [= <- ->]. exists []. rewrite !app_nil_r. split_and!; [done|done|by apply Hp].
  - intros Hp Hr. destruct (Hp s) as (lg & Hlg & Ho & Hk). destruct (IH s _ _ _ _ Hk Hr) as (lg' & Hlg' & Ho' & <-).
    exists (lg ++ lg'). rewrite Hlg', Hlg, omap_app, Ho, Ho'. by rewrite <- !app_assoc.
Qed.

Lemma serial_calls exe (ops : list Op) (call : Call) full obj ref : completes call full ->
  forall w result w' res, serialExec_loop exe ops call obj ref result w = (w', (res, None)) ->
  exists seg, wlog w' = wlog w ++ seg /\ omap on_operand seg = concat ((fun op => full op obj ref) <$> ops).
Proof.
  intros Hcall. induction ops as [|op ops IH]; intros w result w' res Hser; cbn [serialExec_loop] in Hser.
  { unfold_m. simplify_eq. exists []. by rewrite app_nil_r. }
  unfold mbind, M_bind in Hser. destruct (run (call op obj ref) w) as [w1 [ev [e|]]] eqn:Hrun.
  { unfold mret, M_ret in Hser. injection Hser as _ _ Hagg. by apply NewAggregate_pair in Hagg as [_ ?]. }
  destruct (pdone_run _ _ _ _ _ _ (Hcall op obj ref) Hrun) as (lg & Hlg & Ho & Hf). cbn in Hf.
  assert (forall w2 seg1 res0, wlog w2 = wlog w1 ++ seg1 -> omap on_operand seg1 = [] ->
    serialExec_loop exe ops call obj ref res0 w2 = (w', (res, None)) ->
    exists seg, wlog w' = wlog w ++ seg /\ omap on_operand seg = concat ((fun op => full op obj ref) <$> op :: ops)) as Hrest.
  { intros w2 seg1 res0 Hw2 Hs1 Hs. destruct (IH _ _ _ _ Hs) as (seg & Hseg & Hc).
    exists (lg ++ seg1 ++ seg). rewrite Hseg, Hw2, Hlg, <- !app_assoc. split; [done|]. rewrite !omap_app, Ho, Hs1, Hc. cbn. by rewrite Hf. }
  destruct ev as [ev|]; [|by apply (Hrest w1 [] result); rewrite ?app_nil_r].
  destruct (logged CRecord (recorder exe ev) w1) as [w2 []] eqn:Hrec. apply (Hrest w2 [CRecord] (Some emptyResult)); [|done|done].
  unfold logged in Hrec. destruct (recorder exe ev (wst w1)). by simplify_eq.
Qed.

(** What goroutine [g] has called, [past], and will have called if it succeeds. *)
Definition gdone (full past : list OpC) (g : Gor) : Prop :=
  match g with
  | GRun p => pdone full past p
  | GErr _ e | GRec _ e | GWg _ e | GExit _ e => e = None -> past = full
  | GSend _ e => e = None -> past = full
  end.
Definition done_inv (full : Op -> list OpC) (ops : list Op) (w : St) (c : config (W := W) (Obj := Obj) (Ref := Ref) (Ev := Ev)) : Prop :=
  exists seg pasts, wlog (world (sh c)) = wlog w ++ seg /\ omap on_operand seg ≡ₚ concat pasts /\
    length pasts = length ops /\ length (gors c) = length ops /\
    (forall i op g past, ops !! i = Some op -> gors c !! i = Some g -> pasts !! i = Some past -> gdone (full op) past g).

Lemma done_inv_spawn (ops : list Op) (call : Call) full obj ref w : completes call full ->
  done_inv (fun op => full op obj ref) ops w (spawn ops call obj ref w).
Proof.
  intros Hcall. exists [], (replicate (length ops) []). cbn. rewrite app_nil_r, length_replicate, length_fmap. split_and!; [done| |done|done|].
  - symmetry. apply Permutation_refl'. clear. induction ops; cbn; auto.
  - intros i op g past Hop. rewrite list_lookup_fmap, Hop. cbn. intros [= <-] [-> _]%lookup_replicate. apply Hcall.
Qed.

Lemma done_inv_move exe cap i full ops w c : done_inv full ops w c -> done_inv full ops w (move exe cap i c).
Proof.
  intros (seg & pasts & Hlog & Hperm & Hlp & Hlg & Hg). unfold move.
  destruct (gors c !! i) as [g|] eqn:Hi; [|by exists seg, pasts].
  destruct (operateWithWaitGroup exe cap g (sh c)) as [[g' s']|] eqn:Hm; [|by exists seg, pasts].
  assert (i < length ops) as Hlt by (rewrite <- Hlg; by eapply lookup_lt_Some).
  destruct (lookup_lt_is_Some_2 ops i Hlt) as [op Hop]. destruct (lookup_lt_is_Some_2 pasts i) as [past Hp]; [lia|].
  pose proof (Hg i op g past Hop Hi Hp) as Hgi.
  assert (forall lg lo, wlog (world s') = wlog (world (sh c)) ++ lg -> omap on_operand lg = lo -> gdone (full op) (past ++ lo) g' ->
    done_inv full ops w (mkConfig (<[i := g']> (gors c)) s')) as Hstep.
  { intros lg lo Hw Ho Hg'. exists (seg ++ lg), (<[i := past ++ lo]> pasts). cbn. rewrite !length_insert.
    split_and!; [by rewrite Hw, Hlog, app_assoc|by rewrite omap_app, Ho, Hperm, (concat_insert_app _ _ _ _ Hp)|done|done|].
    intros j op' g'' past' Hop'. destruct (decide (i = j)) as [<-|Hne].
    - rewrite !list_lookup_insert_eq by lia. intros [= <-] [= <-]. by rewrite Hop in Hop'; simplify_eq.
    - rewrite !list_lookup_insert_ne by done. by apply Hg. }
  destruct g as [[[ev e]|u k]|ev [e|]|[ev|] e|ev e|ev e|ev e]; cbn in Hm; try case_bool_decide; simplify_eq;
    cbn in Hgi; try (apply (Hstep [] []); cbn; [by rewrite app_nil_r|done|by rewrite app_nil_r]).
  - destruct (Hgi (world (sh c))) as (lg & Hw & Ho & Hk). by apply (Hstep lg lg).
  - apply (Hstep [CRecord] []); cbn; [|done|by rewrite app_nil_r].
    unfold logged. by destruct (recorder exe ev (wst (world (sh c)))).
Qed.

Lemma concurrent_calls exe sched (ops : list Op) (call : Call) full obj ref w w' r : completes call full ->
  concurrentExec exe sched ops call obj ref w = Done (w', (r, None)) ->
  exists seg, wlog w' = wlog w ++ seg /\ omap on_operand seg ≡ₚ concat ((fun op => full op obj ref) <$> ops).
Proof.
  intros Hcall. unfold concurrentExec. set (c := moves exe (length ops) sched (spawn ops call obj ref w)).
  destruct (Z.eqb_spec (wg (sh c)) 0) as [Hwg|]; [|done]. intros [= <- _ He%drainErrors_None].
  assert (done_inv (fun op => full op obj ref) ops w c) as Hs.
  { subst c. generalize (done_inv_spawn ops call full obj ref w Hcall). generalize (spawn ops call obj ref w). clear He Hwg.
    induction sched as [|i sched IH]; intros c Hc; [done|]. apply IH. by apply done_inv_move. }
  destruct (wg_zero_outcomes (length ops) c (cinv_moves _ _ _ _ (cinv_spawn ops call obj ref w)) Hwg) as (outs & Hg & Herr & _).
  rewrite He in Herr. symmetry in Herr. apply Permutation_nil_r in Herr.
  destruct Hs as (seg & pasts & Hlog & Hperm & Hlp & Hlg & Hgd). exists seg. split; [done|]. rewrite Hperm.
  apply Permutation_refl'. f_equal. apply list_eq. intros i. rewrite list_lookup_fmap. destruct (ops !! i) as [op|] eqn:Hop.
  - pose proof (lookup_lt_Some _ _ _ Hop) as Hlt. destruct (lookup_lt_is_Some_2 pasts i) as [past Hp]; [lia|]. rewrite Hp. cbn. f_equal.
    rewrite Hg, length_fmap in Hlg. destruct (lookup_lt_is_Some_2 outs i) as [o Ho]; [lia|].
    apply (Hgd i op (GExit o.1 o.2) past Hop); [by rewrite Hg, list_lookup_fmap, Ho|done|].
    destruct o as [ev [x|]]; [|done]. assert (x ∈ omap snd outs) as Hx; [|by rewrite Herr in Hx; apply elem_of_nil in Hx].
    apply list_elem_of_omap. exists (ev, Some x). split; [by eapply list_elem_of_lookup_2|done].
  - apply lookup_ge_None in Hop. apply lookup_ge_None_2. lia.
Qed.

(** An execution that ends without an error and without a requeue has made exactly
    the calls that the success of every operand of its order takes, and no other
    call on an operand. *)
Lemma ExecuteOperands_calls exe (call : Call) full obj ref order : completes call full -> forall scheds w w' res,
  ExecuteOperands exe scheds order call obj ref w = Done (w', (res, None)) -> Requeue res = false ->
  exists l, wlog w' = wlog w ++ l /\ omap on_operand l ≡ₚ concat ((fun op => full op obj ref) <$> concat order).
Proof.
  intros Hcall. induction order as [|ops order IH]; intros scheds w w' res Hexec Hq.
  { cbn in Hexec. simplify_eq. exists []. by rewrite app_nil_r. }
  assert (forall w1 seg, wlog w1 = wlog w ++ seg -> omap on_operand seg ≡ₚ concat ((fun op => full op obj ref) <$> ops) ->
    ExecuteOperands exe (tail scheds) order call obj ref w1 = Done (w', (res, None)) ->
    exists l, wlog w' = wlog w ++ l /\ omap on_operand l ≡ₚ concat ((fun op => full op obj ref) <$> concat (ops :: order))) as Hrest.
  { intros w1 seg Hw1 Hseg Hex. destruct (IH _ _ _ _ Hex Hq) as (l & Hl & Hc). exists (seg ++ l).
    rewrite Hl, Hw1, <- app_assoc. split; [done|]. cbn. by rewrite omap_app, fmap_app, concat_app, Hseg, Hc. }
  cbn [ExecuteOperands] in Hexec. destruct (execStrategy exe =? Serial)%Z; [|destruct (execStrategy exe =? Parallel)%Z; [|done]].
  - destruct (serialExec exe ops call obj ref w) as [w1 [r1 [e1|]]] eqn:Hser; [done|].
    destruct (serial_calls exe ops call full obj ref Hcall _ _ _ _ Hser) as (seg & Hw1 & Hc).
    case_match; [by simplify_eq|]. eapply Hrest; [exact Hw1|by rewrite Hc|done].
  - destruct (concurrentExec _ _ ops _ _ _ _) as [[w1 [r1 [e1|]]]| |] eqn:Hcon; try done.
    destruct (concurrent_calls _ _ _ _ _ _ _ _ _ _ Hcall Hcon) as (seg & Hw1 & Hc).
    case_match; [by simplify_eq|]. eapply Hrest; eauto.
Qed.
End barrier.

(** ** Witnesses *)

(** Two operands of one step under an interleaving: every goroutine needs eight
    moves. *)
Module ExecDemo.
Import RefErrors.
Definition ops : list (Operand (list string) unit unit string) :=
  [Demo.operand "a" []; Demo.pending "b" []].
Definition exe (s : ExecutionStrategy) : Executor (list string) string :=
  NewExecutor s (fun ev w => (w ++ ["event " +:+ ev], tt)).
Definition sched : list nat := mjoin (replicate 8 [1; 0]).
Definition order : list (list (Operand (list string) unit unit string)) :=
  [[Demo.operand "a" []; Demo.operand "c" []]; ops].

(** [b] is not ready, so the step fails, but the change made by [a] is reported. *)
Example concurrent_run : exists w e,
  concurrentExec (exe Parallel) sched ops CallEnsure tt tt Demo.w0 = Done (w, (Some emptyResult, Some e))
  /\ errors_Is e ErrNotReady_name = true.
Proof. eexists _, _. split; vm_compute; reflexivity. Qed.
End ExecDemo.

Import RefErrors.

Lemma concurrentExec_outcomes_witness :
  exists outs, length outs = 2 /\
    forall t, err_Is (NewAggregate [None; Some (errorf_w
      "operand %q readiness check failed: not in the desired state yet: %w" ["b"] ErrNotReady)]) t
      = existsb (fun o : option string * err => err_Is o.2 t) outs.
Proof.
  edestruct (concurrentExec_outcomes (ExecDemo.exe Parallel) ExecDemo.sched ExecDemo.ops CallEnsure tt tt
    Demo.w0) as (outs & Hf & _ & Ht & _); [vm_compute; reflexivity|].
  exists outs. split; [by rewrite <- (Forall2_length _ _ _ Hf)|exact Ht].
Defined.

Lemma serial_refines_concurrent_witness :
  exists sched, concurrentExec (ExecDemo.exe Serial) sched [Demo.operand "a" []; Demo.operand "c" []]
    CallEnsure tt tt Demo.w0 =
    Done (mkWorld ["ensure a"; "event a"; "ensure c"; "event c"]
            [CEnsure "a" tt tt; CReadyCheck "a" tt; CPostReady "a" tt; CRecord;
             CEnsure "c" tt tt; CReadyCheck "c" tt; CPostReady "c" tt; CRecord], (Some emptyResult, None)).
Proof. apply serial_refines_concurrent. vm_compute. reflexivity. Defined.

