(* ===== verification/CompositeOperator.v ===== *)
(** The composite operator: [operator/v1/composite_operator.go] and [operate.go].

    It puts the operand graph, the order and the executor together.  Executing
    operands may interleave them, so [Ensure] and [Cleanup] take the schedules of
    the steps; building the order may run out of fuel, which it does not for
    valid operands (see [Dag]). *)
From S2P Require Import Prelude Operand Dag Executor.

(** [defaultRetryPeriod]. *)
Definition defaultRetryPeriod : Z := 5 * second.

Section composite_operator.
Context {W Obj Ref Ev : Type} `{ErrorLib}.
Local Abbreviation Op := (Operand W Obj Ref Ev).
Local Abbreviation St := (World W (OpCall Obj Ref)).
Context `{DAGLib Op} `{MapRange}.

(** [type CompositeOperator struct]; [recorder] is nil until an option sets it,
    [executor] and [DAG] until the constructor does. *)
Record CompositeOperator := mkCompositeOperator {
  Operands : list Op;
  co_DAG : option DAG;
  isSuspended : Obj -> M W bool;
  order : list (list Op);
  executionStrategy : ExecutionStrategy;
  co_recorder : option (Ev -> M W unit);
  executor : option (Executor W Ev);
  retryPeriod : Z;
}.

(** [defaultIsSuspended]. *)
Definition defaultIsSuspended (obj : Obj) : M W bool := mret false.

(** [type CompositeOperatorOption] and the options. *)
Definition CompositeOperatorOption := CompositeOperator -> CompositeOperator.

Definition WithExecutionStrategy (strategy : ExecutionStrategy) : CompositeOperatorOption :=
  fun c => mkCompositeOperator (Operands c) (co_DAG c) (isSuspended c) (order c) strategy
             (co_recorder c) (executor c) (retryPeriod c).
Definition WithOperands (operands : list Op) : CompositeOperatorOption :=
  fun c => mkCompositeOperator operands (co_DAG c) (isSuspended c) (order c) (executionStrategy c)
             (co_recorder c) (executor c) (retryPeriod c).
Definition WithSuspensionCheck (f : Obj -> M W bool) : CompositeOperatorOption :=
  fun c => mkCompositeOperator (Operands c) (co_DAG c) f (order c) (executionStrategy c)
             (co_recorder c) (executor c) (retryPeriod c).
Definition WithEventRecorder (r : Ev -> M W unit) : CompositeOperatorOption :=
  fun c => mkCompositeOperator (Operands c) (co_DAG c) (isSuspended c) (order c) (executionStrategy c)
             (Some r) (executor c) (retryPeriod c).
Definition WithRetryPeriod (duration : Z) : CompositeOperatorOption :=
  fun c => mkCompositeOperator (Operands c) (co_DAG c) (isSuspended c) (order c) (executionStrategy c)
             (co_recorder c) (executor c) duration.

(** The defaults of [NewCompositeOperator]. *)
Definition newDefaults : CompositeOperator :=
  mkCompositeOperator [] None defaultIsSuspended [] Parallel None None defaultRetryPeriod.

(** [NewCompositeOperator]: defaults, options, the recorder check, the graph, the
    order and the executor. *)
Definition NewCompositeOperator (fuel : nat) (opts : list CompositeOperatorOption)
  : outcome (error + CompositeOperator) :=
  let c := foldl (fun c opt => opt c) newDefaults opts in
  match co_recorder c with
  | None => Done (inl (errors_New "EventRecorder must be provided to the CompositeOperator"))
  | Some r =>
    match NewOperandDAG (Operands c) with
    | inl e => Done (inl e)
    | inr od =>
      match Order fuel od with
      | OutOfFuel => OutOfFuel
      | Panic m => Panic m
      | Done (_, Some e) => Done (inl e)
      | Done (ord, None) =>
        Done (inr (mkCompositeOperator (Operands c) (Some od) (isSuspended c) ord
          (executionStrategy c) (Some r) (Some (NewExecutor (executionStrategy c) r)) (retryPeriod c)))
      end
    end
  end.

(** [CompositeOperator.Order]. *)
Definition co_Order (co : CompositeOperator) : list (list Op) := order co.

(** A call that is not part of the operand log. *)
Definition unlogged {A} (m : M W A) : M St A :=
  fun w => let '(s, a) := m (wst w) in (mkWorld s (wlog w), a).

(** [CompositeOperator.IsSuspended]. *)
Definition IsSuspended (co : CompositeOperator) (obj : Obj) : M St bool :=
  unlogged (isSuspended co obj).

(** [co.executor.ExecuteOperands]; the executor is nil before the constructor
    has set it. *)
Definition execute (co : CompositeOperator) (scheds : list (list nat)) (ord : list (list Op))
  (c : Op -> Obj -> Ref -> proc St (option Ev * err)) (obj : Obj) (ownerRef : Ref) (w : St)
  : outcome (St * (Result * err)) :=
  match executor co with
  | None => Panic "nil pointer dereference"
  | Some exe => ExecuteOperands exe scheds ord c obj ownerRef w
  end.

(** [CompositeOperator.Ensure]. *)
Definition co_Ensure (co : CompositeOperator) (scheds : list (list nat)) (obj : Obj) (ownerRef : Ref)
  (w : St) : outcome (St * (Result * err)) :=
  let '(w, suspended) := IsSuspended co obj w in
  if negb suspended then
    match execute co scheds (order co) CallEnsure obj ownerRef w with
    | Done (w, (res, Some e)) =>
      if errors_Is e ErrNotReady_name
      then Done (w, (mkResult true (retryPeriod co), None))
      else Done (w, (requeueResult, Some e))
    | Done (w, (res, None)) => Done (w, (res, None))
    | Panic m => Panic m
    | OutOfFuel => OutOfFuel
    end
  else Done (w, (emptyResult, None)).

(** [CompositeOperator.Cleanup]; [emptyRef] is [metav1.OwnerReference{}]. *)
Definition Cleanup (co : CompositeOperator) (emptyRef : Ref) (scheds : list (list nat)) (obj : Obj)
  (w : St) : outcome (St * (Result * err)) :=
  let '(w, suspended) := IsSuspended co obj w in
  if negb suspended then execute co scheds (Reverse (order co)) CallCleanup obj emptyRef w
  else Done (w, (emptyResult, None)).
End composite_operator.
Arguments CompositeOperator _ _ _ _ {_}.
Arguments CompositeOperatorOption _ _ _ _ {_}.

(** ** What a reversed order contains *)

(** The middle step of an order with an odd number of steps. *)
Definition middle {A} (o : list (list A)) : list A :=
  if Nat.odd (length o) then default [] (o !! (length o / 2)) else [].

Section reverse.
Context {W Obj Ref Ev : Type}.
Local Abbreviation Op := (Operand W Obj Ref Ev).

Lemma concat_reverse_perm {A} (o : list (list A)) : concat (reverse o) ≡ₚ concat o.
Proof.
  induction o as [|x o IH]; [done|]. rewrite reverse_cons, concat_app, IH. cbn.
  by rewrite app_nil_r, Permutation_app_comm.
Qed.

(** [Reverse] is the reversal of the order with its middle step emptied. *)
Lemma Reverse_odd (o : list (list Op)) n : length o = 2 * n + 1 ->
  Reverse o = reverse (<[n := []]> o).
Proof.
  intros Hn. apply list_eq. intros i. destruct (decide (i < length o)).
  - rewrite Reverse_mirror by done. rewrite reverse_lookup by (rewrite length_insert; lia).
    rewrite length_insert. destruct (decide (2 * i + 1 = length o)).
    + replace (length o - S i) with n by lia. by rewrite list_lookup_insert_eq by lia.
    + rewrite list_lookup_insert_ne by lia. f_equal. lia.
  - rewrite !lookup_ge_None_2; [done| |]; rewrite ?length_reverse, ?length_insert, ?Reverse_length; lia.
Qed.

(** Nothing but the middle step is missing from a reversed order. *)
Lemma Reverse_concat (o : list (list Op)) : concat (Reverse o) ++ middle o ≡ₚ concat o.
Proof.
  unfold middle. destruct (Nat.odd (length o)) eqn:Hodd.
  - apply Nat.odd_spec in Hodd as [n Hn]. rewrite (Reverse_odd o n Hn), concat_reverse_perm.
    replace (length o / 2) with n by (rewrite Hn, Nat.mul_comm, Nat.div_add_l by done; cbn; lia).
    destruct (lookup_lt_is_Some_2 o n) as [x Hx]; [lia|]. rewrite Hx. cbn.
    rewrite (Permutation_app_comm _ x). symmetry. apply concat_insert_rest. by rewrite app_nil_r.
  - assert (Nat.even (length o) = true) as He by (by rewrite <- Nat.negb_odd, Hodd).
    apply Nat.even_spec in He as [n Hn]. rewrite (Reverse_even o n Hn), app_nil_r.
    apply concat_reverse_perm.
Qed.
End reverse.

(** ** Properties *)

Section composite_operator_claims.
Context {W Obj Ref Ev : Type} `{ErrorLibLaws}.
Local Abbreviation Op := (Operand W Obj Ref Ev).
Local Abbreviation St := (World W (OpCall Obj Ref)).
Context `{DAGLaws Op} `{MapRangeLaws}.
Local Abbreviation CO := (CompositeOperator W Obj Ref Ev).

(** [NewCompositeOperator] with its order computed. *)
Lemma NewCompositeOperator_inv fuel opts co :
  NewCompositeOperator fuel opts = Done (inr co) ->
  ordered fuel (Operands co) (order co) /\
  exists r, co_recorder co = Some r /\ executor co = Some (mkExecutor (executionStrategy co) r).
Proof.
  unfold NewCompositeOperator. set (c := foldl _ _ _).
  destruct (co_recorder c) as [r|]; [|done].
  destruct (NewOperandDAG (Operands c)) as [|od] eqn:Hod; [done|].
  destruct (Order fuel od) as [[ord []]| |] eqn:Ho; try done. intros [= <-]. cbn.
  split; [by exists od|]. by exists r.
Qed.

(** With a recorder and valid operands the constructor returns an operator
    that keeps what the options configured and whose order contains every operand
    exactly once. *)
Theorem NewCompositeOperator_ok fuel opts r :
  let c := foldl (fun c opt => opt c) newDefaults opts in
  co_recorder c = Some r -> valid_operands (Operands c) -> length (Operands c) <= fuel ->
  exists co, NewCompositeOperator fuel opts = Done (inr co) /\
    Operands co = Operands c /\ retryPeriod co = retryPeriod c /\
    isSuspended co = isSuspended c /\ executor co = Some (mkExecutor (executionStrategy c) r) /\
    concat (co_Order co) ≡ₚ Operands c.
Proof.
  intros c Hr Hv Hf. unfold NewCompositeOperator. fold c. rewrite Hr.
  destruct (ordered_total (Operands c) fuel Hv Hf) as (ord & (g & Hg & Ho) & Hperm).
  rewrite Hg, Ho. eexists. split; [reflexivity|]. by cbn.
Qed.

Lemma execute_requeue co scheds ord (c : Op -> Obj -> Ref -> proc St (option Ev * err)) obj ref w w' res e :
  execute co scheds ord c obj ref w = Done (w', (res, e)) ->
  res = emptyResult \/ res = requeueResult.
Proof.
  unfold execute. destruct (executor co) as [exe|]; [|done]. revert scheds w.
  induction ord as [|ops ord IH]; intros scheds w; [cbn; naive_solver|]. cbn [ExecuteOperands].
  destruct (execStrategy exe =? Serial)%Z; [|destruct (execStrategy exe =? Parallel)%Z].
  - destruct (serialExec exe ops c obj ref w) as [w1 [r1 [e1|]]]; [naive_solver|].
    case_match; [naive_solver|]. apply IH.
  - destruct (concurrentExec _ _ ops _ _ _ _) as [[w1 [r1 [e1|]]]| |]; try done; [naive_solver|].
    case_match; [naive_solver|]. apply IH.
  - naive_solver.
Qed.

(** C13: what [Ensure] returns, in every case.  A suspended operator runs no operand
    and returns an empty result.  Otherwise the operands are executed in the
    operator's order, and the outcome of that execution decides: an error that is
    [ErrNotReady] becomes a requeue after the retry period without an error, every
    other error is returned as it is with an immediate requeue, and without an error
    the result of the execution is returned, which is empty or an immediate requeue.
    [ErrNotReady] itself is never returned. *)
Theorem Ensure_outcome co scheds obj ref w w' res e :
  co_Ensure co scheds obj ref w = Done (w', (res, e)) ->
  let '(ws, suspended) := IsSuspended co obj w in
  err_Is e ErrNotReady_name = false /\
  if suspended then w' = ws /\ wlog w' = wlog w /\ res = emptyResult /\ e = None
  else exists r x, execute co scheds (order co) CallEnsure obj ref ws = Done (w', (r, x)) /\
    match x with
    | Some y => (res, e) = if errors_Is y ErrNotReady_name then (mkResult true (retryPeriod co), None) else (requeueResult, Some y)
    | None => (res, e) = (r, None) /\ (r = emptyResult \/ r = requeueResult)
    end.
Proof.
  unfold co_Ensure, IsSuspended, unlogged. destruct (isSuspended co obj (wst w)) as [s [|]]; cbn.
  { intros [= <- <- <-]. by split_and!. }
  destruct (execute co scheds (order co) CallEnsure obj ref _) as [[w1 [r1 [e1|]]]| |] eqn:Hex; try done.
  - destruct (errors_Is e1 ErrNotReady_name) eqn:He; intros [= <- <- <-]; (split; [done|]);
      exists r1, (Some e1); by rewrite He.
  - intros [= <- <- <-]. split; [done|]. exists r1, None. split_and!; [done|done|]. by eapply execute_requeue.
Qed.

Lemma calls_perm (full : Op -> list (OpCall Obj Ref)) (l k : list Op) : l ≡ₚ k -> concat (full <$> l) ≡ₚ concat (full <$> k).
Proof. by intros ->. Qed.

Lemma Ensure_calls_all fuel opts co scheds obj ref w w' res :
  NewCompositeOperator fuel opts = Done (inr co) ->
  NoDup (Name <$> Operands co) -> acyclic (depEdges (Operands co)) -> length (Operands co) <= fuel ->
  snd (IsSuspended co obj w) = false ->
  co_Ensure co scheds obj ref w = Done (w', (res, None)) -> Requeue res = false ->
  exists l, wlog w' = wlog w ++ l /\ omap on_operand l ≡ₚ concat ((fun op => calls_Ensure op obj ref) <$> Operands co).
Proof.
  intros Hnew Hnd Hac Hf Hs Hens Hq. destruct (NewCompositeOperator_inv _ _ _ Hnew) as (Hord & r & _ & Hexe).
  destruct (ordered_spec fuel _ _ Hnd Hac Hf Hord) as [Hperm _]. revert Hs Hens.
  unfold co_Ensure, IsSuspended, unlogged, execute. rewrite Hexe.
  destruct (isSuspended co obj (wst w)) as [s b]; cbn; intros ->; cbn.
  destruct (ExecuteOperands _ _ _ _ _ _ _) as [[w1 [r1 [e1|]]]| |] eqn:Hex; try done.
  { case_match; intros; simplify_eq. }
  intros [= <- <-]. destruct (ExecuteOperands_calls _ _ _ _ _ _ CallEnsure_completes _ _ _ _ Hex Hq) as (l & Hl & Hc).
  exists l. split; [done|]. rewrite Hc. by apply calls_perm.
Qed.

(** C6: when an operator whose operands have distinct names and acyclic dependencies
    is not suspended and ensures without an error and without asking for a requeue,
    then, whatever the strategy and interleaving, it has called Ensure, ReadyCheck and
    PostReady of every operand it was configured with exactly once, with the object
    and the owner reference it was given, and has made no other call on an
    operand. *)
Theorem Ensure_complete fuel opts co scheds obj ref w w' res :
  NewCompositeOperator fuel opts = Done (inr co) ->
  NoDup (Name <$> Operands co) -> acyclic (depEdges (Operands co)) -> length (Operands co) <= fuel ->
  snd (IsSuspended co obj w) = false ->
  co_Ensure co scheds obj ref w = Done (w', (res, None)) -> Requeue res = false ->
  exists l, wlog w' = wlog w ++ l /\ omap on_operand l ≡ₚ
    concat ((fun op => [CEnsure (Name op) obj ref; CReadyCheck (Name op) obj; CPostReady (Name op) obj]) <$> Operands co).
Proof. apply Ensure_calls_all. Qed.

Lemma concat_singletons {A B} (f : A -> B) (l : list A) : concat ((fun a => [f a]) <$> l) = f <$> l.
Proof. induction l as [|a l IH]; cbn; [done|]. by rewrite IH. Qed.

(** C14: a cleanup of an operator whose operands have distinct names and acyclic
    dependencies, which is not suspended, that ends without an error and without a
    requeue has called Delete of every operand exactly once, except those in the
    middle step of an order with an odd number of steps, and has made no other call
    on an operand. *)
Theorem Cleanup_complete fuel opts co emptyRef scheds obj w w' res :
  NewCompositeOperator fuel opts = Done (inr co) ->
  NoDup (Name <$> Operands co) -> acyclic (depEdges (Operands co)) -> length (Operands co) <= fuel ->
  snd (IsSuspended co obj w) = false ->
  Cleanup co emptyRef scheds obj w = Done (w', (res, None)) -> Requeue res = false ->
  exists l, wlog w' = wlog w ++ l /\
    omap on_operand l ++ ((fun op => CDelete (Name op) obj) <$> middle (co_Order co)) ≡ₚ
    (fun op => CDelete (Name op) obj) <$> Operands co.
Proof.
  intros Hnew Hnd Hac Hf Hs Hcl Hq. destruct (NewCompositeOperator_inv _ _ _ Hnew) as (Hord & r & _ & Hexe).
  destruct (ordered_spec fuel _ _ Hnd Hac Hf Hord) as [Hperm _]. revert Hs Hcl.
  unfold Cleanup, IsSuspended, unlogged, execute. rewrite Hexe.
  destruct (isSuspended co obj (wst w)) as [s b]; cbn; intros ->; cbn. intros Hex.
  destruct (ExecuteOperands_calls _ _ _ _ _ _ CallCleanup_completes _ _ _ _ Hex Hq) as (l & Hl & Hc). exists l. split; [done|].
  rewrite Hc. unfold calls_Cleanup, co_Order. by rewrite concat_singletons, <- fmap_app, (Reverse_concat (order co)), Hperm.
Qed.
End composite_operator_claims.

(** ** Witnesses *)

Module OperatorDemo.
Import RefErrors RefRange RefDag.
Definition record (ev : string) : M (list string) unit := fun w => (w ++ ["event " +:+ ev], tt).
Definition opts (ops : list (Operand (list string) unit unit string)) (s : ExecutionStrategy)
  : list (CompositeOperatorOption (list string) unit unit string) :=
  [WithOperands ops; WithExecutionStrategy s; WithEventRecorder record].

(** The operator the constructor returns for given options. *)
Definition built {A} (o : outcome (error + A)) (d : A) : A :=
  match o with Done (inr a) => a | _ => d end.
Definition operator (ops : list (Operand (list string) unit unit string)) (s : ExecutionStrategy) :=
  built (NewCompositeOperator 3 (opts ops s)) newDefaults.

(** One operand: cleaning up reports success and calls nothing. *)
Definition single := operator [Demo.operand "a" []] Serial.
Example single_cleanup : Cleanup single tt [] tt Demo.w0 = Done (Demo.w0, (emptyResult, None)).
Proof. vm_compute. reflexivity. Qed.

(** Two operands in a chain: the dependent is deleted first. *)
Definition pair := operator [Demo.operand "a" []; Demo.operand "b" ["a"]] Serial.
Example pair_cleanup : exists w, Cleanup pair tt [] tt Demo.w0 = Done (w, (emptyResult, None)) /\
  wst w = ["delete b"; "event b"; "delete a"; "event a"].
Proof. eexists. split; vm_compute; reflexivity. Qed.
End OperatorDemo.

Import RefErrors RefRange RefDag.

Lemma NewCompositeOperator_ok_witness :
  exists co, NewCompositeOperator 3 (OperatorDemo.opts DagDemo.ops Serial) = Done (inr co) /\
    retryPeriod co = defaultRetryPeriod /\ concat (co_Order co) ≡ₚ DagDemo.ops.
Proof.
  destruct (NewCompositeOperator_ok 3 (OperatorDemo.opts DagDemo.ops Serial) OperatorDemo.record
    eq_refl DagDemo.ops_valid (le_n 3)) as (co & Hnew & _ & Hr & _ & _ & Ho).
  exists co. split; [exact Hnew|]. split; [exact Hr|exact Ho].
Defined.

(** An operand that is not ready: the outcome is the requeue after the retry period. *)
Lemma Ensure_outcome_witness :
  exists w r x, co_Ensure (OperatorDemo.operator [Demo.pending "a" []] Serial) [] tt tt Demo.w0 =
    Done (w, (mkResult true defaultRetryPeriod, None)) /\
  execute (OperatorDemo.operator [Demo.pending "a" []] Serial) []
      (order (OperatorDemo.operator [Demo.pending "a" []] Serial)) CallEnsure tt tt Demo.w0 = Done (w, (r, x)) /\
  err_Is x ErrNotReady_name = true.
Proof.
  assert (exists w, co_Ensure (OperatorDemo.operator [Demo.pending "a" []] Serial) [] tt tt Demo.w0 =
    Done (w, (mkResult true defaultRetryPeriod, None))) as [w Hw] by (eexists; vm_compute; reflexivity).
  destruct (Ensure_outcome (OperatorDemo.operator [Demo.pending "a" []] Serial) [] tt tt Demo.w0 w
    (mkResult true defaultRetryPeriod) None Hw) as (_ & r & x & Hex & Hx).
  exists w, r, x. split; [exact Hw|]. split; [exact Hex|]. destruct x as [y|].
  - cbn. destruct (errors_Is y ErrNotReady_name); [reflexivity|discriminate Hx].
  - destruct Hx as [Hr [->| ->]]; discriminate Hr.
Defined.

Lemma Ensure_complete_witness :
  exists (w : World (list string) (OpCall unit unit)) l, wlog w = wlog Demo.w0 ++ l /\
    omap on_operand l ≡ₚ [CEnsure "a" tt tt; CReadyCheck "a" tt; CPostReady "a" tt; CEnsure "b" tt tt; CReadyCheck "b" tt;
      CPostReady "b" tt; CEnsure "c" tt tt; CReadyCheck "c" tt; CPostReady "c" tt].
Proof.
  eexists. eapply (Ensure_complete 3 (OperatorDemo.opts DagDemo.chain Serial)
    (OperatorDemo.operator DagDemo.chain Serial) [] tt tt Demo.w0 _ emptyResult).
  - vm_compute. reflexivity.
  - exact DagDemo.chain_names.
  - exact DagDemo.chain_acyclic.
  - exact (le_n 3).
  - reflexivity.
  - vm_compute. reflexivity.
  - reflexivity.
Defined.

(** Of a chain of three operands only the first and the last are deleted. *)
Lemma Cleanup_complete_witness :
  exists (w : World (list string) (OpCall unit unit)) l, wlog w = wlog Demo.w0 ++ l /\
    omap on_operand l ++ [CDelete "b" tt] ≡ₚ [CDelete "a" tt; CDelete "b" tt; CDelete "c" tt].
Proof.
  eexists. eapply (Cleanup_complete 3 (OperatorDemo.opts DagDemo.chain Serial)
    (OperatorDemo.operator DagDemo.chain Serial) tt [] tt Demo.w0 _ emptyResult).
  - vm_compute. reflexivity.
  - exact DagDemo.chain_names.
  - exact DagDemo.chain_acyclic.
  - exact (le_n 3).
  - reflexivity.
  - vm_compute. reflexivity.
  - reflexivity.
Defined.
