(* ===== verification/Object.v ===== *)
(** API objects: [object/object.go], [object/list.go], [singleton/*.go] and
    [error/error.go].

    An unstructured object is a tree of JSON-like values.  The conversion of a
    typed object into one is [runtime.Scheme.Convert], a parameter, as are the
    accessors of [client.Object]. *)
From S2P Require Import Prelude.

(** ** Unstructured values *)

(** The dynamic types an [interface{}] holds in the content of an
    [unstructured.Unstructured].  A map is the list of its entries (see
    [wf_value]: keys are distinct); a float is given by its IEEE 754 bits. *)
Inductive value : Type :=
| VNil
| VBool (b : bool)
| VInt (z : Z)
| VFloat (bits : Z)
| VStr (s : string)
| VList (l : list value)
| VMap (m : list (string * value)).

(** [m[k]] of a Go map. *)
Fixpoint map_get (k : string) (m : list (string * value)) : option value :=
  match m with
  | [] => None
  | (k', v) :: m => if bool_decide (k' = k) then Some v else map_get k m
  end.

(** Keys are distinct, at every depth. *)
Fixpoint wf_value (v : value) : Prop :=
  match v with
  | VList l => foldr (fun v P => wf_value v /\ P) True l
  | VMap m => NoDup m.*1 /\ foldr (fun e P => wf_value e.2 /\ P) True m
  | _ => True
  end.

(** [==] on float64: NaN differs from itself and the two zeros are equal. *)
Definition float_NaN (bits : Z) : bool :=
  let exp := Z.land (Z.shiftr bits 52) 2047 in
  let frac := Z.land bits (Z.ones 52) in
  (exp =? 2047)%Z && negb (frac =? 0)%Z.
Definition float_zero (bits : Z) : bool := (Z.land bits (Z.ones 63) =? 0)%Z.
Definition float_eq (a b : Z) : bool :=
  negb (float_NaN a) && negb (float_NaN b) && ((a =? b)%Z || (float_zero a && float_zero b)).

(** [reflect.DeepEqual] on these values: maps are equal when they have the same
    length and every key of the first is in the second with an equal value. *)
Fixpoint DeepEqual (a b : value) : bool :=
  match a, b with
  | VNil, VNil => true
  | VBool x, VBool y => Bool.eqb x y
  | VInt x, VInt y => (x =? y)%Z
  | VFloat x, VFloat y => float_eq x y
  | VStr x, VStr y => bool_decide (x = y)
  | VList l1, VList l2 =>
    (fix go l1 l2 := match l1, l2 with
                     | [], [] => true
                     | x :: l1, y :: l2 => DeepEqual x y && go l1 l2
                     | _, _ => false
                     end) l1 l2
  | VMap m1, VMap m2 =>
    bool_decide (length m1 = length m2) &&
    (fix go m1 := match m1 with
                  | [] => true
                  | (k, v) :: m1 =>
                    match map_get k m2 with Some v' => DeepEqual v v' | None => false end && go m1
                  end) m1
  | _, _ => false
  end.

(** The loop of [NestedFieldNoCopy]: [val], and the fields already followed. *)
Fixpoint NestedFieldNoCopy_loop (val : value) (done fields : list string) : option value * bool * err :=
  match fields with
  | [] => (Some val, true, None)
  | field :: fields =>
    match val with
    | VMap m =>
      match map_get field m with
      | None => (None, false, None)
      | Some val => NestedFieldNoCopy_loop val (done ++ [field]) fields
      end
    | _ => (None, false, Some (errorf
             "%v accessor error: %v is of the type %T, expected map[string]interface{}"
             [String.concat "." (done ++ [field])] [] None))
    end
  end.

(** [NestedFieldNoCopy]: the value (nil when there is none), whether it was found
    and an error when the path runs through something that is not a map. *)
Definition NestedFieldNoCopy (obj : list (string * value)) (fields : list string)
  : option value * bool * err :=
  NestedFieldNoCopy_loop (VMap obj) [] fields.

(** [GetObjectStatus]. *)
Definition GetObjectStatus (obj : list (string * value)) : error + list (string * value) :=
  match NestedFieldNoCopy obj ["status"] with
  | (_, _, Some e) => inl (errorf_v "error reading object status: %v" [] e)
  | (_, false, None) => inl (errors_New "object status not found")
  | (Some (VMap m), true, None) => inr m
  | (_, true, None) => inl (errors_New "status was not of type map[string]interface{}")
  end.

(** ** Objects and schemes *)

(** [metav1.OwnerReference]; the two flags may be nil. *)
Record OwnerReference := mkOwnerReference {
  or_APIVersion : string;
  or_Kind : string;
  or_Name : string;
  or_UID : string;
  or_Controller : option bool;
  or_BlockOwnerDeletion : option bool;
}.

(** What the code uses of [client.Object] and of controller-runtime's
    [controllerutil] finalizer helpers.  [GroupVersion] is the string of the
    group and version of the object kind. *)
Class ClientObject (Obj : Type) := {
  GetName : Obj -> string;
  GetNamespace : Obj -> string;
  SetName : Obj -> string -> Obj;
  SetNamespace : Obj -> string -> Obj;
  GetUID : Obj -> string;
  GroupVersion : Obj -> string;
  Kind : Obj -> string;
  DeletionTimestampIsZero : Obj -> bool;
  GetFinalizers : Obj -> list string;
  ContainsFinalizer : Obj -> string -> bool;
  AddFinalizer : Obj -> string -> Obj;
  RemoveFinalizer : Obj -> string -> Obj;
}.

(** Documented behaviour: the setters set what the getters return; adding appends a missing finalizer, removing drops it
    and keeps the others, and neither touches the deletion timestamp. *)
Class ClientObjectLaws (Obj : Type) `{ClientObject Obj} : Prop := {
  GetName_SetName : forall o n, GetName (SetName o n) = n;
  GetName_SetNamespace : forall o n, GetName (SetNamespace o n) = GetName o;
  GetNamespace_SetNamespace : forall o n, GetNamespace (SetNamespace o n) = n;
  ContainsFinalizer_spec : forall o f, ContainsFinalizer o f = contains (GetFinalizers o) f;
  AddFinalizer_spec : forall o f, ContainsFinalizer o f = false ->
    GetFinalizers (AddFinalizer o f) = GetFinalizers o ++ [f];
  RemoveFinalizer_spec : forall o f g,
    g ∈ GetFinalizers (RemoveFinalizer o f) <-> g ∈ GetFinalizers o /\ g <> f;
  AddFinalizer_deletion : forall o f,
    DeletionTimestampIsZero (AddFinalizer o f) = DeletionTimestampIsZero o;
  RemoveFinalizer_deletion : forall o f,
    DeletionTimestampIsZero (RemoveFinalizer o f) = DeletionTimestampIsZero o;
}.

(** [runtime.Scheme.Convert] into an Unstructured, [Unstructured.IsList],
    [apiutil.GVKForObject] (its kind). *)
Class Scheme (Obj : Type) := {
  Convert : Obj -> error + list (string * value);
  u_IsList : list (string * value) -> bool;
  GVKForObject : Obj -> error + string;
}.

(** [apimeta.ExtractList] and [apimeta.Accessor] (namespace and name). *)
Class MetaLib (Obj OList : Type) := {
  ExtractList : OList -> error + list Obj;
  Accessor : Obj -> error + NamespacedName;
}.

(** [OwnerReferenceFromObject]. *)
Definition OwnerReferenceFromObject `{ClientObject Obj} (obj : Obj) : OwnerReference :=
  mkOwnerReference (GroupVersion obj) (Kind obj) (GetName obj) (GetUID obj) None None.

Section object.
Context {Obj : Type} `{Scheme Obj}.

(** [GetUnstructuredObject]. *)
Definition GetUnstructuredObject (obj : Obj) : error + list (string * value) :=
  match Convert obj with
  | inl e => inl (errorf_v "failed to convert Object to Unstructured: %v" [] e)
  | inr u => inr u
  end.

(** [IsInitialized]: is there a list of status conditions? *)
Definition IsInitialized (obj : Obj) : bool * err :=
  match GetUnstructuredObject obj with
  | inl e => (false, Some (errorf_v "failed to convert Object to Unstructured: %v" [] e))
  | inr u =>
    match GetObjectStatus u with
    | inl e => (false, Some (errorf_v "failed to get Object status: %v" [] e))
    | inr status =>
      match map_get "conditions" status with
      | Some (VList _) => (true, None)
      | _ => (false, None)
      end
    end
  end.

(** [StatusChanged]. *)
Definition StatusChanged (oldo newo : Obj) : bool * err :=
  match GetUnstructuredObject oldo with
  | inl e => (false, Some (errorf_v "failed to convert old Object to Unstructured: %v" [] e))
  | inr ou =>
  match GetObjectStatus ou with
  | inl e => (false, Some (errorf_v "failed to get old Object status: %v" [] e))
  | inr oldStatus =>
  match GetUnstructuredObject newo with
  | inl e => (false, Some (errorf_v "failed to convert new Object to Unstructured: %v" [] e))
  | inr nu =>
  match GetObjectStatus nu with
  | inl e => (false, Some (errorf_v "failed to get new Object status: %v" [] e))
  | inr newStatus =>
    if negb (DeepEqual (VMap oldStatus) (VMap newStatus)) then (true, None) else (false, None)
  end end end end.

(** [ClientObjects]: every object converted; a list among them is an error. *)
Fixpoint ClientObjects (objs : list Obj) : error + list (list (string * value)) :=
  match objs with
  | [] => inr []
  | o :: objs =>
    match Convert o with
    | inl e => inl e
    | inr u =>
      if u_IsList u then inl (errors_New "object is a list")
      else match ClientObjects objs with
           | inl e => inl e
           | inr result => inr (u :: result)
           end
    end
  end.

Context {OList : Type} `{MetaLib Obj OList}.

(** The loop of [NamespacedNames]. *)
Fixpoint names_loop (items : list Obj) (result : list NamespacedName) : error + list NamespacedName :=
  match items with
  | [] => inr result
  | item :: items =>
    match Accessor (OList := OList) item with
    | inl e => inl (errorf_w "failed to get accessor for %v: %w" [] e)
    | inr obj => names_loop items (result ++ [mkNN (NNNamespace obj) (NNName obj)])
    end
  end.

(** [NamespacedNames]. *)
Definition NamespacedNames (instances : OList) : error + list NamespacedName :=
  match ExtractList (Obj := Obj) instances with
  | inl e => inl (errorf_w "failed to extract objects from object list %v: %w" [] e)
  | inr items => names_loop items []
  end.

(** [NamespacedNamesDiff]: the nested loops. *)
Fixpoint diff_loop (a b result : list NamespacedName) : list NamespacedName :=
  match a with
  | [] => result
  | aa :: a =>
    let found := existsb (fun bb => bool_decide (aa = bb)) b in
    diff_loop a b (if negb found then result ++ [aa] else result)
  end.
Definition NamespacedNamesDiff (a b : list NamespacedName) : list NamespacedName := diff_loop a b [].

(** ** Singletons *)

(** [multipleObjectsFound], its constructor and [Error]. *)
Definition newMultipleObjectsFound (kind : string) (count : nat) : error :=
  typedError "singleton.multipleObjectsFound" [kind] (Z.of_nat count).

(** [IsMultipleInstancesFound]: does the error implement [MultipleInstances]? *)
Definition IsMultipleInstancesFound (e : err) : bool * Z :=
  match e with
  | Some (typedError t _ n) =>
    if bool_decide (t = "singleton.multipleObjectsFound") then (true, n) else (false, 0%Z)
  | _ => (false, 0%Z)
  end.

(** The function [GetInstance] returns: list, then decide on the number of
    items.  [cli] lists the kind of the prototype. *)
Definition getInstance {W} (prototypeList : OList) (cli : OList -> M W (OList * err))
  : M W (option (list (string * value)) * err) :=
  '(instances, listErr) ← cli prototypeList;
  match listErr with
  | Some _ => mret (None, listErr)
  | None =>
    match ExtractList (Obj := Obj) instances with
    | inl e => mret (None, Some e)
    | inr [] => mret (None, None)
    | inr [item] =>
      match ClientObjects [item] with
      | inl e => mret (None, Some e)
      | inr cobjs => mret (head cobjs, None)
      end
    | inr (item0 :: items) =>
      let objectKind := match GVKForObject item0 with inl _ => "unknown" | inr kind => kind end in
      mret (None, Some (newMultipleObjectsFound objectKind (S (length items))))
    end
  end.

(** [GetInstance]. *)
Definition GetInstance {W} (prototypeList : option OList) (scheme : option unit)
  : error + ((OList -> M W (OList * err)) -> M W (option (list (string * value)) * err)) :=
  match prototypeList, scheme with
  | None, _ => inl (errors_New "ObjectList must not be nil")
  | _, None => inl (errors_New "scheme must not be nil")
  | Some l, Some _ => inr (getInstance l)
  end.
End object.

(** ** Deep equality *)

(** Induction through the lists and maps of a value. *)
Section value_ind.
Context (P : value -> Prop) (Hnil : P VNil) (Hbool : forall b, P (VBool b)) (Hint : forall z, P (VInt z))
  (Hfloat : forall b, P (VFloat b)) (Hstr : forall s, P (VStr s))
  (Hlist : forall l, Forall P l -> P (VList l)) (Hmap : forall m, Forall (fun e => P e.2) m -> P (VMap m)).
Fixpoint value_nested_ind (v : value) : P v :=
  match v with
  | VNil => Hnil
  | VBool b => Hbool b
  | VInt z => Hint z
  | VFloat b => Hfloat b
  | VStr s => Hstr s
  | VList l => Hlist l ((fix go l := match l return Forall P l with
                                     | [] => Forall_nil_2 P
                                     | v :: l => Forall_cons_2 P v l (value_nested_ind v) (go l)
                                     end) l)
  | VMap m => Hmap m ((fix go m := match m return Forall (fun e => P e.2) m with
                                   | [] => Forall_nil_2 _
                                   | e :: m => Forall_cons_2 (fun e => P e.2) e m (value_nested_ind e.2) (go m)
                                   end) m)
  end.
End value_ind.

(** No NaN anywhere: the values on which deep equality is reflexive. *)
Fixpoint NaN_free (v : value) : Prop :=
  match v with
  | VFloat b => float_NaN b = false
  | VList l => foldr (fun v P => NaN_free v /\ P) True l
  | VMap m => foldr (fun e P => NaN_free e.2 /\ P) True m
  | _ => True
  end.

Lemma foldr_and_Forall {A} (P : A -> Prop) l : foldr (fun x Q => P x /\ Q) True l <-> Forall P l.
Proof. induction l as [|x l IH]; cbn; [done|]. by rewrite IH, Forall_cons. Qed.

Lemma DeepEqual_list l1 l2 : DeepEqual (VList l1) (VList l2) = true <->
  Forall2 (fun x y => DeepEqual x y = true) l1 l2.
Proof.
  revert l2. induction l1 as [|x l1 IH]; intros [|y l2]; cbn; try (split; [done|by inversion 1]).
  rewrite andb_true_iff, Forall2_cons, <- IH. done.
Qed.

Lemma DeepEqual_map m1 m2 : DeepEqual (VMap m1) (VMap m2) = true <->
  length m1 = length m2 /\
  Forall (fun e => exists v', map_get e.1 m2 = Some v' /\ DeepEqual e.2 v' = true) m1.
Proof.
  cbn. rewrite andb_true_iff, bool_decide_eq_true. apply and_iff_compat_l.
  induction m1 as [|[k v] m1 IH]; [done|]. rewrite andb_true_iff, Forall_cons, IH.
  apply and_iff_compat_r. cbn. destruct (map_get k m2); naive_solver.
Qed.

Lemma map_get_elem k v m : map_get k m = Some v -> (k, v) ∈ m.
Proof.
  induction m as [|[k' v'] m IH]; cbn; [done|]. case_bool_decide; intros; simplify_eq; [by left|].
  right. by apply IH.
Qed.

Lemma map_get_None k m : map_get k m = None <-> k ∉ m.*1.
Proof.
  induction m as [|[k' v'] m IH]; cbn; [split; [by intros _ ?%elem_of_nil|done]|].
  rewrite elem_of_cons. case_bool_decide; [naive_solver|]. rewrite IH. naive_solver.
Qed.

Lemma map_get_NoDup k v m : NoDup m.*1 -> (k, v) ∈ m -> map_get k m = Some v.
Proof.
  induction m as [|[k' v'] m IH]; cbn; [by intros _ ?%elem_of_nil|].
  intros [Hk Hnd]%NoDup_cons [[= -> ->]|Hin]%elem_of_cons; [by rewrite bool_decide_true|].
  case_bool_decide; [|by apply IH]. subst. destruct Hk. by apply (list_elem_of_fmap_2 fst) in Hin.
Qed.

(** Equal maps have the same keys: same length and no key left over. *)
Lemma DeepEqual_keys m1 m2 k : NoDup m1.*1 -> DeepEqual (VMap m1) (VMap m2) = true ->
  map_get k m1 = None -> map_get k m2 = None.
Proof.
  rewrite DeepEqual_map, !map_get_None. intros Hnd [Hlen Hall] Hk Hk2.
  assert (length (k :: m1.*1) <= length m2.*1) as Hle.
  { apply submseteq_length, NoDup_submseteq; [by constructor|].
    intros x [->|Hx]%elem_of_cons; [done|]. apply list_elem_of_fmap in Hx as ([k' v] & -> & Hin).
    rewrite Forall_forall in Hall. destruct (Hall _ Hin) as (v' & Hg & _).
    apply map_get_elem in Hg. by apply (list_elem_of_fmap_2 fst) in Hg. }
  cbn in Hle. rewrite !length_fmap in Hle. lia.
Qed.

Lemma wf_map_get m k v : wf_value (VMap m) -> map_get k m = Some v -> wf_value v.
Proof.
  intros [_ Hwf] Hg. apply (foldr_and_Forall (fun e : string * value => wf_value e.2)) in Hwf.
  rewrite Forall_forall in Hwf. by apply (Hwf _ (map_get_elem _ _ _ Hg)).
Qed.

Lemma DeepEqual_refl v : wf_value v -> NaN_free v -> DeepEqual v v = true.
Proof.
  induction v as [|b|z|b|s|l IH|m IH] using value_nested_ind; cbn [wf_value NaN_free]; try done.
  - intros _ _. apply Bool.eqb_reflx.
  - intros _ _. apply Z.eqb_refl.
  - intros _ HN. cbn. unfold float_eq. by rewrite HN, Z.eqb_refl.
  - intros _ _. by apply bool_decide_eq_true.
  - rewrite !foldr_and_Forall. intros Hwf HN. apply DeepEqual_list.
    induction l; [constructor|]. decompose_Forall_hyps. constructor; auto.
  - intros [Hnd Hwf] HN. apply (foldr_and_Forall (fun e : string * value => wf_value e.2)) in Hwf.
    apply (foldr_and_Forall (fun e : string * value => NaN_free e.2)) in HN.
    apply DeepEqual_map. split; [done|]. rewrite !Forall_forall in *. intros [k v] Hin.
    exists v. split; [by apply map_get_NoDup|]. by apply (IH _ Hin), (HN _ Hin); apply (Hwf _ Hin).
Qed.

(** Two lookups that both fail in the same way, or give equal values. *)
Definition agree (x y : option value * bool * err) : Prop :=
  match x, y with
  | (Some v, true, None), (Some v', true, None) => DeepEqual v v' = true
  | _, _ => x = y
  end.

Lemma agree_loop fields : forall a b done, wf_value a -> wf_value b -> DeepEqual a b = true ->
  agree (NestedFieldNoCopy_loop a done fields) (NestedFieldNoCopy_loop b done fields).
Proof.
  induction fields as [|f fields IH]; intros a b dn Ha Hb Heq; [done|].
  destruct a as [| | | | | |m1], b as [| | | | | |m2]; try done.
  cbn [NestedFieldNoCopy_loop]. destruct (map_get f m1) as [v|] eqn:Hf.
  - pose proof Heq as [_ Hall]%DeepEqual_map. rewrite Forall_forall in Hall.
    destruct (Hall _ (map_get_elem _ _ _ Hf)) as (v' & Hv' & Hd). cbn in Hv'. rewrite Hv'.
    apply IH; [exact (wf_map_get _ _ _ Ha Hf)|exact (wf_map_get _ _ _ Hb Hv')|done].
  - by rewrite (DeepEqual_keys m1 m2 f (proj1 Ha) Heq Hf).
Qed.

(** ** Properties *)

Lemma GetObjectStatus_inr u st : GetObjectStatus u = inr st <-> map_get "status" u = Some (VMap st).
Proof.
  unfold GetObjectStatus, NestedFieldNoCopy. cbn. destruct (map_get "status" u) as [[]|]; cbn; split; congruence.
Qed.

Section object_claims.
Context {Obj : Type} `{Scheme Obj}.

(** When [StatusChanged] reports no change, every path below the status
    leads to the same outcome in both objects: a deeply equal value, nothing, or
    the same accessor error. *)
Theorem StatusChanged_unchanged oldo newo ou nu fields :
  Convert oldo = inr ou -> Convert newo = inr nu -> wf_value (VMap ou) -> wf_value (VMap nu) ->
  StatusChanged oldo newo = (false, None) ->
  agree (NestedFieldNoCopy ou ("status" :: fields)) (NestedFieldNoCopy nu ("status" :: fields)).
Proof.
  intros Ho Hn Hwo Hwn. unfold StatusChanged, GetUnstructuredObject. rewrite Ho, Hn.
  destruct (GetObjectStatus ou) as [|so] eqn:Hso; [done|].
  destruct (GetObjectStatus nu) as [|sn] eqn:Hsn; [done|].
  apply GetObjectStatus_inr in Hso, Hsn.
  destruct (DeepEqual (VMap so) (VMap sn)) eqn:Hd; [|done]. intros _.
  unfold NestedFieldNoCopy. cbn [NestedFieldNoCopy_loop]. rewrite Hso, Hsn.
  apply agree_loop; [exact (wf_map_get _ _ _ Hwo Hso)|exact (wf_map_get _ _ _ Hwn Hsn)|done].
Qed.

(** An object whose status is left as it was is not reported as changed,
    whatever happens to the rest of the object. *)
Theorem StatusChanged_same oldo newo ou nu st :
  Convert oldo = inr ou -> Convert newo = inr nu -> wf_value (VMap ou) -> NaN_free (VMap ou) ->
  map_get "status" ou = Some (VMap st) -> map_get "status" nu = Some (VMap st) ->
  StatusChanged oldo newo = (false, None).
Proof.
  intros Ho Hn Hwf HN Hso Hsn. unfold StatusChanged, GetUnstructuredObject. rewrite Ho, Hn.
  apply GetObjectStatus_inr in Hsn. rewrite Hsn. pose proof Hso as Hso'.
  apply GetObjectStatus_inr in Hso'. rewrite Hso', DeepEqual_refl; [done|exact (wf_map_get _ _ _ Hwf Hso)|].
  cbn in HN. apply (foldr_and_Forall (fun e : string * value => NaN_free e.2)) in HN.
  rewrite Forall_forall in HN. exact (HN _ (map_get_elem _ _ _ Hso)).
Qed.

Context {OList : Type} `{MetaLib Obj OList}.

(** The nested loops keep, in order and with repetitions, what is not in [b]. *)
Lemma diff_loop_filter a b r : diff_loop a b r = r ++ filter (fun x => x ∉ b) a.
Proof.
  revert r. induction a as [|x a IH]; intros r; cbn; [by rewrite app_nil_r|]. rewrite IH.
  destruct (existsb (fun bb => bool_decide (x = bb)) b) eqn:He; cbn.
  - rewrite decide_False; [done|]. intros Hx. apply Hx. apply existsb_exists in He as (y & Hy & He).
    apply bool_decide_eq_true in He. subst. by apply list_elem_of_In.
  - rewrite decide_True; [by rewrite <- app_assoc|]. intros Hx. apply list_elem_of_In in Hx.
    assert (existsb (fun bb => bool_decide (x = bb)) b = true) as Ht; [|congruence].
    apply existsb_exists. exists x. by rewrite bool_decide_eq_true.
Qed.

(** A singleton lookup that lists successfully distinguishes the three
    cases: none is not an error, one is returned converted, and several are an
    error that [IsMultipleInstancesFound] recognises with their number. *)
Theorem GetInstance_cases {W} (proto : OList) (cli : OList -> M W (OList * err)) get w w' l items :
  GetInstance (Some proto) (Some tt) = inr get ->
  cli proto w = (w', (l, None)) -> ExtractList l = inr items ->
  match items with
  | [] => get cli w = (w', (None, None))
  | [o] => forall u, Convert o = inr u -> u_IsList u = false -> get cli w = (w', (Some u, None))
  | _ => exists e, get cli w = (w', (None, Some e)) /\
           IsMultipleInstancesFound (Some e) = (true, Z.of_nat (length items))
  end.
Proof.
  intros Hget Hcli Hx. cbn in Hget. apply (inj inr) in Hget. subst get.
  unfold getInstance, mbind, M_bind. rewrite Hcli, Hx.
  destruct items as [|o [|o2 items]]; [done| |].
  - intros u Hc Hl. cbn. by rewrite Hc, Hl.
  - eexists. split; [reflexivity|]. done.
Qed.
End object_claims.

(** ** Witnesses *)

(** Objects that are their own content. *)
Module ObjectDemo.
#[export] Instance scheme : Scheme (list (string * value)) := {|
  Convert := fun u => inr u;
  u_IsList := fun u => match map_get "items" u with Some (VList _) => true | _ => false end;
  GVKForObject := fun u => match map_get "kind" u with
                           | Some (VStr k) => inr k
                           | _ => inl (errors_New "Object 'Kind' is missing")
                           end;
|}.
Definition str (k : string) (u : list (string * value)) : string :=
  match map_get k u with Some (VStr s) => s | _ => "" end.
#[export] Instance metaLib : MetaLib (list (string * value)) (list (list (string * value))) := {|
  ExtractList := fun l => inr l;
  Accessor := fun u => inr (mkNN (str "namespace" u) (str "name" u));
|}.
Definition game (name : string) : list (string * value) :=
  [("kind", VStr "Game"); ("name", VStr name);
   ("status", VMap [("phase", VStr "Ready"); ("score", VInt 3); ("conditions", VList [VNil])])].
(** The same status with its entries in another order, and another name. *)
Definition game' : list (string * value) :=
  [("name", VStr "other"); ("kind", VStr "Game");
   ("status", VMap [("score", VInt 3); ("conditions", VList [VNil]); ("phase", VStr "Ready")])].
Lemma game_wf n : wf_value (VMap (game n)).
Proof. cbn. split_and!; try done; apply (bool_decide_unpack _); vm_compute; exact I. Defined.
Lemma game'_wf : wf_value (VMap game').
Proof. cbn. split_and!; try done; apply (bool_decide_unpack _); vm_compute; exact I. Defined.
Example game_initialized : IsInitialized (game "g") = (true, None).
Proof. reflexivity. Qed.
End ObjectDemo.

Import ObjectDemo.

Lemma StatusChanged_unchanged_witness :
  agree (NestedFieldNoCopy (game "g") ["status"; "score"]) (NestedFieldNoCopy game' ["status"; "score"]).
Proof.
  apply (StatusChanged_unchanged (H := scheme) (game "g") game' (game "g") game' ["score"] eq_refl eq_refl
    (game_wf "g") game'_wf). vm_compute. reflexivity.
Defined.

Lemma StatusChanged_same_witness : StatusChanged (game "a") (game "b") = (false, None).
Proof.
  refine (StatusChanged_same (H := scheme) (game "a") (game "b") (game "a") (game "b") _ eq_refl eq_refl
    (game_wf "a") _ eq_refl eq_refl). cbn. tauto.
Defined.

Lemma GetInstance_cases_witness :
  exists get, GetInstance (W := nat) (Some []) (Some tt) = inr get /\
  exists e, get (fun _ n => (S n, ([game "a"; game "b"], None))) 0 = (1, (None, Some e)) /\
    IsMultipleInstancesFound (Some e) = (true, 2%Z).
Proof.
  eexists. split; [reflexivity|].
  exact (GetInstance_cases (Obj := list (string * value)) (OList := list (list (string * value))) []
    (fun _ n => (S n, ([game "a"; game "b"], None))) _ 0 1 [game "a"; game "b"] [game "a"; game "b"]
    eq_refl eq_refl eq_refl).
Defined.

(** Typed objects: a key, finalizers, whether no deletion timestamp is set, and
    the content they convert to. *)
Module ApiDemo.
Record obj := mkObj {
  nsname : NamespacedName; fins : list string; live : bool; content : list (string * value)
}.
#[export] Instance clientObject : ClientObject obj := {|
  GetName := fun o => NNName (nsname o);
  GetNamespace := fun o => NNNamespace (nsname o);
  SetName := fun o n => mkObj (mkNN (NNNamespace (nsname o)) n) (fins o) (live o) (content o);
  SetNamespace := fun o n => mkObj (mkNN n (NNName (nsname o))) (fins o) (live o) (content o);
  GetUID := fun o => ObjectDemo.str "uid" (content o);
  GroupVersion := fun _ => "app.example.com/v1alpha1";
  Kind := fun o => ObjectDemo.str "kind" (content o);
  DeletionTimestampIsZero := live;
  GetFinalizers := fins;
  ContainsFinalizer := fun o f => contains (fins o) f;
  AddFinalizer := fun o f => if contains (fins o) f then o
    else mkObj (nsname o) (fins o ++ [f]) (live o) (content o);
  RemoveFinalizer := fun o f => mkObj (nsname o) (filter (fun g => g <> f) (fins o)) (live o) (content o);
|}.
#[export] Instance clientObject_laws : ClientObjectLaws obj.
Proof.
  split; cbn; try done.
  - intros o f ->. done.
  - intros o f g. rewrite list_elem_of_filter. naive_solver.
  - intros o f. by destruct (contains (fins o) f).
Qed.
#[export] Instance scheme : Scheme obj := {|
  Convert := fun o => inr (content o);
  u_IsList := fun _ => false;
  GVKForObject := fun _ => inr "Game";
|}.
Definition NotFound : error := extError "NotFound" "" [].
End ApiDemo.
