(* ===== verification/CompositeController.v ===== *)
(** The composite controller: [controller/composite/v1/composite.go],
    [controller.go] and [reconcile.go].

    A reconciliation fetches the object, lets the controller default, validate
    and initialize it, handles the finalizer, operates, and finally updates the
    status.  Objects are pointers in the code: a method that receives one returns
    the object as it left it.  Every call of the client and of the controller is
    logged with the object it was given. *)
From S2P Require Import Prelude Object.

(** [type CleanupStrategy int]; the constants follow [instrumentationName] in
    their block, so [iota] starts at 1. *)
Definition CleanupStrategy := Z.
Definition OwnerReferenceCleanup : CleanupStrategy := 1%Z.
Definition FinalizerCleanup : CleanupStrategy := 2%Z.

(** [metav1.Condition] as the code fills it. *)
Record Condition := mkCondition { cType : string; cStatus : string; cReason : string; cMessage : string }.

(** [DefaultInitCondition]. *)
Definition DefaultInitCondition : Condition :=
  mkCondition "Progressing" "True" "Initializing" "Component initializing".

(** Calls of the client and of the controller. *)
Inductive CtrlCall (Obj : Type) :=
| CGet (key : NamespacedName)
| CDefault (o : Obj)
| CValidate (o : Obj)
| CInitialize (o : Obj) (c : Condition)
| CStatusUpdate (o : Obj)
| CUpdate (o : Obj)
| CUpdateStatus (o : Obj)
| COperate (o : Obj)
| CCleanup (o : Obj).
Arguments CGet {Obj}. Arguments CDefault {Obj}. Arguments CValidate {Obj}.
Arguments CInitialize {Obj}. Arguments CStatusUpdate {Obj}. Arguments CUpdate {Obj}.
Arguments CUpdateStatus {Obj}. Arguments COperate {Obj}. Arguments CCleanup {Obj}.

(** [type Controller interface]. *)
Record Controller (W Obj : Type) := mkController {
  Default : Obj -> M W Obj;
  Validate : Obj -> M W (Obj * err);
  Initialize : Obj -> Condition -> M W (Obj * err);
  UpdateStatus : Obj -> M W (Obj * err);
  Operate : Obj -> M W (Obj * (Result * err));
  ctrl_Cleanup : Obj -> M W (Obj * (Result * err));
}.
Arguments mkController {W Obj}. Arguments Default {W Obj}. Arguments Validate {W Obj}.
Arguments Initialize {W Obj}. Arguments UpdateStatus {W Obj}. Arguments Operate {W Obj}.
Arguments ctrl_Cleanup {W Obj}.

(** The methods of [client.Client] the reconciler calls: [Get] fills the object
    it is given, [Update] and [Status().Update] may change it. *)
Record Client (W Obj : Type) := mkClient {
  cl_Get : NamespacedName -> Obj -> M W (Obj * err);
  cl_Update : Obj -> M W (Obj * err);
  cl_StatusUpdate : Obj -> M W (Obj * err);
}.
Arguments mkClient {W Obj}. Arguments cl_Get {W Obj}. Arguments cl_Update {W Obj}.
Arguments cl_StatusUpdate {W Obj}.

Section composite.
Context {W Obj : Type} `{ErrorLib} `{Scheme Obj} `{ClientObject Obj}.
Local Abbreviation St := (World W (CtrlCall Obj)).

(** [type CompositeReconciler struct]; interfaces and pointers may be nil.  The
    scheme is the [Scheme] instance. *)
Record CompositeReconciler := mkCompositeReconciler {
  name : string;
  initCondition : Condition;
  finalizerName : string;
  cleanupStrategy : CleanupStrategy;
  ctrlr : option (Controller W Obj);
  prototype : option Obj;
  client : option (Client W Obj);
}.

(** The options. *)
Definition CompositeReconcilerOption := CompositeReconciler -> CompositeReconciler.
Definition WithName (n : string) : CompositeReconcilerOption := fun c =>
  mkCompositeReconciler n (initCondition c) (finalizerName c) (cleanupStrategy c) (ctrlr c) (prototype c) (client c).
Definition WithClient (cli : Client W Obj) : CompositeReconcilerOption := fun c =>
  mkCompositeReconciler (name c) (initCondition c) (finalizerName c) (cleanupStrategy c) (ctrlr c) (prototype c) (Some cli).
Definition WithPrototype (obj : Obj) : CompositeReconcilerOption := fun c =>
  mkCompositeReconciler (name c) (initCondition c) (finalizerName c) (cleanupStrategy c) (ctrlr c) (Some obj) (client c).
Definition WithInitCondition (cndn : Condition) : CompositeReconcilerOption := fun c =>
  mkCompositeReconciler (name c) cndn (finalizerName c) (cleanupStrategy c) (ctrlr c) (prototype c) (client c).
Definition WithFinalizer (finalizer : string) : CompositeReconcilerOption := fun c =>
  mkCompositeReconciler (name c) (initCondition c) finalizer (cleanupStrategy c) (ctrlr c) (prototype c) (client c).
Definition WithCleanupStrategy (s : CleanupStrategy) : CompositeReconcilerOption := fun c =>
  mkCompositeReconciler (name c) (initCondition c) (finalizerName c) s (ctrlr c) (prototype c) (client c).

(** [CompositeReconciler.Init]; [mgr] is the client of the manager, when there
    is one. *)
Definition Init (c : CompositeReconciler) (mgr : option (Client W Obj)) (k : option (Controller W Obj))
  (proto : option Obj) (opts : list CompositeReconcilerOption) : CompositeReconciler * err :=
  let c := mkCompositeReconciler (name c) DefaultInitCondition (finalizerName c) OwnerReferenceCleanup k
    (match proto with Some _ => proto | None => prototype c end)
    (match mgr with Some _ => mgr | None => client c end) in
  let c := foldl (fun c opt => opt c) c opts in
  let c := if bool_decide (finalizerName c = "") then WithFinalizer (name c) c else c in
  (c, None).

(** [cleanupHandler]: the object, whether deletion has started, whether the
    object was updated, and the result of cleaning up. *)
Definition cleanupHandler (c : CompositeReconciler) (k : Controller W Obj) (cl : Client W Obj) (obj : Obj)
  : M St (Obj * bool * bool * Result * err) :=
  if DeletionTimestampIsZero obj then
    if negb (ContainsFinalizer obj (finalizerName c)) then
      let obj := AddFinalizer obj (finalizerName c) in
      '(obj, updateErr) ← logged (CUpdate obj) (cl_Update cl obj);
      mret (obj, false, true, emptyResult, None)
    else mret (obj, false, false, emptyResult, None)
  else
    if contains (GetFinalizers obj) (finalizerName c) then
      '(obj, (result, reterr)) ← logged (CCleanup obj) (ctrl_Cleanup k obj);
      match reterr with
      | Some _ => mret (obj, true, false, result, reterr)
      | None =>
        let obj := RemoveFinalizer obj (finalizerName c) in
        '(obj, updateErr) ← logged (CUpdate obj) (cl_Update cl obj);
        mret (obj, true, true, result, None)
      end
    else mret (obj, true, false, emptyResult, None).

(** The deferred status update of [Reconcile]: it may change the results. *)
Definition deferredStatus (k : Controller W Obj) (cl : Client W Obj) (skipStatusUpdate : bool)
  (oldInstance instance : Obj) (result : Result) (reterr : err) : M St (Result * err) :=
  if skipStatusUpdate then mret (result, reterr)
  else
    '(instance, updateErr) ← logged (CUpdateStatus instance) (UpdateStatus k instance);
    match updateErr with
    | Some ue =>
      mret (requeueResult, NewAggregate [reterr; Some (errorf_v "error while updating status: %v" [] ue)])
    | None =>
      let '(changed, statusChngErr) := StatusChanged oldInstance instance in
      let reterr := match statusChngErr with
        | Some se => NewAggregate [reterr; Some (errorf_v "error while checking for changed status: %v" [] se)]
        | None => reterr
        end in
      if changed then
        '(_, statusErr) ← logged (CStatusUpdate instance) (cl_StatusUpdate cl instance);
        mret (result, match statusErr with
          | Some se => NewAggregate [reterr; Some (errorf_v "error while patching status: %v" [] se)]
          | None => reterr
          end)
      else mret (result, reterr)
    end.

(** [Reconcile] from the point where the deferred status update is set up:
    finalizers, then the operation, then the deferred update. *)
Definition reconcileInstance (c : CompositeReconciler) (k : Controller W Obj) (cl : Client W Obj)
  (oldInstance instance : Obj) : M St (Result * err) :=
  let operate instance : M St (Result * err) :=
    '(instance, (result, reterr)) ← logged (COperate instance) (Operate k instance);
    deferredStatus k cl false oldInstance instance result reterr in
  if (cleanupStrategy c =? FinalizerCleanup)%Z then
    '(instance, delEnabled, updated, cResult, cErr) ← cleanupHandler c k cl instance;
    let skipStatusUpdate := updated in
    if updated || delEnabled || bool_decide (is_Some cErr) then
      deferredStatus k cl skipStatusUpdate oldInstance instance cResult cErr
    else operate instance
  else operate instance.

(** [Reconcile] once the object is fetched. *)
Definition reconcileFetched (c : CompositeReconciler) (k : Controller W Obj) (cl : Client W Obj)
  (instance : Obj) : M St (Result * err) :=
  instance ← logged (CDefault instance) (Default k instance);
  '(instance, valErr) ← logged (CValidate instance) (Validate k instance);
  match valErr with
  | Some _ => mret (emptyResult, valErr)
  | None =>
    let oldInstance := instance in
    match IsInitialized instance with
    | (_, Some initErr) => mret (emptyResult, Some initErr)
    | (false, None) =>
      '(instance, initErr) ← logged (CInitialize instance (initCondition c))
                               (Initialize k instance (initCondition c));
      match initErr with
      | Some _ => mret (emptyResult, initErr)
      | None =>
        '(_, updateErr) ← logged (CStatusUpdate instance) (cl_StatusUpdate cl instance);
        mret (requeueResult, None)
      end
    | (true, None) => reconcileInstance c k cl oldInstance instance
    end
  end.

(** [CompositeReconciler.Reconcile]. *)
Definition Reconcile (c : CompositeReconciler) (req : NamespacedName) (w : St)
  : outcome (St * (Result * err)) :=
  match prototype c, client c with
  | Some proto, Some cl =>
    match logged (CGet req) (cl_Get cl req proto) w with
    | (w, (_, Some getErr)) => Done (w, (emptyResult, IgnoreNotFound (Some getErr)))
    | (w, (instance, None)) =>
      match ctrlr c with
      | Some k => Done (reconcileFetched c k cl instance w)
      | None => Panic "nil pointer dereference"
      end
    end
  | _, _ => Panic "nil pointer dereference"
  end.
End composite.

(** ** Properties *)

Section composite_claims.
Context {W Obj : Type} `{ErrorLibLaws} `{Scheme Obj} `{ClientObjectLaws Obj}.
Local Abbreviation St := (World W (CtrlCall Obj)).
Local Abbreviation Call := (CtrlCall Obj).
Context (c : CompositeReconciler (W := W) (Obj := Obj)) (k : Controller W Obj) (cl : Client W Obj).

(** An error that joins what was to be returned. *)
Definition joined (e : err) (what : string) (x : error) : err := NewAggregate [e; Some (errorf_v what [] x)].

(** The deferred status update of [inst], with [res] and [e] to be returned: the
    calls it makes from the environment [s], what is returned in the end and the
    environment it leaves.  Nothing when it is skipped; otherwise UpdateStatus once,
    a write exactly when the status has changed, and the error of each step joins
    the error that was to be returned. *)
Inductive status_calls (old inst : Obj) (skip : bool) (res : Result) (e : err) (s : W) : list Call -> Result * err -> W -> Prop :=
| sc_skip : skip = true -> status_calls old inst skip res e s [] (res, e) s
| sc_failed s1 o x : skip = false -> UpdateStatus k inst s = (s1, (o, Some x)) ->
    status_calls old inst skip res e s [CUpdateStatus inst] (requeueResult, joined e "error while updating status: %v" x) s1
| sc_unreadable s1 o x : skip = false -> UpdateStatus k inst s = (s1, (o, None)) -> StatusChanged old o = (false, Some x) ->
    status_calls old inst skip res e s [CUpdateStatus inst] (res, joined e "error while checking for changed status: %v" x) s1
| sc_same s1 o : skip = false -> UpdateStatus k inst s = (s1, (o, None)) -> StatusChanged old o = (false, None) ->
    status_calls old inst skip res e s [CUpdateStatus inst] (res, e) s1
| sc_written s1 o s2 o2 : skip = false -> UpdateStatus k inst s = (s1, (o, None)) -> StatusChanged old o = (true, None) ->
    cl_StatusUpdate cl o s1 = (s2, (o2, None)) ->
    status_calls old inst skip res e s [CUpdateStatus inst; CStatusUpdate o] (res, e) s2
| sc_unwritten s1 o s2 o2 x : skip = false -> UpdateStatus k inst s = (s1, (o, None)) -> StatusChanged old o = (true, None) ->
    cl_StatusUpdate cl o s1 = (s2, (o2, Some x)) ->
    status_calls old inst skip res e s [CUpdateStatus inst; CStatusUpdate o] (res, joined e "error while patching status: %v" x) s2.

(** The results of the deferred update: an error is never lost. *)
Definition keeps (e : err) (r : Result * err) : Prop :=
  (e <> None -> r.2 <> None) /\ forall t, err_Is e t = true -> err_Is r.2 t = true.

Lemma keeps_joined e what x r : keeps e (r, joined e what x).
Proof.
  split; cbn; [by intros He [? _]%NewAggregate_pair|].
  intros t Ht. unfold joined. by rewrite NewAggregate_pair_Is, Ht.
Qed.
Lemma status_calls_keeps old inst skip res e s l r s' : status_calls old inst skip res e s l r s' ->
  keeps e r /\ (r.2 = None -> r.1 = res).
Proof.
  inversion 1; subst; (split; [first [apply keeps_joined|done]|]); try done. by intros [_ ?]%NewAggregate_pair.
Qed.

Lemma StatusChanged_err old o b e : StatusChanged old o = (b, Some e) -> b = false.
Proof. unfold StatusChanged. intros Hs. repeat case_match; congruence. Qed.

Lemma deferredStatus_behaves skip old inst res e s :
  behaves (deferredStatus k cl skip old inst res e) s (status_calls old inst skip res e s).
Proof.
  unfold deferredStatus. destruct skip; [by apply behaves_ret, sc_skip|].
  apply behaves_call. intros s1 [o [x|]] Hu; [apply behaves_ret; by eapply sc_failed|].
  destruct (StatusChanged old o) as [ch [x|]] eqn:Hs.
  - pose proof (StatusChanged_err _ _ _ _ Hs); subst. apply behaves_ret. by eapply sc_unreadable.
  - destruct ch; [|apply behaves_ret; by eapply sc_same].
    apply behaves_call. intros s2 [o2 [x|]] Hw; apply behaves_ret; [by eapply sc_unwritten|by eapply sc_written].
Qed.

(** What [cleanupHandler] does, by the state of the object. *)
Inductive cleanup_calls (o : Obj) (s : W) : list Call -> Obj * bool * bool * Result * err -> W -> Prop :=
| cc_add o1 s1 o2 x : DeletionTimestampIsZero o = true -> finalizerName c ∉ GetFinalizers o ->
    o1 = AddFinalizer o (finalizerName c) -> GetFinalizers o1 = GetFinalizers o ++ [finalizerName c] ->
    cl_Update cl o1 s = (s1, (o2, x)) ->
    cleanup_calls o s [CUpdate o1] (o2, false, true, emptyResult, None) s1
| cc_present : DeletionTimestampIsZero o = true -> finalizerName c ∈ GetFinalizers o ->
    cleanup_calls o s [] (o, false, false, emptyResult, None) s
| cc_failed s1 o1 res e : DeletionTimestampIsZero o = false -> finalizerName c ∈ GetFinalizers o ->
    ctrl_Cleanup k o s = (s1, (o1, (res, Some e))) ->
    cleanup_calls o s [CCleanup o] (o1, true, false, res, Some e) s1
| cc_cleaned s1 o1 res s2 o2 x : DeletionTimestampIsZero o = false -> finalizerName c ∈ GetFinalizers o ->
    ctrl_Cleanup k o s = (s1, (o1, (res, None))) -> cl_Update cl (RemoveFinalizer o1 (finalizerName c)) s1 = (s2, (o2, x)) ->
    cleanup_calls o s [CCleanup o; CUpdate (RemoveFinalizer o1 (finalizerName c))] (o2, true, true, res, None) s2
| cc_gone : DeletionTimestampIsZero o = false -> finalizerName c ∉ GetFinalizers o ->
    cleanup_calls o s [] (o, true, false, emptyResult, None) s.

Lemma cleanupHandler_behaves o s : behaves (cleanupHandler c k cl o) s (cleanup_calls o s).
Proof.
  unfold cleanupHandler. destruct (DeletionTimestampIsZero o) eqn:Hd.
  - destruct (ContainsFinalizer o (finalizerName c)) eqn:Hc; cbn.
    + apply behaves_ret, cc_present; [done|]. rewrite ContainsFinalizer_spec in Hc. by apply contains_spec.
    + pose proof (AddFinalizer_spec _ _ Hc) as Ha. rewrite ContainsFinalizer_spec in Hc.
      apply behaves_call. intros s1 [o2 x] Hu. apply behaves_ret. eapply cc_add; [done|by apply contains_false|done|done|exact Hu].
  - destruct (contains (GetFinalizers o) (finalizerName c)) eqn:Hc.
    + apply contains_spec in Hc. apply behaves_call. intros s1 [o1 [res [e|]]] Hm; [apply behaves_ret; by eapply cc_failed|].
      apply behaves_call. intros s2 [o2 x] Hu. apply behaves_ret. by eapply cc_cleaned.
    + apply behaves_ret, cc_gone; [done|]. by apply contains_false.
Qed.

(** The object is fetched, defaulted and validated. *)
Record prepared (proto : Obj) (req : NamespacedName) (s : W) (o0 o1 o2 : Obj) (ve : err) (s3 : W) : Prop := {
  prep_steps : exists s1 s2, cl_Get cl req proto s = (s1, (o0, None)) /\ Default k o0 s1 = (s2, o1) /\
    Validate k o1 s2 = (s3, (o2, ve));
}.

(** The protocol of a reconciliation from the environment [s]: the calls it makes,
    in order, what it returns and the environment it leaves.  There is one rule for
    every way through [Reconcile] up to the deferred status update, whose ways are
    the rules of [status_calls]. *)
Inductive protocol (proto : Obj) (req : NamespacedName) (s : W) : list Call -> Result * err -> W -> Prop :=
| p_get s1 o e : cl_Get cl req proto s = (s1, (o, Some e)) ->
    protocol proto req s [CGet req] (emptyResult, IgnoreNotFound (Some e)) s1
| p_invalid o0 o1 o2 e s1 : prepared proto req s o0 o1 o2 (Some e) s1 ->
    protocol proto req s [CGet req; CDefault o0; CValidate o1] (emptyResult, Some e) s1
| p_unreadable o0 o1 o2 b e s1 : prepared proto req s o0 o1 o2 None s1 -> IsInitialized o2 = (b, Some e) ->
    protocol proto req s [CGet req; CDefault o0; CValidate o1] (emptyResult, Some e) s1
| p_init_failed o0 o1 o2 s1 s2 o3 e : prepared proto req s o0 o1 o2 None s1 -> IsInitialized o2 = (false, None) ->
    Initialize k o2 (initCondition c) s1 = (s2, (o3, Some e)) ->
    protocol proto req s [CGet req; CDefault o0; CValidate o1; CInitialize o2 (initCondition c)] (emptyResult, Some e) s2
| p_init o0 o1 o2 s1 s2 o3 s3 x : prepared proto req s o0 o1 o2 None s1 -> IsInitialized o2 = (false, None) ->
    Initialize k o2 (initCondition c) s1 = (s2, (o3, None)) -> cl_StatusUpdate cl o3 s2 = (s3, x) ->
    protocol proto req s [CGet req; CDefault o0; CValidate o1; CInitialize o2 (initCondition c); CStatusUpdate o3]
      (requeueResult, None) s3
| p_cleanup o0 o1 o2 s1 l o3 del upd res e s2 st r s3 : prepared proto req s o0 o1 o2 None s1 -> IsInitialized o2 = (true, None) ->
    cleanupStrategy c = FinalizerCleanup -> cleanup_calls o2 s1 l (o3, del, upd, res, e) s2 -> upd || del = true ->
    status_calls o2 o3 upd res e s2 st r s3 ->
    protocol proto req s ([CGet req; CDefault o0; CValidate o1] ++ l ++ st) r s3
| p_operate o0 o1 o2 s1 s2 o3 res e st r s3 : prepared proto req s o0 o1 o2 None s1 -> IsInitialized o2 = (true, None) ->
    (cleanupStrategy c = FinalizerCleanup -> DeletionTimestampIsZero o2 = true /\ finalizerName c ∈ GetFinalizers o2) ->
    Operate k o2 s1 = (s2, (o3, (res, e))) -> status_calls o2 o3 false res e s2 st r s3 ->
    protocol proto req s ([CGet req; CDefault o0; CValidate o1; COperate o2] ++ st) r s3.

Lemma reconcileInstance_behaves proto req s o0 o1 o2 s1 : prepared proto req s o0 o1 o2 None s1 -> IsInitialized o2 = (true, None) ->
  behaves (reconcileInstance c k cl o2 o2) s1 (fun l r s3 => protocol proto req s ([CGet req; CDefault o0; CValidate o1] ++ l) r s3).
Proof.
  intros Hp Hi.
  assert ((cleanupStrategy c = FinalizerCleanup ->
            DeletionTimestampIsZero o2 = true /\ finalizerName c ∈ GetFinalizers o2) ->
    behaves ('(o3, (res, e)) ← logged (COperate o2) (Operate k o2); deferredStatus k cl false o2 o3 res e) s1
      (fun l r s3 => protocol proto req s ([CGet req; CDefault o0; CValidate o1] ++ l) r s3)) as Hop.
  { intros Hg. apply behaves_call. intros s2 [o3 [res e]] Hm.
    eapply behaves_weaken; [apply deferredStatus_behaves|]. intros st r s3 Hst. by eapply (p_operate proto req s o0 o1 o2). }
  unfold reconcileInstance. destruct (Z.eqb_spec (cleanupStrategy c) FinalizerCleanup) as [Hs|Hs].
  - eapply behaves_bind; [apply cleanupHandler_behaves|]. intros l [[[[o3 del] upd] res] e] s2 Hc.
    destruct (upd || del || bool_decide (is_Some e)) eqn:Hb.
    + eapply behaves_weaken; [apply deferredStatus_behaves|]. intros st r s3 Hst.
      eapply p_cleanup; try done. by inversion Hc; simplify_eq; rewrite ?bool_decide_false in Hb by by intros [].
    + inversion Hc; simplify_eq; try done. by apply Hop.
  - by apply Hop.
Qed.

Lemma Reconcile_protocol req w w' r :
  ctrlr c = Some k -> client c = Some cl -> Reconcile c req w = Done (w', r) ->
  exists l proto, wlog w' = wlog w ++ l /\ prototype c = Some proto /\ protocol proto req (wst w) l r (wst w').
Proof.
  intros Hk Hcl. unfold Reconcile. rewrite Hk, Hcl. destruct (prototype c) as [proto|]; [|done]. destruct w as [s lg]. cbn [wst wlog].
  unfold logged. cbn [wst wlog]. destruct (cl_Get cl req proto s) as [s1 [o0 [ge|]]] eqn:Hget.
  { intros [= <- <-]. exists [CGet req], proto. split_and!; [done|done|by eapply p_get]. }
  intros [= Hrec].
  assert (behaves (reconcileFetched c k cl o0) s1 (fun l r s' => protocol proto req s (CGet req :: l) r s')) as Hb.
  { clear Hrec. unfold reconcileFetched. apply behaves_call. intros s2 o1 Hd. apply behaves_call. intros s3 [o2 ve] Hv.
    assert (prepared proto req s o0 o1 o2 ve s3) as Hp by (split; eauto).
    destruct ve as [ve|]; [apply behaves_ret; by eapply p_invalid|].
    destruct (IsInitialized o2) as [[] [e|]] eqn:Hi;
      try (apply behaves_ret; by eapply p_unreadable); [by apply (reconcileInstance_behaves proto req)|].
    apply behaves_call. intros s4 [o3 [ie|]] Hie; [apply behaves_ret; by eapply p_init_failed|].
    apply behaves_call. intros s5 [o4 x] Hu. apply behaves_ret. by eapply p_init. }
  destruct (Hb (lg ++ [CGet req])) as (l & Hl & Hp). rewrite Hrec in Hl, Hp. cbn in Hl, Hp.
  exists (CGet req :: l), proto. split_and!; [|done|done]. by rewrite Hl, <- app_assoc.
Qed.

(** Writes of the object to the API server. *)
Definition is_write (x : Call) : bool :=
  match x with CUpdate _ | CStatusUpdate _ => true | _ => false end.

Lemma status_calls_elem old inst skip res e s l r s' x : status_calls old inst skip res e s l r s' -> x ∈ l ->
  (exists o, x = CUpdateStatus o) \/ (exists o, x = CStatusUpdate o).
Proof. intros Hst Hx. inversion Hst; subst; set_solver. Qed.

(** Decompose a membership in the log of a reconciliation. *)
Ltac in_protocol :=
  repeat match goal with
  | Hx : _ ∈ _ ++ _ |- _ => apply elem_of_app in Hx as [Hx|Hx]
  | Hx : _ ∈ _ :: _ |- _ => apply elem_of_cons in Hx as [Hx|Hx]; [simplify_eq|]
  | Hx : _ ∈ [] |- _ => by apply elem_of_nil in Hx
  | Hst : status_calls _ _ _ _ _ _ ?l _ _, Hx : _ ∈ ?l |- _ =>
    apply (status_calls_elem _ _ _ _ _ _ _ _ _ _ Hst) in Hx as [[? ?]|[? ?]]; simplify_eq
  end.

(** Case analysis on what the cleanup and the status update did. *)
Ltac by_calls :=
  repeat match goal with
  | Hc : cleanup_calls _ _ _ _ _ |- _ => inversion Hc; clear Hc; subst
  | Hc : status_calls _ _ _ _ _ _ _ _ _ |- _ => inversion Hc; clear Hc; subst
  end; try done.

(** An operation of the protocol, and what becomes of its results. *)
Lemma protocol_operate proto req s l r s' o : protocol proto req s l r s' -> COperate o ∈ l ->
  exists s1 s2 o1 res e, Operate k o s1 = (s2, (o1, (res, e))) /\ keeps e r /\ (r.2 = None -> r.1 = res).
Proof.
  intros Hp Ho. inversion Hp; subst; in_protocol.
  - by_calls; in_protocol.
  - do 5 eexists. split; [done|]. by eapply status_calls_keeps.
Qed.

(** Something of the environment that no call of the client and no method of the
    controller but Operate changes. *)
Record untouched {X} (f : W -> X) : Prop := {
  un_Get : forall n o s, f (fst (cl_Get cl n o s)) = f s;
  un_Update : forall o s, f (fst (cl_Update cl o s)) = f s;
  un_StatusUpdate : forall o s, f (fst (cl_StatusUpdate cl o s)) = f s;
  un_Default : forall o s, f (fst (Default k o s)) = f s;
  un_Validate : forall o s, f (fst (Validate k o s)) = f s;
  un_Initialize : forall o x s, f (fst (Initialize k o x s)) = f s;
  un_UpdateStatus : forall o s, f (fst (UpdateStatus k o s)) = f s;
  un_Cleanup : forall o s, f (fst (ctrl_Cleanup k o s)) = f s;
}.

(** Use the frame on every call that is known. *)
Ltac frame Hf :=
  repeat match goal with
  | Hc : cl_Get cl ?n ?o ?s = _ |- _ => pose proof (un_Get _ Hf n o s); rewrite Hc in *; clear Hc
  | Hc : cl_Update cl ?o ?s = _ |- _ => pose proof (un_Update _ Hf o s); rewrite Hc in *; clear Hc
  | Hc : cl_StatusUpdate cl ?o ?s = _ |- _ => pose proof (un_StatusUpdate _ Hf o s); rewrite Hc in *; clear Hc
  | Hc : Default k ?o ?s = _ |- _ => pose proof (un_Default _ Hf o s); rewrite Hc in *; clear Hc
  | Hc : Validate k ?o ?s = _ |- _ => pose proof (un_Validate _ Hf o s); rewrite Hc in *; clear Hc
  | Hc : Initialize k ?o ?x ?s = _ |- _ => pose proof (un_Initialize _ Hf o x s); rewrite Hc in *; clear Hc
  | Hc : UpdateStatus k ?o ?s = _ |- _ => pose proof (un_UpdateStatus _ Hf o s); rewrite Hc in *; clear Hc
  | Hc : ctrl_Cleanup k ?o ?s = _ |- _ => pose proof (un_Cleanup _ Hf o s); rewrite Hc in *; clear Hc
  end; cbn in *; congruence.

(** Only the operation of a reconciliation, if there is one, changes it. *)
Lemma protocol_frame {X} (f : W -> X) proto req s l r s' : untouched f -> protocol proto req s l r s' ->
  ((forall o, COperate o ∉ l) -> f s' = f s) /\
  forall o, COperate o ∈ l -> exists s1 s2 o1 res e, f s1 = f s /\ Operate k o s1 = (s2, (o1, (res, e))) /\ f s' = f s2 /\
    keeps e r /\ (r.2 = None -> r.1 = res).
Proof.
  intros Hf Hp. inversion Hp; subst.
  all: repeat match goal with Hx : prepared _ _ _ _ _ _ _ _ |- _ => destruct Hx as [(? & ? & ? & ? & ?)] end.
  all: split; [intros Hn|intros ob Ho; in_protocol].
  all: try frame Hf.
  - by_calls; frame Hf.
  - by_calls; in_protocol.
  - exfalso. eapply Hn. do 3 right. by left.
  - match goal with Hst : status_calls _ _ _ _ _ _ _ _ _ |- _ => destruct (status_calls_keeps _ _ _ _ _ _ _ _ _ Hst) as [? ?] end.
    do 5 eexists. split_and!; [|done| |done|done]; [frame Hf|]. by_calls; frame Hf.
Qed.

(** C3: a reconciliation follows the protocol: the calls it makes and their order,
    what it returns, the errors of the deferred status update included, and what
    becomes of the environment are those of [protocol], whose rules, with those of
    [cleanup_calls] and [status_calls] it uses, are the paths through the code. *)
Theorem Reconcile_follows_protocol req w w' r :
  ctrlr c = Some k -> client c = Some cl -> Reconcile c req w = Done (w', r) ->
  exists l proto, wlog w' = wlog w ++ l /\ prototype c = Some proto /\ protocol proto req (wst w) l r (wst w').
Proof. apply Reconcile_protocol. Qed.

(** C15: with finalizer cleanup, the controller only operates on an object that
    carries the finalizer and is not being deleted, so that nothing is created
    that cleanup could miss. *)
Theorem Operate_guarded req w w' r :
  ctrlr c = Some k -> client c = Some cl -> cleanupStrategy c = FinalizerCleanup ->
  Reconcile c req w = Done (w', r) ->
  exists l, wlog w' = wlog w ++ l /\ forall o, COperate o ∈ l ->
    DeletionTimestampIsZero o = true /\ finalizerName c ∈ GetFinalizers o.
Proof.
  intros Hk Hcl Hs Hr. destruct (Reconcile_protocol req w w' r Hk Hcl Hr) as (l & proto & Hl & _ & Hp).
  exists l. split; [done|]. intros o Ho. inversion Hp; subst; in_protocol; auto.
  by_calls; in_protocol.
Qed.

(** C16: the finalizer is only taken off an object that is being deleted and
    whose Cleanup has just returned without an error. *)
Theorem finalizer_removed_after_cleanup req w w' r :
  ctrlr c = Some k -> client c = Some cl -> Reconcile c req w = Done (w', r) ->
  exists l, wlog w' = wlog w ++ l /\ forall o, CUpdate o ∈ l -> finalizerName c ∉ GetFinalizers o ->
    exists o0 s s' o1 res, CCleanup o0 ∈ l /\ DeletionTimestampIsZero o0 = false /\
      ctrl_Cleanup k o0 s = (s', (o1, (res, None))) /\ o = RemoveFinalizer o1 (finalizerName c).
Proof.
  intros Hk Hcl Hr. destruct (Reconcile_protocol req w w' r Hk Hcl Hr) as (l & proto & Hl & _ & Hp).
  exists l. split; [done|]. intros o Ho Hf. inversion Hp; subst; in_protocol.
  by_calls; in_protocol.
  all: try match goal with Ha : GetFinalizers _ = _ ++ _ |- _ => rewrite Ha in Hf; set_solver end.
  all: do 5 eexists. split_and!; [|done|done|done]. set_solver.
Qed.

(** C17: an error of the operation is never lost: whatever the status update
    does, the reconciliation fails too, with an error that matches every sentinel
    the error of the operation matches. *)
Theorem Operate_error_kept req w w' r :
  ctrlr c = Some k -> client c = Some cl -> Reconcile c req w = Done (w', r) ->
  exists l, wlog w' = wlog w ++ l /\ forall o, COperate o ∈ l ->
    exists s s' o1 res e, Operate k o s = (s', (o1, (res, e))) /\
      (e <> None -> r.2 <> None) /\ forall t, err_Is e t = true -> err_Is r.2 t = true.
Proof.
  intros Hk Hcl Hr. destruct (Reconcile_protocol req w w' r Hk Hcl Hr) as (l & proto & Hl & _ & Hp).
  exists l. split; [done|]. intros o Ho.
  destruct (protocol_operate proto req _ l r _ o Hp Ho) as (s & s' & o1 & res & e & Hop & [He Hi] & _).
  by exists s, s', o1, res, e.
Qed.

(** A reconciliation writes the object to the API at most once: the status
    update is skipped after a change of the finalizers. *)
Theorem Reconcile_single_write req w w' r :
  ctrlr c = Some k -> client c = Some cl -> Reconcile c req w = Done (w', r) ->
  exists l, wlog w' = wlog w ++ l /\ length (filter (fun x => is_write x = true) l) <= 1.
Proof.
  intros Hk Hcl Hr. destruct (Reconcile_protocol req w w' r Hk Hcl Hr) as (l & proto & Hl & _ & Hp).
  exists l. split; [done|].
  inversion Hp; subst; by_calls; vm_compute; lia.
Qed.
End composite_claims.

(** ** Witnesses *)

(** A cluster with at most one object, and a controller that counts nothing and
    fails when asked to. *)
Module CtrlDemo.
Import ApiDemo.
Definition cluster : Client (option obj) obj :=
  mkClient (fun _ proto w => match w with Some o => (w, (o, None)) | None => (w, (proto, Some NotFound)) end)
    (fun o _ => (Some o, (o, None))) (fun o _ => (Some o, (o, None))).
Definition controller (operateErr : err) : Controller (option obj) obj :=
  mkController (fun o w => (w, o)) (fun o w => (w, (o, None))) (fun o _ w => (w, (o, None)))
    (fun o w => (w, (o, None))) (fun o w => (w, (o, (emptyResult, operateErr))))
    (fun o w => (w, (o, (emptyResult, None)))).
Definition game (fin : list string) (alive : bool) : obj := mkObj (mkNN "default" "g") fin alive (ObjectDemo.game "g").
Definition reconciler (operateErr : err) : CompositeReconciler (W := option obj) (Obj := obj) :=
  fst (Init (mkCompositeReconciler "" DefaultInitCondition "" 0%Z None None None) (Some cluster)
         (Some (controller operateErr)) (Some (game [] true))
         [WithName "game-controller"; WithCleanupStrategy FinalizerCleanup]).
Definition start (o : option obj) : World (option obj) (CtrlCall obj) := mkWorld o [].
Definition key : NamespacedName := mkNN "default" "g".
End CtrlDemo.

Import RefErrors.
Module CtrlWitness.
Import ApiDemo CtrlDemo.

(** A deleted object is cleaned up and loses its finalizer. *)
Lemma Reconcile_follows_protocol_witness :
  exists w r l proto, Reconcile (reconciler None) key (start (Some (game ["game-controller"] false))) = Done (w, r) /\
    wlog w = l /\ protocol (reconciler None) (controller None) cluster proto key (Some (game ["game-controller"] false)) l r (wst w).
Proof.
  destruct (Reconcile_follows_protocol (reconciler None) (controller None) cluster key
    (start (Some (game ["game-controller"] false)))
    (mkWorld (Some (game [] false))
      [CGet key; CDefault (game ["game-controller"] false); CValidate (game ["game-controller"] false);
       CCleanup (game ["game-controller"] false); CUpdate (game [] false)]) (emptyResult, None))
    as (l & proto & Hl & _ & Hp); [reflexivity|reflexivity|vm_compute; reflexivity|].
  eexists _, _, l, proto. split; [vm_compute; reflexivity|]. split; [exact Hl|exact Hp].
Defined.

Lemma Operate_guarded_witness :
  exists l, [CGet key; CDefault (game ["game-controller"] true); CValidate (game ["game-controller"] true);
       COperate (game ["game-controller"] true); CUpdateStatus (game ["game-controller"] true)] = [] ++ l /\
    forall o, COperate o ∈ l -> DeletionTimestampIsZero o = true /\ "game-controller" ∈ GetFinalizers o.
Proof.
  exact (Operate_guarded (reconciler None) (controller None) cluster key
    (start (Some (game ["game-controller"] true)))
    (mkWorld (Some (game ["game-controller"] true)) _) (emptyResult, None) eq_refl eq_refl eq_refl eq_refl).
Defined.

Lemma finalizer_removed_after_cleanup_witness :
  exists l, [CGet key; CDefault (game ["game-controller"] false); CValidate (game ["game-controller"] false);
       CCleanup (game ["game-controller"] false); CUpdate (game [] false)] = [] ++ l /\
    forall o, CUpdate o ∈ l -> "game-controller" ∉ GetFinalizers o ->
    exists o0 s s' o1 res, CCleanup o0 ∈ l /\ DeletionTimestampIsZero o0 = false /\
      ctrl_Cleanup (controller None) o0 s = (s', (o1, (res, None))) /\ o = RemoveFinalizer o1 "game-controller".
Proof.
  exact (finalizer_removed_after_cleanup (reconciler None) (controller None) cluster key
    (start (Some (game ["game-controller"] false)))
    (mkWorld (Some (game [] false)) _) (emptyResult, None) eq_refl eq_refl eq_refl).
Defined.

Definition boom : error := sentinel "boom".

Lemma Operate_error_kept_witness :
  exists l, [CGet key; CDefault (game ["game-controller"] true); CValidate (game ["game-controller"] true);
       COperate (game ["game-controller"] true); CUpdateStatus (game ["game-controller"] true)] = [] ++ l /\
    forall o, COperate o ∈ l -> exists s s' o1 res e,
      Operate (controller (Some boom)) o s = (s', (o1, (res, e))) /\
      (e <> None -> Some boom <> None) /\ forall t, err_Is e t = true -> err_Is (Some boom) t = true.
Proof.
  exact (Operate_error_kept (reconciler (Some boom)) (controller (Some boom)) cluster key
    (start (Some (game ["game-controller"] true)))
    (mkWorld (Some (game ["game-controller"] true)) _) (emptyResult, Some boom) eq_refl eq_refl eq_refl).
Defined.

(** An object without the finalizer gets it, and nothing else is written. *)
Lemma Reconcile_single_write_witness :
  exists l, [CGet key; CDefault (game [] true); CValidate (game [] true);
       CUpdate (game ["game-controller"] true)] = [] ++ l /\
    length (filter (fun x : CtrlCall obj => is_write x = true) l) <= 1.
Proof.
  exact (Reconcile_single_write (reconciler None) (controller None) cluster key
    (start (Some (game [] true)))
    (mkWorld (Some (game ["game-controller"] true)) _) (emptyResult, None) eq_refl eq_refl eq_refl).
Defined.
End CtrlWitness.
