(* ===== verification/Sync.v ===== *)
(** The sync controllers: [controller/sync/v1], [controller/external-object-sync/v1]
    and [controller/metadata-sync/v1].

    The sync reconciler keeps an external system in step with the objects of the
    cluster.  The two others add a periodic function: garbage collection of
    external objects without a cluster object, and resynchronisation of the
    objects the controller reports as different. *)
From S2P Require Import Prelude Object.

(** Calls of the client and of the sync controllers. *)
Inductive SyncCall (Obj : Type) :=
| SGet (key : NamespacedName)
| SList
| SEnsure (o : Obj)
| SDelete (o : Obj)
| SExtList
| SDiff (objs : list Obj).
Arguments SGet {Obj}. Arguments SList {Obj}. Arguments SEnsure {Obj}.
Arguments SDelete {Obj}. Arguments SExtList {Obj}. Arguments SDiff {Obj}.

(** ** Sync functions *)

(** [defaultStartupSyncDelay]. *)
Definition defaultStartupSyncDelay : Z := 10 * second.

(** [type SyncFunc struct]. *)
Record SyncFunc (S : Type) := mkSyncFunc { sf_f : M S unit; sf_period : Z; sf_startupSyncDelay : Z }.
Arguments mkSyncFunc {S}. Arguments sf_f {S}. Arguments sf_period {S}. Arguments sf_startupSyncDelay {S}.

(** [NewSyncFunc]: a zero startup delay is replaced by the default. *)
Definition NewSyncFunc {S} (f : M S unit) (p d : Z) : SyncFunc S :=
  mkSyncFunc f p (if (d =? 0)%Z then defaultStartupSyncDelay else d).

(** [SyncFunc.Call]. *)
Definition sf_Call {S} (sf : SyncFunc S) : M S unit := sf_f sf.

(** [SyncFunc.Run] up to the [n]th tick of its ticker: the calls and the earliest
    time of each.  [time.NewTicker] panics when the period is not positive. *)
Fixpoint ticks {S} (sf : SyncFunc S) (n : nat) (now : Z) : M S (list Z) :=
  match n with
  | O => mret []
  | S n =>
    let now := (now + sf_period sf)%Z in
    _ ← sf_Call sf;
    rest ← ticks sf n now;
    mret (now :: rest)
  end.
Definition sf_Run {S} (sf : SyncFunc S) (n : nat) (s : S) : outcome (S * list Z) :=
  let now := sf_startupSyncDelay sf in
  let '(s, _) := sf_Call sf s in
  if (sf_period sf <=? 0)%Z then Panic "non-positive interval for NewTicker"
  else let '(s, rest) := ticks sf n now s in Done (s, now :: rest).

Section sync.
Context {W Obj OList : Type} `{ErrorLib} `{ClientObject Obj}.
Local Abbreviation St := (World W (SyncCall Obj)).

(** [type Controller interface] of the sync controller; objects are pointers,
    so both methods may change what they are given, which no caller looks at
    again. *)
Record SyncController := mkSyncController {
  sc_Ensure : Obj -> M W err;
  sc_Delete : Obj -> M W err;
}.

(** The client methods used here. *)
Record SyncClient := mkSyncClient {
  scl_Get : NamespacedName -> Obj -> M W (Obj * err);
  scl_List : OList -> M W (OList * err);
}.

(** [type Reconciler struct]; [Scheme] is the class instance. *)
Record Reconciler := mkReconciler {
  Name : string;
  Ctrlr : option SyncController;
  Prototype : option Obj;
  PrototypeList : option OList;
  Client : option SyncClient;
  SyncFuncs : list (SyncFunc St);
}.

(** The options. *)
Definition ReconcilerOption := Reconciler -> Reconciler.
Definition WithName (n : string) : ReconcilerOption := fun s =>
  mkReconciler n (Ctrlr s) (Prototype s) (PrototypeList s) (Client s) (SyncFuncs s).
Definition WithClient (cli : SyncClient) : ReconcilerOption := fun s =>
  mkReconciler (Name s) (Ctrlr s) (Prototype s) (PrototypeList s) (Some cli) (SyncFuncs s).
Definition WithPrototype (obj : Obj) : ReconcilerOption := fun s =>
  mkReconciler (Name s) (Ctrlr s) (Some obj) (PrototypeList s) (Client s) (SyncFuncs s).
Definition WithSyncFuncs (sf : list (SyncFunc St)) : ReconcilerOption := fun s =>
  mkReconciler (Name s) (Ctrlr s) (Prototype s) (PrototypeList s) (Client s) sf.

(** [RunSyncFuncs]: the functions that are started, one goroutine each. *)
Definition RunSyncFuncs (s : Reconciler) : list (SyncFunc St) := SyncFuncs s.

(** [Reconciler.Init]: the reconciler, the goroutines it starts and a nil error. *)
Definition Init (s : Reconciler) (mgr : option SyncClient) (k : option SyncController)
  (proto : option Obj) (protoList : option OList) (opts : list ReconcilerOption)
  : Reconciler * list (SyncFunc St) * err :=
  let s := mkReconciler (Name s) k
    (match proto with Some _ => proto | None => Prototype s end)
    (match protoList with Some _ => protoList | None => PrototypeList s end)
    (match mgr with Some _ => mgr | None => Client s end) (SyncFuncs s) in
  let s := foldl (fun s opt => opt s) s opts in
  (s, RunSyncFuncs s, None).

(** [fmt.Errorf] shows the request as namespace/name. *)
Definition req_String (req : NamespacedName) : string := NNNamespace req +:+ "/" +:+ NNName req.

(** [Reconciler.Reconcile] after the object was looked up. *)
Definition reconcileObject (k : SyncController) (req : NamespacedName) (instance : Obj) (getErr : err)
  : M St (Result * err) :=
  match getErr with
  | Some ge =>
    if IsNotFound ge then
      let instance := SetName instance (NNName req) in
      let instance := SetNamespace instance (NNNamespace req) in
      delErr ← logged (SDelete instance) (sc_Delete k instance);
      match delErr with
      | Some de => mret (requeueResult, Some (errorf_w "failed to delete %v from external system: %w"
                                               [req_String req] de))
      | None => mret (emptyResult, None)
      end
    else mret (emptyResult, getErr)
  | None =>
    ensureErr ← logged (SEnsure instance) (sc_Ensure k instance);
    match ensureErr with
    | Some ee => mret (requeueResult, Some (errorf_w "failed to ensure %v in the external system: %w"
                                             [req_String req] ee))
    | None => mret (emptyResult, None)
    end
  end.

(** The two halves of [Reconciler.Reconcile]: the lookup, in which [Get] fills the
    copy of the prototype it is given, and what follows it. *)
Definition lookupObject (s : Reconciler) (req : NamespacedName) (w : St) : outcome (St * (Obj * err)) :=
  match Prototype s, Client s with
  | Some proto, Some cl => Done (logged (SGet req) (scl_Get cl req proto) w)
  | _, _ => Panic "nil pointer dereference"
  end.
Definition finishReconcile (s : Reconciler) (req : NamespacedName) (instance : Obj) (getErr : err) (w : St)
  : outcome (St * (Result * err)) :=
  match Ctrlr s, getErr with
  | Some k, _ => Done (reconcileObject k req instance getErr w)
  | None, Some ge =>
    if IsNotFound ge then Panic "nil pointer dereference" else Done (w, (emptyResult, getErr))
  | None, None => Panic "nil pointer dereference"
  end.

(** [Reconciler.Reconcile]. *)
Definition Reconcile (s : Reconciler) (req : NamespacedName) (w : St) : outcome (St * (Result * err)) :=
  match lookupObject s req w with
  | Done (w, (instance, getErr)) => finishReconcile s req instance getErr w
  | Panic p => Panic p
  | OutOfFuel => OutOfFuel
  end.

(** ** Garbage collection of external objects *)

Context `{Scheme Obj} `{MetaLib Obj OList}.

(** [type Controller interface] of the external object sync. *)
Record ExtController := mkExtController {
  ec_Sync : SyncController;
  ec_List : M W (list NamespacedName * err);
}.

(** [type Reconciler struct] of the external object sync. *)
Record ExtReconciler := mkExtReconciler {
  er_Reconciler : Reconciler;
  er_Ctrlr : option ExtController;
  garbageCollectionPeriod : Z;
  startupGarbageCollectionDelay : Z;
}.

Definition SetGarbageCollectionPeriod (s : ExtReconciler) (p : Z) : ExtReconciler :=
  mkExtReconciler (er_Reconciler s) (er_Ctrlr s) p (startupGarbageCollectionDelay s).
Definition SetStartupGarbageCollectionDelay (s : ExtReconciler) (p : Z) : ExtReconciler :=
  mkExtReconciler (er_Reconciler s) (er_Ctrlr s) (garbageCollectionPeriod s) p.

(** The loop of [collectGarbage]: a failing deletion is logged and skipped. *)
Fixpoint deleteAll (k : SyncController) (proto : Obj) (delObjs : list NamespacedName) : proc St unit :=
  match delObjs with
  | [] => Ret tt
  | obj :: delObjs =>
    let instance := SetNamespace (SetName proto (NNName obj)) (NNNamespace obj) in
    call (logged (SDelete instance) (sc_Delete k instance)) (fun _ => deleteAll k proto delObjs)
  end.

(** [collectGarbage] once the objects of the cluster are listed. *)
Definition collectExternal (k : ExtController) (proto : Obj) (kObjList : list NamespacedName) : proc St unit :=
  call (logged SExtList (ec_List k)) (fun '(extObjList, listErr) =>
    match listErr with
    | Some _ => Ret tt
    | None =>
      let delObjs := NamespacedNamesDiff extObjList kObjList in
      deleteAll (ec_Sync k) proto delObjs
    end).

(** [collectGarbage], which runs in a goroutine of its own; its arguments are the
    fields of the reconciler it reads. *)
Definition collectGarbage (k : ExtController) (cl : SyncClient) (proto : Obj) (protoList : OList)
  : proc St unit :=
  call (logged SList (scl_List cl protoList)) (fun '(instances, listErr) =>
    match listErr with
    | Some _ => Ret tt
    | None =>
      match NamespacedNames (Obj := Obj) instances with
      | inl _ => Ret tt
      | inr kObjList => collectExternal k proto kObjList
      end
    end).

(** [Init] of the external object sync: the garbage collector is appended to the
    options as the only sync function.  [gc] is the method value
    [s.collectGarbage], bound to the reconciler. *)
Definition ExtInit (s : ExtReconciler) (mgr : option SyncClient) (k : ExtController)
  (proto : option Obj) (protoList : option OList) (opts : list ReconcilerOption) (gc : M St unit)
  : ExtReconciler * list (SyncFunc St) * err :=
  let opts := if (0 <? garbageCollectionPeriod s)%Z
    then opts ++ [WithSyncFuncs [NewSyncFunc gc (garbageCollectionPeriod s) (startupGarbageCollectionDelay s)]]
    else opts in
  let '(r, started, e) := Init (er_Reconciler s) mgr (Some (ec_Sync k)) proto protoList opts in
  (mkExtReconciler r (Some k) (garbageCollectionPeriod s) (startupGarbageCollectionDelay s), started, e).

(** ** Metadata resynchronisation *)

(** [type Controller interface] of the metadata sync. *)
Record MetaController := mkMetaController {
  mc_Sync : SyncController;
  mc_Diff : list Obj -> M W (list Obj * err);
}.

(** [type Reconciler struct] of the metadata sync. *)
Record MetaReconciler := mkMetaReconciler {
  mr_Reconciler : Reconciler;
  mr_Ctrlr : option MetaController;
  resyncPeriod : Z;
  startupSyncDelay : Z;
}.
Definition SetResyncPeriod (s : MetaReconciler) (p : Z) : MetaReconciler :=
  mkMetaReconciler (mr_Reconciler s) (mr_Ctrlr s) p (startupSyncDelay s).
Definition SetStartupSyncDelay (s : MetaReconciler) (p : Z) : MetaReconciler :=
  mkMetaReconciler (mr_Reconciler s) (mr_Ctrlr s) (resyncPeriod s) p.

(** [resync]; [ofUnstructured] is an Unstructured seen as a [client.Object]. *)
Definition resync (ofUnstructured : list (string * value) -> Obj) (k : MetaController) (cl : SyncClient)
  (protoList : OList) : M St unit :=
  '(instances, listErr) ← logged SList (scl_List cl protoList);
  match listErr with
  | Some _ => mret tt
  | None =>
    match ExtractList (Obj := Obj) instances with
    | inl _ => mret tt
    | inr items =>
      match ClientObjects items with
      | inl _ => mret tt
      | inr us =>
        let k8sObjList := ofUnstructured <$> us in
        '(resyncObjs, listErr) ← logged (SDiff k8sObjList) (mc_Diff k k8sObjList);
        match listErr with
        | Some _ => mret tt
        | None => forM_ resyncObjs (fun obj =>
            _ ← logged (SEnsure obj) (sc_Ensure (mc_Sync k) obj); mret tt)
        end
      end
    end
  end.

(** [Init] of the metadata sync; [rs] is the method value [s.resync]. *)
Definition MetaInit (s : MetaReconciler) (mgr : option SyncClient) (k : MetaController)
  (proto : option Obj) (protoList : option OList) (opts : list ReconcilerOption) (rs : M St unit)
  : MetaReconciler * list (SyncFunc St) * err :=
  let opts := if (0 <? resyncPeriod s)%Z
    then opts ++ [WithSyncFuncs [NewSyncFunc rs (resyncPeriod s) (startupSyncDelay s)]]
    else opts in
  let '(r, started, e) := Init (mr_Reconciler s) mgr (Some (mc_Sync k)) proto protoList opts in
  (mkMetaReconciler r (Some k) (resyncPeriod s) (startupSyncDelay s), started, e).
End sync.

(** ** Properties *)

Section sync_claims.
Context {W Obj OList : Type} `{ErrorLibLaws} `{ClientObjectLaws Obj} `{Scheme Obj} `{MetaLib Obj OList}.
Local Abbreviation St := (World W (SyncCall Obj)).
Local Abbreviation Rec := (Reconciler (W := W) (Obj := Obj) (OList := OList)).
Local Abbreviation Ctl := (SyncController (W := W) (Obj := Obj)).
Local Abbreviation ExtCtl := (ExtController (W := W) (Obj := Obj)).
Local Abbreviation MetaCtl := (MetaController (W := W) (Obj := Obj)).
Local Abbreviation Cli := (SyncClient (W := W) (Obj := Obj) (OList := OList)).

(** How the outcome [e] of the external call shows in the results. *)
Definition reports (e : err) (r : Result * err) : Prop :=
  match e with
  | None => r = (emptyResult, None)
  | Some x => r.1 = requeueResult /\ exists y, r.2 = Some y /\ forall t, errors_Is y t = errors_Is x t
  end.

(** The key of an object. *)
Definition nsname_of (o : Obj) : NamespacedName := mkNN (GetNamespace o) (GetName o).

(** The sync reconciler ensures an object that exists, deletes one that is
    gone under the key it was requested with, and does nothing on other lookup
    errors; the outcome of the one external call is reported with a requeue and
    an error that still matches its sentinels. *)
Theorem sync_Reconcile (s : Rec) (k : Ctl) (cl : Cli) proto req w w' r :
  Prototype s = Some proto -> Client s = Some cl -> Ctrlr s = Some k ->
  Reconcile s req w = Done (w', r) ->
  let '(w1, (inst, getErr)) := scl_Get cl req proto (wst w) in
  match getErr with
  | None => exists e, sc_Ensure k inst w1 = (wst w', e) /\
      wlog w' = wlog w ++ [SGet req; SEnsure inst] /\ reports e r
  | Some ge =>
    if IsNotFound ge then exists o e, nsname_of o = req /\ sc_Delete k o w1 = (wst w', e) /\
      wlog w' = wlog w ++ [SGet req; SDelete o] /\ reports e r
    else wlog w' = wlog w ++ [SGet req] /\ wst w' = w1 /\ r = (emptyResult, getErr)
  end.
Proof.
  intros Hp Hc Hk. unfold Reconcile, lookupObject, finishReconcile, reconcileObject, logged. rewrite Hp, Hc, Hk.
  destruct (scl_Get cl req proto (wst w)) as [w1 [inst [ge|]]]; unfold mbind, M_bind, mret, M_ret; cbn.
  - destruct (IsNotFound ge); cbn; [|intros [= <- <-]; done].
    destruct (sc_Delete k _ w1) as [w2 [e|]] eqn:Hd; cbn; intros [= <- <-]; eexists _, _.
    all: split_and!; [|exact Hd|by rewrite <- app_assoc|by repeat (split || eexists)].
    all: unfold nsname_of; rewrite GetNamespace_SetNamespace, GetName_SetNamespace, GetName_SetName.
    all: by destruct req.
  - destruct (sc_Ensure k inst w1) as [w2 [e|]] eqn:He; cbn; intros [= <- <-]; eexists; cbn.
    all: split_and!; [done|by rewrite <- app_assoc|by repeat (split || eexists)].
Qed.

(** A loop of logged calls that goes on whatever they return. *)
Lemma forM_logged {A X} (f : A -> SyncCall Obj) (m : A -> M W X) l (w : St) :
  let out := forM_ l (fun x => _ ← logged (f x) (m x); mret tt) w in
  wlog (fst out) = wlog w ++ (f <$> l) /\
  wst (fst out) = foldl (fun s x => fst (m x s)) (wst w) l.
Proof.
  revert w. induction l as [|x l IH]; intros w; cbn; [by rewrite app_nil_r|].
  unfold mbind, M_bind, logged. destruct (m x (wst w)) as [s' a] eqn:Hm. cbn.
  destruct (IH (mkWorld s' (wlog w ++ [f x]))) as [Hl Hs]. unfold mbind, M_bind, logged in Hl, Hs.
  cbn in Hl, Hs. rewrite Hl, Hs. by rewrite <- app_assoc.
Qed.

(** The object [collectGarbage] deletes for a key. *)
Definition gc_instance (proto : Obj) (n : NamespacedName) : Obj :=
  SetNamespace (SetName proto (NNName n)) (NNNamespace n).

Lemma gc_instance_key proto n : nsname_of (gc_instance proto n) = n.
Proof.
  unfold nsname_of, gc_instance. rewrite GetNamespace_SetNamespace, GetName_SetNamespace, GetName_SetName.
  by destruct n.
Qed.

Lemma deleteAll_run (k : Ctl) proto l (w : St) :
  wlog (fst (run (deleteAll k proto l) w)) = wlog w ++ (SDelete ∘ gc_instance proto <$> l) /\
  wst (fst (run (deleteAll k proto l) w)) = foldl (fun s n => fst (sc_Delete k (gc_instance proto n) s)) (wst w) l.
Proof.
  revert w. induction l as [|n l IH]; intros w; cbn [deleteAll run call]; [by rewrite app_nil_r|]. fold (gc_instance proto n).
  destruct (IH (fst (logged (SDelete (gc_instance proto n)) (sc_Delete k (gc_instance proto n)) w))) as [-> ->].
  unfold logged. cbn. destruct (sc_Delete k (gc_instance proto n) (wst w)) as [s e]. cbn. by rewrite <- app_assoc.
Qed.

Lemma collectGarbage_run (k : ExtCtl) (cl : Cli) proto (pl : OList) w w1 insts kobjs w2 ext :
  scl_List cl pl (wst w) = (w1, (insts, None)) -> NamespacedNames (Obj := Obj) insts = inr kobjs ->
  ec_List k w1 = (w2, (ext, None)) ->
  let w' := fst (run (collectGarbage k cl proto pl) w) in
  wlog w' = wlog w ++ [SList; SExtList] ++
    (SDelete <$> (gc_instance proto <$> filter (fun n => n ∉ kobjs) ext)) /\
  wst w' = foldl (fun s n => fst (sc_Delete (ec_Sync k) (gc_instance proto n) s)) w2
             (filter (fun n => n ∉ kobjs) ext).
Proof.
  intros Hl Hn He. unfold collectGarbage, collectExternal, logged. cbn [run call]. rewrite Hl. cbn. rewrite Hn. cbn.
  rewrite He. cbn. unfold NamespacedNamesDiff. rewrite diff_loop_filter. cbn.
  destruct (deleteAll_run (ec_Sync k) proto (filter (fun n => n ∉ kobjs) ext)
    (mkWorld w2 ((wlog w ++ [SList]) ++ [SExtList]))) as [Hlog Hst]. split; [|exact Hst].
  etrans; [exact Hlog|]. rewrite <- list_fmap_compose. cbn. by rewrite <- !app_assoc.
Qed.

(** A garbage collection deletes exactly the external objects without a
    cluster object, each under its own key, and goes on after a failure. *)
Theorem collectGarbage_deletes (k : ExtCtl) (cl : Cli) proto (pl : OList) w w1 insts kobjs w2 ext :
  scl_List cl pl (wst w) = (w1, (insts, None)) -> NamespacedNames (Obj := Obj) insts = inr kobjs ->
  ec_List k w1 = (w2, (ext, None)) ->
  exists dels, wlog (fst (run (collectGarbage k cl proto pl) w)) = wlog w ++ [SList; SExtList] ++ (SDelete <$> dels) /\
    nsname_of <$> dels = filter (fun n => n ∉ kobjs) ext.
Proof.
  intros Hl Hn He. destruct (collectGarbage_run k cl proto pl w w1 insts kobjs w2 ext Hl Hn He) as [Hlog _].
  eexists. split; [exact Hlog|]. rewrite <- list_fmap_compose. erewrite list_fmap_ext.
  - apply list_fmap_id.
  - intros i n _. apply gc_instance_key.
Qed.

Lemma foldl_filter_ne (view : W -> list NamespacedName) (del : NamespacedName -> W -> W) l s :
  (forall n s, view (del n s) = filter (fun m => m <> n) (view s)) ->
  view (foldl (fun s n => del n s) s l) = filter (fun m => m ∉ l) (view s).
Proof.
  intros Hdel. revert s. induction l as [|n l IH]; intros s; cbn.
  - rewrite list_filter_all; [done|]. intros; set_solver.
  - rewrite IH, Hdel, list_filter_filter. apply list_filter_iff. set_solver.
Qed.

(** With an external system whose deletions succeed, one garbage collection
    leaves exactly the external objects that have a cluster object. *)
Theorem collectGarbage_converges (k : ExtCtl) (cl : Cli) proto (pl : OList) w w1 insts kobjs w2
  (view : W -> list NamespacedName) :
  (forall o s, view (fst (sc_Delete (ec_Sync k) o s)) = filter (fun n => n <> nsname_of o) (view s)) ->
  scl_List cl pl (wst w) = (w1, (insts, None)) -> NamespacedNames (Obj := Obj) insts = inr kobjs ->
  ec_List k w1 = (w2, (view w2, None)) ->
  view (wst (fst (run (collectGarbage k cl proto pl) w))) = filter (fun n => n ∈ kobjs) (view w2).
Proof.
  intros Hdel Hl Hn He. destruct (collectGarbage_run k cl proto pl w w1 insts kobjs w2 _ Hl Hn He) as [_ ->].
  rewrite (foldl_filter_ne view (fun n s => fst (sc_Delete (ec_Sync k) (gc_instance proto n) s))).
  - apply list_filter_ext. intros n Hin. rewrite list_elem_of_filter. destruct (decide (n ∈ kobjs)); naive_solver.
  - intros n s. by rewrite Hdel, gc_instance_key.
Qed.

(** A resynchronisation shows the controller all objects of the cluster and
    ensures exactly those it reports as different, going on after a failure. *)
Theorem resync_ensures ofU (k : MetaCtl) (cl : Cli) (pl : OList) w w1 insts items us w2 different :
  scl_List cl pl (wst w) = (w1, (insts, None)) -> ExtractList (Obj := Obj) insts = inr items ->
  ClientObjects items = inr us -> mc_Diff k (ofU <$> us) w1 = (w2, (different, None)) ->
  wlog (fst (resync ofU k cl pl w)) = wlog w ++ [SList; SDiff (ofU <$> us)] ++ (SEnsure <$> different) /\
  length us = length items.
Proof.
  intros Hl Hx Hc Hd. unfold resync, mbind, M_bind, logged. rewrite Hl. cbn. rewrite Hx. cbn. rewrite Hc. cbn. rewrite Hd. cbn.
  destruct (forM_logged SEnsure (sc_Ensure (mc_Sync k)) different
    (mkWorld w2 ((wlog w ++ [SList]) ++ [SDiff (ofU <$> us)]))) as [Hlog _]. split.
  - etrans; [exact Hlog|]. cbn. by rewrite <- !app_assoc.
  - clear - Hc. revert us Hc. induction items as [|o items IH]; intros us Hc; cbn in Hc; [by simplify_eq|].
    repeat case_match; simplify_eq. cbn. f_equal. by apply IH.
Qed.

Lemma ticks_times {S} (sf : SyncFunc S) n : forall now s,
  snd (ticks sf n now s) = (fun i => now + Z.of_nat i * sf_period sf)%Z <$> seq 1 n.
Proof.
  induction n as [|n IH]; intros now s; [done|]. cbn [ticks]. unfold mbind, M_bind.
  destruct (sf_Call sf s) as [s1 []]. specialize (IH (now + sf_period sf)%Z s1).
  destruct (ticks sf n (now + sf_period sf) s1) as [s2 rest]. cbn in *. rewrite IH. f_equal; [lia|].
  rewrite <- (fmap_S_seq 1 n), <- list_fmap_compose. apply list_fmap_ext. intros i x _. cbn. lia.
Qed.

(** With a positive period, the garbage collector is the one periodic
    function the reconciler starts, whatever the options asked for; it first runs
    after a delay that is never zero, and then once per period. *)
Theorem ExtInit_schedule (s : ExtReconciler (W := W) (Obj := Obj) (OList := OList)) mgr k proto pl opts gc :
  (0 < garbageCollectionPeriod s)%Z -> (0 <= startupGarbageCollectionDelay s)%Z ->
  exists s' sf d, ExtInit s mgr k proto pl opts gc = (s', [sf], None) /\ (0 < d)%Z /\
    forall n st, exists st', sf_Run sf n st =
      Done (st', (fun i => d + Z.of_nat i * garbageCollectionPeriod s)%Z <$> seq 0 (S n)).
Proof.
  intros Hp Hd. unfold ExtInit, Init. rewrite (proj2 (Z.ltb_lt _ _) Hp), foldl_app. cbn.
  eexists _, _, _. split; [reflexivity|]. split.
  - instantiate (1 := sf_startupSyncDelay (NewSyncFunc gc (garbageCollectionPeriod s) (startupGarbageCollectionDelay s))).
    cbn. destruct (Z.eqb_spec (startupGarbageCollectionDelay s) 0); [done|lia].
  - intros n st. unfold sf_Run. destruct (sf_Call _ st) as [st1 u].
    destruct (Z.leb_spec (sf_period (NewSyncFunc gc (garbageCollectionPeriod s) (startupGarbageCollectionDelay s))) 0);
      [cbn in *; lia|].
    pose proof (ticks_times (NewSyncFunc gc (garbageCollectionPeriod s) (startupGarbageCollectionDelay s)) n
      (sf_startupSyncDelay (NewSyncFunc gc (garbageCollectionPeriod s) (startupGarbageCollectionDelay s))) st1) as Ht.
    destruct (ticks _ n _ st1) as [st2 rest]. cbn [snd] in Ht. exists st2. rewrite Ht.
    cbn [seq fmap list_fmap]. f_equal. f_equal. f_equal. cbn. lia.
Qed.
End sync_claims.

(** ** Witnesses *)

(** The world is the content of the external system. *)
Module SyncDemo.
Import ApiDemo RefErrors.
#[export] Instance metaLib : MetaLib obj (list obj) := {|
  ExtractList := fun l => inr l;
  Accessor := fun o => inr (nsname o);
|}.
Definition names (l : list string) : list NamespacedName := mkNN "ns" <$> l.
Definition proto : obj := mkObj (mkNN "" "") [] true [].
Definition named (n : string) : obj := mkObj (mkNN "ns" n) [] true [].
Definition sync : SyncController (W := list NamespacedName) (Obj := obj) :=
  mkSyncController (fun o w => (w ++ [nsname o], None))
    (fun o w => (filter (fun n => n <> nsname_of o) w, None)).
Definition ext : ExtController := mkExtController sync (fun w => (w, (w, None))).
Definition diff : MetaController := mkMetaController sync (fun objs w => (w, (objs, None))).
Definition cli (present : list obj)
  : SyncClient (W := list NamespacedName) (Obj := obj) (OList := list obj) :=
  mkSyncClient (fun _ p w => (w, (p, Some NotFound))) (fun _ w => (w, (present, None))).
Definition w0 : World (list NamespacedName) (SyncCall obj) := mkWorld (names ["a"; "b"; "c"]) [].
Definition rec : Reconciler := mkReconciler "sync" (Some sync) (Some proto) (Some []) (Some (cli [])) [].
End SyncDemo.

Import RefErrors.
Module SyncWitness.
Import ApiDemo SyncDemo.

(** A deleted object: the external object goes too. *)
Lemma sync_Reconcile_witness :
  exists o e, nsname_of o = mkNN "ns" "b" /\ sc_Delete sync o (names ["a"; "b"; "c"]) = (names ["a"; "c"], e) /\
    [SGet (mkNN "ns" "b"); SDelete (named "b")] = [] ++ [SGet (mkNN "ns" "b"); SDelete o] /\
    reports e (emptyResult, None).
Proof.
  exact (sync_Reconcile rec sync (cli []) proto (mkNN "ns" "b") w0
    (mkWorld (names ["a"; "c"]) [SGet (mkNN "ns" "b"); SDelete (named "b")]) (emptyResult, None)
    eq_refl eq_refl eq_refl eq_refl).
Defined.

Lemma collectGarbage_deletes_witness :
  exists dels, wlog (fst (run (collectGarbage ext (cli [named "b"]) proto []) w0)) =
      [] ++ [SList; SExtList] ++ (SDelete <$> dels) /\
    nsname_of <$> dels = names ["a"; "c"].
Proof.
  exact (collectGarbage_deletes ext (cli [named "b"]) proto [] w0 (names ["a"; "b"; "c"]) [named "b"]
    (names ["b"]) (names ["a"; "b"; "c"]) (names ["a"; "b"; "c"]) eq_refl eq_refl eq_refl).
Defined.

Lemma collectGarbage_converges_witness :
  wst (fst (run (collectGarbage ext (cli [named "b"]) proto []) w0)) = names ["b"].
Proof.
  exact (collectGarbage_converges ext (cli [named "b"]) proto [] w0 (names ["a"; "b"; "c"]) [named "b"]
    (names ["b"]) (names ["a"; "b"; "c"]) (fun w => w) (fun _ _ => eq_refl) eq_refl eq_refl eq_refl).
Defined.

Lemma resync_ensures_witness :
  wlog (fst (resync (fun u => named "u") diff (cli [named "b"]) [] w0)) =
    [] ++ [SList; SDiff [named "u"]] ++ (SEnsure <$> [named "u"]) /\ length [[] : list (string * value)] = 1.
Proof.
  exact (resync_ensures (fun u => named "u") diff (cli [named "b"]) [] w0 (names ["a"; "b"; "c"]) [named "b"]
    [named "b"] [[]] (names ["a"; "b"; "c"]) [named "u"] eq_refl eq_refl eq_refl eq_refl).
Defined.

Lemma ExtInit_schedule_witness :
  exists s' sf d, ExtInit (mkExtReconciler rec None (5 * minute) 0) None ext None None [] (mret tt)
      = (s', [sf], None) /\ (0 < d)%Z /\
    forall n st, exists st', sf_Run sf n st =
      Done (st', (fun i => d + Z.of_nat i * (5 * minute))%Z <$> seq 0 (S n)).
Proof.
  exact (ExtInit_schedule (mkExtReconciler rec None (5 * minute) 0) None ext None None [] (mret tt)
    eq_refl (Z.le_refl 0)).
Defined.
End SyncWitness.
