(* ===== verification/Mirror.v ===== *)
(** The external object sync over time: the reconciler and the garbage collector of
    [controller/external-object-sync/v1], with the reconciler of
    [controller/sync/v1] it embeds, while users change the cluster and calls fail
    for a while.

    The purpose of the controller is that the external system mirrors the cluster.
    The reconciler, of which there is one worker, and the collector are two
    goroutines: they take turns call by call, and users and outages come between any
    two calls.  What can be out of step is described by a small abstract machine,
    which the controller is shown to follow. *)
From S2P Require Import Prelude Object Sync.

(** ** The abstract machine *)

(** What can happen: the worker takes a request and looks its object up, and later
    finishes it; a garbage collection is started, makes its next call, and ends; a
    user creates or removes an object; and the systems go down or come up again. *)
Inductive action :=
| Get (n : NamespacedName) | Finish
| GcStart | GcCall | GcEnd
| Create (n : NamespacedName) | Remove (n : NamespacedName) | Switch (b : bool).

(** A request in progress: whether its key was changed since it was looked up, and
    whether the lookup worked.  A collection in progress: the keys that were changed
    since it was started, and whether all of its calls worked. *)
Record request := mkRequest { rq_key : NamespacedName; rq_stale : bool; rq_works : bool }.
Record collection := mkCollection { gc_changed : gset NamespacedName; gc_works : bool }.

(** A picture: the objects of the cluster, the keys that may be out of step, whether
    calls succeed, and what is in progress. *)
Record picture := mkPicture {
  p_cluster : gset NamespacedName; p_pending : gset NamespacedName; p_up : bool;
  p_request : option request; p_collection : option collection;
}.

(** A key is changed while a request or a collection is in progress. *)
Definition outdate (n : NamespacedName) (q : request) : request :=
  mkRequest (rq_key q) (rq_stale q || bool_decide (rq_key q = n)) (rq_works q).
Definition note (n : NamespacedName) (g : collection) : collection := mkCollection ({[n]} ∪ gc_changed g) (gc_works g).

(** A change of a key puts it out of step.  A request puts its key in step when its
    calls succeed, unless the key was changed meanwhile, and then it leaves it out of
    step.  A collection puts every key in step that the cluster does not have and that
    was not changed meanwhile, when all its calls succeed; but while it runs, a key of
    the cluster that was changed since its start may get out of step. *)
Definition next (p : picture) (a : action) : picture :=
  let '(mkPicture c d u q g) := p in
  match a with
  | Get n => mkPicture c d u (Some (mkRequest n false u)) g
  | Finish =>
    match q with
    | Some (mkRequest n stale works) =>
      if stale then mkPicture c ({[n]} ∪ d) u None (note n <$> g)
      else mkPicture c (if works && u then d ∖ {[n]} else d) u None g
    | None => p
    end
  | GcStart => mkPicture c d u q (Some (mkCollection ∅ true))
  | GcCall =>
    match g with
    | Some (mkCollection ch works) => mkPicture c (d ∪ (c ∩ ch)) u q (Some (mkCollection ch (works && u)))
    | None => p
    end
  | GcEnd =>
    match g with
    | Some (mkCollection ch works) => mkPicture c (if works then d ∩ (c ∪ ch) else d) u q None
    | None => p
    end
  | Create n => mkPicture ({[n]} ∪ c) ({[n]} ∪ d) u (outdate n <$> q) (note n <$> g)
  | Remove n => mkPicture (c ∖ {[n]}) ({[n]} ∪ d) u (outdate n <$> q) (note n <$> g)
  | Switch b => mkPicture c d b q g
  end.

(** ** The controller *)

Section mirror.
Context {W Obj OList : Type} `{ErrorLib} `{ClientObjectLaws Obj} `{Scheme Obj} `{MetaLib Obj OList}.
Local Abbreviation St := (World W (SyncCall Obj)).
Local Abbreviation Rec := (Reconciler (W := W) (Obj := Obj) (OList := OList)).
Context (k : ExtController (W := W) (Obj := Obj)) (cl : SyncClient (W := W) (Obj := Obj) (OList := OList)) (proto : Obj) (pl : OList).
(** What the two systems hold and whether they are up, what users do to the
    cluster, and outages. *)
Context (cluster external : W -> gset NamespacedName) (up : W -> bool).
Context (create remove : NamespacedName -> W -> W) (switch : bool -> W -> W).

(** A reconciler that was given the client, the prototype and the controller. *)
Definition serving (r : Rec) : Prop := Prototype r = Some proto /\ Client r = Some cl /\ Ctrlr r = Some (ec_Sync k).

(** The world, the request the worker has looked up, and the rest of a collection. *)
Record config := mkConfig {
  c_world : St; c_request : option (NamespacedName * Obj * err); c_collection : option (proc St unit);
}.
Definition idle (x : config) : Prop := c_request x = None /\ c_collection x = None.

(** One thing that happens, if it can: the halves of [Reconcile], and the calls of
    [collectGarbage] one by one. *)
Definition act (r : Rec) (a : action) (x : config) : option config :=
  let '(mkConfig w q g) := x in
  match a, q, g with
  | Get n, None, _ =>
    match lookupObject r n w with Done (w, (inst, e)) => Some (mkConfig w (Some (n, inst, e)) g) | _ => None end
  | Finish, Some (n, inst, e), _ =>
    match finishReconcile r n inst e w with Done (w, _) => Some (mkConfig w None g) | _ => None end
  | GcStart, _, None => Some (mkConfig w q (Some (collectGarbage k cl proto pl)))
  | GcCall, _, Some (Act u rest) => Some (mkConfig (u w) q (Some (rest w)))
  | GcEnd, _, Some (Ret _) => Some (mkConfig w q None)
  | Create n, _, _ => Some (mkConfig (mkWorld (create n (wst w)) (wlog w)) q g)
  | Remove n, _, _ => Some (mkConfig (mkWorld (remove n (wst w)) (wlog w)) q g)
  | Switch b, _, _ => Some (mkConfig (mkWorld (switch b (wst w)) (wlog w)) q g)
  | _, _, _ => None
  end.
Fixpoint happens (r : Rec) (acts : list action) (x : config) : option config :=
  match acts with
  | [] => Some x
  | a :: acts => x ← act r a x; happens r acts x
  end.

(** A request with nothing in between is [Reconcile]. *)
Lemma request_alone (r : Rec) n w g : happens r [Get n; Finish] (mkConfig w None g) =
  match Reconcile r n w with Done (w, _) => Some (mkConfig w None g) | _ => None end.
Proof.
  unfold happens, act, Reconcile. destruct (lookupObject r n w) as [[w1 [inst e]]| |]; cbn; [|done..].
  by destruct (finishReconcile r n inst e w1) as [[w2 res]| |].
Qed.

(** Two worlds in which the same is true of the systems. *)
Definition same (w w' : W) : Prop := cluster w' = cluster w /\ external w' = external w /\ up w' = up w.
(** A call that changes the external system: it has its effect, unless it fails
    while the systems are down, when it may have had it or not. *)
Definition affects (w w' : W) (e : err) (effect : gset NamespacedName) : Prop :=
  cluster w' = cluster w /\ up w' = up w /\ (external w' = effect \/ external w' = external w /\ up w = false /\ e <> None) /\
  (up w = true -> e = None).

(** What the controller is told to expect of the API server and of the methods it
    is given: reads are answered with what is there, or with an error while the
    systems are down; [Ensure] and [Delete] work on the key of the object. *)
Record mirror_works : Prop := {
  create_spec : forall n w, cluster (create n w) = {[n]} ∪ cluster w /\ external (create n w) = external w /\ up (create n w) = up w;
  remove_spec : forall n w, cluster (remove n w) = cluster w ∖ {[n]} /\ external (remove n w) = external w /\ up (remove n w) = up w;
  switch_spec : forall b w, cluster (switch b w) = cluster w /\ external (switch b w) = external w /\ up (switch b w) = b;
  get_spec : forall n w w' o e, scl_Get cl n proto w = (w', (o, e)) -> same w w' /\
    match e with
    | None => n ∈ cluster w /\ nsname_of o = n
    | Some e => if IsNotFound e then n ∉ cluster w else up w = false
    end;
  list_spec : forall w w' l e, scl_List cl pl w = (w', (l, e)) -> same w w' /\
    match e with
    | None => exists names, NamespacedNames (Obj := Obj) l = inr names /\ forall n, n ∈ names <-> n ∈ cluster w
    | Some _ => up w = false
    end;
  ext_list_spec : forall w w' l e, ec_List k w = (w', (l, e)) -> same w w' /\
    match e with None => forall n, n ∈ l <-> n ∈ external w | Some _ => up w = false end;
  ensure_spec : forall o w w' e, sc_Ensure (ec_Sync k) o w = (w', e) -> affects w w' e ({[nsname_of o]} ∪ external w);
  delete_spec : forall o w w' e, sc_Delete (ec_Sync k) o w = (w', e) -> affects w w' e (external w ∖ {[nsname_of o]});
}.

(** The keys that are out of step. *)
Definition out_of_step (w : W) : gset NamespacedName := (cluster w ∖ external w) ∪ (external w ∖ cluster w).
(** The picture of a world in which nothing is in progress. *)
Definition picture_of (w : W) : picture := mkPicture (cluster w) (out_of_step w) (up w) None None.

(** The request of a picture, and what the worker has looked up. *)
Definition request_pictured (c : gset NamespacedName) (q : NamespacedName * Obj * err) (rq : request) : Prop :=
  let '(n, inst, e) := q in rq_key rq = n /\
  match e with
  | None => nsname_of inst = n /\ (rq_stale rq = false -> n ∈ c)
  | Some e => if IsNotFound e then rq_stale rq = false -> n ∉ c else rq_works rq = false
  end.

(** The collection of a picture, and the rest of [collectGarbage]: it is to list the
    cluster, or has listed it as it is but for the keys that were changed; or it is to
    delete keys that the cluster does not have unless they were changed, and, if all
    calls worked, all of those; or a call failed. *)
Inductive collection_pictured (w : W) (g : collection) : proc St unit -> Prop :=
| cp_start : collection_pictured w g (collectGarbage k cl proto pl)
| cp_listed names : (forall n, n ∉ gc_changed g -> n ∈ names <-> n ∈ cluster w) -> collection_pictured w g (collectExternal k proto names)
| cp_deleting l : (forall n, n ∈ l -> n ∉ gc_changed g -> n ∉ cluster w) ->
    (gc_works g = true -> forall n, n ∉ gc_changed g -> n ∉ cluster w -> n ∈ external w -> n ∈ l) ->
    collection_pictured w g (deleteAll (ec_Sync k) proto l)
| cp_failed : gc_works g = false -> collection_pictured w g (Ret tt).

Definition both {A B} (R : A -> B -> Prop) (a : option A) (b : option B) : Prop :=
  match a, b with Some a, Some b => R a b | None, None => True | _, _ => False end.
Record pictured (x : config) (p : picture) : Prop := {
  pic_cluster : cluster (wst (c_world x)) = p_cluster p;
  pic_up : up (wst (c_world x)) = p_up p;
  pic_pending : out_of_step (wst (c_world x)) ⊆ p_pending p;
  pic_request : both (request_pictured (p_cluster p)) (c_request x) (p_request p);
  pic_collection : both (fun q g => collection_pictured (wst (c_world x)) g q) (c_collection x) (p_collection p);
}.

(** ** The controller follows the machine *)

Context (Hworks : mirror_works).

Lemma collection_same w w' g q : same w w' -> collection_pictured w g q -> collection_pictured w' g q.
Proof.
  intros (Hc & He & _) [|names Hn|l Hl Hx|Hf]; constructor; rewrite ?Hc, ?He; auto.
Qed.

(** The effect of a call on one key, on a collection in progress: harmless if it is a
    deletion, if the cluster has the key, or if the key is counted as changed. *)
Lemma collection_affects w w' e effect n g q : affects w w' e effect -> collection_pictured w g q ->
  effect = external w ∖ {[n]} \/ (effect = {[n]} ∪ external w /\ n ∈ cluster w) -> collection_pictured w' g q.
Proof.
  intros (Hc & _ & He & _) Hq Hn.
  assert (forall m, m ∉ cluster w -> m ∈ external w' -> m ∈ external w) as Hm.
  { intros m Hm. destruct He as [->|(-> & _)]; [|done]. set_solver. }
  destruct Hq as [|names Hnm|l Hl Hx|Hf]; constructor; rewrite ?Hc; auto.
Qed.
Lemma collection_noted w w' e effect n g q : affects w w' e effect -> collection_pictured w g q ->
  effect = external w ∖ {[n]} \/ effect = {[n]} ∪ external w -> collection_pictured w' (note n g) q.
Proof.
  intros (Hc & _ & He & _) Hq Hn.
  assert (forall m, m <> n -> m ∈ external w' -> m ∈ external w) as Hm.
  { intros m Hm. destruct He as [->|(-> & _)]; [|done]. set_solver. }
  destruct Hq as [|names Hnm|l Hl Hx|Hf]; constructor; cbn; rewrite ?Hc; intros; set_solver.
Qed.

Lemma Get_follows r n w g p x : serving r -> pictured (mkConfig w None g) p -> act r (Get n) (mkConfig w None g) = Some x ->
  pictured x (next p (Get n)).
Proof.
  intros (Hp & Hc & Hk) [Pc Pu Pd _ Pg]. cbn in *. unfold lookupObject. rewrite Hp, Hc. unfold logged.
  destruct (scl_Get cl n proto (wst w)) as [w1 [inst e]] eqn:Hg. intros [= <-].
  apply (get_spec Hworks) in Hg as [Hs Hg]. pose proof Hs as (Hs1 & Hs2 & Hs3). destruct p as [c d u q gg]. cbn in *. subst c u. split; cbn.
  - done.
  - done.
  - unfold out_of_step in *. by rewrite Hs1, Hs2.
  - split; [done|]. destruct e as [e|]; [|by split_and!; naive_solver]. by destruct (IsNotFound e).
  - destruct g as [g|], gg as [gg|]; cbn in *; try done. by eapply collection_same.
Qed.

(** What the second half of a request does to the external system. *)
Lemma found_effect r n inst e w w' res c rq : serving r -> request_pictured c (n, inst, e) rq ->
  finishReconcile r n inst e w = Done (w', res) ->
  wst w' = wst w /\ rq_works rq = false \/
  exists x effect, affects (wst w) (wst w') x effect /\
    (effect = external (wst w) ∖ {[n]} /\ (rq_stale rq = false -> n ∉ c) \/
     effect = {[n]} ∪ external (wst w) /\ (rq_stale rq = false -> n ∈ c)).
Proof.
  intros (_ & _ & Hk) [Hn Hq] Hf. unfold finishReconcile, reconcileObject, logged in Hf. rewrite Hk in Hf. unfold mbind, M_bind, mret, M_ret in Hf.
  destruct e as [e|]; [destruct (IsNotFound e)|].
  - right. destruct (sc_Delete (ec_Sync k) _ (wst w)) as [w1 x] eqn:Hd. apply (delete_spec Hworks) in Hd.
    exists x, (external (wst w) ∖ {[n]}). split; [|by left].
    assert (w1 = wst w') as <- by (by destruct x; simplify_eq/=).
    unfold nsname_of in Hd. rewrite GetNamespace_SetNamespace, GetName_SetNamespace, GetName_SetName in Hd. by destruct n.
  - left. simplify_eq. done.
  - right. destruct Hq as [Hi Hq]. destruct (sc_Ensure (ec_Sync k) inst (wst w)) as [w1 x] eqn:He. apply (ensure_spec Hworks) in He.
    exists x, ({[n]} ∪ external (wst w)). split; [|by right]. rewrite Hi in He.
    assert (w1 = wst w') as <- by (by destruct x; simplify_eq/=). done.
Qed.

Lemma Finish_follows r n inst e w g p x : serving r -> pictured (mkConfig w (Some (n, inst, e)) g) p ->
  act r Finish (mkConfig w (Some (n, inst, e)) g) = Some x -> pictured x (next p Finish).
Proof.
  intros Hr [Pc Pu Pd Pq Pg] Ha. destruct p as [c d u [rq|] gg]; cbn in Pc, Pu, Pd, Pq, Pg; [|done]. cbn in Ha.
  destruct (finishReconcile r n inst e w) as [[w' res]| |] eqn:Hf; try done. injection Ha as <-.
  pose proof (found_effect _ _ _ _ _ _ _ _ _ Hr Pq Hf) as Heff. destruct Pq as [Hn _]. destruct rq as [m stale works]. cbn in Hn, Heff. subst m c u.
  destruct Heff as [[Hw ->]|(y & effect & Haff & Heff)].
  { cbn [next]. destruct stale; split; cbn in *; rewrite ?Hw; try done; [set_solver|].
    destruct g as [g|], gg as [gg|]; cbn in *; try done. inversion Pg; subst; constructor; cbn; intros; set_solver. }
  pose proof Haff as (Hc & Hu & He & Hup). cbn [next]. destruct stale; split; cbn in *; try done.
  - unfold out_of_step in *. rewrite Hc. destruct He as [->|(-> & _)]; [|set_solver]. intros z Hz. destruct (decide (z = n)); set_solver.
  - destruct g as [g|], gg as [gg|]; cbn in *; try done. eapply (collection_noted _ _ _ _ n); naive_solver.
  - unfold out_of_step in *. rewrite Hc.
    assert (forall z, z <> n -> z ∈ external (wst w') <-> z ∈ external (wst w)) as Hz by (destruct He as [->|(-> & _)]; set_solver).
    assert (up (wst w) = true -> external (wst w') = effect) as Heq by (intros Hut; destruct He as [?|(_ & ? & _)]; congruence).
    destruct (works && up (wst w)) eqn:Hb.
    + apply andb_true_iff in Hb as [_ Hb]. specialize (Heq Hb). intros z. destruct (decide (z = n)) as [->|Hne]; [set_solver|].
      specialize (Hz z Hne). set_solver.
    + intros z Hin. apply Pd. destruct (decide (z = n)) as [->|Hne]; [|specialize (Hz z Hne); set_solver].
      destruct He as [He|(He & _)]; [|rewrite He in Hin; set_solver]. set_solver.
  - destruct g as [g|], gg as [gg|]; cbn in *; try done. eapply (collection_affects _ _ _ _ n); naive_solver.
Qed.

(** One call of a collection. *)
Lemma GcCall_step w g u rest : collection_pictured (wst w) g (Act u rest) ->
  let w' := wst (u w) in
  cluster w' = cluster (wst w) /\ up w' = up (wst w) /\
  (forall n, n ∈ out_of_step w' -> n ∈ out_of_step (wst w) \/ n ∈ cluster (wst w) /\ n ∈ gc_changed g) /\
  collection_pictured w' (mkCollection (gc_changed g) (gc_works g && up (wst w))) (rest w).
Proof.
  destruct g as [ch works]. cbn. intros Hq. inversion Hq as [Hs|names Hn Hs|l Hl Hx Hs|]; subst.
  - unfold logged. destruct (scl_List cl pl (wst w)) as [w1 [insts e]] eqn:Hls. cbn. destruct (list_spec Hworks _ _ _ _ Hls) as [Hsame He].
    destruct Hsame as (S1 & S2 & S3). unfold out_of_step. rewrite S1, S2. split_and!; [done|done|by left|].
    destruct e as [e|]; [constructor; cbn; rewrite He; apply andb_false_r|].
    destruct He as (names & -> & Hn). constructor. intros n _. by rewrite S1.
  - unfold logged. destruct (ec_List k (wst w)) as [w1 [ext e]] eqn:Hls. cbn. destruct (ext_list_spec Hworks _ _ _ _ Hls) as [Hsame He].
    destruct Hsame as (S1 & S2 & S3). unfold out_of_step. rewrite S1, S2. split_and!; [done|done|by left|].
    destruct e as [e|]; [constructor; cbn; rewrite He; apply andb_false_r|]. unfold NamespacedNamesDiff. rewrite diff_loop_filter. cbn.
    constructor; cbn in *; rewrite ?S1, ?S2.
    + intros n [Hnn _]%list_elem_of_filter Hch Hc. by apply Hnn, Hn.
    + intros _ n Hch Hc Hex. apply list_elem_of_filter. rewrite Hn, He by done. done.
  - destruct l as [|n l]; [done|]. cbn in Hs. injection Hs as <- <-. fold (gc_instance proto n). unfold logged.
    destruct (sc_Delete (ec_Sync k) (gc_instance proto n) (wst w)) as [w1 e] eqn:Hd. cbn. apply (delete_spec Hworks) in Hd.
    rewrite gc_instance_key in Hd. destruct Hd as (Hc & Hu & He & Hup). unfold out_of_step. rewrite Hc. split_and!; [done|done| |].
    + intros z Hz. destruct (decide (z = n)) as [->|Hne]; [|left; destruct He as [He|(He & _)]; rewrite He in Hz; set_solver].
      destruct (decide (n ∈ cluster (wst w))) as [Hin|Hin]; [|left; destruct He as [He|(He & _)]; rewrite He in Hz; set_solver].
      right. split; [done|]. destruct (decide (n ∈ ch)) as [|Hnch]; [done|]. exfalso. eapply Hl; [left|exact Hnch|exact Hin].
    + constructor; cbn in *; rewrite ?Hc.
      * intros z Hz. apply Hl. by right.
      * intros [Hw Hut]%andb_true_iff z Hz Hzc Hze. destruct He as [He|(_ & He & _)]; [|congruence].
        rewrite He in Hze. assert (z ∈ n :: l) as Hin by (apply Hx; set_solver). set_solver.
Qed.

Lemma GcCall_follows r w q g p x : pictured (mkConfig w q g) p -> act r GcCall (mkConfig w q g) = Some x -> pictured x (next p GcCall).
Proof.
  intros [Pc Pu Pd Pq Pg] Ha. destruct g as [[|u rest]|]; [by destruct q|..|by destruct q]. assert (x = mkConfig (u w) q (Some (rest w))) as -> by (by destruct q; simplify_eq/=).
  destruct p as [c d b rq [[ch works]|]]; cbn in Pc, Pu, Pd, Pq, Pg; [|done]. subst c b.
  destruct (GcCall_step w _ u rest Pg) as (Hc & Hu & Ho & Hg). split; cbn in *; try done.
  intros n Hn. destruct (Ho n Hn) as [Hin|[? ?]]; set_solver.
Qed.

Lemma GcEnd_follows r w q g p x : pictured (mkConfig w q g) p -> act r GcEnd (mkConfig w q g) = Some x -> pictured x (next p GcEnd).
Proof.
  intros [Pc Pu Pd Pq Pg] Ha. destruct g as [[[]|u rest]|]; [|by destruct q..]. assert (x = mkConfig w q None) as -> by (by destruct q; simplify_eq/=).
  destruct p as [c d b rq [[ch works]|]]; cbn in Pc, Pu, Pd, Pq, Pg; [|done]. subst c b. split; cbn in *; try done.
  destruct works; [|done]. intros n Hn. apply elem_of_intersection. split; [by apply Pd|].
  destruct (decide (n ∈ cluster (wst w) ∪ ch)) as [|Hnin]; [done|]. exfalso.
  inversion Pg as [Hs|names Hnm Hs|l Hl Hx Hs|Hf]; cbn in *; try done. destruct l; [|done].
  assert (n ∈ []) as Hnil by (apply Hx; unfold out_of_step in Hn; set_solver). by apply elem_of_nil in Hnil.
Qed.

(** A change of a key by a user. *)
Lemma change_follows n (w w' : W) (c' : gset NamespacedName) q rq g gg : external w' = external w -> cluster w' = c' ->
  (forall m, m <> n -> m ∈ c' <-> m ∈ cluster w) ->
  both (request_pictured (cluster w)) q rq -> both (fun q g => collection_pictured w g q) g gg ->
  both (request_pictured c') q (outdate n <$> rq) /\ both (fun q g => collection_pictured w' g q) g (note n <$> gg).
Proof.
  intros He Hc Hm Hq Hg. split.
  - destruct q as [[[m inst] e]|], rq as [[key stale works]|]; cbn in *; try done. destruct Hq as [-> Hq]. split; [done|].
    destruct stale; cbn in *; [destruct e as [e|]; [destruct (IsNotFound e)|]; naive_solver|].
    case_bool_decide as Hk; [destruct e as [e|]; [destruct (IsNotFound e)|]; naive_solver|].
    specialize (Hm m Hk). destruct e as [e|]; [destruct (IsNotFound e)|]; naive_solver.
  - destruct g as [g|], gg as [[ch works]|]; cbn in *; try done.
    inversion Hg as [|names Hn|l Hl Hx|]; subst; constructor; cbn in *; rewrite ?He; try done.
    + intros m Hnm. rewrite (Hm m) by set_solver. apply Hn. set_solver.
    + intros m Hin Hnm. rewrite (Hm m) by set_solver. apply Hl; set_solver.
    + intros Hw m Hnm. rewrite (Hm m) by set_solver. apply Hx; set_solver.
Qed.

Lemma act_follows r a x x' p : serving r -> pictured x p -> act r a x = Some x' -> pictured x' (next p a).
Proof.
  intros Hr Hpic Ha. destruct x as [w q g]. destruct a as [n| | | | |n|n|b].
  - destruct q as [[[]]|]; [done|]. by eapply Get_follows.
  - destruct q as [[[n inst] e]|]; [|by destruct g]. by eapply Finish_follows.
  - destruct g as [g|]; [by destruct q as [[[]]|]|]. assert (x' = mkConfig w q (Some (collectGarbage k cl proto pl))) as -> by (by destruct q as [[[]]|]; simplify_eq/=).
    destruct p as [c d u rq gg], Hpic as [Pc Pu Pd Pq Pg]. split; cbn in *; try done. constructor.
  - by eapply GcCall_follows.
  - by eapply GcEnd_follows.
  - assert (x' = mkConfig (mkWorld (create n (wst w)) (wlog w)) q g) as -> by (by destruct q as [[[]]|], g; simplify_eq/=).
    destruct p as [c d u rq gg], Hpic as [Pc Pu Pd Pq Pg]. cbn in *. subst c u. destruct (create_spec Hworks n (wst w)) as (Hc & He & Hu).
    destruct (change_follows n _ _ _ q rq g gg He Hc ltac:(set_solver) Pq Pg) as [Hq Hg].
    split; cbn; [done|done| |done|done]. unfold out_of_step in *. rewrite Hc, He. intros z Hz. destruct (decide (z = n)); set_solver.
  - assert (x' = mkConfig (mkWorld (remove n (wst w)) (wlog w)) q g) as -> by (by destruct q as [[[]]|], g; simplify_eq/=).
    destruct p as [c d u rq gg], Hpic as [Pc Pu Pd Pq Pg]. cbn in *. subst c u. destruct (remove_spec Hworks n (wst w)) as (Hc & He & Hu).
    destruct (change_follows n _ _ _ q rq g gg He Hc ltac:(set_solver) Pq Pg) as [Hq Hg].
    split; cbn; [done|done| |done|done]. unfold out_of_step in *. rewrite Hc, He. intros z Hz. destruct (decide (z = n)); set_solver.
  - assert (x' = mkConfig (mkWorld (switch b (wst w)) (wlog w)) q g) as -> by (by destruct q as [[[]]|], g; simplify_eq/=).
    destruct p as [c d u rq gg], Hpic as [Pc Pu Pd Pq Pg]. cbn in *. destruct (switch_spec Hworks b (wst w)) as (Hc & He & Hu).
    split; cbn; [by rewrite Hc|done| |done|]; [unfold out_of_step in *; by rewrite Hc, He|].
    destruct g as [g|], gg as [gg|]; cbn in *; try done. inversion Pg; subst; constructor; rewrite ?Hc, ?He; auto.
Qed.

Lemma happens_follows r acts : serving r -> forall x x' p, pictured x p -> happens r acts x = Some x' -> pictured x' (foldl next p acts).
Proof.
  intros Hr. induction acts as [|a acts IH]; intros x x' p Hpic; cbn; [by intros [= <-]|].
  destruct (act r a x) as [x1|] eqn:Ha; cbn; [|done]. apply IH. by eapply act_follows.
Qed.

Lemma happens_app r l1 l2 x : happens r (l1 ++ l2) x = happens r l1 x ≫= happens r l2.
Proof. revert x. induction l1 as [|a l1 IH]; intros x; cbn; [done|]. destruct (act r a x); cbn; [apply IH|done]. Qed.

(** ** The external system mirrors the cluster *)

(** Nothing but the controller's own work. *)
Definition quiet (a : action) : Prop := match a with Get _ | Finish | GcStart | GcCall | GcEnd => True | _ => False end.
(** What is in progress was begun while the systems were up, and nothing has changed
    since. *)
Definition calm (p : picture) : Prop := p_up p = true /\
  (forall q, p_request p = Some q -> rq_stale q = false /\ rq_works q = true) /\ (forall g, p_collection p = Some g -> g = mkCollection ∅ true).

(** In a quiet run no key gets out of step; a key that is out of step at its end has no
    finished request, and no finished collection unless the cluster has it. *)
Lemma quiet_run r more : serving r -> Forall quiet more -> forall x x' p, pictured x p -> calm p -> happens r more x = Some x' ->
  let p' := foldl next p more in p_cluster p' = p_cluster p /\ forall n, n ∈ p_pending p' -> n ∈ p_pending p /\
    (Get n ∈ more \/ (exists q, p_request p = Some q /\ rq_key q = n) -> exists q, p_request p' = Some q /\ rq_key q = n) /\
    (n ∉ p_cluster p -> GcStart ∈ more \/ is_Some (p_collection p) -> is_Some (p_collection p')).
Proof.
  intros Hr. induction 1 as [|a more Ha Hmore IH]; intros x x' p Hpic Hcalm; cbn [happens foldl].
  { intros _. cbn. split; [done|]. intros n Hn. split_and!; [done|intros [?%elem_of_nil|?]; done|intros _ [?%elem_of_nil|?]; done]. }
  destruct (act r a x) as [x1|] eqn:Hact; cbn [mbind option_bind]; [|done]. intros Hh.
  pose proof (act_follows r a x x1 p Hr Hpic Hact) as Hpic1.
  assert (forall c d q g, next p a = mkPicture c d true q g -> calm (next p a) -> c = p_cluster p ->
    (forall n, n ∈ d -> n ∈ p_pending p /\
       (a = Get n \/ (exists rq, p_request p = Some rq /\ rq_key rq = n) -> exists rq, q = Some rq /\ rq_key rq = n) /\
       (n ∉ p_cluster p -> a = GcStart \/ is_Some (p_collection p) -> is_Some g)) ->
    let p' := foldl next (next p a) more in p_cluster p' = p_cluster p /\ forall n, n ∈ p_pending p' -> n ∈ p_pending p /\
      (Get n ∈ a :: more \/ (exists q, p_request p = Some q /\ rq_key q = n) -> exists q, p_request p' = Some q /\ rq_key q = n) /\
      (n ∉ p_cluster p -> GcStart ∈ a :: more \/ is_Some (p_collection p) -> is_Some (p_collection p'))) as Hstep.
  { intros c d q g Hnext Hcalm1 -> Hd. destruct (IH x1 x' (next p a) Hpic1 Hcalm1 Hh) as [Hc Hn]. cbn zeta. rewrite Hc.
    rewrite Hnext in *. cbn [p_cluster p_pending p_request p_collection] in *. split; [done|]. intros n Hin.
    destruct (Hn n Hin) as (Hnd & Hnq & Hng). destruct (Hd n Hnd) as (Hp & Hq & Hg). split; [done|].
    rewrite !elem_of_cons. split; [intros [[He|He]|He]; apply Hnq; auto|intros Hnc [[He|He]|He]; apply Hng; auto]. }
  destruct p as [c d u q g], Hcalm as (Hu & Hq & Hg). cbn in Hu, Hq, Hg. subst u. destruct x as [w xq xg].
  destruct a as [m| | | | | | |]; cbn in Ha; try done.
  - destruct xq as [[[]]|]; [done|]. pose proof (pic_request _ _ Hpic) as Hpq. destruct q as [q|]; [done|].
    eapply Hstep; [reflexivity|by split_and!; cbn; [|intros ? [= <-]|]|done|]. intros n Hn. split_and!; [done| |naive_solver].
    intros [[= <-]|(rq & Hrq & _)]; [by eexists|done].
  - pose proof (pic_request _ _ Hpic) as Hpq. cbn in Hpq. destruct xq as [[[m inst] e]|], q as [[key stale works]|]; cbn in Hpq; try done.
    { destruct (Hq _ eq_refl) as [Hst Hwk]. cbn in Hst, Hwk. subst stale works. eapply Hstep; [reflexivity|by split_and!|done|].
      intros n Hn. split_and!; [set_solver| |naive_solver]. intros [?|(rq & [= <-] & Hk)]; [done|]. cbn in Hk. set_solver. }
  - pose proof (pic_collection _ _ Hpic) as Hpg. cbn in Hpg. destruct xg as [xg|]; [by destruct xq as [[[]]|]|]. destruct g as [g|]; [done|].
    eapply Hstep; [reflexivity|by split_and!; cbn; [|done|intros ? [= <-]]|done|]. intros n Hn. split_and!; [done|naive_solver|by eexists].
  - pose proof (pic_collection _ _ Hpic) as Hpg. cbn in Hpg. destruct g as [g|]; [|by destruct xg as [|], xq as [[[]]|]].
    rewrite (Hg g eq_refl) in *. eapply Hstep; [reflexivity|by split_and!; cbn; [|done|intros ? [= <-]]|done|].
    intros n Hn. split_and!; [set_solver|naive_solver|by eexists].
  - pose proof (pic_collection _ _ Hpic) as Hpg. cbn in Hpg. destruct g as [g|]; [|by destruct xg as [|], xq as [[[]]|]].
    rewrite (Hg g eq_refl) in *. eapply Hstep; [reflexivity|by split_and!|done|].
    intros n Hn. split_and!; [set_solver|naive_solver|set_solver].
Qed.

(** Everything in progress can be finished, whatever the world does. *)
Lemma collection_finishes r q : forall w rq, exists more w', Forall quiet more /\
  happens r more (mkConfig w rq (Some q)) = Some (mkConfig w' rq None).
Proof.
  induction q as [[]|u rest IH]; intros w rq.
  - exists [GcEnd], w. split; [by repeat constructor|]. by destruct rq as [[[]]|].
  - destruct (IH w (u w) rq) as (more & w' & Hq & Hm). exists (GcCall :: more), w'. split; [by constructor|].
    cbn. by destruct rq as [[[]]|].
Qed.
Lemma request_finishes r n inst e w g : serving r -> exists w', happens r [Finish] (mkConfig w (Some (n, inst, e)) g) = Some (mkConfig w' None g).
Proof.
  intros (_ & _ & Hk). cbn. unfold finishReconcile. rewrite Hk. destruct (reconcileObject (ec_Sync k) n inst e w) as [w' res]. by exists w'.
Qed.
Lemma request_served r n w : serving r -> exists w', happens r [Get n; Finish] (mkConfig w None None) = Some (mkConfig w' None None).
Proof.
  intros (Hp & Hc & Hk). rewrite request_alone. unfold Reconcile, lookupObject, finishReconcile. rewrite Hp, Hc, Hk.
  destruct (logged _ _ w) as [w1 [inst e]]. destruct (reconcileObject (ec_Sync k) n inst e w1) as [w' res]. by exists w'.
Qed.
Lemma settles r x : serving r -> exists more w', Forall quiet more /\ happens r more x = Some (mkConfig w' None None).
Proof.
  intros Hr. destruct x as [w q g].
  assert (exists l1 w1, Forall quiet l1 /\ happens r l1 (mkConfig w q g) = Some (mkConfig w1 None g)) as (l1 & w1 & Hq1 & Hh1).
  { destruct q as [[[n inst] e]|]; [|by exists [], w]. destruct (request_finishes r n inst e w g Hr) as [w1 Hh1]. exists [Finish], w1.
    split; [by repeat constructor|done]. }
  destruct g as [g|]; [|by exists l1, w1]. destruct (collection_finishes r g w1 None) as (l2 & w2 & Hq2 & Hh2).
  exists (l1 ++ l2), w2. split; [by apply Forall_app|]. rewrite happens_app, Hh1. exact Hh2.
Qed.
Lemma serve_all r (l : list NamespacedName) : serving r -> forall w, exists more w', Forall quiet more /\ (forall n, n ∈ l -> Get n ∈ more) /\
  happens r more (mkConfig w None None) = Some (mkConfig w' None None).
Proof.
  intros Hr. induction l as [|n l IH]; intros w; [exists [], w; split_and!; [constructor|set_solver|done]|].
  destruct (request_served r n w Hr) as [w1 Hh1]. destruct (IH w1) as (more & w2 & Hq & Hin & Hh2).
  exists ([Get n; Finish] ++ more), w2. split_and!; [apply Forall_app; by split; [repeat constructor|]|set_solver|].
  rewrite happens_app, Hh1. exact Hh2.
Qed.

Lemma next_quiet more : Forall quiet more -> forall p, p_up (foldl next p more) = p_up p /\ p_cluster (foldl next p more) = p_cluster p.
Proof.
  induction 1 as [|a more Ha _ IH]; intros p; cbn; [done|]. destruct (IH (next p a)) as [-> ->].
  destruct p as [c d u [[? [] ?]|] [[]|]], a; by cbn in *.
Qed.

(** From an idle configuration to an idle one, with a request for every pending key. *)
Lemma converges r x x2 p more : serving r -> pictured x p -> p_up p = true -> idle x -> Forall quiet more -> happens r more x = Some x2 -> idle x2 ->
  (forall n, n ∈ p_pending p -> Get n ∈ more \/ GcStart ∈ more /\ n ∉ p_cluster p) ->
  cluster (wst (c_world x2)) = p_cluster p /\ external (wst (c_world x2)) = cluster (wst (c_world x2)).
Proof.
  intros Hr Hpic Hu [Hi1 Hi2] Hq Hh [Hi3 Hi4] Hcov. pose proof (happens_follows r _ Hr _ _ _ Hpic Hh) as Hpic2.
  assert (calm p) as Hcalm.
  { pose proof (pic_request _ _ Hpic) as Hrq. pose proof (pic_collection _ _ Hpic) as Hg. rewrite Hi1 in Hrq. rewrite Hi2 in Hg.
    destruct p as [c d u [rq|] [g|]]; try done; by split_and!. }
  destruct (quiet_run r more Hr Hq x x2 p Hpic Hcalm Hh) as [Hc Hn]. cbn zeta in *.
  pose proof (pic_request _ _ Hpic2) as Hrq'. pose proof (pic_collection _ _ Hpic2) as Hg'. rewrite Hi3 in Hrq'. rewrite Hi4 in Hg'.
  pose proof (pic_cluster _ _ Hpic2) as Hcl. pose proof (pic_pending _ _ Hpic2) as Hout. rewrite Hc in Hcl. split; [done|].
  assert (p_pending (foldl next p more) = ∅) as He.
  { apply set_eq. intros n. split; [|set_solver]. intros Hin. destruct (Hn n Hin) as (Hd & Hreq & Hcol).
    destruct (p_request (foldl next p more)), (p_collection (foldl next p more)); try done.
    destruct (Hcov n Hd) as [Hget|[Hgc Hnc]]; [destruct Hreq as (? & ? & _); [by left|done]|]. destruct Hcol as [? ?]; [done|by left|done]. }
  rewrite He in Hout. unfold out_of_step in Hout. apply set_eq. intros n.
  destruct (decide (n ∈ cluster (wst (c_world x2)))), (decide (n ∈ external (wst (c_world x2)))); set_solver.
Qed.

(** C19: the external system mirrors the cluster.  The worker, the garbage collector,
    users and outages take turns in any order, call by call.  Then only pending keys can
    be out of step, where the pending keys are those of the abstract machine: out of
    step at the start, or changed and not since served by a request, or collected, whose
    calls all succeeded and during which the key was not changed again, or in the cluster
    and changed during a garbage collection that goes on.  In particular an outage never
    puts a key out of step, and a collection only one of the cluster that was changed
    since it began.

    Once the systems are up, nothing is in progress and users change nothing, the
    external system has exactly the objects of the cluster as soon as every pending key
    had a request, where one garbage collection does for all the keys that the cluster
    does not have; and such a continuation exists from every state.

    Of the two systems it is assumed that reads are answered with what is there, that
    [Ensure] and [Delete] of the controller add and remove the key of their object and
    nothing else, and that calls fail only during an outage; there is one worker. *)
Theorem mirror_converges (r : Rec) acts x0 x : serving r -> idle x0 -> happens r acts x0 = Some x ->
  let p := foldl next (picture_of (wst (c_world x0))) acts in
  cluster (wst (c_world x)) = p_cluster p /\ out_of_step (wst (c_world x)) ⊆ p_pending p /\
  (forall more x2, idle x -> Forall quiet more -> happens r (Switch true :: more) x = Some x2 -> idle x2 ->
     (forall n, n ∈ p_pending p -> Get n ∈ more \/ GcStart ∈ more /\ n ∉ p_cluster p) ->
     cluster (wst (c_world x2)) = p_cluster p /\ external (wst (c_world x2)) = cluster (wst (c_world x2))) /\
  exists more x2, Forall quiet more /\ happens r (Switch true :: more) x = Some x2 /\ idle x2 /\
    cluster (wst (c_world x2)) = p_cluster p /\ external (wst (c_world x2)) = cluster (wst (c_world x2)).
Proof.
  intros Hr [Hi1 Hi2] Hh p.
  assert (pictured x p) as Hpic.
  { eapply happens_follows; [done| |done]. destruct x0 as [w q g]. cbn in *. subst q g. by split. }
  split; [apply Hpic|]. split; [apply Hpic|]. destruct x as [w q g]. set (x1 := mkConfig (mkWorld (switch true (wst w)) (wlog w)) q g).
  assert (forall l, happens r (Switch true :: l) (mkConfig w q g) = happens r l x1) as Hsw.
  { intros l. cbn [happens]. by destruct q as [[[]]|], g. }
  assert (pictured x1 (next p (Switch true))) as Hpic1 by (eapply (happens_follows r [Switch true]); [done|exact Hpic|apply (Hsw [])]).
  assert (p_up (next p (Switch true)) = true /\ p_cluster (next p (Switch true)) = p_cluster p /\ p_pending (next p (Switch true)) = p_pending p)
    as (Hu & Hc & Hd) by by destruct p.
  split.
  - intros more x2 Hi Hq Hm Hi' Hcov. rewrite Hsw in Hm. rewrite <- Hc. by eapply converges; try done; rewrite ?Hd, ?Hc.
  - destruct (settles r x1 Hr) as (l1 & w1 & Hq1 & Hl1). pose proof (happens_follows r l1 Hr _ _ _ Hpic1 Hl1) as Hpic2.
    destruct (next_quiet l1 Hq1 (next p (Switch true))) as [Hu2 Hc2]. set (p2 := foldl next (next p (Switch true)) l1) in *.
    destruct (serve_all r (elements (p_pending p2)) Hr w1) as (l2 & w2 & Hq2 & Hin & Hl2).
    exists (l1 ++ l2), (mkConfig w2 None None). rewrite Hsw, happens_app, Hl1. split; [by apply Forall_app|]. split; [done|]. split; [done|].
    rewrite <- Hc, <- Hc2. eapply (converges r _ _ p2 l2); try done; [congruence|]. intros n Hn. left. by apply Hin, elem_of_elements.
Qed.
End mirror.

(** ** A witness *)

(** The world holds both systems. *)
Module MirrorDemo.
Import ApiDemo RefErrors.
Record systems := mkSystems { s_cluster : gset NamespacedName; s_external : gset NamespacedName; s_up : bool }.
#[export] Instance metaLib : MetaLib obj (list obj) := {| ExtractList := fun l => inr l; Accessor := fun o => inr (nsname o) |}.
Definition blank : obj := mkObj (mkNN "" "") [] true [].
Definition keyed (n : NamespacedName) : obj := mkObj n [] true [].
Definition down : error := errors_New "connection refused".
Definition ifUp {A} (w : systems) (a : A) (bad : A) : A := if s_up w then a else bad.
Definition client : SyncClient (W := systems) (Obj := obj) (OList := list obj) := mkSyncClient
  (fun n p w => (w, ifUp w (if bool_decide (n ∈ s_cluster w) then (keyed n, None) else (p, Some NotFound)) (p, Some down)))
  (fun l w => (w, ifUp w (keyed <$> elements (s_cluster w), None) (l, Some down))).
Definition set_external (w : systems) (e : gset NamespacedName) : systems * err :=
  ifUp w (mkSystems (s_cluster w) e (s_up w), None) (w, Some down).
Definition ctl : ExtController (W := systems) (Obj := obj) := mkExtController
  (mkSyncController (fun o w => set_external w ({[nsname o]} ∪ s_external w)) (fun o w => set_external w (s_external w ∖ {[nsname o]})))
  (fun w => (w, ifUp w (elements (s_external w), None) ([], Some down))).
Definition create (n : NamespacedName) (w : systems) : systems := mkSystems ({[n]} ∪ s_cluster w) (s_external w) (s_up w).
Definition remove (n : NamespacedName) (w : systems) : systems := mkSystems (s_cluster w ∖ {[n]}) (s_external w) (s_up w).
Definition switch (b : bool) (w : systems) : systems := mkSystems (s_cluster w) (s_external w) b.
Definition rec : Reconciler (W := systems) (Obj := obj) (OList := list obj) :=
  mkReconciler "mirror" (Some (ec_Sync ctl)) (Some blank) (Some []) (Some client) [].

Lemma nsname_of_nsname (o : obj) : nsname_of o = nsname o.
Proof. by destruct o as [[] ?]. Qed.
Lemma set_external_affects w e w' x : set_external w e = (w', x) -> affects s_cluster s_external s_up w w' x e.
Proof.
  unfold set_external, ifUp, affects. destruct (s_up w) eqn:Hu; intros [= <- <-]; cbn.
  - split_and!; auto.
  - split_and!; auto. congruence.
Qed.
Lemma works : mirror_works ctl client blank ([] : list obj) s_cluster s_external s_up create remove switch.
Proof.
  split; try done.
  - intros n w w' o e. cbn. unfold ifUp. destruct (s_up w) eqn:Hu; [case_bool_decide|]; intros [= <- <- <-]; split; try done.
    split; [done|]. by rewrite nsname_of_nsname.
  - intros w w' l e. cbn. unfold ifUp. destruct (s_up w) eqn:Hu; intros [= <- <- <-]; split; try done.
    exists (elements (s_cluster w)). split; [|set_solver]. unfold NamespacedNames. cbn.
    assert (forall l acc, names_loop (keyed <$> l) acc = inr (acc ++ l)) as Hl; [|apply (Hl _ [])].
    intros l. induction l as [|n l IH]; intros acc; cbn; [by rewrite app_nil_r|]. rewrite IH, <- app_assoc. by destruct n.
  - intros w w' l e. cbn. unfold ifUp. destruct (s_up w) eqn:Hu; intros [= <- <- <-]; split; try done. set_solver.
  - intros o w w' e. cbn. rewrite nsname_of_nsname. apply set_external_affects.
  - intros o w w' e. cbn. rewrite nsname_of_nsname. apply set_external_affects.
Qed.
Definition a := mkNN "ns" "a".
Definition b := mkNN "ns" "b".
Local Abbreviation Config := (config (W := systems) (Obj := obj)).
Definition begin (w : systems) : Config := mkConfig (mkWorld w []) None None.
(** [b] is left over from before, and [a] is created during an outage, in which a
    request for it and a collection fail. *)
Definition x0 : Config := begin (mkSystems ∅ {[b]} true).
Definition acts : list action := [Switch false; Create a; Get a; Finish; GcStart; GcCall; GcEnd].
Definition play (l : list action) (x : Config) : option Config := happens ctl client blank [] create remove switch rec l x.
Definition systems_after (l : list action) (x : Config) : option systems := (fun x => wst (c_world x)) <$> play l x.
End MirrorDemo.
Import ApiDemo RefErrors MirrorDemo.

(** One collection of three calls and a request for [a] bring the systems in step. *)
Lemma mirror_converges_witness : exists x x2, play acts x0 = Some x /\
  play [Switch true; GcStart; GcCall; GcCall; Get a; GcCall; Finish; GcEnd] x = Some x2 /\
  s_cluster (wst (c_world x2)) = {[a]} /\ s_external (wst (c_world x2)) = s_cluster (wst (c_world x2)).
Proof.
  assert (serving ctl client blank rec) as Hr by (split_and!; reflexivity).
  assert (exists x, play acts x0 = Some x /\ idle x) as (x & Hx & Hi) by (eexists; split; [vm_compute; reflexivity|by split]).
  destruct (mirror_converges ctl client blank [] s_cluster s_external s_up create remove switch works rec acts x0 x Hr) as (_ & _ & Hm & _);
    [by split|exact Hx|].
  assert (exists x2, play [Switch true; GcStart; GcCall; GcCall; Get a; GcCall; Finish; GcEnd] x = Some x2 /\ idle x2) as (x2 & Hx2 & Hi2).
  { vm_compute in Hx. injection Hx as <-. eexists. split; [vm_compute; reflexivity|by split]. }
  destruct (Hm [GcStart; GcCall; GcCall; Get a; GcCall; Finish; GcEnd] x2 Hi) as [Hc He]; [by repeat constructor|exact Hx2|exact Hi2| |].
  - assert (p_pending (foldl next (picture_of s_cluster s_external s_up (wst (c_world x0))) acts) ⊆ {[a; b]}) as Hs
      by (apply (bool_decide_unpack _); vm_compute; exact I).
    intros n Hn%Hs. assert (n = a \/ n = b) as [-> | ->] by set_solver.
    + left. set_solver.
    + right. split; [by left|]. apply (bool_decide_unpack _). vm_compute. exact I.
  - exists x, x2. split; [exact Hx|]. split; [exact Hx2|]. split; [exact Hc|exact He].
Defined.

(** ** A race *)

(** [collectGarbage] runs in a goroutine of its own and lists the cluster before
    the external system: an object that is created and ensured in between is in
    the second list only, and is deleted from the external system although the
    cluster has it.  It is pending until its next request. *)
Definition race : list action := [GcStart; GcCall; Create a; Get a; Finish; GcCall; GcCall; GcEnd].
Example collectGarbage_race : systems_after race (begin (mkSystems ∅ ∅ true)) = Some (mkSystems {[a]} ∅ true) /\
  p_pending (foldl next (mkPicture ∅ ∅ true None None) race) = {[a]}.
Proof. split; vm_compute; reflexivity. Qed.
