(* ===== verification/StatelessAction.v ===== *)
(** The stateless action controller: [controller/stateless-action/v1/reconcile.go],
    [controller.go] and [action/action.go].

    A reconciliation starts one goroutine per object of the action manager.  An
    action is run, then checked after every retry period and run again as long as
    it is still needed, until its context times out.  Time is explicit: the
    manager's methods say how long they take, and the [select] of the loop takes
    the case that becomes ready first, any of the two when they coincide. *)
From S2P Require Import Prelude.

Inductive ActCall (O : Type) :=
| AGetObject (key : NamespacedName)
| ARequireAction (o : O)
| ABuild (o : O)
| AGetObjects
| AGetName (o : O)
| ARun (o : O)
| ACheck (o : O)
| ADefer (o : O).
Arguments AGetObject {O}. Arguments ARequireAction {O}. Arguments ABuild {O}. Arguments AGetObjects {O}.
Arguments AGetName {O}. Arguments ARun {O}. Arguments ACheck {O}. Arguments ADefer {O}.

(** [type Manager interface]; [O] is [interface{}] and the number is the time a
    method takes.  The context with the deadline of the action, which the code also
    gives to the methods, is not among their arguments: only the [select] of the
    loop looks at it here. *)
Record Manager (W O : Type) := mkManager {
  GetName : O -> M W (string * err);
  GetObjects : M W (list O * err);
  Check : O -> M W (N * (bool * err));
  Run : O -> M W (N * err);
  Defer : O -> M W err;
}.
Arguments mkManager {W O}. Arguments GetName {W O}. Arguments GetObjects {W O}.
Arguments Check {W O}. Arguments Run {W O}. Arguments Defer {W O}.

(** [type Controller interface]; a nil [interface{}] is [None]. *)
Record Controller (W O : Type) := mkController {
  GetObject : NamespacedName -> M W (option O * err);
  RequireAction : O -> M W (bool * err);
  BuildActionManager : O -> M W (Manager W O * err);
}.
Arguments mkController {W O}. Arguments GetObject {W O}. Arguments RequireAction {W O}.
Arguments BuildActionManager {W O}.

Section stateless.
Context {W O : Type} `{ErrorLib}.
Local Abbreviation St := (World W (ActCall O)).

(** [type Reconciler struct]; durations are zero until an option sets them. *)
Record Reconciler := mkReconciler {
  name : string;
  ctrlr : option (Controller W O);
  actionRetryPeriod : Z;
  actionTimeout : Z;
}.

Definition ReconcilerOption := Reconciler -> Reconciler.
Definition WithName (n : string) : ReconcilerOption := fun r =>
  mkReconciler n (ctrlr r) (actionRetryPeriod r) (actionTimeout r).
Definition WithActionRetryPeriod (d : Z) : ReconcilerOption := fun r =>
  mkReconciler (name r) (ctrlr r) d (actionTimeout r).
Definition WithActionTimeout (d : Z) : ReconcilerOption := fun r =>
  mkReconciler (name r) (ctrlr r) (actionRetryPeriod r) d.

(** [Reconciler.Init]. *)
Definition Init (r : Reconciler) (k : option (Controller W O)) (opts : list ReconcilerOption) : Reconciler :=
  foldl (fun r opt => opt r) (mkReconciler (name r) k (actionRetryPeriod r) (actionTimeout r)) opts.

(** Which case of the [select] proceeds at time [now]: the timer is ready after
    the retry period, the context at the deadline; [tie] decides when both become
    ready together. *)
Definition select_timer (now retry deadline : Z) (tie : bool) : bool :=
  let timer := (now + Z.max 0 retry)%Z in
  let done := Z.max now deadline in
  if (timer <? done)%Z then true else if (done <? timer)%Z then false else tie.

(** The loop of [RunAction], [now] being the time since the context was made;
    [ties] resolves the choices of the [select]s.  It returns nothing else than
    the point at which it stops. *)
Fixpoint RunAction_loop (fuel : nat) (r : Reconciler) (actmgr : Manager W O) (o : O) (now : Z)
  (ties : nat -> bool) (w : St) : outcome St :=
  match fuel with
  | 0 => OutOfFuel
  | S fuel =>
    if select_timer now (actionRetryPeriod r) (actionTimeout r) (ties 0) then
      let now := (now + Z.max 0 (actionRetryPeriod r))%Z in
      let '(w, (dc, (checkResult, checkErr))) := logged (ACheck o) (Check actmgr o) w in
      let now := (now + Z.of_N dc)%Z in
      match checkErr with
      | Some _ => RunAction_loop fuel r actmgr o now (fun i => ties (S i)) w
      | None =>
        if checkResult then
          let '(w, (dr, runErr)) := logged (ARun o) (Run actmgr o) w in
          RunAction_loop fuel r actmgr o (now + Z.of_N dr) (fun i => ties (S i)) w
        else Done w
      end
    else Done w
  end.

(** [RunAction]: the deferred [Defer] runs when the function returns, and its
    error replaces the result. *)
Definition RunAction (fuel : nat) (r : Reconciler) (actmgr : Manager W O) (o : O) (ties : nat -> bool)
  (w : St) : outcome (St * err) :=
  let '(w, (n, e)) := logged (AGetName o) (GetName actmgr o) w in
  match e with
  | Some x => Done (w, Some (Wrapf x "failed to get action manager name" []))
  | None =>
    let '(w, (dr, runErr)) := logged (ARun o) (Run actmgr o) w in
    match RunAction_loop fuel r actmgr o (Z.of_N dr) ties w with
    | OutOfFuel => OutOfFuel
    | Panic m => Panic m
    | Done w =>
      let '(w, deferErr) := logged (ADefer o) (Defer actmgr o) w in
      match deferErr with
      | Some x => Done (w, Some (Wrapf x "failed to run deferred action" []))
      | None => Done (w, None)
      end
    end
  end.

(** [RunActionManager]: its error and the goroutines it starts, each running
    [RunAction] on one object. *)
Definition RunActionManager (k : Controller W O) (o : O) : M St (err * list (Manager W O * O)) :=
  '(actmgr, e) ← logged (ABuild o) (BuildActionManager k o);
  match e with
  | Some x => mret (Some (Wrapf x "failed to build action manager" []), [])
  | None =>
    '(objects, e) ← logged AGetObjects (GetObjects actmgr);
    match e with
    | Some x => mret (Some (Wrapf x "failed to get objects from action manager" []), [])
    | None => mret (None, (fun obj => (actmgr, obj)) <$> objects)
    end
  end.

(** [Reconcile] once the object is known. *)
Definition reconcileFound (k : Controller W O) (obj : O) : M St (Result * err * list (Manager W O * O)) :=
  '(requireAction, e) ← logged (ARequireAction obj) (RequireAction k obj);
  match e with
  | Some _ => mret (emptyResult, e, [])
  | None =>
    if (requireAction : bool) then
      '(e, started) ← RunActionManager k obj;
      mret (emptyResult, e, started)
    else mret (emptyResult, None, [])
  end.

(** [Reconcile]: its results and the goroutines it has started. *)
Definition reconcileWith (k : Controller W O) (req : NamespacedName)
  : M St (Result * err * list (Manager W O * O)) :=
  '(obj, e) ← logged (AGetObject req) (GetObject k req);
  match e with
  | Some _ => mret (emptyResult, IgnoreNotFound e, [])
  | None =>
    match obj with
    | None => mret (emptyResult, None, [])
    | Some obj => reconcileFound k obj
    end
  end.
Definition Reconcile (r : Reconciler) (req : NamespacedName) (w : St)
  : outcome (St * (Result * err * list (Manager W O * O))) :=
  match ctrlr r with
  | None => Panic "nil pointer dereference"
  | Some k => Done (reconcileWith k req w)
  end.
End stateless.

(** ** Properties *)

Section stateless_claims.
Context {W O : Type} `{ErrorLibLaws}.
Local Abbreviation St := (World W (ActCall O)).
Local Abbreviation Rec := (Reconciler (W := W) (O := O)).

(** With a positive retry period the loop stops once the deadline has passed. *)
Lemma RunAction_loop_terminates fuel (r : Rec) m o : forall now ties (w : St),
  (0 < actionRetryPeriod r)%Z -> (actionTimeout r - now < Z.of_nat fuel * actionRetryPeriod r)%Z ->
  0 < fuel -> exists w', RunAction_loop fuel r m o now ties w = Done w'.
Proof.
  induction fuel as [|fuel IH]; intros now ties w Hp Hf Hpos; [lia|]. cbn [RunAction_loop].
  unfold select_timer. rewrite Z.max_r by lia.
  assert (forall now' ties' w1, (now + actionRetryPeriod r <= now')%Z ->
    (now + actionRetryPeriod r <= Z.max now (actionTimeout r))%Z ->
    exists w', RunAction_loop fuel r m o now' ties' w1 = Done w') as Hnext.
  { intros now' ties' w1 Hn Hd. apply IH; [done|nia|].
    destruct fuel; [|lia]. nia. }
  destruct (Z.ltb_spec (now + actionRetryPeriod r) (Z.max now (actionTimeout r))).
  2: destruct (Z.ltb_spec (Z.max now (actionTimeout r)) (now + actionRetryPeriod r)); [eauto|].
  2: destruct (ties 0); [|eauto].
  all: destruct (logged (ACheck o) (Check m o) w) as [w1 [dc [cr [ce|]]]]; [apply Hnext; lia|].
  all: destruct cr; [|eauto].
  all: destruct (logged (ARun o) (Run m o) w1) as [w2 [dr re]]; apply Hnext; lia.
Qed.

(** The calls of the loop: checks that fail, and checks that ask for another run
    followed by it, then at most one check that says the action is done. *)
Inductive rounds (o : O) : list (ActCall O) -> Prop :=
| r_stop : rounds o []
| r_done : rounds o [ACheck o]
| r_failed l : rounds o l -> rounds o (ACheck o :: l)
| r_again l : rounds o l -> rounds o (ACheck o :: ARun o :: l).

Lemma RunAction_loop_rounds fuel (r : Rec) m o : forall now ties (w w' : St),
  RunAction_loop fuel r m o now ties w = Done w' ->
  exists l, wlog w' = wlog w ++ l /\ rounds o l.
Proof.
  induction fuel as [|fuel IH]; intros now ties w w'; [done|]. cbn [RunAction_loop].
  destruct (select_timer _ _ _ _); [|intros [= <-]; exists []; by rewrite app_nil_r; split; [|constructor]].
  unfold logged. destruct (Check m o (wst w)) as [s1 [dc [cr [ce|]]]].
  { intros Hl. apply IH in Hl as (l & Hl & Hr). exists (ACheck o :: l). cbn in Hl. rewrite Hl, <- app_assoc.
    by split; [|apply r_failed]. }
  destruct cr; [|intros [= <-]; exists [ACheck o]; by split; [|apply r_done]].
  cbn. destruct (Run m o s1) as [s2 [dr re]]. intros Hl. apply IH in Hl as (l & Hl & Hr).
  exists (ACheck o :: ARun o :: l). cbn in Hl. rewrite Hl, <- !app_assoc. by split; [|apply r_again].
Qed.

(** C20: with a positive retry period an action always ends, whatever its manager
    does: as many rounds as the timeout has retry periods, plus one, are enough. *)
Theorem RunAction_terminates fuel (r : Rec) m o ties (w : St) :
  (0 < actionRetryPeriod r)%Z -> (actionTimeout r < Z.of_nat fuel * actionRetryPeriod r)%Z -> 0 < fuel ->
  exists w' e, RunAction fuel r m o ties w = Done (w', e).
Proof.
  intros Hp Hf Hpos. unfold RunAction. destruct (logged (AGetName o) _ w) as [w1 [n [e|]]]; [eauto|].
  destruct (logged (ARun o) _ w1) as [w2 [dr re]].
  destruct (RunAction_loop_terminates fuel r m o (Z.of_N dr) ties w2) as [w3 ->]; [done|lia|done|].
  destruct (logged (ADefer o) _ w3) as [w4 [e|]]; eauto.
Qed.

(** An action whose manager has a name is run at once and, after its rounds
    of checks and further runs, its Defer is called exactly once, as the last
    call; only an error of Defer is reported. *)
Theorem RunAction_calls fuel (r : Rec) m o ties (w w' : St) e s1 n :
  GetName m o (wst w) = (s1, (n, None)) -> RunAction fuel r m o ties w = Done (w', e) ->
  exists l s, wlog w' = wlog w ++ [AGetName o; ARun o] ++ l ++ [ADefer o] /\ rounds o l /\
    match Defer m o s with
    | (s', Some x) => wst w' = s' /\ exists y, e = Some y /\ forall t, errors_Is y t = errors_Is x t
    | (s', None) => wst w' = s' /\ e = None
    end.
Proof.
  intros Hn. unfold RunAction, logged. rewrite Hn. cbn. destruct (Run m o s1) as [s2 [dr re]].
  destruct (RunAction_loop fuel r m o (Z.of_N dr) ties _) as [w3| |] eqn:Hl; [|done|done].
  apply RunAction_loop_rounds in Hl as (l & Hl & Hr). cbn in Hl. intros Hres. exists l, (wst w3).
  destruct (Defer m o (wst w3)) as [s4 [x|]]; simplify_eq/=.
  all: rewrite Hl, <- !app_assoc; split_and!; try done. eexists. split; [done|]. intros t. apply Wrapf_Is.
Qed.

(** The lookups that lead to actions: the object is found, it needs an action,
    and its action manager [m] lists the objects to act on. *)
Definition action_chain (k : Controller W O) (req : NamespacedName) (s : W) (m : Manager W O) (objs : list O)
  (s' : W) : Prop :=
  exists o s1 s2 s3, GetObject k req s = (s1, (Some o, None)) /\ RequireAction k o s1 = (s2, (true, None)) /\
    BuildActionManager k o s2 = (s3, (m, None)) /\ GetObjects m s3 = (s', (objs, None)).

(** A reconciliation always returns; when the object is found and needs an
    action, it starts one action for each object of the action manager and
    reports no error; otherwise it starts none. *)
Theorem Reconcile_starts (r : Rec) k req (w : St) :
  ctrlr r = Some k ->
  (forall m objs s', action_chain k req (wst w) m objs s' -> exists l,
     Reconcile r req w = Done (mkWorld s' (wlog w ++ l), (emptyResult, None, (fun x => (m, x)) <$> objs))) /\
  ((forall m objs s', ~ action_chain k req (wst w) m objs s') -> exists w' e,
     Reconcile r req w = Done (w', (emptyResult, e, []))).
Proof.
  intros Hk. unfold Reconcile. rewrite Hk.
  unfold reconcileWith, reconcileFound, RunActionManager, mbind, M_bind, mret, M_ret, logged. split.
  - intros m objs s' (o & s1 & s2 & s3 & Hg & Hr & Hb & Ho). rewrite Hg. cbn. rewrite Hr. cbn. rewrite Hb. cbn.
    rewrite Ho. eexists. by rewrite <- !app_assoc.
  - intros Hno.
    destruct (GetObject k req (wst w)) as [s1 [[o|] [ge|]]] eqn:Hg; cbn; eauto.
    destruct (RequireAction k o s1) as [s2 [[|] [re|]]] eqn:Hr; cbn; eauto.
    destruct (BuildActionManager k o s2) as [s3 [m [be|]]] eqn:Hb; cbn; eauto.
    destruct (GetObjects m s3) as [s4 [objs [oe|]]] eqn:Ho; cbn; eauto.
    destruct (Hno m objs s4). by exists o, s1, s2, s3.
Qed.
End stateless_claims.

(** ** Witnesses *)

(** The world counts the runs; the action is needed until it has run three
    times. *)
Module ActionDemo.
Definition manager : Manager nat string :=
  mkManager (fun o w => (w, (o, None))) (fun w => (w, (["x"; "y"], None)))
    (fun o w => (w, (1%N, (bool_decide (w < 3), None)))) (fun o w => (S w, (2%N, None)))
    (fun o w => (w, None)).
Definition controller : Controller nat string :=
  mkController (fun _ w => (w, (Some "obj", None))) (fun _ w => (w, (true, None))) (fun _ w => (w, (manager, None))).
Definition reconciler : Reconciler :=
  Init (mkReconciler "" None 0 0) (Some controller)
    [WithName "action"; WithActionRetryPeriod 5; WithActionTimeout 100].
Definition w0 : World nat (ActCall string) := mkWorld 0 [].
End ActionDemo.

Import RefErrors ActionDemo.

Lemma RunAction_terminates_witness :
  exists w e, RunAction 21 reconciler manager "x" (fun _ => true) w0 = Done (w, e).
Proof. apply (RunAction_terminates 21 reconciler manager "x" (fun _ => true) w0); cbn; lia. Defined.

Lemma RunAction_calls_witness :
  exists l s, [AGetName "x"; ARun "x"; ACheck "x"; ARun "x"; ACheck "x"; ARun "x"; ACheck "x"; ADefer "x"] =
      [] ++ [AGetName "x"; ARun "x"] ++ l ++ [ADefer "x"] /\ rounds "x" l /\
    match Defer manager "x" s with
    | (s', Some x) => 3 = s' /\ exists y, @None error = Some y /\ forall t, errors_Is y t = errors_Is x t
    | (s', None) => 3 = s' /\ @None error = None
    end.
Proof.
  exact (RunAction_calls 21 reconciler manager "x" (fun _ => true) w0 (mkWorld 3 _) None 0 "x" eq_refl eq_refl).
Defined.

Lemma Reconcile_starts_witness :
  (forall m objs s', action_chain controller (mkNN "ns" "o") 0 m objs s' -> exists l,
     Reconcile reconciler (mkNN "ns" "o") w0 =
       Done (mkWorld s' ([] ++ l), (emptyResult, None, (fun x => (m, x)) <$> objs))) /\
  action_chain controller (mkNN "ns" "o") 0 manager ["x"; "y"] 0.
Proof.
  split; [|by exists "obj", 0, 0, 0].
  exact (proj1 (Reconcile_starts reconciler controller (mkNN "ns" "o") w0 eq_refl)).
Defined.
