(* ===== verification/Rbac.v ===== *)
(** The recording RBAC client: [rbac/client/client.go], [record.go], [result.go],
    [roles.go].

    The client forwards every call to the client it wraps, after recording the
    permission the call needs.  [reorderRules] groups the recorded rules by group
    and resource before they are written as manifests. *)
From S2P Require Import Prelude.

Definition APIVersion : string := "rbac.authorization.k8s.io/v1".
Definition RoleKind : string := "Role".
Definition ClusterRoleKind : string := "ClusterRole".
Definition DefaultRoleName : string := "generated-rbac-role".
Definition DefaultClusterRoleName : string := "generated-rbac-cluster-role".
Definition VerbGet : string := "get".
Definition VerbList : string := "list".
Definition VerbCreate : string := "create".
Definition VerbDelete : string := "delete".
Definition VerbUpdate : string := "update".
Definition VerbPatch : string := "patch".

(** [rbacv1.PolicyRule], and [rbacv1.Role] and [rbacv1.ClusterRole] as the code
    fills them. *)
Record PolicyRule := mkRule { APIGroups : list string; Resources : list string; Verbs : list string }.
Record RoleObject := mkRole { role_APIVersion : string; role_Kind : string; role_Name : string; Rules : list PolicyRule }.

(** [newRole] and [newClusterRole]. *)
Definition newRole (name : string) : RoleObject := mkRole APIVersion RoleKind name [].
Definition newClusterRole (name : string) : RoleObject := mkRole APIVersion ClusterRoleKind name [].

(** ** Reordering *)

Definition groupResourceSeparator : string := "_".
Definition groupResourceName (group resource : string) : string :=
  group +:+ groupResourceSeparator +:+ resource.

(** The loop over the verbs of a rule whose group and resource are known. *)
Definition appendVerbs (verbs : list string) (prule : PolicyRule) : PolicyRule :=
  foldl (fun p verb => if negb (contains (Verbs p) verb)
                       then mkRule (APIGroups p) (Resources p) (Verbs p ++ [verb]) else p) prule verbs.

(** One resource of a rule: the map of rules and the list of its keys. *)
Definition addResource (group : string) (verbs : list string)
  (acc : gmap string PolicyRule * list string) (resource : string) : gmap string PolicyRule * list string :=
  let '(rulesByGroupResource, groupResourceNameList) := acc in
  let n := groupResourceName group resource in
  match rulesByGroupResource !! n with
  | Some prule => (<[n := appendVerbs verbs prule]> rulesByGroupResource, groupResourceNameList)
  | None => (<[n := mkRule [group] [resource] verbs]> rulesByGroupResource, groupResourceNameList ++ [n])
  end.

Fixpoint reorder_loop (rules : list PolicyRule) (acc : gmap string PolicyRule * list string)
  : outcome (gmap string PolicyRule * list string) :=
  match rules with
  | [] => Done acc
  | rule :: rules =>
    match APIGroups rule with
    | [] => Panic "index out of range"
    | group :: _ => reorder_loop rules (foldl (addResource group (Verbs rule)) acc (Resources rule))
    end
  end.

(** [reorderRules]; a key of the list is always in the map, a missing one would
    read as the empty rule. *)
Definition reorderRules (rules : list PolicyRule) : outcome (list PolicyRule) :=
  match reorder_loop rules (∅, []) with
  | Done (m, names) => Done ((fun n => default (mkRule [] [] []) (m !! n)) <$> names)
  | Panic p => Panic p
  | OutOfFuel => OutOfFuel
  end.

(** ** Recording *)

(** [apiutil.GVKForObject], [meta.UnsafeGuessKindToResource] (group and plural
    resource), [RESTMapper.RESTMapping] (the name of the scope), and the kind an
    object carries when it is an Unstructured or an UnstructuredList. *)
Class RbacLib (O : Type) := {
  rb_GVKForObject : O -> error + GVK;
  UnsafeGuessKindToResource : GVK -> string * string;
  RESTMapping : string -> string -> error + string;
  unstructuredGVK : O -> option GVK;
}.
Definition RESTScopeNameRoot : string := "root".

Section rbac.
Context {O W : Type} `{RbacLib O} `{ErrorLib}.

(** [type Client struct] without the wrapped client. *)
Record RbacClient := mkRbacClient { Role : RoleObject; ClusterRole : RoleObject; rc_errors : list error }.

(** [type ClientOption] and the options. *)
Definition WithRoleName (name : string) : RbacClient -> RbacClient := fun c =>
  mkRbacClient (mkRole (role_APIVersion (Role c)) (role_Kind (Role c)) name (Rules (Role c)))
    (ClusterRole c) (rc_errors c).
Definition WithClusterRoleName (name : string) : RbacClient -> RbacClient := fun c =>
  mkRbacClient (Role c)
    (mkRole (role_APIVersion (ClusterRole c)) (role_Kind (ClusterRole c)) name (Rules (ClusterRole c)))
    (rc_errors c).

(** [NewClient]. *)
Definition NewClient (opts : list (RbacClient -> RbacClient)) : RbacClient :=
  foldl (fun rc opt => opt rc)
    (mkRbacClient (newRole DefaultRoleName) (newClusterRole DefaultClusterRoleName) []) opts.

(** [isNamespaced]. *)
Definition isNamespaced (obj : O) : bool * err :=
  let gvk := match unstructuredGVK obj with Some g => inr g | None => rb_GVKForObject obj end in
  match gvk with
  | inl e => (false, Some e)
  | inr gvk =>
    match RESTMapping (O := O) (gvk_Group gvk) (gvk_Kind gvk) with
    | inl e => (false, Some (errorf_w "failed to get restmapping: %w" [] e))
    | inr scope =>
      if bool_decide (scope = "") then
        (false, Some (errors_New "Scope cannot be identified. Empty scope returned"))
      else if negb (bool_decide (scope = RESTScopeNameRoot)) then (true, None)
      else (false, None)
    end
  end.

(** The rule [recordRuleWithStatus] builds for a call. *)
Definition ruleFor (obj : O) (verb : string) (status : bool) : PolicyRule :=
  let gvk := match rb_GVKForObject obj with inl _ => zeroGVK | inr g => g end in
  let '(group, res) := UnsafeGuessKindToResource (O := O) gvk in
  let resource := if status then res +:+ "/" +:+ "status" else res in
  mkRule [group] [resource] [verb].

(** [recordRuleWithStatus]. *)
Definition recordRuleWithStatus (obj : O) (verb : string) (status : bool) (c : RbacClient) : RbacClient :=
  let errs := match rb_GVKForObject obj with inl e => rc_errors c ++ [e] | inr _ => rc_errors c end in
  let '(namespaced, e) := isNamespaced obj in
  let errs := match e with Some x => errs ++ [x] | None => errs end in
  let rule := ruleFor obj verb status in
  let add r := mkRole (role_APIVersion r) (role_Kind r) (role_Name r) (Rules r ++ [rule]) in
  if namespaced then mkRbacClient (add (Role c)) (ClusterRole c) errs
  else mkRbacClient (Role c) (add (ClusterRole c)) errs.

(** [recordRule]. *)
Definition recordRule (obj : O) (verb : string) (c : RbacClient) : RbacClient :=
  recordRuleWithStatus obj verb false c.

(** The client methods: record, then call the wrapped client, [inner]. *)
Definition recorded {A} (c : RbacClient) (verb : string) (status : bool) (obj : O) (inner : M W A)
  : M W (RbacClient * A) :=
  fun w => let '(w, a) := inner w in (w, (recordRuleWithStatus obj verb status c, a)).
Definition rc_Create (c : RbacClient) (obj : O) (inner : M W err) := recorded c VerbCreate false obj inner.
Definition rc_Update (c : RbacClient) (obj : O) (inner : M W err) := recorded c VerbUpdate false obj inner.
Definition rc_Delete (c : RbacClient) (obj : O) (inner : M W err) := recorded c VerbDelete false obj inner.
Definition rc_DeleteAllOf (c : RbacClient) (obj : O) (inner : M W err) := recorded c VerbDelete false obj inner.
Definition rc_Patch (c : RbacClient) (obj : O) (inner : M W err) := recorded c VerbPatch false obj inner.
Definition rc_Get (c : RbacClient) (obj : O) (inner : M W err) := recorded c VerbGet false obj inner.
Definition rc_List (c : RbacClient) (obj : O) (inner : M W err) := recorded c VerbList false obj inner.
Definition sw_Update (c : RbacClient) (obj : O) (inner : M W err) := recorded c VerbUpdate true obj inner.
Definition sw_Patch (c : RbacClient) (obj : O) (inner : M W err) := recorded c VerbPatch true obj inner.

(** ** Writing the result *)

Definition yamlSeparator : string := String (Ascii.ascii_of_nat 10) "---" +:+ String (Ascii.ascii_of_nat 10) "".

(** [yaml.Marshal] and an [io.Writer]. *)
Definition WriteResult (marshal : RoleObject -> error + string) (write : string -> M W err) (role : RoleObject)
  : M W err :=
  match marshal role with
  | inl e => mret (Some (Wrapf e "failed to marshal role" []))
  | inr m =>
    e ← write yamlSeparator;
    match e with
    | Some x => mret (Some (Wrapf x "failed to write yaml separator" []))
    | None =>
      e ← write m;
      match e with
      | Some x => mret (Some (Wrapf x "failed to write RBAC manifest" []))
      | None => mret None
      end
    end
  end.

(** The loop that writes the recorded errors; [show] is the method [Error]. *)
Fixpoint writeErrors (show : error -> string) (write : string -> M W err) (errs : list error) : M W err :=
  match errs with
  | [] => mret None
  | e :: errs =>
    we ← write (show e);
    match we with
    | Some x => mret (Some (Wrapf x "failed to write rbac client recorder errors" []))
    | None => writeErrors show write errs
    end
  end.

(** [Result]: the client with its rules reordered, and the error. *)
Definition rbac_Result (marshal : RoleObject -> error + string) (show : error -> string)
  (write : string -> M W err) (ewrite : option (string -> M W err)) (c : RbacClient) (w : W)
  : outcome (W * (RbacClient * err)) :=
  match reorderRules (Rules (Role c)), reorderRules (Rules (ClusterRole c)) with
  | Done rules, Done crules =>
    let with_rules r rs := mkRole (role_APIVersion r) (role_Kind r) (role_Name r) rs in
    let c := mkRbacClient (with_rules (Role c) rules) (with_rules (ClusterRole c) crules) (rc_errors c) in
    let '(w, e) := WriteResult marshal write (Role c) w in
    match e with
    | Some _ => Done (w, (c, e))
    | None =>
      let '(w, e) := WriteResult marshal write (ClusterRole c) w in
      match e with
      | Some _ => Done (w, (c, e))
      | None =>
        match ewrite with
        | Some ewrite =>
          if bool_decide (0 < length (rc_errors c)) then
            let '(w, e) := ewrite ("Errors during rbac client recording:" +:+ String (Ascii.ascii_of_nat 10) "") w in
            match e with
            | Some x => Done (w, (c, Some (Wrapf x "failed to write to rbac client errorWriter" [])))
            | None => let '(w, e) := writeErrors show ewrite (rc_errors c) w in Done (w, (c, e))
            end
          else Done (w, (c, None))
        | None => Done (w, (c, None))
        end
      end
    end
  | Panic m, _ => Panic m
  | _, Panic m => Panic m
  | _, _ => OutOfFuel
  end.
End rbac.

(** ** Properties *)

(** Some rule grants the verb on the resource of the group. *)
Definition granted (rules : list PolicyRule) (g r v : string) : Prop :=
  exists rule, rule ∈ rules /\ g ∈ APIGroups rule /\ r ∈ Resources rule /\ v ∈ Verbs rule.

Lemma granted_cons rule rules g r v : granted (rule :: rules) g r v <->
  (g ∈ APIGroups rule /\ r ∈ Resources rule /\ v ∈ Verbs rule) \/ granted rules g r v.
Proof. unfold granted. setoid_rewrite elem_of_cons. naive_solver. Qed.

(** API groups are DNS names, which have no underscore. *)
Definition has_separator : string -> bool := has_char (Ascii.ascii_of_nat 95).

Lemma groupResourceName_inj g1 r1 g2 r2 : has_separator g1 = false -> has_separator g2 = false ->
  groupResourceName g1 r1 = groupResourceName g2 r2 -> g1 = g2 /\ r1 = r2.
Proof. apply join_char_inj. Qed.

Lemma appendVerbs_spec verbs p :
  APIGroups (appendVerbs verbs p) = APIGroups p /\ Resources (appendVerbs verbs p) = Resources p /\
  forall v, v ∈ Verbs (appendVerbs verbs p) <-> v ∈ Verbs p \/ v ∈ verbs.
Proof.
  unfold appendVerbs. revert p. induction verbs as [|x verbs IH]; intros p; cbn [foldl]; [set_solver|].
  destruct (IH (if negb (contains (Verbs p) x) then mkRule (APIGroups p) (Resources p) (Verbs p ++ [x]) else p))
    as (Hg & Hr & Hv). destruct (contains (Verbs p) x) eqn:Hc; cbn in *.
  - apply contains_spec in Hc. split_and!; try done. set_solver.
  - split_and!; try done. set_solver.
Qed.

Lemma appendVerbs_NoDup verbs p : NoDup (Verbs p) -> NoDup (Verbs (appendVerbs verbs p)).
Proof.
  unfold appendVerbs. revert p. induction verbs as [|x verbs IH]; intros p Hp; cbn; [done|]. apply IH.
  destruct (contains (Verbs p) x) eqn:Hc; cbn; [done|]. apply contains_false in Hc.
  apply NoDup_app. split_and!; [done|set_solver|apply NoDup_singleton].
Qed.

(** What the map and the list of keys hold after the permissions [P]. *)
Record reorder_inv (P : string -> string -> string -> Prop) (m : gmap string PolicyRule) (names : list string)
  : Prop := {
  ri_nodup : NoDup names;
  ri_names : forall n, n ∈ names <-> is_Some (m !! n);
  ri_rule : forall n rule, m !! n = Some rule -> exists g r, n = groupResourceName g r /\
    has_separator g = false /\ APIGroups rule = [g] /\ Resources rule = [r] /\ NoDup (Verbs rule);
  ri_verbs : forall g r v, has_separator g = false ->
    (exists rule, m !! groupResourceName g r = Some rule /\ v ∈ Verbs rule) <-> P g r v;
}.

Lemma addResource_inv P g verbs m names r : has_separator g = false -> NoDup verbs ->
  reorder_inv P m names ->
  let '(m', names') := addResource g verbs (m, names) r in
  reorder_inv (fun g' r' v => P g' r' v \/ g' = g /\ r' = r /\ v ∈ verbs) m' names'.
Proof.
  intros Hg Hnd [H1 H2 H3 H4]. cbn. set (n := groupResourceName g r) in *.
  assert (forall rule' g' r' v, has_separator g' = false ->
    (forall v, v ∈ Verbs rule' <-> P g r v \/ v ∈ verbs) ->
    (exists rule, <[n := rule']> m !! groupResourceName g' r' = Some rule /\ v ∈ Verbs rule) <->
    P g' r' v \/ g' = g /\ r' = r /\ v ∈ verbs) as Hv.
  { intros rule' g' r' v Hg' Hr. destruct (decide (groupResourceName g' r' = n)) as [He|He].
    - destruct (groupResourceName_inj g' r' g r Hg' Hg He) as [-> ->]. fold n. rewrite lookup_insert_eq.
      split; [|intros Hp; exists rule'; split; [done|]; apply Hr; naive_solver].
      intros (rule & [= <-] & Hin). apply Hr in Hin. naive_solver.
    - rewrite lookup_insert_ne by done. rewrite (H4 g' r' v Hg'). split; [by left|].
      intros [?|(-> & -> & _)]; done. }
  destruct (m !! n) as [p|] eqn:Hn.
  - destruct (appendVerbs_spec verbs p) as (Ha & Hr & Hvs).
    destruct (H3 n p Hn) as (g0 & r0 & He & Hs & Hpg & Hpr & Hpn). split.
    + done.
    + intros n'. rewrite H2. destruct (decide (n' = n)) as [->|]; [|by rewrite lookup_insert_ne].
      rewrite lookup_insert_eq, Hn. by split; eauto.
    + intros n' rule. destruct (decide (n' = n)) as [->|]; [|rewrite lookup_insert_ne by done; apply H3].
      rewrite lookup_insert_eq. intros [= <-]. exists g0, r0. rewrite Ha, Hr.
      split_and!; try done. by apply appendVerbs_NoDup.
    + intros g' r' v Hg'. apply Hv; [done|]. intros v'. rewrite Hvs, <- (H4 g r v' Hg). fold n.
      rewrite Hn. naive_solver.
  - assert (n ∉ names) as Hnn by (rewrite H2, Hn; intros []; done). split.
    + apply NoDup_app. split_and!; [done|set_solver|apply NoDup_singleton].
    + intros n'. rewrite elem_of_app, H2. destruct (decide (n' = n)) as [->|].
      * rewrite lookup_insert_eq. split; [eauto|]. intros _. right. by left.
      * rewrite lookup_insert_ne by done. set_solver.
    + intros n' rule. destruct (decide (n' = n)) as [->|]; [|rewrite lookup_insert_ne by done; apply H3].
      rewrite lookup_insert_eq. intros [= <-]. by exists g, r.
    + intros g' r' v Hg'. apply Hv; [done|]. intros v'. cbn. split; [by right|].
      intros [Hp|?]; [|done]. apply (H4 g r v' Hg) in Hp as (rule & Hl & _). unfold n in Hn. congruence.
Qed.

Lemma reorder_inv_ext (P Q : string -> string -> string -> Prop) m names :
  (forall g r v, P g r v <-> Q g r v) -> reorder_inv P m names -> reorder_inv Q m names.
Proof. intros HPQ [H1 H2 H3 H4]. split; try done. intros g r v Hg. rewrite <- HPQ. by apply H4. Qed.

Lemma foldl_addResource_inv g verbs rs : has_separator g = false -> NoDup verbs ->
  forall P m names, reorder_inv P m names ->
  let '(m', names') := foldl (addResource g verbs) (m, names) rs in
  reorder_inv (fun g' r' v => P g' r' v \/ g' = g /\ r' ∈ rs /\ v ∈ verbs) m' names'.
Proof.
  intros Hg Hnd. induction rs as [|r rs IH]; intros P m names HI.
  - cbn. eapply reorder_inv_ext, HI. intros; set_solver.
  - pose proof (addResource_inv P g verbs m names r Hg Hnd HI) as Ha. cbn [foldl].
    destruct (addResource g verbs (m, names) r) as [m1 names1]. specialize (IH _ _ _ Ha).
    destruct (foldl (addResource g verbs) (m1, names1) rs) as [m2 names2].
    eapply reorder_inv_ext, IH. intros; set_solver.
Qed.

(** The rules the recorder produces: one group, without an underscore. *)
Definition recordable (rule : PolicyRule) : Prop :=
  NoDup (Verbs rule) /\ exists g, APIGroups rule = [g] /\ has_separator g = false.

Lemma reorder_loop_inv rules : Forall recordable rules -> forall P m names, reorder_inv P m names ->
  exists m' names', reorder_loop rules (m, names) = Done (m', names') /\
    reorder_inv (fun g r v => P g r v \/ granted rules g r v) m' names'.
Proof.
  induction 1 as [|rule rules [Hnd (g & Hrg & Hg)] _ IH]; intros P m names HI; cbn [reorder_loop].
  - exists m, names. split; [done|]. eapply reorder_inv_ext, HI. unfold granted. set_solver.
  - rewrite Hrg. pose proof (foldl_addResource_inv g (Verbs rule) (Resources rule) Hg Hnd P m names HI) as Ha.
    destruct (foldl _ (m, names) _) as [m1 names1]. destruct (IH _ _ _ Ha) as (m' & names' & Hl & Hi).
    exists m', names'. split; [done|]. eapply reorder_inv_ext, Hi. intros g' r v.
    rewrite (granted_cons rule rules), Hrg, list_elem_of_singleton. tauto.
Qed.

Lemma reorderRules_spec rules : Forall recordable rules ->
  exists result, reorderRules rules = Done result /\
    (forall g r v, granted result g r v <-> granted rules g r v) /\
    NoDup ((fun x => (APIGroups x, Resources x)) <$> result) /\
    Forall (fun x => length (APIGroups x) = 1 /\ length (Resources x) = 1 /\ NoDup (Verbs x)) result.
Proof.
  intros Hf. destruct (reorder_loop_inv rules Hf (fun _ _ _ => False) ∅ []) as (m & names & Hl & [H1 H2 H3 H4]).
  { split; [constructor| |done|].
    - intros n. split; [by intros ?%elem_of_nil|by intros []].
    - intros g r v _. split; [by intros (? & ? & _)|done]. }
  unfold reorderRules. rewrite Hl. eexists. split; [reflexivity|].
  assert (forall n, n ∈ names -> exists rule g r, m !! n = Some rule /\ n = groupResourceName g r /\
    has_separator g = false /\ APIGroups rule = [g] /\ Resources rule = [r] /\ NoDup (Verbs rule)) as Hn.
  { intros n [rule Hr]%H2. destruct (H3 n rule Hr) as (g & r & ?). by exists rule, g, r. }
  split_and!.
  - intros g r v. split.
    + intros (rule & Hin & Hg & Hr & Hv). apply list_elem_of_fmap in Hin as (n & -> & Hin).
      destruct (Hn n Hin) as (rule & g0 & r0 & Hm & -> & Hs & Hrg & Hrr & _). rewrite Hm in *. cbn in *.
      rewrite Hrg in Hg. rewrite Hrr in Hr. apply list_elem_of_singleton in Hg as ->, Hr as ->.
      destruct (proj1 (H4 g0 r0 v Hs)) as [[]|?]; [by exists rule|done].
    + intros Hp. assert (has_separator g = false) as Hs.
      { destruct Hp as (rule & Hin & Hg & _). rewrite Forall_forall in Hf.
        destruct (Hf rule Hin) as (_ & g0 & Hrg & Hs). rewrite Hrg in Hg. by apply list_elem_of_singleton in Hg as ->. }
      destruct (proj2 (H4 g r v Hs)) as (rule & Hm & Hv); [by right|].
      destruct (H3 _ _ Hm) as (g0 & r0 & He & Hs0 & Hrg & Hrr & _).
      destruct (groupResourceName_inj _ _ _ _ Hs Hs0 He) as [<- <-].
      exists rule. rewrite Hrg, Hrr, !list_elem_of_singleton. split_and!; [|done|done|done].
      apply list_elem_of_fmap. exists (groupResourceName g r). rewrite Hm. split; [done|]. apply H2. eauto.
  - rewrite <- list_fmap_compose. apply NoDup_fmap_2_strong; [|done]. intros n1 n2 Hi1 Hi2. cbn.
    destruct (Hn n1 Hi1) as (x1 & g1 & r1 & Hm1 & -> & _ & Hg1 & Hr1 & _).
    destruct (Hn n2 Hi2) as (x2 & g2 & r2 & Hm2 & -> & _ & Hg2 & Hr2 & _).
    rewrite Hm1, Hm2. cbn. rewrite Hg1, Hg2, Hr1, Hr2. by intros [= -> ->].
  - apply Forall_fmap, Forall_forall. intros n Hin. cbn.
    destruct (Hn n Hin) as (x & g & r & Hm & _ & _ & Hg & Hr & Hnd). rewrite Hm. cbn. by rewrite Hg, Hr.
Qed.

(** Reordering recorded rules neither drops nor adds a permission, and its
    result has one rule per group and resource, without repeated verbs. *)
Theorem reorderRules_grants rules : Forall recordable rules ->
  exists result, reorderRules rules = Done result /\
    (forall g r v, granted result g r v <-> granted rules g r v) /\
    NoDup ((fun x => (APIGroups x, Resources x)) <$> result) /\
    Forall (fun x => length (APIGroups x) = 1 /\ length (Resources x) = 1 /\ NoDup (Verbs x)) result.
Proof. apply reorderRules_spec. Qed.

Section rbac_claims.
Context {O W : Type} `{RbacLib O} `{ErrorLib}.

(** *** What is to be recorded *)

(** The methods of the client and of its status writer. *)
Inductive method := CreateM | UpdateM | DeleteM | DeleteAllOfM | PatchM | GetM | ListM | StatusUpdateM | StatusPatchM.
(** A call: the method, the object, and what the wrapped client does. *)
Record ClientCall := mkCall { cc_method : method; cc_obj : O; cc_inner : M W err }.

(** The verb and subresource of a call.  [DeleteAllOf] is counted as a deletion of
    the objects, although the API server asks for the verb deletecollection. *)
Definition verb_of (m : method) : string :=
  match m with
  | CreateM => "create" | UpdateM | StatusUpdateM => "update" | DeleteM | DeleteAllOfM => "delete"
  | PatchM | StatusPatchM => "patch" | GetM => "get" | ListM => "list"
  end.
Definition subresource (m : method) : string := match m with StatusUpdateM | StatusPatchM => "/status" | _ => "" end.
Definition permission (x : ClientCall) : string * string * string :=
  let gvk := match rb_GVKForObject (cc_obj x) with inr gvk => gvk | inl _ => mkGVK "" "" "" end in
  let res := UnsafeGuessKindToResource (O := O) gvk in
  (res.1, res.2 +:+ subresource (cc_method x), verb_of (cc_method x)).
(** The kind of the object is known, and is mapped to a scope that is not the root. *)
Definition in_namespace (x : ClientCall) : Prop := exists gvk scope,
  match unstructuredGVK (cc_obj x) with Some g => g = gvk | None => rb_GVKForObject (cc_obj x) = inr gvk end /\
  RESTMapping (O := O) (gvk_Group gvk) (gvk_Kind gvk) = inr scope /\ scope <> "" /\ scope <> "root".

(** *** What is recorded *)

(** A call through the recording client, and a sequence of calls with their errors;
    and the same calls made on the wrapped client. *)
Definition invoke (x : ClientCall) (c : RbacClient) : M W (RbacClient * err) :=
  match cc_method x with
  | CreateM => rc_Create c (cc_obj x) (cc_inner x) | UpdateM => rc_Update c (cc_obj x) (cc_inner x)
  | DeleteM => rc_Delete c (cc_obj x) (cc_inner x) | DeleteAllOfM => rc_DeleteAllOf c (cc_obj x) (cc_inner x)
  | PatchM => rc_Patch c (cc_obj x) (cc_inner x) | GetM => rc_Get c (cc_obj x) (cc_inner x)
  | ListM => rc_List c (cc_obj x) (cc_inner x)
  | StatusUpdateM => sw_Update c (cc_obj x) (cc_inner x) | StatusPatchM => sw_Patch c (cc_obj x) (cc_inner x)
  end.
Fixpoint session (calls : list ClientCall) (c : RbacClient) : M W (RbacClient * list err) :=
  match calls with
  | [] => mret (c, [])
  | x :: calls => '(c, e) ← invoke x c; '(c, es) ← session calls c; mret (c, e :: es)
  end.
Definition direct (calls : list ClientCall) : M W (list err) := mapM cc_inner calls.

Definition rule_of (x : ClientCall) : PolicyRule := let '(g, r, v) := permission x in mkRule [g] [r] [v].
Definition namespaced (x : ClientCall) : bool := fst (isNamespaced (cc_obj x)).

Lemma isNamespaced_spec x : namespaced x = true <-> in_namespace x.
Proof.
  unfold namespaced, isNamespaced, in_namespace. split.
  - repeat case_match; simplify_eq/=; try done; intros _.
    all: repeat match goal with Hb : bool_decide _ = false |- _ => apply bool_decide_eq_false in Hb
      | Hb : negb (bool_decide _) = true |- _ => apply negb_true_iff, bool_decide_eq_false in Hb end; eauto 10.
  - intros (gvk & scope & Hg & Hm & He & Hr).
    assert ((match unstructuredGVK (cc_obj x) with Some g => inr g | None => rb_GVKForObject (cc_obj x) end) = inr gvk) as ->
      by (destruct (unstructuredGVK (cc_obj x)); congruence).
    rewrite Hm, !bool_decide_false by done. done.
Qed.

Definition header (r : RoleObject) : string * string * string := (role_APIVersion r, role_Kind r, role_Name r).
(** A client that has recorded, after [c], the rules [rs] in the role and [cs] in the
    cluster role. *)
Definition recorded_in (c c' : RbacClient) (rs cs : list PolicyRule) : Prop :=
  header (Role c') = header (Role c) /\ header (ClusterRole c') = header (ClusterRole c) /\
  Rules (Role c') = Rules (Role c) ++ rs /\ Rules (ClusterRole c') = Rules (ClusterRole c) ++ cs.

Lemma ruleFor_call x verb (status : bool) : verb_of (cc_method x) = verb -> subresource (cc_method x) = (if status then "/status" else "") ->
  ruleFor (cc_obj x) verb status = rule_of x.
Proof.
  intros <- Hs. unfold ruleFor, rule_of, permission. rewrite Hs. cbn.
  change zeroGVK with (mkGVK "" "" ""). destruct (UnsafeGuessKindToResource _) as [g r]. cbn. destruct status; cbn; [done|].
  by rewrite app_nil_string.
Qed.

(** Every method records the permission of the call, and forwards it. *)
Lemma invoke_records x c w : exists c', invoke x c w = ((cc_inner x w).1, (c', (cc_inner x w).2)) /\
  recorded_in c c' (if namespaced x then [rule_of x] else []) (if namespaced x then [] else [rule_of x]).
Proof.
  assert (forall verb status, ruleFor (cc_obj x) verb status = rule_of x ->
    exists c', recorded c verb status (cc_obj x) (cc_inner x) w = ((cc_inner x w).1, (c', (cc_inner x w).2)) /\
      recorded_in c c' (if namespaced x then [rule_of x] else []) (if namespaced x then [] else [rule_of x])) as Hrec.
  { intros verb status Hr. unfold recorded. destruct (cc_inner x w) as [w' e]. eexists. split; [done|].
    unfold recordRuleWithStatus, namespaced, recorded_in. rewrite Hr.
    destruct (isNamespaced (cc_obj x)) as [[] ie]; cbn; by rewrite ?app_nil_r. }
  unfold invoke. destruct (cc_method x) eqn:Hm.
  all: apply Hrec, ruleFor_call; by rewrite Hm.
Qed.

Lemma recorded_in_app c1 c2 c3 rs1 cs1 rs2 cs2 : recorded_in c1 c2 rs1 cs1 -> recorded_in c2 c3 rs2 cs2 -> recorded_in c1 c3 (rs1 ++ rs2) (cs1 ++ cs2).
Proof. intros (H1 & H2 & H3 & H4) (H5 & H6 & H7 & H8). unfold recorded_in. rewrite H7, H3, H8, H4, !app_assoc. split_and!; congruence. Qed.

Lemma session_records calls : forall c w, exists c', session calls c w = ((direct calls w).1, (c', (direct calls w).2)) /\
  recorded_in c c' (rule_of <$> filter (fun x => namespaced x = true) calls) (rule_of <$> filter (fun x => namespaced x = false) calls).
Proof.
  induction calls as [|x calls IH]; intros c w.
  { exists c. split; [done|]. unfold recorded_in. cbn. by rewrite !app_nil_r. }
  destruct (invoke_records x c w) as (c1 & Hx & H1). cbn [session]. unfold direct. cbn [mapM]. unfold mbind, M_bind. rewrite Hx.
  destruct (cc_inner x w) as [w1 e]. cbn [fst snd]. destruct (IH c1 w1) as (c2 & Hs & H2). rewrite Hs. unfold direct.
  destruct (mapM cc_inner calls w1) as [w2 es]. exists c2. split; [done|]. pose proof (recorded_in_app _ _ _ _ _ _ _ H1 H2) as H3.
  rewrite !filter_cons. destruct (namespaced x); cbn in *; exact H3.
Qed.

Lemma rule_recordable x : has_separator (permission x).1.1 = false -> recordable (rule_of x).
Proof.
  unfold rule_of, recordable. destruct (permission x) as [[g r] v]. cbn. intros Hs. split; [apply NoDup_singleton|by exists g].
Qed.

Lemma granted_rules (l : list ClientCall) g r v : granted (rule_of <$> l) g r v <-> exists x, x ∈ l /\ permission x = (g, r, v).
Proof.
  unfold granted. split.
  - intros (rule & Hin & Hg & Hr & Hv). apply list_elem_of_fmap in Hin as (x & -> & Hin). exists x. split; [done|].
    unfold rule_of in *. destruct (permission x) as [[g' r'] v']. cbn in *.
    apply list_elem_of_singleton in Hg as ->, Hr as ->, Hv as ->. done.
  - intros (x & Hin & He). exists (rule_of x). split; [by apply list_elem_of_fmap_2|]. unfold rule_of. rewrite He. cbn.
    by rewrite !list_elem_of_singleton.
Qed.

Lemma reorder_calls l : Forall (fun x => has_separator (permission x).1.1 = false) l ->
  exists result, reorderRules (rule_of <$> l) = Done result /\
    (forall g r v, granted result g r v <-> exists x, x ∈ l /\ permission x = (g, r, v)) /\
    NoDup ((fun x => (APIGroups x, Resources x)) <$> result) /\ Forall (fun x => NoDup (Verbs x)) result.
Proof.
  intros Hl. destruct (reorderRules_spec (rule_of <$> l)) as (result & Hres & Hg & Hnd & Hv).
  { apply Forall_fmap. eapply Forall_impl; [exact Hl|]. intros x. apply rule_recordable. }
  exists result. split; [done|]. split; [intros g r v; rewrite Hg; apply granted_rules|]. split; [done|].
  eapply Forall_impl; [exact Hv|]. naive_solver.
Qed.

(** The options of the package. *)
Inductive rbac_option : (RbacClient -> RbacClient) -> Prop :=
| ro_role n : rbac_option (WithRoleName n)
| ro_cluster_role n : rbac_option (WithClusterRoleName n).

Lemma NewClient_blank opts : Forall rbac_option opts ->
  exists n cn, NewClient opts = mkRbacClient (newRole n) (newClusterRole cn) [].
Proof.
  unfold NewClient. generalize DefaultRoleName as n, DefaultClusterRoleName as cn. intros n cn Ho. revert n cn.
  induction Ho as [|opt opts Ho _ IH]; intros n cn; cbn; [by eexists _, _|]. destruct Ho; apply IH.
Qed.

(** *** What is written *)

(** A writer that appends to a text, and one that leaves it alone. *)
Definition appends (text : W -> string) (write : string -> M W err) : Prop :=
  forall s w, exists w', write s w = (w', None) /\ text w' = text w +:+ s.
Definition spares (text : W -> string) (write : string -> M W err) : Prop :=
  forall s w, exists w', write s w = (w', None) /\ text w' = text w.

Lemma WriteResult_text text marshal write role y w : appends text write -> marshal role = inr y ->
  exists w', WriteResult marshal write role w = (w', None) /\ text w' = text w +:+ yamlSeparator +:+ y.
Proof.
  intros Hw Hm. unfold WriteResult. rewrite Hm. unfold mbind, M_bind.
  destruct (Hw yamlSeparator w) as (w1 & -> & H1). destruct (Hw y w1) as (w2 & -> & H2). exists w2. split; [done|].
  by rewrite H2, H1, app_assoc_string.
Qed.
Lemma writeErrors_text text show write errs : spares text write -> forall w, exists w', writeErrors show write errs w = (w', None) /\ text w' = text w.
Proof.
  intros Hw. induction errs as [|e errs IH]; intros w; cbn; [by exists w|]. unfold mbind, M_bind.
  destruct (Hw (show e) w) as (w1 & -> & H1). destruct (IH w1) as (w2 & -> & H2). exists w2. split; [done|]. by rewrite H2.
Qed.

Lemma rbac_Result_text text marshal show write ewrite c (w : W) rs cs y cy :
  let role := mkRole (role_APIVersion (Role c)) (role_Kind (Role c)) (role_Name (Role c)) rs in
  let crole := mkRole (role_APIVersion (ClusterRole c)) (role_Kind (ClusterRole c)) (role_Name (ClusterRole c)) cs in
  reorderRules (Rules (Role c)) = Done rs -> reorderRules (Rules (ClusterRole c)) = Done cs ->
  marshal role = inr y -> marshal crole = inr cy -> appends text write -> (forall ew, ewrite = Some ew -> spares text ew) ->
  exists w' c', rbac_Result marshal show write ewrite c w = Done (w', (c', None)) /\ Role c' = role /\ ClusterRole c' = crole /\
    text w' = text w +:+ yamlSeparator +:+ y +:+ yamlSeparator +:+ cy.
Proof.
  intros role crole Hr Hc Hy Hcy Hw Hew. unfold rbac_Result. rewrite Hr, Hc. cbn.
  destruct (WriteResult_text text marshal write role y w Hw Hy) as (w1 & E1 & T1). fold role. rewrite E1.
  destruct (WriteResult_text text marshal write crole cy w1 Hw Hcy) as (w2 & E2 & T2). fold crole. rewrite E2.
  assert (text w2 = text w +:+ yamlSeparator +:+ y +:+ yamlSeparator +:+ cy) as Ht by (by rewrite T2, T1, !app_assoc_string).
  destruct ewrite as [ew|]; [|by eexists _, _]. case_bool_decide; [|by eexists _, _].
  destruct (Hew ew eq_refl ("Errors during rbac client recording:" +:+ String (Ascii.ascii_of_nat 10) "") w2) as (w3 & E3 & T3). rewrite E3.
  destruct (writeErrors_text text show ew (rc_errors c) (Hew ew eq_refl) w3) as (w4 & -> & T4). eexists w4, _. split_and!; [done|done|done|congruence].
Qed.

(** C33: calls made through the recording client are forwarded to the wrapped client
    with their results, and [Result] then writes two manifests, each after a separator:
    a Role whose rules grant exactly the permissions of the calls on objects whose kind
    is mapped to a scope other than the root, and a ClusterRole whose rules grant
    exactly those of all other calls, each with one rule per group and resource.  A
    permission is the group and the resource guessed from the kind of the object, with
    the subresource status for the methods of the status writer, and the verb of the
    method.  This holds when the groups of the objects have no underscore, the roles can
    be marshalled and the writers do not fail. *)
Theorem recorded_permissions text (marshal : RoleObject -> string) show write ewrite calls opts (w : W) :
  Forall (fun x => has_separator (permission x).1.1 = false) calls -> Forall rbac_option opts ->
  appends text write -> (forall ew, ewrite = Some ew -> spares text ew) ->
  exists c, session calls (NewClient opts) w = ((direct calls w).1, (c, (direct calls w).2)) /\
  forall wr, exists w' c' n rs cn cs, rbac_Result (fun r => inr (marshal r)) show write ewrite c wr = Done (w', (c', None)) /\
    text w' = text wr +:+ yamlSeparator +:+ marshal (mkRole "rbac.authorization.k8s.io/v1" "Role" n rs) +:+
                yamlSeparator +:+ marshal (mkRole "rbac.authorization.k8s.io/v1" "ClusterRole" cn cs) /\
    (forall g r v, granted rs g r v <-> exists x, x ∈ calls /\ in_namespace x /\ permission x = (g, r, v)) /\
    (forall g r v, granted cs g r v <-> exists x, x ∈ calls /\ ~ in_namespace x /\ permission x = (g, r, v)) /\
    NoDup ((fun x => (APIGroups x, Resources x)) <$> rs) /\ NoDup ((fun x => (APIGroups x, Resources x)) <$> cs).
Proof.
  intros Hsep Hopts Hw Hew. destruct (session_records calls (NewClient opts) w) as (c & Hs & Hh & Hch & Hr & Hc).
  destruct (NewClient_blank opts Hopts) as (n & cn & Hn). rewrite Hn in Hh, Hch, Hr, Hc. exists c. split; [by rewrite Hn in Hs |- *|]. intros wr.
  cbn in Hr, Hc. unfold header in Hh, Hch. cbn in Hh, Hch. injection Hh as Ha Hk Hnm. injection Hch as Hca Hck Hcn.
  destruct (reorder_calls (filter (fun x => namespaced x = true) calls)) as (rs & Hrs & Hgr & Hnr & _); [apply Forall_forall; intros x [_ Hx]%list_elem_of_filter; rewrite Forall_forall in Hsep; by apply Hsep|].
  destruct (reorder_calls (filter (fun x => namespaced x = false) calls)) as (cs & Hcs & Hgc & Hnc & _); [apply Forall_forall; intros x [_ Hx]%list_elem_of_filter; rewrite Forall_forall in Hsep; by apply Hsep|].
  edestruct (rbac_Result_text text (fun r => inr (marshal r)) show write ewrite c wr rs cs) as (w' & c' & Hres & _ & _ & Ht);
    [by rewrite Hr|by rewrite Hc|done|done|done|done|].
  exists w', c', n, rs, cn, cs. split; [exact Hres|]. rewrite Ha, Hk, Hnm, Hca, Hck, Hcn in Ht. split; [exact Ht|].
  split_and!; [| |done|done]; intros g r v; [rewrite Hgr|rewrite Hgc]; setoid_rewrite list_elem_of_filter.
  - setoid_rewrite isNamespaced_spec. naive_solver.
  - setoid_rewrite <- isNamespaced_spec. setoid_rewrite not_true_iff_false. naive_solver.
Qed.
End rbac_claims.

(** ** Witnesses and examples *)

Module RbacDemo.
#[export] Instance lib : RbacLib (string * string) := {|
  rb_GVKForObject := fun o => inr (mkGVK o.1 "v1" o.2);
  UnsafeGuessKindToResource := fun gvk =>
    (if has_separator (gvk_Group gvk) then "" else gvk_Group gvk, gvk_Kind gvk +:+ "s");
  RESTMapping := fun g k => inr (if bool_decide (k = "node") then RESTScopeNameRoot else "namespace");
  unstructuredGVK := fun _ => None;
|}.
(** Calls on a world that is the text written so far. *)
Definition on (m : method) (o : string * string) : ClientCall (W := string) := mkCall m o (fun w => (w, None)).
Definition calls : list (ClientCall (W := string)) :=
  [on GetM ("apps", "deployment"); on ListM ("", "node"); on StatusUpdateM ("apps", "deployment");
   on CreateM ("apps", "deployment"); on GetM ("apps", "deployment")].
Definition show_role (r : RoleObject) : string := role_Kind r +:+ " " +:+ role_Name r.
Definition rules : list PolicyRule :=
  [mkRule ["apps"] ["deployments"] [VerbGet]; mkRule ["apps"] ["deployments/status"] [VerbUpdate];
   mkRule ["apps"] ["deployments"] [VerbCreate; VerbGet]].
Example grouped : reorderRules rules =
  Done [mkRule ["apps"] ["deployments"] [VerbGet; VerbCreate]; mkRule ["apps"] ["deployments/status"] [VerbUpdate]].
Proof. reflexivity. Qed.

(** Group and resource names whose joined names coincide are merged into one
    rule, and the permission of the second is lost. *)
Example collision : reorderRules [mkRule ["a_b"] ["c"] [VerbGet]; mkRule ["a"] ["b_c"] [VerbList]] =
  Done [mkRule ["a_b"] ["c"] [VerbGet; VerbList]].
Proof. reflexivity. Qed.
Lemma rules_recordable : Forall recordable rules.
Proof.
  repeat constructor; try (apply (bool_decide_unpack _); vm_compute; exact I); eexists; split; reflexivity.
Qed.
End RbacDemo.

Import RefErrors RbacDemo.

Lemma reorderRules_grants_witness :
  exists result, reorderRules rules = Done result /\
    (forall g r v, granted result g r v <-> granted rules g r v) /\
    NoDup ((fun x => (APIGroups x, Resources x)) <$> result) /\
    Forall (fun x => length (APIGroups x) = 1 /\ length (Resources x) = 1 /\ NoDup (Verbs x)) result.
Proof. exact (reorderRules_grants rules rules_recordable). Defined.

Lemma recorded_permissions_witness :
  exists c w' c' rs cs, session calls (NewClient [WithRoleName "r"]) "" = ("", (c, [None; None; None; None; None])) /\
    rbac_Result (fun r => inr (show_role r)) (fun _ => "") (fun x w => (w +:+ x, None)) None c "" = Done (w', (c', None)) /\
    (forall g r v, granted rs g r v <-> exists x, x ∈ calls /\ in_namespace x /\ permission x = (g, r, v)) /\
    (forall g r v, granted cs g r v <-> exists x, x ∈ calls /\ ~ in_namespace x /\ permission x = (g, r, v)).
Proof.
  destruct (recorded_permissions (W := string) (fun w => w) show_role (fun _ => "") (fun x w => (w +:+ x, None)) None
    calls [WithRoleName "r"] "") as (c & Hs & Hres).
  - repeat constructor.
  - repeat constructor.
  - intros s w. by exists (w +:+ s).
  - intros ew. discriminate.
  - destruct (Hres "") as (w' & c' & n & rs & cn & cs & Hr & _ & Hgr & Hgc & _).
    exists c, w', c', rs, cs. split; [exact Hs|]. split; [exact Hr|]. split; [exact Hgr|exact Hgc].
Defined.
