(* ===== verification/Cert.v ===== *)
(** Webhook certificates: [internal/webhook/cert/writer/*.go] and the interface of
    [internal/webhook/cert/generator/certgenerator.go].

    The writer keeps a certificate in a secret and replaces it when it is missing
    or no longer valid.  Byte slices are strings.  Cryptography and the cluster
    are parameters. *)
From S2P Require Import Prelude.

(** ** Artifacts and their validity *)

(** [generator.Artifacts]. *)
Record Artifacts := mkArtifacts { art_Key : string; art_Cert : string; art_CAKey : string; art_CACert : string }.

(** [generator.CertGenerator]: generating returns a certificate or an error, and
    the generator keeps the CA it is given in the world. *)
Record CertGenerator (W : Type) := mkCertGenerator {
  Generate : string -> M W (error + Artifacts);
  SetCA : string -> string -> M W unit;
}.
Arguments mkCertGenerator {W}. Arguments Generate {W}. Arguments SetCA {W}.

(** What the code uses of [crypto/tls], [crypto/x509] and [encoding/pem]:
    whether certificate and key match, whether a pool accepts a PEM text, the
    bytes of its first block, parsing them, and verifying a certificate for a DNS
    name against a pool at a time; [addMonths] is [Time.AddDate(0, n, 0)]. *)
Class CryptoLib := {
  Certificate : Type;
  X509KeyPair : string -> string -> bool;
  AppendCertsFromPEM : string -> bool;
  pem_Decode : string -> option string;
  ParseCertificate : string -> option Certificate;
  Verify : Certificate -> string -> string -> Z -> bool;
  addMonths : Z -> Z -> Z;
}.

Section writer.
Context `{CryptoLib} `{ErrorLib}.

(** [validCert] at time [now]: the certificate must still verify in six months. *)
Definition validCert (now : Z) (certs : option Artifacts) (dnsName : string) : bool :=
  match certs with
  | None => false
  | Some certs =>
    if negb (X509KeyPair (art_Cert certs) (art_Key certs)) then false
    else if negb (AppendCertsFromPEM (art_CACert certs)) then false
    else match pem_Decode (art_Cert certs) with
         | None => false
         | Some block =>
           match ParseCertificate block with
           | None => false
           | Some cert => Verify cert dnsName (art_CACert certs) (addMonths now 6)
           end
         end
  end.

(** The error structs of the package and their type assertions. *)
Definition notFoundError (e : error) : error := typedError "writer.notFoundError" [] 0.
Definition alreadyExistError (e : error) : error := typedError "writer.alreadyExistError" [] 0.
Definition isNotFound (e : err) : bool :=
  match e with Some (typedError t _ _) => bool_decide (t = "writer.notFoundError") | _ => false end.
Definition isAlreadyExists (e : err) : bool :=
  match e with Some (typedError t _ _) => bool_decide (t = "writer.alreadyExistError") | _ => false end.

(** ** Ensuring a certificate *)

(** [type certReadWriter interface]. *)
Record certReadWriter (W : Type) := mkCertReadWriter {
  read : M W (option Artifacts * err);
  write : M W (option Artifacts * err);
  overwrite : M W (option Artifacts * err);
}.

(** [createIfNotExists]. *)
Definition createIfNotExists {W} (ch : certReadWriter W) : M W (option Artifacts * bool * err) :=
  '(certs, e) ← read W ch;
  if isNotFound e then
    '(certs, e) ← write W ch;
    if isAlreadyExists e then
      '(certs, e) ← read W ch;
      mret (certs, true, e)
    else mret (certs, true, e)
  else mret (certs, false, e).

(** [handleCommon]. *)
Definition handleCommon {W} (now : Z) (dnsName : string) (ch : option (certReadWriter W))
  : M W (option Artifacts * bool * err) :=
  if bool_decide (String.length dnsName = 0) then
    mret (None, false, Some (errors_New "dnsName should not be empty"))
  else match ch with
  | None => mret (None, false, Some (errors_New "certReaderWriter should not be nil"))
  | Some ch =>
    '(certs, changed, e) ← createIfNotExists ch;
    match e with
    | Some _ => mret (None, changed, e)
    | None =>
      if negb (validCert now certs dnsName) then
        '(certs, e) ← overwrite W ch;
        match e with
        | Some _ => mret (None, false, e)
        | None => mret (certs, true, None)
        end
      else mret (certs, changed, None)
    end
  end.

(** ** Certificates in a secret *)

Definition CAKeyName : string := "ca-key.pem".
Definition CACertName : string := "ca-cert.pem".
Definition ServerKeyName : string := "key.pem".
Definition ServerCertName : string := "cert.pem".

(** [corev1.Secret] as the code uses it: its key and its data, nil or a map. *)
Record Secret := mkSecret { sec_Key : NamespacedName; sec_Data : option (gmap string string) }.

(** The client methods the writer calls on secrets: [Get] fills an empty secret
    and leaves it empty on an error. *)
Record SecretClient (W : Type) := mkSecretClient {
  secGet : NamespacedName -> Secret -> M W (Secret * err);
  secCreate : Secret -> M W err;
  secUpdate : Secret -> M W err;
}.
Arguments mkSecretClient {W}. Arguments secGet {W}. Arguments secCreate {W}. Arguments secUpdate {W}.

(** [secretToCerts]; a missing key reads as nil. *)
Definition secretToCerts (secret : Secret) : option Artifacts :=
  match sec_Data secret with
  | None => None
  | Some d =>
    let get k := default "" (d !! k) in
    Some (mkArtifacts (get ServerKeyName) (get ServerCertName) (get CAKeyName) (get CACertName))
  end.

(** [certsToSecret]. *)
Definition certsToSecret (certs : Artifacts) (sec : NamespacedName) : Secret :=
  mkSecret sec (Some (<[ServerCertName := art_Cert certs]> (<[ServerKeyName := art_Key certs]>
    (<[CACertName := art_CACert certs]> (<[CAKeyName := art_CAKey certs]> ∅))))).

(** [type SecretCertWriterOptions struct] after [setDefaults]; the pointers may
    be nil. *)
Record SecretCertWriterOptions (W : Type) := mkSecretCertWriterOptions {
  opt_Client : option (SecretClient W);
  opt_CertGenerator : option (CertGenerator W);
  opt_Secret : option NamespacedName;
}.

(** [setDefaults]: [selfSigned] is [&generator.SelfSignedCertGenerator{}]. *)
Definition setDefaults {W} (selfSigned : CertGenerator W) (ops : SecretCertWriterOptions W)
  : SecretCertWriterOptions W :=
  match opt_CertGenerator W ops with
  | None => mkSecretCertWriterOptions W (opt_Client W ops) (Some selfSigned) (opt_Secret W ops)
  | Some _ => ops
  end.

(** [validate]. *)
Definition validate {W} (ops : SecretCertWriterOptions W) : err :=
  match opt_Client W ops with
  | None => Some (errors_New "client must be set in SecretCertWriterOptions")
  | Some _ =>
    match opt_Secret W ops with
    | None => Some (errors_New "secret must be set in SecretCertWriterOptions")
    | Some _ => None
    end
  end.

(** A validated [secretCertWriter]; the DNS name is the argument of its methods. *)
Record secretCertWriter (W : Type) := mkSecretCertWriter {
  scw_Client : SecretClient W;
  scw_CertGenerator : CertGenerator W;
  scw_Secret : NamespacedName;
}.
Arguments mkSecretCertWriter {W}. Arguments scw_Client {W}. Arguments scw_CertGenerator {W}.
Arguments scw_Secret {W}.

(** [NewSecretCertWriter]. *)
Definition NewSecretCertWriter {W} (selfSigned : CertGenerator W) (ops : SecretCertWriterOptions W)
  : error + secretCertWriter W :=
  let ops := setDefaults selfSigned ops in
  match validate ops with
  | Some e => inl e
  | None =>
    match opt_Client W ops, opt_CertGenerator W ops, opt_Secret W ops with
    | Some c, Some g, Some s => inr (mkSecretCertWriter c g s)
    | _, _, _ => inl (errors_New "unreachable")
    end
  end.

(** [buildSecret]. *)
Definition buildSecret {W} (s : secretCertWriter W) (dnsName : string) : M W (error + Secret * Artifacts) :=
  r ← Generate (scw_CertGenerator s) dnsName;
  match r with
  | inl e => mret (inl e)
  | inr certs => mret (inr (certsToSecret certs (scw_Secret s), certs))
  end.

(** [secretCertWriter.write]. *)
Definition scw_write {W} (s : secretCertWriter W) (dnsName : string) : M W (option Artifacts * err) :=
  r ← buildSecret s dnsName;
  match r with
  | inl e => mret (None, Some e)
  | inr (secret, certs) =>
    e ← secCreate (scw_Client s) secret;
    match e with
    | Some x => if IsAlreadyExists x then mret (None, Some (alreadyExistError x)) else mret (Some certs, e)
    | None => mret (Some certs, None)
    end
  end.

(** [secretCertWriter.overwrite]. *)
Definition scw_overwrite {W} (s : secretCertWriter W) (dnsName : string) : M W (option Artifacts * err) :=
  r ← buildSecret s dnsName;
  match r with
  | inl e => mret (None, Some e)
  | inr (secret, certs) =>
    e ← secUpdate (scw_Client s) secret;
    mret (Some certs, e)
  end.

(** The end of [read]: the CA is stored for the next generation. *)
Definition storeCA {W} (s : secretCertWriter W) (certs : option Artifacts) : M W (option Artifacts * err) :=
  match certs with
  | Some c => _ ← SetCA (scw_CertGenerator s) (art_CAKey c) (art_CACert c); mret (certs, None)
  | None => mret (certs, None)
  end.

(** [secretCertWriter.read]: an error other than NotFound is not returned. *)
Definition scw_read {W} (s : secretCertWriter W) : M W (option Artifacts * err) :=
  '(secret, e) ← secGet (scw_Client s) (scw_Secret s) (mkSecret (mkNN "" "") None);
  match e with
  | Some x =>
    if IsNotFound x then mret (None, Some (notFoundError x))
    else storeCA s (secretToCerts secret)
  | None => storeCA s (secretToCerts secret)
  end.

(** [secretCertWriter.EnsureCert]. *)
Definition scw_EnsureCert {W} (now : Z) (s : secretCertWriter W) (dnsName : string)
  : M W (option Artifacts * bool * err) :=
  handleCommon now dnsName
    (Some (mkCertReadWriter W (scw_read s) (scw_write s dnsName) (scw_overwrite s dnsName))).
End writer.
Arguments mkSecretClient {W}. Arguments secGet {W}. Arguments secCreate {W}. Arguments secUpdate {W}.
Arguments mkSecretCertWriter {W}. Arguments scw_Client {W}. Arguments scw_CertGenerator {W}.
Arguments scw_Secret {W}. Arguments mkSecretCertWriterOptions {W}.
Arguments validCert : simpl never.

(** ** Properties of the writer *)

Section writer_claims.
Context `{CryptoLib} `{ErrorLib} {W : Type}.

Lemma createIfNotExists_unchanged (ch : certReadWriter W) w w' certs :
  createIfNotExists ch w = (w', (certs, false, None)) -> read W ch w = (w', (certs, None)).
Proof.
  unfold createIfNotExists, mbind, M_bind. destruct (read W ch w) as [w1 [c [e|]]]; cbn.
  - repeat case_match; unfold mret, M_ret; intros; simplify_eq.
  - by intros [= <- <-].
Qed.

(** When [handleCommon] returns without an error, the certificate is valid
    for the DNS name for the next six months, or it has just been overwritten; and
    when it reports no change, it has only read the certificate it returns, and
    that certificate is valid. *)
Theorem handleCommon_valid now dnsName (ch : certReadWriter W) w w' certs changed :
  handleCommon now dnsName (Some ch) w = (w', (certs, changed, None)) ->
  (validCert now certs dnsName = true \/ changed = true /\ exists w1, overwrite W ch w1 = (w', (certs, None))) /\
  (changed = false -> read W ch w = (w', (certs, None)) /\ validCert now certs dnsName = true).
Proof.
  unfold handleCommon, mbind, M_bind. case_bool_decide; [done|].
  destruct (createIfNotExists ch w) as [w1 [[c ch0] [e|]]] eqn:Hc; [done|].
  destruct (validCert now c dnsName) eqn:Hv; cbn.
  - unfold mret, M_ret. intros [= <- <- <-]. split; [by left|]. intros ->.
    split; [by apply createIfNotExists_unchanged|done].
  - destruct (overwrite W ch w1) as [w2 [c2 [e|]]] eqn:Ho; [done|]. unfold mret, M_ret.
    intros [= <- <- <-]. split; [|done]. right. eauto.
Qed.

(** A secret keeps the certificate that is put into it. *)
Lemma secret_roundtrip c k : secretToCerts (certsToSecret c k) = Some c.
Proof.
  destruct c. unfold secretToCerts, certsToSecret. cbn.
  rewrite !lookup_insert_ne, !lookup_insert_eq by done. done.
Qed.

(** A working cluster: [view] is the data of the secret, present or not, and calls on
    it succeed.  The generator leaves the cluster alone; whether it succeeds and
    whether its certificates are valid is left open.  The error type
    [alreadyExistError] is private to the package of the writer, so it is not the
    generator's. *)
Record working (dnsName : string) (s : secretCertWriter W) (view : W -> option (gmap string string)) : Prop := {
  get_present : forall w d e, view w = Some d ->
    secGet (scw_Client s) (scw_Secret s) e w = (w, (mkSecret (scw_Secret s) (Some d), None));
  get_absent : forall w e, view w = None ->
    exists x, secGet (scw_Client s) (scw_Secret s) e w = (w, (e, Some x)) /\ IsNotFound x = true;
  create_ok : forall w c, view w = None -> let k := scw_Secret s in
    exists w', secCreate (scw_Client s) (certsToSecret c k) w = (w', None) /\ view w' = sec_Data (certsToSecret c k);
  update_ok : forall w c, is_Some (view w) -> let k := scw_Secret s in
    exists w', secUpdate (scw_Client s) (certsToSecret c k) w = (w', None) /\ view w' = sec_Data (certsToSecret c k);
  generate_view : forall w, view (fst (Generate (scw_CertGenerator s) dnsName w)) = view w;
  generate_err : forall w w' e, Generate (scw_CertGenerator s) dnsName w = (w', inl e) -> isAlreadyExists (Some e) = false;
  setCA_ok : forall k c w, view (fst (SetCA (scw_CertGenerator s) k c w)) = view w;
}.

(** The certificate in the data of a secret. *)
Definition holds (data : option (gmap string string)) (c : Artifacts) : Prop :=
  exists d, data = Some d /\ secretToCerts (mkSecret (mkNN "" "") (Some d)) = Some c.

Lemma holds_stored c k : holds (sec_Data (certsToSecret c k)) c.
Proof. eexists. split; [reflexivity|]. exact (secret_roundtrip c k). Qed.

Lemma holds_some d : exists c, holds (Some d) c.
Proof. eexists _, d. split; reflexivity. Qed.

Section working.
Context (now : Z) (dnsName : string) (s : secretCertWriter W) (view : W -> option (gmap string string)).
Context (Hw : working dnsName s view).

Lemma read_present w c : holds (view w) c -> exists w', scw_read s w = (w', (Some c, None)) /\ view w' = view w.
Proof.
  intros (d & Hv & Hc). unfold scw_read, mbind, M_bind. rewrite (get_present _ _ _ Hw _ _ _ Hv).
  change (secretToCerts (mkSecret (scw_Secret s) (Some d))) with (secretToCerts (mkSecret (mkNN "" "") (Some d))).
  rewrite Hc. unfold storeCA, mbind, M_bind.
  pose proof (setCA_ok _ _ _ Hw (art_CAKey c) (art_CACert c) w) as Hs.
  destruct (SetCA _ _ _ w) as [w' []]. by exists w'.
Qed.

Lemma read_absent w : view w = None ->
  exists x, scw_read s w = (w, (None, Some (notFoundError x))).
Proof.
  intros Hv. unfold scw_read, mbind, M_bind.
  destruct (get_absent _ _ _ Hw w (mkSecret (mkNN "" "") None) Hv) as (x & -> & Hx).
  exists x. by rewrite Hx.
Qed.

(** The generator has made [c], or failed with [x], in the course of a run. *)
Definition generated (c : Artifacts) : Prop := exists w w', Generate (scw_CertGenerator s) dnsName w = (w', inr c).
Definition generate_failed (x : error) : Prop := exists w w', Generate (scw_CertGenerator s) dnsName w = (w', inl x).

(** Generating a certificate and storing it. *)
Definition stores (m : M W (option Artifacts * err)) (w : W) : Prop :=
  (exists w' c, m w = (w', (Some c, None)) /\ holds (view w') c /\ generated c) \/
  (exists w' x, m w = (w', (None, Some x)) /\ view w' = view w /\ generate_failed x /\ isAlreadyExists (Some x) = false).

Lemma write_absent w : view w = None -> stores (scw_write s dnsName) w.
Proof.
  intros Hv. unfold stores, scw_write, buildSecret, mbind, M_bind.
  pose proof (generate_view _ _ _ Hw w) as Hg. pose proof (generate_err _ _ _ Hw w) as He.
  destruct (Generate (scw_CertGenerator s) dnsName w) as [w1 [x|c]] eqn:Hgen; cbn in Hg |- *.
  - right. exists w1, x. split_and!; [done|done|by eexists _, _|by eapply He].
  - left. destruct (create_ok _ _ _ Hw w1 c) as (w2 & -> & Hv2); [congruence|]. exists w2, c.
    split; [done|]. split; [rewrite Hv2; apply holds_stored|by eexists _, _].
Qed.

Lemma overwrite_present w : is_Some (view w) -> stores (scw_overwrite s dnsName) w.
Proof.
  intros Hv. unfold stores, scw_overwrite, buildSecret, mbind, M_bind.
  pose proof (generate_view _ _ _ Hw w) as Hg. pose proof (generate_err _ _ _ Hw w) as He.
  destruct (Generate (scw_CertGenerator s) dnsName w) as [w1 [x|c]] eqn:Hgen; cbn in Hg |- *.
  - right. exists w1, x. split_and!; [done|done|by eexists _, _|by eapply He].
  - left. destruct (update_ok _ _ _ Hw w1 c) as (w2 & -> & Hv2); [congruence|]. exists w2, c.
    split; [done|]. split; [rewrite Hv2; apply holds_stored|by eexists _, _].
Qed.

(** A valid stored certificate is returned as it is. *)
Lemma EnsureCert_stored w c : dnsName <> "" -> holds (view w) c -> validCert now (Some c) dnsName = true ->
  exists w', scw_EnsureCert now s dnsName w = (w', (Some c, false, None)) /\ view w' = view w.
Proof.
  intros Hd Hv Hc. unfold scw_EnsureCert, handleCommon, createIfNotExists, mbind, M_bind.
  rewrite bool_decide_false by (by destruct dnsName). cbn.
  destruct (read_present w c Hv) as (w1 & -> & Hv1). cbn. unfold mret, M_ret. rewrite Hc. by exists w1.
Qed.

(** What became of a call of EnsureCert: an error of the generator, or a certificate
    that is in the secret, which was there before and is valid when nothing was
    changed, and was generated otherwise. *)
Definition ensured (w w' : W) (certs : option Artifacts) (changed : bool) (e : err) : Prop :=
  match e with
  | Some x => certs = None /\ generate_failed x
  | None => exists c, certs = Some c /\ holds (view w') c /\
      if changed then generated c else holds (view w) c /\ view w' = view w /\ validCert now (Some c) dnsName = true
  end.

(** The second half of [handleCommon]: what is stored is invalid, so it is replaced. *)
Lemma replace_stored w w1 : is_Some (view w1) -> exists w' certs ch e,
  (let '(w2, (c, e)) := scw_overwrite s dnsName w1 in
    match e with Some x => (w2, (None, false, Some x)) | None => (w2, (c, true, None)) end) = (w', (certs, ch, e)) /\ ensured w w' certs ch e.
Proof.
  intros Hs. destruct (overwrite_present w1 Hs) as [(w2 & c & -> & Hh & Hg)|(w2 & x & -> & _ & Hg & _)].
  - exists w2, (Some c), true, None. split; [done|]. by exists c.
  - by exists w2, None, false, (Some x).
Qed.

Lemma EnsureCert_any w : dnsName <> "" ->
  exists w' certs changed e, scw_EnsureCert now s dnsName w = (w', (certs, changed, e)) /\ ensured w w' certs changed e.
Proof.
  intros Hd. destruct (view w) as [d|] eqn:Hv.
  - destruct (holds_some d) as [c Hc]. rewrite <- Hv in Hc. destruct (validCert now (Some c) dnsName) eqn:Hval.
    { destruct (EnsureCert_stored w c Hd Hc Hval) as (w' & He & Hv'). exists w', (Some c), false, None.
      split; [done|]. exists c. by rewrite Hv'. }
    unfold scw_EnsureCert, handleCommon, createIfNotExists, mbind, M_bind.
    rewrite bool_decide_false by (by destruct dnsName). cbn [read write overwrite].
    destruct (read_present w c Hc) as (w1 & -> & Hv1). cbn -[scw_overwrite]. unfold mret, M_ret. rewrite Hval. cbn -[scw_overwrite].
    destruct (replace_stored w w1) as (w' & certs & ch & e & He & Hen); [rewrite Hv1, Hv; by eexists|].
    exists w', certs, ch, e. split; [|done]. rewrite <- He. by destruct (scw_overwrite s dnsName w1) as [? [? []]].
  - unfold scw_EnsureCert, handleCommon, createIfNotExists, mbind, M_bind.
    rewrite bool_decide_false by (by destruct dnsName). cbn [read write overwrite].
    destruct (read_absent w Hv) as (x & ->). change (isNotFound (Some (notFoundError x))) with true. cbn -[scw_write].
    destruct (write_absent w Hv) as [(w1 & c & -> & Hh & Hg)|(w1 & y & -> & _ & Hg & Hy)]; cbn -[scw_overwrite isAlreadyExists]; unfold mret, M_ret.
    + cbn -[scw_overwrite]. destruct (validCert now (Some c) dnsName) eqn:Hval; cbn -[scw_overwrite].
      { exists w1, (Some c), true, None. split; [done|]. by exists c. }
      destruct (replace_stored w w1) as (w' & certs & ch & e & He & Hen); [destruct Hh as (d & -> & _); by eexists|].
      exists w', certs, ch, e. split; [|done]. rewrite <- He. by destruct (scw_overwrite s dnsName w1) as [? [? []]].
    + rewrite Hy. by exists w1, None, true, (Some y).
Qed.
End working.

(** C22: on a cluster that answers all calls on the secret, with a generator that does
    not touch the secret nor reports that something exists already, ensuring a
    certificate for a name that is not empty fails only with an error of the
    generator.  Otherwise the certificate it returns is
    the one the secret holds afterwards.  When it reports no change the certificate
    was there before and is valid, and the secret is untouched; when it reports a
    change the generator has made it.  If that certificate is valid, ensuring it
    again at the same time returns the same certificate, reports no change and leaves
    the secret alone.  Nothing is assumed of the certificates of the generator. *)
Theorem EnsureCert_idempotent now dnsName (s : secretCertWriter W) view w :
  working dnsName s view -> dnsName <> "" ->
  exists w1 certs changed e, scw_EnsureCert now s dnsName w = (w1, (certs, changed, e)) /\
    match e with
    | Some x => certs = None /\ generate_failed dnsName s x
    | None => exists c, certs = Some c /\ holds (view w1) c /\
        (if changed then generated dnsName s c else holds (view w) c /\ view w1 = view w /\ validCert now (Some c) dnsName = true) /\
        (validCert now (Some c) dnsName = true ->
          exists w2, scw_EnsureCert now s dnsName w1 = (w2, (Some c, false, None)) /\ view w2 = view w1)
    end.
Proof.
  intros Hw Hd. destruct (EnsureCert_any now dnsName s view Hw w Hd) as (w1 & certs & ch & [x|] & He & Hen);
    exists w1, certs, ch; [by exists (Some x)|].
  exists None. split; [done|]. destruct Hen as (c & -> & Hh & Hc). exists c. split_and!; [done|done|done|].
  intros Hval. by apply (EnsureCert_stored now dnsName s view Hw w1 c Hd Hh Hval).
Qed.
End writer_claims.

(** ** Witnesses *)

(** The world is the data of the secret; a certificate is the name it is for. *)
Module CertDemo.
#[export] Instance crypto : CryptoLib := {|
  Certificate := string;
  X509KeyPair := fun c k => bool_decide (c = k);
  AppendCertsFromPEM := fun ca => negb (bool_decide (ca = ""));
  pem_Decode := fun c => if bool_decide (c = "") then None else Some c;
  ParseCertificate := fun b => Some b;
  Verify := fun c dns ca t => bool_decide (c = dns);
  addMonths := fun t n => (t + n)%Z;
|}.
Definition NotFound : error := extError "NotFound" "" [].
Definition store : SecretClient (option (gmap string string)) :=
  mkSecretClient
    (fun k e w => match w with Some d => (w, (mkSecret k (Some d), None)) | None => (w, (e, Some NotFound)) end)
    (fun s w => (sec_Data s, None)) (fun s w => (sec_Data s, None)).
Definition gen : CertGenerator (option (gmap string string)) :=
  mkCertGenerator (fun dns w => (w, inr (mkArtifacts dns dns "ca-key" "CA"))) (fun _ _ w => (w, tt)).
Definition key : NamespacedName := mkNN "ns" "webhook-cert".
Definition dns : string := "svc.ns.svc".
Definition writer : secretCertWriter (option (gmap string string)) := mkSecretCertWriter store gen key.
Definition old : Artifacts := mkArtifacts "other" "other" "ca-key" "CA".
Lemma writer_working : @working RefErrors.lib _ dns writer (fun w => w).
Proof.
  split; cbn; try done.
  - by intros w d e ->.
  - intros w e ->. by exists NotFound.
  - intros w c _. by eexists.
  - intros w c _. by eexists.
Qed.
End CertDemo.

Import RefErrors CertDemo.

(** A certificate for another name is overwritten. *)
Lemma handleCommon_valid_witness :
  exists certs, validCert 0 (Some certs) dns = true \/ true = true /\
    exists w1, scw_overwrite writer dns w1 = (sec_Data (certsToSecret certs key), (Some certs, None)).
Proof.
  exists (mkArtifacts dns dns "ca-key" "CA").
  exact (proj1 (handleCommon_valid 0 dns
    (mkCertReadWriter _ (scw_read writer) (scw_write writer dns) (scw_overwrite writer dns))
    (sec_Data (certsToSecret old key)) _ (Some (mkArtifacts dns dns "ca-key" "CA")) true eq_refl)).
Defined.

(** A new certificate is made, stored, and found the second time. *)
Lemma EnsureCert_idempotent_witness :
  exists w1 c w2, scw_EnsureCert 0 writer dns None = (w1, (Some c, true, None)) /\ holds w1 c /\
    scw_EnsureCert 0 writer dns w1 = (w2, (Some c, false, None)) /\ w2 = w1.
Proof.
  destruct (EnsureCert_idempotent 0 dns writer (fun w => w) None writer_working) as (w1 & certs & ch & e & He & Hc); [vm_compute; discriminate|].
  assert (scw_EnsureCert 0 writer dns None =
    (sec_Data (certsToSecret (mkArtifacts dns dns "ca-key" "CA") key), (Some (mkArtifacts dns dns "ca-key" "CA"), true, None))) as Hrun by reflexivity.
  rewrite Hrun in He. injection He as <- <- <- <-. destruct Hc as (c & [= <-] & Hh & _ & Hagain).
  destruct (Hagain eq_refl) as (w2 & Hrun2 & Hw2). eexists _, _, w2. split; [exact Hrun|]. split; [exact Hh|]. split; [exact Hrun2|exact Hw2].
Defined.
