(* ===== verification/CertManager.v ===== *)
(** The certificate provisioner and manager: [internal/webhook/cert/provisioner.go]
    and [webhook/cert/manager.go].

    A run of the manager compares the CA bundles of the webhook configurations,
    ensures the certificate, injects its CA into all configurations, updates them
    and writes the certificate to disk when it changed or is missing there; the
    loop of the manager repeats it at every tick. *)
From S2P Require Import Prelude Cert.

(** ** Provisioner *)

(** [WebhookClientConfig]: a service (namespace and name) or a URL, and a CA
    bundle; nil and empty byte slices are the empty string. *)
Record ClientConfig := mkClientConfig {
  cc_Service : option (string * string); cc_URL : option string; cc_CABundle : string
}.

(** A webhook of a configuration: its CA bundle and the rest. *)
Record Webhook := mkWebhook { wh_Rest : string; wh_CABundle : string }.

(** The objects the code handles.  For a CRD the options are the pointers
    [Spec.Conversion], [Webhook] and [ClientConfig], any of which may be nil. *)
Inductive WhObject :=
| MutatingWebhookConfiguration (key : NamespacedName) (webhooks : list Webhook)
| ValidatingWebhookConfiguration (key : NamespacedName) (webhooks : list Webhook)
| CustomResourceDefinition (key : NamespacedName) (conversion : option (option (option string)))
| OtherObject (gvk : string).

(** [writer.CertWriter]. *)
Record CertWriter (W : Type) := mkCertWriter {
  EnsureCert : string -> M W (option Artifacts * bool * err);
  Inject : list WhObject -> M W err;
}.
Arguments mkCertWriter {W}. Arguments EnsureCert {W}. Arguments Inject {W}.

(** [url.Parse] (the host of the URL), [net.SplitHostPort], and the URL
    [https://host:port]. *)
Class NetLib := {
  url_Host : string -> error + string;
  SplitHostPort : string -> error + string * string;
  httpsURL : string -> Z -> string;
}.

(** [bytes.Contains]. *)
Definition bytes_Contains (b sub : string) : bool :=
  match String.index 0 sub b with Some _ => true | None => false end.

(** [generator.ServiceToCommonName]. *)
Definition ServiceToCommonName (serviceNamespace serviceName : string) : string :=
  serviceName +:+ "." +:+ serviceNamespace +:+ ".svc".

Section provisioner.
Context `{NetLib} {W : Type}.

(** [dnsNameFromClientConfig]. *)
Definition dnsNameFromClientConfig (config : option ClientConfig) : error + string :=
  match config with
  | None => inl (errors_New "clientConfig should not be empty")
  | Some c =>
    match cc_Service c, cc_URL c with
    | Some _, Some _ => inl (errors_New "service and URL can't be set at the same time in a webhook: %v")
    | None, None => inl (errors_New "one of service and URL need to be set in a webhook: %v")
    | Some (ns, n), None => inr (ServiceToCommonName ns n)
    | None, Some u =>
      match url_Host u with
      | inl e => inl e
      | inr h => match SplitHostPort h with inl _ => inr h | inr (host, _) => inr host end
      end
    end
  end.

(** [injectForMutatingWebhook] and [injectForValidatingWebhook]. *)
Definition injectWebhooks (ca : string) (webhooks : list Webhook) : list Webhook :=
  (fun wh => mkWebhook (wh_Rest wh) ca) <$> webhooks.

(** [injectForCRD]: a nil pointer on the way to the client config panics. *)
Definition injectForCRD (ca : string) (conv : option (option (option string)))
  : option (option (option (option string))) :=
  match conv with Some (Some (Some _)) => Some (Some (Some (Some ca))) | _ => None end.

(** The loop of [inject]: the objects as it leaves them, and its error. *)
Fixpoint inject_loop (ca : string) (objs : list WhObject) : outcome (list WhObject * err) :=
  match objs with
  | [] => Done ([], None)
  | obj :: objs =>
    let next obj' :=
      match inject_loop ca objs with
      | Done (objs', e) => Done (obj' :: objs', e)
      | Panic m => Panic m
      | OutOfFuel => OutOfFuel
      end in
    match obj with
    | MutatingWebhookConfiguration k whs => next (MutatingWebhookConfiguration k (injectWebhooks ca whs))
    | ValidatingWebhookConfiguration k whs => next (ValidatingWebhookConfiguration k (injectWebhooks ca whs))
    | CustomResourceDefinition k conv =>
      match injectForCRD ca conv with
      | Some conv => next (CustomResourceDefinition k conv)
      | None => Panic "nil pointer dereference"
      end
    | OtherObject gvk =>
      Done (obj :: objs, Some (errorf "%#v is not supported for injecting a webhookClientConfig" [gvk] [] None))
    end
  end.

(** [Provisioner.inject]. *)
Definition inject (cw : CertWriter W) (cc : option ClientConfig) (objs : list WhObject) (w : W)
  : outcome (W * (list WhObject * err)) :=
  match cc with
  | None => Done (w, (objs, None))
  | Some cc =>
    match inject_loop (cc_CABundle cc) objs with
    | Done (objs, Some e) => Done (w, (objs, Some e))
    | Done (objs, None) => let '(w, e) := Inject cw objs w in Done (w, (objs, e))
    | Panic m => Panic m
    | OutOfFuel => OutOfFuel
    end
  end.

(** [Provisioner.Provision]: the objects, whether anything changed, the error. *)
Definition Provision (cw : option (CertWriter W)) (cc : option ClientConfig) (objs : list WhObject) (w : W)
  : outcome (W * (list WhObject * bool * err)) :=
  match cw with
  | None => Done (w, (objs, false, Some (errors_New "CertWriter need to be set")))
  | Some cw =>
    match dnsNameFromClientConfig cc with
    | inl e => Done (w, (objs, false, Some e))
    | inr dnsName =>
      let '(w, (certs, changed, e)) := EnsureCert cw dnsName w in
      match e, certs, cc with
      | Some _, _, _ => Done (w, (objs, false, e))
      | None, Some certs, Some cc =>
        let caBundle := cc_CABundle cc in
        let caCert := art_CACert certs in
        let '(caBundle, changed) :=
          if negb (bytes_Contains caBundle caCert) then (caBundle +:+ caCert, true) else (caBundle, changed) in
        match inject cw (Some (mkClientConfig (cc_Service cc) (cc_URL cc) caBundle)) objs w with
        | Done (w, (objs, e)) => Done (w, (objs, changed, e))
        | Panic m => Panic m
        | OutOfFuel => OutOfFuel
        end
      | None, _, _ => Panic "nil pointer dereference"
      end
    end
  end.
End provisioner.

(** ** Manager *)

Definition defaultCertRefreshInterval : Z := 30 * minute.
Definition defaultCertName : string := "tls.crt".
Definition defaultKeyName : string := "tls.key".

(** The client methods the manager calls; [secrets] are those on secrets. *)
Record ManagerClient (W : Type) := mkManagerClient {
  getMutating : NamespacedName -> M W (error + list Webhook);
  getValidating : NamespacedName -> M W (error + list Webhook);
  getCRD : NamespacedName -> M W (error + option (option (option string)));
  secrets : SecretClient W;
  update : WhObject -> M W err;
}.
Arguments mkManagerClient {W}. Arguments getMutating {W}. Arguments getValidating {W}. Arguments getCRD {W}.
Arguments secrets {W}. Arguments update {W}.

(** The file system: [os.Stat], [os.MkdirAll], [ioutil.WriteFile], [filepath.Join]
    and the default directory under [os.TempDir]; [DefaultPort] is
    controller-runtime's [webhook.DefaultPort]. *)
Record HostOS (W : Type) := mkHostOS {
  Stat : string -> M W err;
  MkdirAll : string -> M W err;
  WriteFile : string -> string -> M W err;
  Join : string -> string -> string;
  defaultCertDir : string;
  DefaultPort : Z;
}.
Arguments mkHostOS {W}. Arguments Stat {W}. Arguments MkdirAll {W}. Arguments WriteFile {W}.
Arguments Join {W}. Arguments defaultCertDir {W}. Arguments DefaultPort {W}.

Section manager.
Context `{NetLib} `{ErrorLib} `{CryptoLib} {W : Type} (host : HostOS W).

(** [type Options struct]. *)
Record Options := mkOptions {
  CertRefreshInterval : Z;
  Service : option (string * string);
  Host : option string;
  Port : Z;
  MutatingWebhookConfigRefs : list NamespacedName;
  ValidatingWebhookConfigRefs : list NamespacedName;
  CRDRefs : list NamespacedName;
  mgr_Client : ManagerClient W;
  mgr_CertWriter : option (CertWriter W);
  SecretRef : option NamespacedName;
  CertDir : string;
  CertName : string;
  KeyName : string;
  CertValidity : Z;
}.

(** [setDefault]. *)
Definition setDefault (o : Options) : Options :=
  let orElse s d := if bool_decide (String.length s = 0) then d else s in
  mkOptions
    (if (CertRefreshInterval o =? 0)%Z then defaultCertRefreshInterval else CertRefreshInterval o)
    (Service o) (Host o) (if (Port o <=? 0)%Z then DefaultPort host else Port o)
    (MutatingWebhookConfigRefs o) (ValidatingWebhookConfigRefs o) (CRDRefs o) (mgr_Client o) (mgr_CertWriter o)
    (SecretRef o) (orElse (CertDir o) (defaultCertDir host)) (orElse (CertName o) defaultCertName)
    (orElse (KeyName o) defaultKeyName) (CertValidity o).

(** The [CertWriter] interface of a [secretCertWriter]; [clock] reads the time
    at which a certificate is validated, [Inject] does nothing. *)
Definition secretWriter (clock : W -> Z) (s : secretCertWriter W) : CertWriter W :=
  mkCertWriter (fun dnsName w => scw_EnsureCert (clock w) s dnsName w) (fun _ => mret None).

(** [newManager]: defaults, and a secret writer when no writer is given;
    [selfSigned] is the self-signed generator with the given validity. *)
Definition newManager (clock : W -> Z) (selfSigned : Z -> CertGenerator W) (ops : Options) : error + Options :=
  let ops := setDefault ops in
  match mgr_CertWriter ops with
  | Some _ => inr ops
  | None =>
    let secretCWOpts := mkSecretCertWriterOptions (Some (secrets (mgr_Client ops)))
      (Some (selfSigned (CertValidity ops))) (SecretRef ops) in
    match NewSecretCertWriter (selfSigned 0%Z) secretCWOpts with
    | inl e => inl e
    | inr cw => inr (mkOptions (CertRefreshInterval ops) (Service ops) (Host ops) (Port ops)
        (MutatingWebhookConfigRefs ops) (ValidatingWebhookConfigRefs ops) (CRDRefs ops) (mgr_Client ops)
        (Some (secretWriter clock cw)) (SecretRef ops) (CertDir ops) (CertName ops) (KeyName ops)
        (CertValidity ops))
    end
  end.

(** [certExists]: both files can be found. *)
Definition certExists (m : Options) : M W bool :=
  e ← Stat host (Join host (CertDir m) (CertName m));
  match e with
  | Some _ => mret false
  | None =>
    e ← Stat host (Join host (CertDir m) (KeyName m));
    match e with Some _ => mret false | None => mret true end
  end.

(** [compareCABundles]: the common bundle, and whether the bundles differ. *)
Definition compareCABundles (commonCABundle caBundle : string) : string * bool :=
  let commonCABundle := if bool_decide (String.length commonCABundle = 0) then caBundle else commonCABundle in
  if bool_decide (commonCABundle = caBundle) then (commonCABundle, false) else ("", true).

(** The loop over the webhooks of a configuration. *)
Fixpoint compareWebhooks (whs : list Webhook) (caBundle : string) (different : bool) : string * bool :=
  match whs with
  | [] => (caBundle, different)
  | wh :: whs =>
    if different then (caBundle, different)
    else let '(caBundle, different) := compareCABundles caBundle (wh_CABundle wh) in
         compareWebhooks whs caBundle different
  end.

(** The loops of [refreshCert] over the references of one kind; [acc] is the
    configurations read so far, the common bundle and whether bundles differ. *)
Local Abbreviation Acc := (list WhObject * string * bool)%type.
Fixpoint collectWebhooks (get : NamespacedName -> M W (error + list Webhook))
  (mk : NamespacedName -> list Webhook -> WhObject) (refs : list NamespacedName) (acc : Acc) : M W (error + Acc) :=
  match refs with
  | [] => mret (inr acc)
  | nn :: refs =>
    r ← get nn;
    match r with
    | inl e => mret (inl e)
    | inr whs =>
      let '(configs, caBundle, different) := acc in
      let '(caBundle, different) := compareWebhooks whs caBundle different in
      collectWebhooks get mk refs (configs ++ [mk nn whs], caBundle, different)
    end
  end.

(** The loop over the CRDs: the result of the comparison is not remembered. *)
Fixpoint collectCRDs (cl : ManagerClient W) (refs : list NamespacedName) (acc : Acc) : M W (error + Acc) :=
  match refs with
  | [] => mret (inr acc)
  | nn :: refs =>
    r ← getCRD cl nn;
    match r with
    | inl e => mret (inl e)
    | inr (Some (Some (Some bundle)) as conv) =>
      let '(configs, caBundle, different) := acc in
      let '(caBundle, _) := compareCABundles caBundle bundle in
      collectCRDs cl refs (configs ++ [CustomResourceDefinition nn conv], caBundle, different)
    | inr _ => mret (inl (errorf "CRD %s with misconfigured Spec.Conversion.Webhook.ClientConfig"
                            [NNNamespace nn +:+ "/" +:+ NNName nn] [] None))
    end
  end.

(** [batchUpdate]. *)
Fixpoint batchUpdate (cl : ManagerClient W) (objs : list WhObject) : M W err :=
  match objs with
  | [] => mret None
  | obj :: objs =>
    e ← update cl obj;
    match e with Some _ => mret e | None => batchUpdate cl objs end
  end.

(** [getClientConfig]. *)
Definition getClientConfig (m : Options) : error + ClientConfig :=
  match Host m, Service m with
  | Some _, Some _ => inl (errors_New "URL and Service can't be set at the same time")
  | h, s => inr (mkClientConfig s ((fun h => httpsURL h (Port m)) <$> h) "")
  end.

(** The first part of [refreshCert]: all configurations and their common bundle. *)
Definition collectConfigs (m : Options) : M W (error + Acc) :=
  r ← collectWebhooks (getMutating (mgr_Client m)) MutatingWebhookConfiguration (MutatingWebhookConfigRefs m)
        ([], "", false);
  match r with
  | inl e => mret (inl e)
  | inr acc =>
    r ← collectWebhooks (getValidating (mgr_Client m)) ValidatingWebhookConfiguration
          (ValidatingWebhookConfigRefs m) acc;
    match r with
    | inl e => mret (inl e)
    | inr acc => collectCRDs (mgr_Client m) (CRDRefs m) acc
    end
  end.

(** [refreshCert]. *)
Definition refreshCert (m : Options) (w : W) : outcome (W * (bool * err)) :=
  match getClientConfig m with
  | inl e => Done (w, (false, Some e))
  | inr cc =>
    match collectConfigs m w with
    | (w, inl e) => Done (w, (false, Some e))
    | (w, inr (whConfigs, caBundle, _)) =>
      match Provision (mgr_CertWriter m) (Some (mkClientConfig (cc_Service cc) (cc_URL cc) caBundle)) whConfigs w with
      | Panic p => Panic p
      | OutOfFuel => OutOfFuel
      | Done (w, (_, _, Some e)) => Done (w, (false, Some e))
      | Done (w, (whConfigs, changed, None)) =>
        let '(w, e) := batchUpdate (mgr_Client m) whConfigs w in Done (w, (changed, e))
      end
    end
  end.

(** [writeCertOnDisk]: only a NotFound error stops it. *)
Definition writeCertOnDisk (m : Options) (w : W) : outcome (W * err) :=
  match SecretRef m with
  | None => Panic "nil pointer dereference"
  | Some ref =>
    let '(w, (secret, e)) := secGet (secrets (mgr_Client m)) ref (mkSecret (mkNN "" "") None) w in
    if match e with Some x => IsNotFound x | None => false end then Done (w, e)
    else
      let data := default ∅ (sec_Data secret) in
      let cert := default "" (data !! ServerCertName) in
      let key := default "" (data !! ServerKeyName) in
      Done ((e ← MkdirAll host (CertDir m);
        match e with
        | Some _ => mret e
        | None =>
          e ← WriteFile host (Join host (CertDir m) (CertName m)) cert;
          match e with
          | Some _ => mret e
          | None => WriteFile host (Join host (CertDir m) (KeyName m)) key
          end
        end) w)
  end.

(** [run]. *)
Definition run_manager (m : Options) (w : W) : outcome (W * err) :=
  let '(w, exists_) := certExists m w in
  let needHostCertUpdate := negb exists_ in
  match refreshCert m w with
  | Panic p => Panic p
  | OutOfFuel => OutOfFuel
  | Done (w, (_, Some e)) => Done (w, Some e)
  | Done (w, (changed, None)) =>
    if changed || needHostCertUpdate then writeCertOnDisk m w else Done (w, None)
  end.

(** [Start]: its error, and whether the refresh goroutine was started. *)
Definition Start (m : Options) (w : W) : outcome (W * (err * bool)) :=
  let '(w, exists_) := certExists m w in
  if (exists_ : bool) then Done (w, (None, false))
  else match run_manager m w with
       | Panic p => Panic p
       | OutOfFuel => OutOfFuel
       | Done (w, Some e) => Done (w, (Some e, false))
       | Done (w, None) => Done (w, (None, true))
       end.

(** The goroutine [Start] leaves behind, over a number of ticks: [waits] are the
    waits for them, during which the world goes on; an error of a run is only
    logged. *)
Fixpoint refreshLoop (m : Options) (waits : list (W -> W)) (w : W) : outcome W :=
  match waits with
  | [] => Done w
  | wait :: waits =>
    match run_manager m (wait w) with
    | Panic p => Panic p
    | OutOfFuel => OutOfFuel
    | Done (w, _) => refreshLoop m waits w
    end
  end.

(** [NewManager]; [add] is the [Add] method of the manager, if there is one. *)
Definition NewManager (clock : W -> Z) (selfSigned : Z -> CertGenerator W) (add : option (Options -> M W err)) (ops : Options) (w : W)
  : outcome (W * (err * bool)) :=
  match newManager clock selfSigned ops with
  | inl e => Done (w, (Some e, false))
  | inr certManager =>
    match add with
    | Some add => let '(w, e) := add certManager w in Done (w, (e, false))
    | None => Start certManager w
    end
  end.
Definition NeedLeaderElection (m : Options) : bool := false.
End manager.

(** ** Properties *)

Lemma substring_all s : String.substring 0 (String.length s) s = s.
Proof. induction s as [|a s IH]; cbn; [done|]. by rewrite IH. Qed.

Lemma substring_app a b : String.substring (String.length a) (String.length b) (a +:+ b) = b.
Proof. induction a as [|x a IH]; cbn; [apply substring_all|exact IH]. Qed.

(** What is appended is contained. *)
Lemma bytes_Contains_app a b : bytes_Contains (a +:+ b) b = true.
Proof.
  unfold bytes_Contains. destruct (String.index 0 b (a +:+ b)) eqn:Hi; [done|]. exfalso.
  destruct (decide (b = "")) as [->|Hne].
  - destruct (a +:+ ""); done.
  - apply (String.index_correct3 _ (String.length a) _ _ Hi Hne); [lia|]. apply substring_app.
Qed.

(** The CA bundles of an object. *)
Definition bundles (o : WhObject) : list string :=
  match o with
  | MutatingWebhookConfiguration _ whs | ValidatingWebhookConfiguration _ whs => wh_CABundle <$> whs
  | CustomResourceDefinition _ (Some (Some (Some b))) => [b]
  | _ => []
  end.

(** The same object apart from its bundles. *)
Definition erase (o : WhObject) : WhObject :=
  match o with
  | MutatingWebhookConfiguration k whs => MutatingWebhookConfiguration k (injectWebhooks "" whs)
  | ValidatingWebhookConfiguration k whs => ValidatingWebhookConfiguration k (injectWebhooks "" whs)
  | CustomResourceDefinition k (Some (Some (Some _))) => CustomResourceDefinition k (Some (Some (Some "")))
  | _ => o
  end.

Lemma injectWebhooks_erase ca whs : injectWebhooks "" (injectWebhooks ca whs) = injectWebhooks "" whs.
Proof. unfold injectWebhooks. by rewrite <- list_fmap_compose. Qed.

Lemma injectWebhooks_bundles ca whs : Forall (eq ca) (wh_CABundle <$> injectWebhooks ca whs).
Proof. unfold injectWebhooks. induction whs; by constructor. Qed.

Lemma inject_loop_spec ca objs : forall objs', inject_loop ca objs = Done (objs', None) ->
  erase <$> objs' = erase <$> objs /\ Forall (fun o => Forall (eq ca) (bundles o)) objs'.
Proof.
  induction objs as [|o objs IH]; intros objs'; cbn; [by intros [= <-]|].
  destruct o as [k whs|k whs|k [[[b|]|]|]|g]; cbn; try done.
  all: destruct (inject_loop ca objs) as [[os [e|]]| |]; try done; intros [= <-].
  all: destruct (IH os eq_refl) as [He Hf]; cbn; rewrite He, ?injectWebhooks_erase; split; [done|].
  all: constructor; [|done]; cbn; try apply injectWebhooks_bundles. by constructor.
Qed.

Section manager_claims.
Context `{NetLib} `{ErrorLib} {W : Type}.

Lemma Provision_spec cw cc objs (w w' : W) objs' changed :
  Provision (Some cw) (Some cc) objs w = Done (w', (objs', changed, None)) ->
  exists dnsName w1 certs ch bundle, dnsNameFromClientConfig (Some cc) = inr dnsName /\
    EnsureCert cw dnsName w = (w1, (Some certs, ch, None)) /\ Inject cw objs' w1 = (w', None) /\
    bytes_Contains bundle (art_CACert certs) = true /\
    Forall (fun o => Forall (eq bundle) (bundles o)) objs' /\ erase <$> objs' = erase <$> objs /\
    (changed = false -> ch = false /\ bundle = cc_CABundle cc).
Proof.
  unfold Provision. destruct (dnsNameFromClientConfig (Some cc)) as [|dns] eqn:Hd; [done|].
  destruct (EnsureCert cw dns w) as [w1 [[[certs|] ch] [e|]]] eqn:He; try done.
  set (bc := if negb _ then _ else _).
  assert (bytes_Contains bc.1 (art_CACert certs) = true /\ (bc.2 = false -> ch = false /\ bc.1 = cc_CABundle cc)) as Hb.
  { subst bc. destruct (bytes_Contains (cc_CABundle cc) (art_CACert certs)) eqn:Hc; cbn; [done|].
    by rewrite bytes_Contains_app. }
  destruct bc as [bundle changed']. cbn in Hb. unfold inject. cbn.
  destruct (inject_loop bundle objs) as [[os [e|]]| |] eqn:Hl; try done.
  destruct (Inject cw os w1) as [w2 e2] eqn:Hi. intros [= <- <- <- ->].
  apply inject_loop_spec in Hl as [He' Hf]. destruct Hb as [Hb1 Hb2].
  exists dns, w1, certs, ch, bundle. by split_and!.
Qed.

(** C28: when a refresh succeeds, the configurations it sent to the cluster are
    those it read, all with one and the same CA bundle, and that bundle contains
    the CA of the certificate ensured for the DNS name of the server; a refresh that reports no
    change has not extended the bundle. *)
Theorem refreshCert_consistent (m : Options) cw (w w' : W) changed :
  mgr_CertWriter m = Some cw -> refreshCert m w = Done (w', (changed, None)) ->
  exists cc w1 read common d dnsName w2 certs ch w3 sent bundle, getClientConfig m = inr cc /\
    collectConfigs m w = (w1, inr (read, common, d)) /\
    dnsNameFromClientConfig (Some (mkClientConfig (cc_Service cc) (cc_URL cc) common)) = inr dnsName /\
    EnsureCert cw dnsName w1 = (w2, (Some certs, ch, None)) /\ Inject cw sent w2 = (w3, None) /\
    batchUpdate (mgr_Client m) sent w3 = (w', None) /\
    erase <$> sent = erase <$> read /\ Forall (fun o => Forall (eq bundle) (bundles o)) sent /\
    bytes_Contains bundle (art_CACert certs) = true /\
    (changed = false -> ch = false /\ bundle = common).
Proof.
  intros Hcw. unfold refreshCert. destruct (getClientConfig m) as [|cc] eqn:Hg; [done|].
  destruct (collectConfigs m w) as [w1 [|[[configs common] d]]] eqn:Hc; [done|]. rewrite Hcw.
  destruct (Provision (Some cw) _ configs w1) as [[w2 [[sent ch'] [e|]]]| |] eqn:Hp; try done.
  destruct (batchUpdate (mgr_Client m) sent w2) as [w3 e] eqn:Hb. intros [= <- <- ->].
  apply Provision_spec in Hp as (dns & w4 & certs & ch & bundle & Hd & He & Hi & Hin & Hf & Her & Hch).
  exists cc, w1, configs, common, d, dns, w4, certs, ch, w2, sent, bundle. by split_and!.
Qed.

(** A disk that works: what is written is found. *)
Record disk_works (host : HostOS W) (on_disk : W -> gset string) : Prop := {
  stat_found : forall p w, p ∈ on_disk w -> Stat host p w = (w, None);
  stat_missing : forall p w, p ∉ on_disk w -> exists e, Stat host p w = (w, Some e);
  written_found : forall p d w w', WriteFile host p d w = (w', None) -> on_disk w' = {[p]} ∪ on_disk w;
}.

Lemma certExists_run host on_disk m w : disk_works host on_disk ->
  certExists host m w = (w, bool_decide (Join host (CertDir m) (CertName m) ∈ on_disk w /\ Join host (CertDir m) (KeyName m) ∈ on_disk w)).
Proof.
  intros Hd. unfold certExists, mbind, M_bind. destruct (decide (Join host (CertDir m) (CertName m) ∈ on_disk w)) as [Hc|Hc].
  - rewrite (stat_found _ _ Hd) by done. destruct (decide (Join host (CertDir m) (KeyName m) ∈ on_disk w)) as [Hk|Hk].
    + rewrite (stat_found _ _ Hd) by done. by rewrite bool_decide_true.
    + destruct (stat_missing _ _ Hd _ _ Hk) as [e ->]. by rewrite bool_decide_false by tauto.
  - destruct (stat_missing _ _ Hd _ _ Hc) as [e ->]. by rewrite bool_decide_false by tauto.
Qed.

Lemma writeCertOnDisk_run host on_disk m w w' : disk_works host on_disk -> writeCertOnDisk host m w = Done (w', None) ->
  Join host (CertDir m) (CertName m) ∈ on_disk w' /\ Join host (CertDir m) (KeyName m) ∈ on_disk w'.
Proof.
  intros Hd. unfold writeCertOnDisk. destruct (SecretRef m) as [ref|]; [|done]. destruct (secGet _ _ _ w) as [w1 [sec e]].
  destruct (match e with Some x => IsNotFound x | None => false end) eqn:Hnf; [destruct e; done|].
  unfold mbind, M_bind. destruct (MkdirAll host (CertDir m) w1) as [w2 [e2|]]; [done|].
  destruct (WriteFile host (Join host (CertDir m) (CertName m)) _ w2) as [w3 [e3|]] eqn:H3; [done|].
  destruct (WriteFile host (Join host (CertDir m) (KeyName m)) _ w3) as [w4 e4] eqn:H4. intros [= <- ->].
  apply (written_found _ _ Hd) in H3, H4. rewrite H4, H3. set_solver.
Qed.

(** A manager that is started again on the same disk takes its own files for those
    of another manager, and does not refresh the certificate any more. *)
Lemma restart_stops_refreshing host on_disk m w w1 : disk_works host on_disk ->
  Start host m w = Done (w1, (None, true)) -> Start host m w1 = Done (w1, (None, false)).
Proof.
  intros Hd. unfold Start at 1. rewrite (certExists_run _ _ _ _ Hd). case_bool_decide as Hex; [done|].
  unfold run_manager. rewrite (certExists_run _ _ _ _ Hd), (bool_decide_false _ Hex). cbn [negb].
  destruct (refreshCert m w) as [[w2 [ch [e|]]]| |]; try done. rewrite orb_true_r.
  destruct (writeCertOnDisk host m w2) as [[w3 [e|]]| |] eqn:Hw; try done. intros [= <-].
  apply (writeCertOnDisk_run _ _ _ _ _ Hd) in Hw. unfold Start. by rewrite (certExists_run _ _ _ _ Hd), bool_decide_true.
Qed.
End manager_claims.

(** ** Witnesses and examples *)

Module ManagerDemo.
#[export] Instance net : NetLib := {|
  url_Host := fun u => inr u;
  SplitHostPort := fun h => inl (errors_New "missing port in address");
  httpsURL := fun h p => "https://" +:+ h;
|}.
(** The world is the list of the objects that were updated. *)
Definition client (mutating validating : string) (crd : string) : ManagerClient (list WhObject) :=
  mkManagerClient (fun _ w => (w, inr [mkWebhook "m" mutating])) (fun _ w => (w, inr [mkWebhook "v" validating]))
    (fun _ w => (w, inr (Some (Some (Some crd))))) 
    (mkSecretClient (fun _ s w => (w, (s, None))) (fun _ w => (w, None)) (fun _ w => (w, None)))
    (fun o w => (w ++ [o], None)).
Definition writer : CertWriter (list WhObject) :=
  mkCertWriter (fun dns w => (w, (Some (mkArtifacts dns dns "ca-key" "CA"), false, None))) (fun _ w => (w, None)).
Definition ref (n : string) : NamespacedName := mkNN "" n.
Definition options (mutating validating crd : string) : Options (W := list WhObject) :=
  mkOptions 0 (Some ("ns", "svc")) None 0 [ref "m"] [ref "v"] [ref "c"] (client mutating validating crd)
    (Some writer) (Some (mkNN "ns" "cert")) "" "" "" 0.

(** Two webhook configurations disagree, but the bundle of the CRD is taken as
    the common one: the refresh reports that nothing changed. *)
Example crd_hides_difference : exists w,
  refreshCert (options "old" "CA" "CA") [] = Done (w, (false, None)).
Proof. eexists. vm_compute. reflexivity. Qed.

(** Without the CRD the disagreement is reported as a change. *)
Example difference_detected : compareWebhooks [mkWebhook "m" "old"; mkWebhook "v" "CA"] "" false = ("", true).
Proof. reflexivity. Qed.
End ManagerDemo.

Import ManagerDemo.

Lemma refreshCert_consistent_witness :
  exists cc w1 read common d dnsName w2 certs ch w3 sent bundle,
    getClientConfig (options "" "" "") = inr cc /\
    collectConfigs (options "" "" "") [] = (w1, inr (read, common, d)) /\
    dnsNameFromClientConfig (Some (mkClientConfig (cc_Service cc) (cc_URL cc) common)) = inr dnsName /\
    EnsureCert writer dnsName w1 = (w2, (Some certs, ch, None)) /\ Inject writer sent w2 = (w3, None) /\
    batchUpdate (client "" "" "") sent w3 =
      ([MutatingWebhookConfiguration (ref "m") [mkWebhook "m" "CA"];
        ValidatingWebhookConfiguration (ref "v") [mkWebhook "v" "CA"];
        CustomResourceDefinition (ref "c") (Some (Some (Some "CA")))], None) /\
    erase <$> sent = erase <$> read /\ Forall (fun o => Forall (eq bundle) (bundles o)) sent /\
    bytes_Contains bundle (art_CACert certs) = true /\
    (true = false -> ch = false /\ bundle = common).
Proof.
  exact (refreshCert_consistent (options "" "" "") writer [] _ true eq_refl eq_refl).
Defined.
