(* ===== verification/Admission.v ===== *)
(** Admission webhooks: [webhook/admission/defaulter.go], [validator.go] and
    [webhook/function/*.go].

    A handler decodes the object of a request and runs a pipeline of functions on
    it.  Objects are pointers: a function returns the object as it left it. *)
From S2P Require Import Prelude Object.

(** The responses of controller-runtime's admission package, by the function that
    builds them, and whether they admit the request. *)
Inductive Response (Status : Type) :=
| Errored (code : Z) (e : error)
| Denied (reason : error)
| Allowed (reason : string)
| FromStatus (allowed : bool) (status : Status)
| PatchResponseFromRaw (original current : string).
Arguments Errored {Status}. Arguments Denied {Status}. Arguments Allowed {Status}.
Arguments FromStatus {Status}. Arguments PatchResponseFromRaw {Status}.

Definition admits {Status} (r : Response Status) : bool :=
  match r with
  | Errored _ _ | Denied _ => false
  | Allowed _ | PatchResponseFromRaw _ _ => true
  | FromStatus b _ => b
  end.

Definition StatusBadRequest : Z := 400.
Definition StatusInternalServerError : Z := 500.

(** [admissionv1.Operation]. *)
Inductive Operation := Create | Update | Delete | Connect.
#[global] Instance Operation_eq_dec : EqDecision Operation.
Proof. solve_decision. Defined.

(** [admission.Request] as the handlers use it. *)
Record Request := mkRequest {
  req_Operation : Operation; req_Namespace : string; req_Object : string; req_OldObject : string;
}.

(** The decoder, [json.Marshal], and [errors.As] for an [APIStatus]. *)
Class AdmissionLib (Obj Status : Type) := {
  Decode : Request -> Obj -> error + Obj;
  DecodeRaw : string -> Obj -> error + Obj;
  Marshal : Obj -> error + string;
  AsAPIStatus : error -> option Status;
}.

Section admission.
Context {W Obj Status : Type} `{ClientObject Obj} `{AdmissionLib Obj Status}.

(** ** Defaulting *)

(** [DefaultFunc] and [type Defaulter interface]. *)
Definition DefaultFunc := Obj -> M W Obj.
Record Defaulter := mkDefaulter {
  d_GetNewObject : Obj;
  d_Default : list DefaultFunc;
  RequireDefaulting : Obj -> bool;
}.

(** The defaulting pipeline. *)
Fixpoint runDefaults (fs : list DefaultFunc) (obj : Obj) : M W Obj :=
  match fs with
  | [] => mret obj
  | m :: fs => obj ← m obj; runDefaults fs obj
  end.

(** [mutatingHandler.Handle]. *)
Definition mutatingHandle (defaulter : option Defaulter) (req : Request) (w : W)
  : outcome (W * Response Status) :=
  match defaulter with
  | None => Panic "defaulter should never be nil"
  | Some d =>
    let obj := SetNamespace (d_GetNewObject d) (req_Namespace req) in
    match Decode (Status := Status) req obj with
    | inl e => Done (w, Errored StatusBadRequest e)
    | inr obj =>
      let '(w, obj) := if RequireDefaulting d obj then runDefaults (d_Default d) obj w else (w, obj) in
      match Marshal (Status := Status) obj with
      | inl e => Done (w, Errored StatusInternalServerError e)
      | inr marshalled => Done (w, PatchResponseFromRaw (req_Object req) marshalled)
      end
    end
  end.

(** ** Validation *)

(** The validating functions and [type Validator interface]. *)
Definition ValidateCreateFunc := Obj -> M W (Obj * err).
Definition ValidateUpdateFunc := Obj -> Obj -> M W (Obj * Obj * err).
Definition ValidateDeleteFunc := Obj -> M W (Obj * err).
Record Validator := mkValidator {
  v_GetNewObject : Obj;
  ValidateCreate : list ValidateCreateFunc;
  ValidateUpdate : list ValidateUpdateFunc;
  ValidateDelete : list ValidateDeleteFunc;
  RequireValidating : Obj -> bool;
}.

(** [validationResponseFromStatus]. *)
Definition validationResponseFromStatus (allowed : bool) (status : Status) : Response Status := FromStatus allowed status.

(** The response to a failed validation: the status the error carries, or a
    denial. *)
Definition rejection (e : error) : Response Status :=
  match AsAPIStatus (Obj := Obj) e with
  | Some st => validationResponseFromStatus false st
  | None => Denied e
  end.

(** The pipelines: the first error is the response, [None] when all pass. *)
Fixpoint runValidate (fs : list ValidateCreateFunc) (obj : Obj) : M W (option (Response Status)) :=
  match fs with
  | [] => mret None
  | m :: fs =>
    '(obj, e) ← m obj;
    match e with
    | Some x => mret (Some (rejection x))
    | None => runValidate fs obj
    end
  end.
Fixpoint runValidateUpdate (fs : list ValidateUpdateFunc) (obj oldObj : Obj) : M W (option (Response Status)) :=
  match fs with
  | [] => mret None
  | m :: fs =>
    '(obj, oldObj, e) ← m obj oldObj;
    match e with
    | Some x => mret (Some (rejection x))
    | None => runValidateUpdate fs obj oldObj
    end
  end.

(** The response to a request that got through the pipeline. *)
Definition conclude (r : option (Response Status)) : Response Status := default (Allowed "") r.

(** [validatingHandler.Handle]. *)
Definition validatingHandle (validator : option Validator) (req : Request) (w : W)
  : outcome (W * Response Status) :=
  match validator with
  | None => Panic "validator should never be nil"
  | Some v =>
    let obj := SetNamespace (v_GetNewObject v) (req_Namespace req) in
    let require obj (run : M W (option (Response Status))) : W * Response Status :=
      if RequireValidating v obj then let '(w, r) := run w in (w, conclude r) else (w, Allowed "") in
    match req_Operation req with
    | Create =>
      match Decode (Status := Status) req obj with
      | inl e => Done (w, Errored StatusBadRequest e)
      | inr obj => Done (require obj (runValidate (ValidateCreate v) obj))
      end
    | Update =>
      match DecodeRaw (Status := Status) (req_Object req) obj with
      | inl e => Done (w, Errored StatusBadRequest e)
      | inr obj =>
        match DecodeRaw (Status := Status) (req_OldObject req) (v_GetNewObject v) with
        | inl e => Done (w, Errored StatusBadRequest e)
        | inr oldObj => Done (require obj (runValidateUpdate (ValidateUpdate v) obj oldObj))
        end
      end
    | Delete =>
      match DecodeRaw (Status := Status) (req_OldObject req) obj with
      | inl e => Done (w, Errored StatusBadRequest e)
      | inr obj => Done (require obj (runValidate (ValidateDelete v) obj))
      end
    | Connect => Done (w, Allowed "")
    end
  end.

(** ** Stock functions *)

(** Labels and annotations of an object; nil maps are [None]. *)
Class MetaObject := {
  GetLabels : Obj -> option (gmap string string);
  SetLabels : Obj -> gmap string string -> Obj;
  GetAnnotations : Obj -> option (gmap string string);
  SetAnnotations : Obj -> gmap string string -> Obj;
}.

Context `{MetaObject} `{MapRange}.

(** [AddLabels], [AddAnnotations]. *)
Definition AddLabels (labels : gmap string string) : DefaultFunc := fun obj =>
  mret (SetLabels obj (assignAll labels (default ∅ (GetLabels obj)))).
Definition AddAnnotations (annotations : gmap string string) : DefaultFunc := fun obj =>
  mret (SetAnnotations obj (assignAll annotations (default ∅ (GetAnnotations obj)))).

(** [AddClusterVersionAnnotation]; [version] queries the discovery client. *)
Definition AddClusterVersionAnnotation (version : M W (error + string)) : DefaultFunc := fun obj =>
  r ← version;
  match r with
  | inl _ => mret obj
  | inr v => mret (SetAnnotations obj (<["cluster-version" := v]> (default ∅ (GetAnnotations obj))))
  end.

(** [ValidateLabels]: the first unknown key, in the order of the map range. *)
Definition ValidateLabels (obj : Obj) (labels : gmap string string) : err :=
  match List.find (fun '(k, _) => bool_decide (labels !! k = None)) (range_map (default ∅ (GetLabels obj))) with
  | Some (k, _) => Some (errorf "found unexpected label key %q" [k] [] None)
  | None => None
  end.
Definition ValidateLabelsCreate (labels : gmap string string) : ValidateCreateFunc := fun obj =>
  mret (obj, ValidateLabels obj labels).
Definition ValidateLabelsUpdate (labels : gmap string string) : ValidateUpdateFunc := fun obj oldobj =>
  mret (obj, oldobj, ValidateLabels obj labels).

(** [ValidateSingletonCreate]; [sf] is a function [singleton.GetInstance] returned,
    with its client. *)
Definition ValidateSingletonCreate (sf : M W (option (list (string * value)) * err)) : ValidateCreateFunc :=
  fun obj =>
  '(o, e) ← sf;
  match e with
  | Some _ => mret (obj, e)
  | None =>
    match o with
    | Some _ => mret (obj, Some (errors_New "an instance of %q - %s already exists"))
    | None => mret (obj, None)
    end
  end.
End admission.

(** ** Properties *)

Section admission_claims.
Context {W Obj Status : Type} `{ClientObject Obj} `{AdmissionLib Obj Status}.
Local Abbreviation VFunc := (ValidateCreateFunc (W := W) (Obj := Obj)).
Local Abbreviation Vtor := (Validator (W := W) (Obj := Obj)).

Lemma rejection_admits e : admits (rejection (Obj := Obj) (Status := Status) e) = false.
Proof. unfold rejection. by destruct (AsAPIStatus e). Qed.

(** One of the functions fails, each of them run on the objects and the world that
    those before it have left, which have not failed. *)
Inductive fails {X : Type} : list (X -> M W (X * err)) -> X -> W -> Prop :=
| fails_here f fs x w w' x' e : f x w = (w', (x', Some e)) -> fails (f :: fs) x w
| fails_later f fs x w w' x' : f x w = (w', (x', None)) -> fails fs x' w' -> fails (f :: fs) x w.

(** A function that fails on everything makes the functions fail. *)
Lemma fails_always {X} (fs : list (X -> M W (X * err))) f x w : f ∈ fs -> (forall x w, exists w' x' e, f x w = (w', (x', Some e))) -> fails fs x w.
Proof.
  intros Hin Hf. revert x w. induction fs as [|g fs IH]; intros x w; [by apply elem_of_nil in Hin|].
  destruct (g x w) as [w1 [x1 [e|]]] eqn:Hg; [by eapply fails_here|]. eapply fails_later; [exact Hg|].
  apply elem_of_cons in Hin as [<-|Hin]; [|by apply IH]. destruct (Hf x w) as (w' & x' & e & He). by rewrite Hg in He.
Qed.

(** The response of a pipeline does not admit the request exactly when one of its
    functions fails. *)
Definition reflects {X} (fs : list (X -> M W (X * err))) (m : X -> M W (option (Response Status))) : Prop :=
  forall x w, exists w' r, m x w = (w', r) /\ (admits (conclude r) = false <-> fails fs x w).

Lemma fails_nil {X} (x : X) w : ~ fails [] x w.
Proof. inversion 1. Qed.
Lemma fails_cons {X} f (fs : list (X -> M W (X * err))) x w :
  fails (f :: fs) x w <-> match f x w with (w', (x', Some e)) => True | (w', (x', None)) => fails fs x' w' end.
Proof.
  destruct (f x w) as [w1 [x1 [e|]]] eqn:Hf; split; try done; [by intros; eapply fails_here| |by intros; eapply fails_later].
  inversion 1; simplify_eq; congruence.
Qed.

Lemma runValidate_reflects (fs : list VFunc) : reflects fs (runValidate fs).
Proof.
  induction fs as [|f fs IH]; intros x w; cbn.
  { eexists _, _. split; [done|]. split; [done|by intros ?%fails_nil]. }
  unfold mbind, M_bind. pose proof (fails_cons f fs x w) as Hc. destruct (f x w) as [w1 [x1 [e|]]].
  - eexists _, _. split; [done|]. rewrite Hc. split; [done|]. intros _. apply rejection_admits.
  - destruct (IH x1 w1) as (w' & r & Hm & Hr). exists w', r. split; [done|]. by rewrite Hc.
Qed.
Definition on_pair (f : ValidateUpdateFunc (W := W) (Obj := Obj)) : Obj * Obj -> M W (Obj * Obj * err) := fun x => f x.1 x.2.
Lemma runValidateUpdate_reflects fs : reflects (on_pair <$> fs) (fun x => runValidateUpdate fs x.1 x.2).
Proof.
  induction fs as [|f fs IH]; intros [x y] w; cbn.
  { eexists _, _. split; [done|]. split; [done|by intros ?%fails_nil]. }
  unfold mbind, M_bind. pose proof (fails_cons (on_pair f) (on_pair <$> fs) (x, y) w) as Hc. change (on_pair f (x, y) w) with (f x y w) in Hc.
  destruct (f x y w) as [w1 [[x1 y1] [e|]]].
  - eexists _, _. split; [reflexivity|]. rewrite Hc. split; [done|]. intros _. apply rejection_admits.
  - destruct (IH (x1, y1) w1) as (w' & r & Hm & Hr). exists w', r. split; [done|]. by rewrite Hc.
Qed.

(** The requests a validator is to admit: those whose objects can be decoded and on
    which, if the object has to be validated, none of the functions for the operation
    fails; and those for other operations. *)
Definition admissible (v : Vtor) (req : Request) (w : W) : Prop :=
  let fresh := SetNamespace (v_GetNewObject v) (req_Namespace req) in
  match req_Operation req with
  | Create => exists obj, Decode (Status := Status) req fresh = inr obj /\
      (RequireValidating v obj = true -> ~ fails (ValidateCreate v) obj w)
  | Update => exists obj oldObj, DecodeRaw (Status := Status) (req_Object req) fresh = inr obj /\
      DecodeRaw (Status := Status) (req_OldObject req) (v_GetNewObject v) = inr oldObj /\
      (RequireValidating v obj = true -> ~ fails (on_pair <$> ValidateUpdate v) (obj, oldObj) w)
  | Delete => exists obj, DecodeRaw (Status := Status) (req_OldObject req) fresh = inr obj /\
      (RequireValidating v obj = true -> ~ fails (ValidateDelete v) obj w)
  | Connect => True
  end.

(** The handler admits exactly the requests that are to be admitted. *)
Lemma validatingHandle_admits (v : Vtor) req (w : W) :
  exists w' r, validatingHandle (Status := Status) (Some v) req w = Done (w', r) /\ (admits r = true <-> admissible v req w).
Proof.
  assert (forall X (fs : list (X -> M W (X * err))) m x (b : bool), reflects fs m -> exists w' r,
    (if b then let '(w, r) := m x w in (w, conclude r) else (w, Allowed "")) = (w', r) /\
    (admits r = true <-> (b = true -> ~ fails fs x w))) as Hrun.
  { intros X fs m x b Hm. destruct b; [|by exists w, (Allowed "")]. destruct (Hm x w) as (w' & r & -> & Hr). exists w', (conclude r).
    split; [done|]. rewrite <- Hr. destruct (admits (conclude r)); naive_solver. }
  unfold validatingHandle, admissible. destruct (req_Operation req).
  - destruct (Decode req _) as [e|obj]; [eexists _, _; split; [done|]; split; [done|by intros (? & ? & _)]|].
    destruct (Hrun _ _ _ obj (RequireValidating v obj) (runValidate_reflects (ValidateCreate v))) as (w' & r & He & Hr).
    exists w', r. split; [by rewrite <- He|]. rewrite Hr. split; [by intros ?; exists obj|by intros (? & [= <-] & ?)].
  - destruct (DecodeRaw (req_Object req) _) as [e|obj]; [eexists _, _; split; [done|]; split; [done|by intros (? & ? & ? & _)]|].
    destruct (DecodeRaw (req_OldObject req) _) as [e|old]; [eexists _, _; split; [done|]; split; [done|by intros (? & ? & _ & ? & _)]|].
    destruct (Hrun _ _ _ (obj, old) (RequireValidating v obj) (runValidateUpdate_reflects (ValidateUpdate v))) as (w' & r & He & Hr).
    exists w', r. split; [by rewrite <- He|]. rewrite Hr. split; [by intros ?; exists obj, old|by intros (? & ? & [= <-] & [= <-] & ?)].
  - destruct (DecodeRaw (req_OldObject req) _) as [e|obj]; [eexists _, _; split; [done|]; split; [done|by intros (? & ? & _)]|].
    destruct (Hrun _ _ _ obj (RequireValidating v obj) (runValidate_reflects (ValidateDelete v))) as (w' & r & He & Hr).
    exists w', r. split; [by rewrite <- He|]. rewrite Hr. split; [by intros ?; exists obj|by intros (? & [= <-] & ?)].
  - by exists w, (Allowed "").
Qed.

Context {OList : Type} `{Scheme Obj} `{MetaLib Obj OList}.

Lemma singleton_rejects (proto : OList) (cli : OList -> M W (OList * err)) l o items :
  (forall w, exists w', cli proto w = (w', (l, None))) -> ExtractList (Obj := Obj) l = inr (o :: items) ->
  forall (obj : Obj) w, exists w' obj' e, ValidateSingletonCreate (getInstance (Obj := Obj) proto cli) obj w = (w', (obj', Some e)).
Proof.
  intros Hcli Hx obj w. destruct (Hcli w) as [w' Hw]. unfold ValidateSingletonCreate, getInstance, mbind, M_bind.
  rewrite Hw, Hx. destruct items as [|o2 items]; cbn; [|by eexists _, _, _].
  destruct (Convert o) as [e|u]; cbn; [by eexists _, _, _|]. destruct (u_IsList u); cbn; by eexists _, _, _.
Qed.

(** C32: a kind guarded by the singleton validator cannot be created a second
    time: as long as the cluster lists an object of the kind, every request to
    create one that has to be validated is refused, whatever the other validating
    functions do. *)
Theorem singleton_enforced (v : Vtor) req obj (proto : OList) (cli : OList -> M W (OList * err)) get l o items (w : W) :
  GetInstance (Obj := Obj) (Some proto) (Some tt) = inr get ->
  (forall w, exists w', cli proto w = (w', (l, None))) -> ExtractList (Obj := Obj) l = inr (o :: items) ->
  req_Operation req = Create -> Decode (Status := Status) req (SetNamespace (v_GetNewObject v) (req_Namespace req)) = inr obj ->
  RequireValidating v obj = true -> ValidateSingletonCreate (get cli) ∈ ValidateCreate v ->
  exists w' r, validatingHandle (Status := Status) (Some v) req w = Done (w', r) /\ admits r = false.
Proof.
  intros Hget Hcli Hx Hop Hd Hreq Hin. cbn in Hget. apply (inj inr) in Hget. subst get.
  destruct (validatingHandle_admits v req w) as (w' & r & Hr & Ha). exists w', r. split; [done|].
  destruct (admits r); [|done]. exfalso. unfold admissible in Ha. rewrite Hop in Ha.
  destruct (proj1 Ha eq_refl) as (obj' & Hd' & Hf). rewrite Hd in Hd'. injection Hd' as <-.
  apply (Hf Hreq). eapply fails_always; [exact Hin|]. by eapply singleton_rejects.
Qed.

End admission_claims.

(** ** Witnesses *)

Module AdmissionDemo.
Import ApiDemo.
#[export] Instance lib : AdmissionLib obj string := {|
  Decode := fun req o => inr o;
  DecodeRaw := fun raw o => inr o;
  Marshal := fun o => inr "object";
  AsAPIStatus := fun e => None;
|}.
#[export] Instance metaLib : MetaLib obj (list obj) := {|
  ExtractList := fun l => inr l;
  Accessor := fun o => inr (nsname o);
|}.
Definition game : obj := mkObj (mkNN "" "g") [] true (ObjectDemo.game "g").
Definition decoded : obj := SetNamespace game "ns".
Definition cli : list obj -> M nat (list obj * err) := fun _ w => (S w, ([game], None)).
Definition get : (list obj -> M nat (list obj * err)) -> M nat (option (list (string * value)) * err) :=
  getInstance (Obj := obj) [].
Definition accept : ValidateCreateFunc (W := nat) (Obj := obj) := fun o w => (w, (o, None)).
Definition guard : ValidateCreateFunc (W := nat) (Obj := obj) := ValidateSingletonCreate (get cli).
Definition validator : Validator (W := nat) (Obj := obj) := mkValidator game [accept; guard] [] [] (fun _ => true).
Definition request : Request := mkRequest Create "ns" "" "".
End AdmissionDemo.

Import ApiDemo AdmissionDemo.

Lemma singleton_enforced_witness :
  exists w' r, validatingHandle (Status := string) (Some validator) request 7 = Done (w', r) /\ admits r = false.
Proof.
  apply (singleton_enforced validator request decoded [] cli get [game] game [] 7).
  - reflexivity.
  - intros w. by exists (S w).
  - reflexivity.
  - reflexivity.
  - reflexivity.
  - reflexivity.
  - by right; left.
Defined.
