(* ===== verification/Webhook.v ===== *)
(** The webhook builder and what a server makes of its webhooks:
    [webhook/builder/webhook.go], [webhook/admission/controller.go] and the
    handlers of [webhook/admission/defaulter.go] and [validator.go] around the
    functions of [Admission].

    A builder registers a mutating and a validating webhook of a controller under
    two paths; the server injects a decoder into each webhook when it starts and
    then gives it the requests of its path. *)
From S2P Require Import Prelude Object Admission.

(** [*webhook.Server] of controller-runtime: whether [WebhookMux] is there, what
    [WebhookMux.Handler] finds for a path (a handler, if any, and the pattern it is
    registered under), and [Register].  [hooks] is what has been registered. *)
Class WebhookServer (Srv Hook : Type) := {
  WebhookMux : Srv -> bool;
  mux_Handler : Srv -> string -> option Hook * string;
  Register : string -> Hook -> Srv -> outcome Srv;
  hooks : Srv -> gmap string Hook;
  clean_path : string -> bool;
}.

Section webhook.
Context {W Obj Status Decoder : Type} `{ClientObject Obj}.
(** The methods of a decoder. *)
Context (methods : Decoder -> AdmissionLib Obj Status).

(** [type Controller interface]: its own method and those of [Defaulter] and
    [Validator], which share [GetNewObject]. *)
Record Controller := mkController {
  ctl_Name : string;
  ctl_GetNewObject : Obj;
  ctl_Default : list (DefaultFunc (W := W) (Obj := Obj));
  ctl_RequireDefaulting : Obj -> bool;
  ctl_ValidateCreate : list (ValidateCreateFunc (W := W) (Obj := Obj));
  ctl_ValidateUpdate : list (ValidateUpdateFunc (W := W) (Obj := Obj));
  ctl_ValidateDelete : list (ValidateDeleteFunc (W := W) (Obj := Obj));
  ctl_RequireValidating : Obj -> bool;
}.
Definition as_Defaulter (c : Controller) : Defaulter (W := W) (Obj := Obj) :=
  mkDefaulter (ctl_GetNewObject c) (ctl_Default c) (ctl_RequireDefaulting c).
Definition as_Validator (c : Controller) : Validator (W := W) (Obj := Obj) :=
  mkValidator (ctl_GetNewObject c) (ctl_ValidateCreate c) (ctl_ValidateUpdate c) (ctl_ValidateDelete c) (ctl_RequireValidating c).

(** ** Handlers *)

(** [type mutatingHandler struct] and [type validatingHandler struct]: the
    interface and the pointer may be nil. *)
Record mutatingHandler := mkMutatingHandler {
  defaulter : option (Defaulter (W := W) (Obj := Obj)); mh_decoder : option Decoder }.
Record validatingHandler := mkValidatingHandler {
  validator : option (Validator (W := W) (Obj := Obj)); vh_decoder : option Decoder }.

(** [admission.Webhook], by its handler. *)
Inductive Webhook := MutatingHook (h : mutatingHandler) | ValidatingHook (h : validatingHandler).

(** [DefaultingWebhookFor] and [ValidatingWebhookFor]. *)
Definition DefaultingWebhookFor (d : option (Defaulter (W := W) (Obj := Obj))) : Webhook := MutatingHook (mkMutatingHandler d None).
Definition ValidatingWebhookFor (v : option (Validator (W := W) (Obj := Obj))) : Webhook := ValidatingHook (mkValidatingHandler v None).

(** The two methods [InjectDecoder]. *)
Definition mh_InjectDecoder (h : mutatingHandler) (d : Decoder) : mutatingHandler * err :=
  (mkMutatingHandler (defaulter h) (Some d), None).
Definition vh_InjectDecoder (h : validatingHandler) (d : Decoder) : validatingHandler * err :=
  (mkValidatingHandler (validator h) (Some d), None).

(** The two methods [Handle], with the decoder of the handler: a nil one cannot
    be used. *)
Definition mh_Handle (h : mutatingHandler) (req : Request) (w : W) : outcome (W * Response Status) :=
  match mh_decoder h with
  | Some d => let _ := methods d in mutatingHandle (defaulter h) req w
  | None => Panic "nil pointer dereference"
  end.
Definition vh_Handle (h : validatingHandler) (req : Request) (w : W) : outcome (W * Response Status) :=
  match vh_decoder h with
  | Some d => let _ := methods d in validatingHandle (validator h) req w
  | None => Panic "nil pointer dereference"
  end.

(** ** The builder *)

(** [type Builder struct], [WebhookManagedBy] and the paths; the server is that of
    the manager. *)
Record Builder := mkBuilder { b_c : option Controller; mutatePath : string; validatePath : string }.
Definition WebhookManagedBy : Builder := mkBuilder None "" "".
Definition MutatePath (b : Builder) (path : string) : Builder := mkBuilder (b_c b) path (validatePath b).
Definition ValidatePath (b : Builder) (path : string) : Builder := mkBuilder (b_c b) (mutatePath b) path.

Context {Srv : Type} `{!WebhookServer Srv Webhook}.

(** [isAlreadyHandled]. *)
Definition isAlreadyHandled (srv : Srv) (path : string) : bool :=
  if negb (WebhookMux srv) then false
  else let '(h, p) := mux_Handler srv path in
    if bool_decide (p = path) && bool_decide (is_Some h) then true else false.

(** The name of the controller, which is logged, cannot be had of a nil one. *)
Definition logName (c : option Controller) (srv : Srv) : outcome Srv :=
  match c with Some _ => Done srv | None => Panic "nil pointer dereference" end.

(** [registerDefaultingWebhook], [registerValidatingWebhook]. *)
Definition registerDefaultingWebhook (b : Builder) (srv : Srv) : outcome Srv :=
  let mwh := DefaultingWebhookFor (as_Defaulter <$> b_c b) in
  let path := mutatePath b in
  if negb (isAlreadyHandled srv path) then
    match logName (b_c b) srv with Done srv => Register path mwh srv | o => o end
  else logName (b_c b) srv.
Definition registerValidatingWebhook (b : Builder) (srv : Srv) : outcome Srv :=
  let vwh := ValidatingWebhookFor (as_Validator <$> b_c b) in
  let path := validatePath b in
  if negb (isAlreadyHandled srv path) then
    match logName (b_c b) srv with Done srv => Register path vwh srv | o => o end
  else logName (b_c b) srv.

(** [registerWebhooks] and [Complete]. *)
Definition registerWebhooks (b : Builder) (srv : Srv) : outcome (Srv * err) :=
  match (if bool_decide (mutatePath b = "") then Done srv else registerDefaultingWebhook b srv) with
  | Done srv =>
    match (if bool_decide (validatePath b = "") then Done srv else registerValidatingWebhook b srv) with
    | Done srv => Done (srv, None)
    | Panic s => Panic s
    | OutOfFuel => OutOfFuel
    end
  | Panic s => Panic s
  | OutOfFuel => OutOfFuel
  end.
Definition Complete (b : Builder) (c : option Controller) (srv : Srv) : outcome (Srv * err) :=
  registerWebhooks (mkBuilder c (mutatePath b) (validatePath b)) srv.

(** A program completes one builder after another, as long as no error is
    returned. *)
Fixpoint completeAll (bs : list (Builder * Controller)) (srv : Srv) : outcome (Srv * err) :=
  match bs with
  | [] => Done (srv, None)
  | (b, c) :: bs =>
    match Complete b (Some c) srv with
    | Done (srv, None) => completeAll bs srv
    | o => o
    end
  end.
End webhook.
Arguments Controller : clear implicits. Arguments Webhook : clear implicits. Arguments Builder : clear implicits.

(** ** Properties *)

(** Documented behaviour of the server: a path that is not registered can be, which
    adds it to the mux; an exact match of a clean path is found under that path,
    and a path that is not registered is at most found under another pattern. *)
Class WebhookServerLaws (Srv Hook : Type) `{WebhookServer Srv Hook} : Prop := {
  mux_there : forall (s : Srv) path (h : Hook), hooks s !! path = Some h -> WebhookMux s = true;
  Handler_finds : forall (s : Srv) path, clean_path path = true -> WebhookMux s = true ->
    match hooks s !! path with
    | Some h => mux_Handler s path = (Some h, path)
    | None => snd (mux_Handler s path) <> path
    end;
  Register_free : forall (s : Srv) path (h : Hook), hooks s !! path = None ->
    exists s', Register path h s = Done s' /\ hooks s' = <[path := h]> (hooks s);
}.

Section webhook_claims.
Context {W Obj Status Decoder Srv : Type} `{ClientObject Obj} (methods : Decoder -> AdmissionLib Obj Status).
Local Abbreviation Hook := (Webhook W Obj Decoder).
Local Abbreviation Ctl := (Controller W Obj).
Local Abbreviation Bld := (Builder W Obj).
Context `{WebhookServerLaws Srv Hook}.

(** What a builder claims for its controller, in the order of registration. *)
Inductive role := Mutates | Validates.
Definition claims (bc : Bld * Ctl) : list (string * (role * Ctl)) :=
  let '(b, c) := bc in
  (if bool_decide (mutatePath b = "") then [] else [(mutatePath b, (Mutates, c))]) ++
  (if bool_decide (validatePath b = "") then [] else [(validatePath b, (Validates, c))]).
(** The first claim of each path. *)
Definition first_claims (bs : list (Bld * Ctl)) : gmap string (role * Ctl) := list_to_map (bs ≫= claims).

(** The webhook of a claim. *)
Definition webhook_of (rc : role * Ctl) : Hook :=
  match rc with
  | (Mutates, c) => DefaultingWebhookFor (Some (as_Defaulter c))
  | (Validates, c) => ValidatingWebhookFor (Some (as_Validator c))
  end.
Definition clean_builder (b : Bld) : Prop :=
  (mutatePath b <> "" -> clean_path (Srv := Srv) (Hook := Hook) (mutatePath b) = true) /\
  (validatePath b <> "" -> clean_path (Srv := Srv) (Hook := Hook) (validatePath b) = true).

Lemma isAlreadyHandled_hooks (s : Srv) path : clean_path (Srv := Srv) (Hook := Hook) path = true ->
  isAlreadyHandled s path = bool_decide (is_Some (hooks (Hook := Hook) s !! path)).
Proof.
  intros Hc. unfold isAlreadyHandled. destruct (WebhookMux s) eqn:Hm; cbn.
  - pose proof (Handler_finds s path Hc Hm) as Hf. destruct (hooks s !! path) as [h|] eqn:Hh.
    + rewrite Hf. rewrite !bool_decide_true by done. done.
    + destruct (mux_Handler s path) as [h p]. cbn in Hf. rewrite (bool_decide_false (p = path)) by done.
      symmetry. apply bool_decide_eq_false. by intros [].
  - destruct (hooks s !! path) as [h|] eqn:Hh; [|by rewrite bool_decide_false by (by intros [])].
    apply mux_there in Hh. congruence.
Qed.

(** The step the two registrations share. *)
Lemma register_hooks (s : Srv) path (h : Hook) c : clean_path (Srv := Srv) (Hook := Hook) path = true -> exists s',
  (if negb (isAlreadyHandled s path) then match logName (W := W) (Obj := Obj) (Some c) s with Done s => Register path h s | o => o end
   else logName (Some c) s) = Done s' /\ hooks s' = hooks s ∪ {[path := h]}.
Proof.
  intros Hc. rewrite (isAlreadyHandled_hooks s path Hc). case_bool_decide as Hs; cbn.
  - exists s. split; [done|]. destruct Hs as [h0 Hs]. apply map_eq. intros p. destruct (decide (p = path)) as [->|Hne].
    + by rewrite Hs, (lookup_union_Some_l _ _ _ h0).
    + rewrite lookup_union_l; [done|]. by apply lookup_singleton_ne.
  - apply eq_None_not_Some in Hs. destruct (Register_free s path h Hs) as (s' & Hr & Hh). exists s'. split; [done|].
    by rewrite Hh, insert_union_singleton_l, map_union_comm by (by apply map_disjoint_singleton_l).
Qed.

Lemma Complete_hooks b c (s : Srv) : clean_builder b -> exists s', Complete b (Some c) s = Done (s', None) /\
  hooks s' = hooks s ∪ (webhook_of <$> list_to_map (claims (b, c)) : gmap string Hook).
Proof.
  intros [Hm Hv]. unfold Complete, registerWebhooks, registerDefaultingWebhook, registerValidatingWebhook, claims.
  cbn [mutatePath validatePath b_c fmap option_fmap option_map].
  destruct (decide (mutatePath b = "")) as [He|Hne].
  - rewrite !(bool_decide_true (mutatePath b = "")) by done. cbn [app].
    destruct (decide (validatePath b = "")) as [He'|Hne'].
    + rewrite !bool_decide_true by done. exists s. split; [done|]. cbn. by rewrite fmap_empty, (right_id_L ∅ (∪)).
    + rewrite !bool_decide_false by done. destruct (register_hooks s (validatePath b) (webhook_of (Validates, c)) c (Hv Hne')) as (s' & Hr & Hh).
      cbn [webhook_of] in Hr. rewrite Hr. exists s'. split; [done|]. rewrite Hh. cbn. by rewrite insert_empty, map_fmap_singleton.
  - rewrite !(bool_decide_false (mutatePath b = "")) by done.
    destruct (register_hooks s (mutatePath b) (webhook_of (Mutates, c)) c (Hm Hne)) as (s1 & Hr & Hh). cbn [webhook_of] in Hr. rewrite Hr.
    destruct (decide (validatePath b = "")) as [He'|Hne'].
    + rewrite !bool_decide_true by done. exists s1. split; [done|]. rewrite Hh. cbn. by rewrite insert_empty, map_fmap_singleton.
    + rewrite !bool_decide_false by done. destruct (register_hooks s1 (validatePath b) (webhook_of (Validates, c)) c (Hv Hne')) as (s2 & Hr2 & Hh2).
      cbn [webhook_of] in Hr2. rewrite Hr2. exists s2. split; [done|]. rewrite Hh2, Hh. cbn [list_to_map foldr app uncurry].
      rewrite insert_empty, insert_union_singleton_l, map_fmap_union, !map_fmap_singleton. by rewrite (assoc_L (∪)).
Qed.

Lemma completeAll_hooks bs : forall s : Srv, Forall (fun bc => clean_builder bc.1) bs -> exists s', completeAll bs s = Done (s', None) /\
  hooks s' = hooks s ∪ (webhook_of <$> first_claims bs : gmap string Hook).
Proof.
  induction bs as [|[b c] bs IH]; intros s Hall; cbn [completeAll].
  { exists s. split; [done|]. unfold first_claims. cbn. by rewrite fmap_empty, (right_id_L ∅ (∪)). }
  apply Forall_cons in Hall as [Hb Hall]. destruct (Complete_hooks b c s Hb) as (s1 & -> & Hh1).
  destruct (IH s1 Hall) as (s2 & -> & Hh2). exists s2. split; [done|]. rewrite Hh2, Hh1. unfold first_claims.
  by rewrite bind_cons, list_to_map_app, map_fmap_union, (assoc_L (∪)).
Qed.

(** The server starts, giving its decoder to a webhook, and gives it a request. *)
Definition serve (d : Decoder) (h : Hook) (req : Request) (w : W) : outcome (W * Response Status) :=
  match h with
  | MutatingHook h => mh_Handle methods (fst (mh_InjectDecoder h d)) req w
  | ValidatingHook h => vh_Handle methods (fst (vh_InjectDecoder h d)) req w
  end.
(** What a claim stands for. *)
Definition answer (d : Decoder) (rc : role * Ctl) (req : Request) (w : W) : outcome (W * Response Status) :=
  match rc with
  | (Mutates, c) => mutatingHandle (H0 := methods d) (Some (as_Defaulter c)) req w
  | (Validates, c) => validatingHandle (H0 := methods d) (Some (as_Validator c)) req w
  end.

Lemma serve_answer d rc req w : serve d (webhook_of rc) req w = answer d rc req w.
Proof. by destruct rc as [[] c]. Qed.

Lemma answer_total d rc req w : exists w' r, answer d rc req w = Done (w', r).
Proof.
  destruct rc as [[] c]; unfold answer, mutatingHandle, validatingHandle; [repeat case_match; eauto|].
  destruct (req_Operation req); repeat case_match; eauto.
Qed.

(** The webhook that is found under a claimed path. *)
Lemma completeAll_serves bs (s : Srv) : Forall (fun bc => clean_builder bc.1) bs -> hooks (Hook := Hook) s = ∅ ->
  exists s', completeAll bs s = Done (s', None) /\ hooks s' = (webhook_of <$> first_claims bs : gmap string Hook).
Proof.
  intros Hall Hs. destruct (completeAll_hooks bs s Hall) as (s' & Hc & Hh). exists s'. split; [done|].
  by rewrite Hh, Hs, (left_id_L ∅ (∪)).
Qed.


(** The path is not claimed before the builder claims it for validation. *)
Definition unclaimed (bs : list (Bld * Ctl)) (path : string) : Prop := Forall (fun bc => mutatePath bc.1 <> path /\ validatePath bc.1 <> path) bs.

Lemma first_claims_unclaimed bs path : path <> "" -> unclaimed bs path -> first_claims bs !! path = None.
Proof.
  intros Hp Hu. apply not_elem_of_list_to_map_1. rewrite list_elem_of_fmap. intros ([p rc] & -> & Hin).
  apply list_elem_of_bind in Hin as ([b c] & Hin & Hb). unfold unclaimed in Hu. rewrite Forall_forall in Hu.
  destruct (Hu _ Hb) as [Hm Hv]. unfold claims in Hin. cbn in *.
  apply elem_of_app in Hin as [Hin|Hin]; case_bool_decide; set_solver.
Qed.

Lemma first_claims_validates pre b c post : validatePath b <> "" -> unclaimed pre (validatePath b) -> mutatePath b <> validatePath b ->
  first_claims (pre ++ (b, c) :: post) !! validatePath b = Some (Validates, c).
Proof.
  intros Hne Hu Hmv. unfold first_claims. rewrite bind_app, bind_cons, list_to_map_app.
  apply lookup_union_Some_raw. right. split; [by apply first_claims_unclaimed|].
  rewrite list_to_map_app. apply lookup_union_Some_raw. left. unfold claims. rewrite (bool_decide_false (validatePath b = "")) by done.
  case_bool_decide; cbn; [by rewrite lookup_insert_eq|by rewrite lookup_insert_ne, lookup_insert_eq].
Qed.

(** C29: a program fails closed: when a builder is completed with a clean path for
    validation that no earlier builder has, and that is not its path for mutation,
    then, whatever is registered later, the server admits a request to create, update
    or delete an object through this path exactly when its objects can be decoded and,
    if the controller requires the object to be validated, none of the controller's
    validating functions for the operation fails, the functions run one after the other
    on what those before have left.  Requests for other operations are admitted. *)
Theorem webhooks_fail_closed pre b c post (s0 : Srv) :
  Forall (fun bc => clean_builder bc.1) (pre ++ (b, c) :: post) -> hooks (Hook := Hook) s0 = ∅ ->
  validatePath b <> "" -> unclaimed pre (validatePath b) -> mutatePath b <> validatePath b ->
  exists s h, completeAll (pre ++ (b, c) :: post) s0 = Done (s, None) /\ hooks s !! validatePath b = Some h /\
    forall d req w, exists w' r, serve d h req w = Done (w', r) /\
      (admits r = true <-> admissible (H0 := methods d) (as_Validator c) req w).
Proof.
  intros Hall Hs Hne Hu Hmv. destruct (completeAll_serves _ s0 Hall Hs) as (s & Hc & Hh).
  exists s, (webhook_of (Validates, c)). split_and!; [done|by rewrite Hh, lookup_fmap, first_claims_validates|].
  intros d req w. rewrite serve_answer. apply (validatingHandle_admits (H0 := methods d)).
Qed.
End webhook_claims.
Arguments first_claims {W Obj}. Arguments clean_builder {W Obj Decoder Srv _}.

(** ** Witnesses *)

(** A server whose mux appears with the first registration. *)
Module ServerDemo.
Section server.
Context {Hook : Type}.
Definition found (s : option (gmap string Hook)) (path : string) : option Hook := m ← s; m !! path.
#[export] Instance server : WebhookServer (option (gmap string Hook)) Hook := {|
  WebhookMux := fun s => bool_decide (is_Some s);
  mux_Handler := fun s path => match found s path with Some h => (Some h, path) | None => (None, "") end;
  Register := fun path h s => match found s path with
    | Some _ => Panic "can't register duplicate path"
    | None => Done (Some (<[path := h]> (default ∅ s)))
    end;
  hooks := default ∅;
  clean_path := fun path => negb (bool_decide (path = ""));
|}.
#[export] Instance server_laws : WebhookServerLaws (option (gmap string Hook)) Hook.
Proof.
  assert (forall (s : option (gmap string Hook)) path, found s path = default ∅ s !! path) as Hf.
  { intros [s|] path; [done|]. unfold found. cbn. by rewrite lookup_empty. }
  split; cbn.
  - intros [s|] path h; cbn; [done|]. by rewrite lookup_empty.
  - intros s path Hp _. rewrite Hf. destruct (default ∅ s !! path); [done|]. cbn. intros <-. done.
  - intros s path h Hn. rewrite Hf, Hn. by eexists.
Qed.
End server.
End ServerDemo.

Module WebhookWitness.
Import ApiDemo AdmissionDemo ServerDemo.
Definition frozen : ValidateUpdateFunc (W := nat) (Obj := obj) := fun o old w => (w, (o, old, Some (errors_New "immutable"))).
Definition ctl (name : string) : Controller nat obj :=
  mkController name game [] (fun _ => true) [accept; guard] [frozen] [] (fun _ => true).
Definition games : Builder nat obj := ValidatePath (MutatePath WebhookManagedBy "/mutate") "/validate".
(** A builder with one path for both webhooks, which is that of another builder. *)
Definition late : Builder nat obj := ValidatePath (MutatePath WebhookManagedBy "/mutate") "/mutate".
Definition bs : list (Builder nat obj * Controller nat obj) := [(games, ctl "games"); (late, ctl "late")].
Abbreviation Srv := (option (gmap string (Webhook nat obj unit))).
Lemma bs_clean : Forall (fun bc => clean_builder (Decoder := unit) (Srv := Srv) bc.1) bs.
Proof. repeat constructor; intros _; reflexivity. Qed.
End WebhookWitness.
Import ApiDemo AdmissionDemo WebhookWitness ServerDemo.


(** A request to update an object that the update function refuses. *)
Lemma webhooks_fail_closed_witness : exists (s : Srv) h w' r,
  completeAll bs None = Done (s, None) /\ hooks s !! "/validate" = Some h /\
  serve (fun _ : unit => AdmissionDemo.lib) tt h (mkRequest Update "ns" "" "") 3 = Done (w', r) /\ admits r = false.
Proof.
  destruct (webhooks_fail_closed (fun _ : unit => AdmissionDemo.lib) [] games (ctl "games") [(late, ctl "late")] (None : Srv))
    as (s & h & Hc & Hh & Hs).
  - exact bs_clean.
  - reflexivity.
  - discriminate.
  - constructor.
  - discriminate.
  - destruct (Hs tt (mkRequest Update "ns" "" "") 3) as (w' & r & Hr & Ha). exists s, h, w', r. split_and!; [exact Hc|exact Hh|exact Hr|].
    destruct (admits r); [|reflexivity]. destruct (proj1 Ha eq_refl) as (obj & old & [= <-] & [= <-] & Hf). exfalso. apply Hf; [reflexivity|].
    eapply fails_here. reflexivity.
Defined.

(** A builder with the same path for both its webhooks never validates: the second
    registration is skipped, and requests get the answer of the defaulting, which
    admits what the validation refuses. *)
Example shared_path_skips_validation : exists (s : Srv) h w' r,
  Complete late (Some (ctl "late")) None = Done (s, None) /\ hooks s !! validatePath late = Some h /\
  serve (fun _ : unit => AdmissionDemo.lib) tt h request 3 = Done (w', r) /\ admits r = true.
Proof. eexists _, _, _, _. split; [reflexivity|]. split; [reflexivity|]. split; reflexivity. Qed.
