(* ===== verification/Declarative.v ===== *)
(** Declarative resources: [declarative/builder.go], [transform/transform.go],
    [kustomize/kustomize.go], [kustomize/mutate.go] and [loader/*.go].

    Manifests live in a file system, are transformed, and are rendered by
    kustomize.  The file system, YAML and kustomize itself are parameters.  Maps
    that mutation functions share with their caller live in a heap. *)
From S2P Require Import Prelude.

(** ** Mutations of a kustomization *)

(** Addresses of maps, and the heap that holds them; [None] is a nil map. *)
Abbreviation ref := (option positive).
Abbreviation heap := (gmap positive (gmap string string)).

(** [types.Image] and [types.Kustomization] as the code uses them. *)
Record Image := mkImage { img_Name : string; img_NewName : string; img_NewTag : string }.
Record Kustomization := mkKustomization {
  CommonLabels : ref;
  CommonAnnotations : ref;
  Namespace : string;
  k_Resources : list string;
  Images : list Image;
  NamePrefix : string;
  NameSuffix : string;
}.

(** [MutateFunc]: it changes the kustomization and the maps in the heap. *)
Definition MutateFunc := Kustomization -> M heap Kustomization.

(** [Mutate]. *)
Fixpoint Mutate (funcs : list MutateFunc) (k : Kustomization) : M heap Kustomization :=
  match funcs with
  | [] => mret k
  | f :: funcs => k ← f k; Mutate funcs k
  end.

(** Reading a map through a reference; a nil map is empty. *)
Definition deref (h : heap) (r : ref) : gmap string string := default ∅ (r ≫= fun l => h !! l).

Section mutate.
Context `{MapRange}.

(** [for key, val := range m { target[key] = val }] for a target that is not nil. *)
Definition assignRange (m : ref) (target : positive) : M heap unit := fun h =>
  (foldl (fun h '(key, val) => alter (insert key val) target h) h (range_map (deref h m)), tt).

(** [AddCommonLabels] and [AddCommonAnnotations]: a nil map of the kustomization
    is replaced by the argument itself, which is then shared. *)
Definition AddCommonLabels (labels : ref) : MutateFunc := fun k =>
  match CommonLabels k with
  | None => mret (mkKustomization labels (CommonAnnotations k) (Namespace k) (k_Resources k) (Images k)
                    (NamePrefix k) (NameSuffix k))
  | Some l => _ ← assignRange labels l; mret k
  end.
Definition AddCommonAnnotations (annotations : ref) : MutateFunc := fun k =>
  match CommonAnnotations k with
  | None => mret (mkKustomization (CommonLabels k) annotations (Namespace k) (k_Resources k) (Images k)
                    (NamePrefix k) (NameSuffix k))
  | Some l => _ ← assignRange annotations l; mret k
  end.

(** [AddNamespace], [AddResources], [AddNamePrefix], [AddNameSuffix]. *)
Definition AddNamespace (ns : string) : MutateFunc := fun k =>
  mret (mkKustomization (CommonLabels k) (CommonAnnotations k) ns (k_Resources k) (Images k)
          (NamePrefix k) (NameSuffix k)).
Definition AddResources (resources : list string) : MutateFunc := fun k =>
  mret (mkKustomization (CommonLabels k) (CommonAnnotations k) (Namespace k) (k_Resources k ++ resources)
          (Images k) (NamePrefix k) (NameSuffix k)).
Definition AddNamePrefix (prefix : string) : MutateFunc := fun k =>
  mret (mkKustomization (CommonLabels k) (CommonAnnotations k) (Namespace k) (k_Resources k) (Images k)
          prefix (NameSuffix k)).
Definition AddNameSuffix (suffix : string) : MutateFunc := fun k =>
  mret (mkKustomization (CommonLabels k) (CommonAnnotations k) (Namespace k) (k_Resources k) (Images k)
          (NamePrefix k) suffix).

(** First loop of [AddImages]: the last image of every name, and the names in the
    order of their first occurrence. *)
Fixpoint imageLoop (images : list Image) (imageMap : gmap string Image) (sequence : list string)
  : gmap string Image * list string :=
  match images with
  | [] => (imageMap, sequence)
  | i :: images =>
    let sequence := match imageMap !! img_Name i with None => sequence ++ [img_Name i] | Some _ => sequence end in
    imageLoop images (<[img_Name i := i]> imageMap) sequence
  end.

(** Second loop: the images in the recorded sequence, all of which are in the map. *)
Definition uniqueImages (images : list Image) : list Image :=
  let '(imageMap, sequence) := imageLoop images ∅ [] in
  omap (fun n => imageMap !! n) sequence.

(** [AddImages]. *)
Definition newImages (images existing : list Image) : list Image :=
  let unique := uniqueImages images in
  filter (fun e => existsb (fun n => bool_decide (img_Name e = img_Name n)) unique = false) existing ++ unique.
Definition AddImages (images : list Image) : MutateFunc := fun k =>
  mret (mkKustomization (CommonLabels k) (CommonAnnotations k) (Namespace k) (k_Resources k)
          (newImages images (Images k)) (NamePrefix k) (NameSuffix k)).
End mutate.

(** ** Kustomize packages *)

(** The file system of kustomize: reading, writing, existence, walking a path
    (path and whether it is a directory) and creating directories; [Join] is
    [filepath.Join], [fileNames] the recognized kustomization file names. *)
Class FileSystem (FS : Type) := {
  ReadFile : FS -> string -> error + string;
  fs_WriteFile : FS -> string -> string -> FS * err;
  fs_Exists : FS -> string -> bool;
  Walk : FS -> string -> error + list (string * bool);
  fs_MkdirAll : FS -> string -> FS * err;
  fs_Join : string -> string -> string;
  fileNames : list string;
}.

(** [Kustomization.Unmarshal] followed by the post-processing and [EnforceFields]
    (its complaints), [yaml.Marshal], and a run of kustomize on a path. *)
Class KustomizeLib (FS : Type) := {
  Unmarshal : string -> M heap (error + Kustomization);
  EnforceFields : Kustomization -> list string;
  yaml_Marshal : Kustomization -> heap -> error + string;
  krusty_Run : FS -> string -> error + string;
}.

Section kustomize.
Context {FS : Type} `{FileSystem FS} `{KustomizeLib FS} `{ErrorLib}.

Definition kustomizationFile : string := "kustomization.yaml".

(** The loop of [loadKustFile]: how many names could be loaded, and the content of
    the last. *)
Fixpoint loadLoop (fs : FS) (path : string) (names : list string) (match_ : nat) (content : string) : nat * string :=
  match names with
  | [] => (match_, content)
  | kf :: names =>
    match ReadFile fs (fs_Join path kf) with
    | inr c => loadLoop fs path names (S match_) c
    | inl _ => loadLoop fs path names match_ content
    end
  end.

(** [loadKustFile] with a loader rooted at [path]. *)
Definition loadKustFile (fs : FS) (path : string) : error + string :=
  match loadLoop fs path fileNames 0 "" with
  | (0, _) => inl (errorf "unable to find kustomization file in %q" [path] [] None)
  | (1, content) => inr content
  | _ => inl (errorf "found multiple kustomization files under: %s" [path] [] None)
  end.

(** [LoadKustomization]. *)
Definition LoadKustomization (content : string) : M heap (error + Kustomization) :=
  r ← Unmarshal (FS := FS) content;
  match r with
  | inl e => mret (inl e)
  | inr k =>
    match EnforceFields (FS := FS) k with
    | [] => mret (inr k)
    | errs => mret (inl (errorf "failed to read kustomization: %s" [String.concat "," errs] [] None))
    end
  end.

(** [LoadKustomizationFromPackage]. *)
Definition LoadKustomizationFromPackage (fs : FS) (path : string) : M heap (error + Kustomization) :=
  if negb (fs_Exists fs path) then mret (inl (errorf "%q path not found" [path] [] None))
  else match loadKustFile fs path with
       | inl e => mret (inl e)
       | inr kbytes => LoadKustomization kbytes
       end.

(** [WriteKustomizationInPackage]: always under the one name. *)
Definition WriteKustomizationInPackage (fs : FS) (k : Kustomization) (h : heap) (path : string) : FS * err :=
  match yaml_Marshal (FS := FS) k h with
  | inl e => (fs, Some e)
  | inr y => fs_WriteFile fs (fs_Join path kustomizationFile) y
  end.

(** [Kustomize]. *)
Definition Kustomize (fs : FS) (path : string) : error + string := krusty_Run fs path.

(** [MutateAndKustomize]: the file system, the heap and the rendered manifest. *)
Definition MutateAndKustomize (fs : FS) (funcs : list MutateFunc) (path : string) (h : heap)
  : heap * (FS * (error + string)) :=
  let '(h, r) := LoadKustomizationFromPackage fs path h in
  match r with
  | inl e => (h, (fs, inl (errorf_w "failed to load kustomization: %w" [] e)))
  | inr k =>
    let '(h, k) := Mutate funcs k h in
    let '(fs, e) := WriteKustomizationInPackage fs k h path in
    match e with
    | Some e => (h, (fs, inl (errorf_w "failed to write kustomization: %w" [] e)))
    | None => (h, (fs, Kustomize fs path))
    end
  end.

(** ** Transforms *)

Context {Node : Type} (yaml_Parse : string -> error + Node) (node_String : Node -> error + string)
  `{MapRange}.

(** [TransformFunc]: a node is a pointer, the function returns it changed. *)
Definition TransformFunc := Node -> Node * err.

(** One of the loops over the functions of a manifest. *)
Fixpoint runTransforms (manifest : string) (ts : list TransformFunc) (obj : Node) : Node * err :=
  match ts with
  | [] => (obj, None)
  | t :: ts =>
    match t obj with
    | (obj, Some e) => (obj, Some (errorf_w "failed to transform %q: %w" [manifest] e))
    | (obj, None) => runTransforms manifest ts obj
    end
  end.

(** The body of [Transform] for one manifest. *)
Definition transformOne (fs : FS) (manifest : string) (transforms common : list TransformFunc) : FS * err :=
  match ReadFile fs manifest with
  | inl e => (fs, Some e)
  | inr o =>
    match yaml_Parse o with
    | inl e => (fs, Some e)
    | inr obj =>
      match runTransforms manifest transforms obj with
      | (_, Some e) => (fs, Some e)
      | (obj, None) =>
        match runTransforms manifest common obj with
        | (_, Some e) => (fs, Some e)
        | (obj, None) =>
          match node_String obj with
          | inl e => (fs, Some e)
          | inr r => fs_WriteFile fs manifest r
          end
        end
      end
    end
  end.

(** [Transform] over the manifests in the order of the map range. *)
Fixpoint transformAll (fs : FS) (mt : list (string * list TransformFunc)) (common : list TransformFunc) : FS * err :=
  match mt with
  | [] => (fs, None)
  | (manifest, transforms) :: mt =>
    match transformOne fs manifest transforms common with
    | (fs, Some e) => (fs, Some e)
    | (fs, None) => transformAll fs mt common
    end
  end.
Definition Transform (fs : FS) (mt : gmap string (list TransformFunc)) (common : list TransformFunc) : FS * err :=
  transformAll fs (range_map mt) common.

(** ** Builder *)

(** [IsKustomization]. *)
Definition IsKustomization (path : string) : bool := existsb (fun name => HasSuffix path name) fileNames.

(** [ManifestTransformForPackage]. *)
Definition ManifestTransformForPackage (fs : FS) (packageName : string) : error + gmap string (list TransformFunc) :=
  match Walk fs packageName with
  | inl e => inl (Wrapf e "failed accessing path %q" [packageName])
  | inr entries =>
    inr (foldl (fun mt '(path, isDir) =>
           if (isDir : bool) then mt else if negb (IsKustomization path) then <[path := []]> mt else mt) ∅ entries)
  end.

(** The callback of [DeepCopy] on the entries of the walk. *)
Fixpoint copyEntries (fs1 fs2 : FS) (entries : list (string * bool)) : FS * err :=
  match entries with
  | [] => (fs2, None)
  | (path, true) :: entries =>
    match fs_MkdirAll fs2 path with
    | (fs2, Some e) => (fs2, Some e)
    | (fs2, None) => copyEntries fs1 fs2 entries
    end
  | (path, false) :: entries =>
    match ReadFile fs1 path with
    | inl e => (fs2, Some e)
    | inr content =>
      match fs_WriteFile fs2 path content with
      | (fs2, Some e) => (fs2, Some e)
      | (fs2, None) => copyEntries fs1 fs2 entries
      end
    end
  end.

(** [DeepCopy]. *)
Definition DeepCopy (fs1 fs2 : FS) : FS * err :=
  match Walk fs1 "/" with
  | inl e => (fs2, Some e)
  | inr entries => copyEntries fs1 fs2 entries
  end.

(** The configuration a builder's options give it. *)
Record BuildOptions := mkBuildOptions {
  manifestTransform : gmap string (list TransformFunc);
  commonTransforms : list TransformFunc;
  kMutateFuncs : list MutateFunc;
}.

(** The options of a builder, applied to one without transforms and mutations. *)
Definition BuilderOption := BuildOptions -> BuildOptions.
Definition WithManifestTransform (mt : gmap string (list TransformFunc)) : BuilderOption := fun b =>
  mkBuildOptions mt (commonTransforms b) (kMutateFuncs b).
Definition WithCommonTransforms (ts : list TransformFunc) : BuilderOption := fun b =>
  mkBuildOptions (manifestTransform b) ts (kMutateFuncs b).
Definition WithKustomizeMutationFunc (fs : list MutateFunc) : BuilderOption := fun b =>
  mkBuildOptions (manifestTransform b) (commonTransforms b) fs.
Definition applyOptions (opts : list BuilderOption) : BuildOptions :=
  foldl (fun b opt => opt b) (mkBuildOptions ∅ [] []) opts.

(** [NewBuilder] with the options applied: the built manifest; [emptyFS] is [filesys.MakeFsInMemory()]. *)
Definition NewBuilder (emptyFS : FS) (packageName : string) (fs : FS) (o : BuildOptions) (h : heap)
  : heap * (error + string) :=
  match DeepCopy fs emptyFS with
  | (_, Some e) => (h, inl (Wrapf e "failed to create a copy of the filesystem" []))
  | (fs, None) =>
    let '(fs, e) := if bool_decide (0 < size (manifestTransform o)) then Transform fs (manifestTransform o) []
                    else (fs, None) in
    match e with
    | Some e => (h, inl (Wrapf e "failed to transform package %q" [packageName]))
    | None =>
      let common :=
        if bool_decide (0 < length (commonTransforms o)) then
          match ManifestTransformForPackage fs packageName with
          | inl e => inl (Wrapf e "failed to get ManifestTransform for package %q" [packageName])
          | inr mt =>
            match Transform fs mt (commonTransforms o) with
            | (_, Some e) => inl (Wrapf e "failed to transform package %q" [packageName])
            | (fs, None) => inr fs
            end
          end
        else inr fs in
      match common with
      | inl e => (h, inl e)
      | inr fs =>
        match MutateAndKustomize fs (kMutateFuncs o) packageName h with
        | (h, (_, inl e)) => (h, inl (Wrapf e "failed to mutate and kustomization package %q" [packageName]))
        | (h, (_, inr m)) => (h, inr m)
        end
      end
    end
  end.

(** [Builder.Apply] and [Builder.Delete]; the argument is the kubectl method. *)
Definition b_Apply {W} (manifest : string) (kubectl_Apply : string -> M W err) : M W err :=
  if bool_decide (manifest = "") then mret None else kubectl_Apply manifest.
Definition b_Delete {W} (manifest : string) (kubectl_Delete : string -> M W err) : M W err :=
  if bool_decide (manifest = "") then mret None else kubectl_Delete manifest.
End kustomize.

(** ** Properties of the mutations *)

(** The images of a name. *)
Abbreviation named n := (filter (fun i => img_Name i = n)).

(** What the first loop of [AddImages] holds after the images [l]. *)
Lemma imageLoop_spec images : forall l m s,
  (forall n, m !! n = last (named n l)) -> NoDup s -> (forall n, n ∈ s <-> is_Some (m !! n)) ->
  let '(m', s') := imageLoop images m s in
  (forall n, m' !! n = last (named n (l ++ images))) /\ NoDup s' /\ (forall n, n ∈ s' <-> is_Some (m' !! n)).
Proof.
  induction images as [|i images IH]; intros l m s Hm Hnd Hs; cbn [imageLoop]; [by rewrite app_nil_r|].
  set (s1 := match m !! img_Name i with Some _ => s | None => s ++ [img_Name i] end).
  specialize (IH (l ++ [i]) (<[img_Name i := i]> m) s1).
  destruct (imageLoop images (<[img_Name i := i]> m) s1) as [m' s'].
  rewrite <- app_assoc in IH. cbn in IH. apply IH.
  - intros n. rewrite filter_app, filter_cons, filter_nil. destruct (decide (img_Name i = n)) as [<-|Hne].
    + by rewrite lookup_insert_eq, last_snoc.
    + by rewrite lookup_insert_ne, app_nil_r.
  - unfold s1. destruct (m !! img_Name i) eqn:Hi; [done|]. apply NoDup_app. split_and!; [done| |apply NoDup_singleton].
    intros n Hn Hin%list_elem_of_singleton. subst. apply Hs in Hn. rewrite Hi in Hn. by destruct Hn.
  - intros n. destruct (decide (img_Name i = n)) as [<-|Hne].
    + rewrite lookup_insert_eq. split; [eauto|]. intros _. unfold s1.
      destruct (m !! img_Name i) eqn:Hi; [apply Hs; eauto|set_solver].
    + rewrite lookup_insert_ne, <- Hs by done. unfold s1. destruct (m !! img_Name i); set_solver.
Qed.

Lemma named_last n l i : last (named n l) = Some i -> img_Name i = n /\ i ∈ l.
Proof.
  intros Hl. apply last_Some_elem_of in Hl. by apply list_elem_of_filter in Hl.
Qed.

Lemma uniqueImages_spec images :
  NoDup (img_Name <$> uniqueImages images) /\
  forall n i, i ∈ uniqueImages images /\ img_Name i = n <-> last (named n images) = Some i.
Proof.
  unfold uniqueImages. pose proof (imageLoop_spec images [] ∅ []) as Hl.
  destruct (imageLoop images ∅ []) as [m s].
  destruct Hl as (Hm & Hnd & Hs); [done|constructor|intros n; rewrite lookup_empty; split; [by intros ?%elem_of_nil|by intros []]|].
  cbn in Hm. split.
  - assert (img_Name <$> omap (fun n => m !! n) s = s) as ->; [|done].
    assert (Forall (fun n => is_Some (m !! n)) s) as Hall by (apply Forall_forall; intros n; apply Hs).
    clear - Hall Hm. induction Hall as [|n s [i Hi] _ IH]; [done|]. cbn. rewrite Hi. cbn. rewrite IH. f_equal.
    rewrite Hm in Hi. by apply named_last in Hi as [].
  - intros n i. rewrite list_elem_of_omap. setoid_rewrite Hm. split.
    + intros [(n' & Hn' & Hl) <-]. by apply named_last in Hl as Hl'; destruct Hl' as [-> _].
    + intros Hl. pose proof (named_last _ _ _ Hl) as [Hn _]. split; [|done]. exists n. split; [|done].
      apply Hs. rewrite Hm, Hl. eauto.
Qed.

(** [AddImages] keeps, in order, the images whose name is not among the new
    ones, and then has one entry per new name: the last one given for it. *)
Theorem newImages_spec images existing :
  exists unique, newImages images existing =
      filter (fun e => img_Name e ∉ img_Name <$> images) existing ++ unique /\
    NoDup (img_Name <$> unique) /\
    forall n i, i ∈ unique /\ img_Name i = n <-> last (named n images) = Some i.
Proof.
  destruct (uniqueImages_spec images) as [Hnd Hu]. exists (uniqueImages images). split; [|done].
  unfold newImages. f_equal. apply list_filter_ext. intros e _. rewrite <- not_true_iff_false.
  apply not_iff_compat. rewrite existsb_exists. setoid_rewrite bool_decide_eq_true.
  setoid_rewrite <- list_elem_of_In. split.
  - intros (i & Hi & Heq). destruct (proj1 (Hu (img_Name i) i) (conj Hi eq_refl)) as [].
    destruct (named_last _ _ _ (proj1 (Hu (img_Name i) i) (conj Hi eq_refl))) as [_ Hin].
    rewrite Heq. by apply list_elem_of_fmap_2.
  - intros Hin. apply list_elem_of_fmap in Hin as (j & Hj & Hin).
    destruct (last (named (img_Name e) images)) as [i|] eqn:Hl.
    + exists i. destruct (proj2 (Hu (img_Name e) i) Hl) as [Hi Hn]. by split.
    + apply last_None in Hl. exfalso. apply list_filter_nil_iff in Hl. rewrite Forall_forall in Hl.
      by apply (Hl j Hin).
Qed.

Lemma foldl_alter_insert (l : list (string * string)) t (h : heap) m : h !! t = Some m ->
  foldl (fun h '(key, val) => alter (insert key val) t h) h l = <[t := foldl (fun m '(k, v) => <[k := v]> m) m l]> h.
Proof.
  revert h m. induction l as [|[k v] l IH]; intros h m Ht; cbn; [by rewrite insert_id|].
  rewrite (IH _ (<[k := v]> m)); [|by rewrite lookup_alter_eq, Ht].
  apply map_eq. intros i. destruct (decide (i = t)) as [->|]; [by rewrite !lookup_insert_eq|].
  by rewrite !lookup_insert_ne, lookup_alter_ne by done.
Qed.

Section alias.
Context `{MapRangeLaws}.

(** Adding labels twice gives the kustomization the union of both maps, the
    second taking precedence; but the map it uses is the one the caller passed
    first, which the second addition has changed too. *)
Theorem AddCommonLabels_shares k (l1 l2 : positive) (h : heap) m1 m2 :
  CommonLabels k = None -> h !! l1 = Some m1 -> h !! l2 = Some m2 ->
  exists h' k', Mutate [AddCommonLabels (Some l1); AddCommonLabels (Some l2)] k h = (h', k') /\
    deref h' (CommonLabels k') = m2 ∪ m1 /\ CommonLabels k' = Some l1 /\ h' = <[l1 := m2 ∪ m1]> h.
Proof.
  intros Hk H1 H2. cbn [Mutate]. unfold AddCommonLabels, mbind, M_bind. rewrite Hk. cbn.
  unfold mret, M_ret, assignRange. cbn. unfold mbind, M_bind. cbn.
  eexists _, _. split; [reflexivity|]. unfold deref. cbn. rewrite H2. cbn.
  rewrite (foldl_alter_insert _ l1 h m1 H1). fold (assignAll m2 m1). rewrite assignAll_union.
  rewrite lookup_insert_eq. done.
Qed.
End alias.

(** ** Properties of packages *)

(** Documented behaviour: a written file reads back, and the files of the same
    directory with other recognized names are not touched; the recognized names are
    distinct and contain the one the code writes; kustomize refuses a directory
    with more than one kustomization file. *)
Class PackageLaws (FS : Type) `{FileSystem FS} `{KustomizeLib FS} : Prop := {
  ReadFile_WriteFile : forall fs p y fs', fs_WriteFile fs p y = (fs', None) -> ReadFile fs' p = inr y;
  ReadFile_other : forall fs p f g y fs', fs_WriteFile fs (fs_Join p f) y = (fs', None) -> f ∈ fileNames -> g ∈ fileNames ->
    g <> f -> ReadFile fs' (fs_Join p g) = ReadFile fs (fs_Join p g);
  fileNames_NoDup : NoDup fileNames;
  fileNames_default : kustomizationFile ∈ fileNames;
  krusty_multiple : forall fs p f g c d, f ∈ fileNames -> g ∈ fileNames -> f <> g ->
    ReadFile fs (fs_Join p f) = inr c -> ReadFile fs (fs_Join p g) = inr d -> exists e, krusty_Run fs p = inl e;
}.

Section packages.
Context {FS : Type} `{PackageLaws FS} `{ErrorLib}.

(** The names of the package that can be loaded. *)
Definition loadable (fs : FS) (path : string) (kf : string) : bool :=
  match ReadFile fs (fs_Join path kf) with inr _ => true | inl _ => false end.

Lemma loadLoop_count fs path names : forall n c,
  fst (loadLoop fs path names n c) = n + length (filter (fun kf => loadable fs path kf = true) names).
Proof.
  induction names as [|kf names IH]; intros n c; cbn [loadLoop]; [cbn; lia|]. rewrite filter_cons.
  destruct (decide (loadable fs path kf = true)) as [Hb|Hb]; unfold loadable in Hb;
    destruct (ReadFile fs (fs_Join path kf)) as [e|c']; try done; rewrite IH; cbn; lia.
Qed.

(** A package loads only when exactly one of the recognized names can be read. *)
Lemma loadKustFile_one fs path content : loadKustFile fs path = inr content ->
  exists kf c, kf ∈ fileNames /\ ReadFile fs (fs_Join path kf) = inr c.
Proof.
  unfold loadKustFile. pose proof (loadLoop_count fs path fileNames 0 "") as Hc.
  destruct (loadLoop fs path fileNames 0 "") as [[|[|n]] c0]; try done. intros _. cbn in Hc.
  destruct (filter (fun kf => loadable fs path kf = true) fileNames) as [|kf l] eqn:Hf; [done|].
  assert (kf ∈ filter (fun kf => loadable fs path kf = true) fileNames) as Hin by (rewrite Hf; by left).
  apply list_elem_of_filter in Hin as [Hl Hin]. unfold loadable in Hl.
  destruct (ReadFile fs (fs_Join path kf)) as [|c] eqn:Hr; [done|]. by exists kf, c.
Qed.

(** A package without a file named kustomization.yaml cannot be built, even
    when its kustomization has another recognized name: the mutated kustomization
    is written beside the existing file, and kustomize then refuses the two
    files. *)
Theorem MutateAndKustomize_other_name fs funcs path h :
  (exists c, ReadFile fs (fs_Join path kustomizationFile) = inl c) ->
  exists h' fs' e, MutateAndKustomize fs funcs path h = (h', (fs', inl e)).
Proof.
  intros [c0 Hno]. unfold MutateAndKustomize, LoadKustomizationFromPackage.
  destruct (fs_Exists fs path); cbn; [|by repeat eexists].
  destruct (loadKustFile fs path) as [e|content] eqn:Hl; [by repeat eexists|].
  destruct (loadKustFile_one fs path content Hl) as (kf & c & Hkf & Hr).
  destruct (LoadKustomization content h) as [h1 [e|k]]; [by repeat eexists|].
  destruct (Mutate funcs k h1) as [h2 k2]. unfold WriteKustomizationInPackage.
  destruct (yaml_Marshal k2 h2) as [e|y]; [by repeat eexists|].
  destruct (fs_WriteFile fs (fs_Join path kustomizationFile) y) as [fs' [e|]] eqn:Hw; [by repeat eexists|].
  assert (kf <> kustomizationFile) as Hne by (intros ->; congruence).
  destruct (krusty_multiple fs' path kf kustomizationFile c y) as [e He].
  - done.
  - apply fileNames_default.
  - done.
  - by rewrite (ReadFile_other _ _ _ _ _ _ Hw (fileNames_default) Hkf Hne).
  - by eapply ReadFile_WriteFile.
  - unfold Kustomize. rewrite He. by repeat eexists.
Qed.
End packages.

(** ** Witnesses *)

(** A file system is a map from paths to contents; kustomize renders the one
    kustomization file it finds. *)
Module DeclDemo.
#[export] Instance fs : FileSystem (gmap string string) := {|
  ReadFile := fun f p => match f !! p with Some c => inr c | None => inl (errors_New "not found") end;
  fs_WriteFile := fun f p c => (<[p := c]> f, None);
  fs_Exists := fun f p => true;
  Walk := fun f p => inr ((fun e => (e.1, false)) <$> map_to_list f);
  fs_MkdirAll := fun f p => (f, None);
  fs_Join := fun p f => p +:+ "/" +:+ f;
  fileNames := ["kustomization.yaml"; "kustomization.yml"; "Kustomization"];
|}.
Definition empty_kustomization : Kustomization := mkKustomization None None "" [] [] "" "".
#[export] Instance lib : KustomizeLib (gmap string string) := {|
  Unmarshal := fun c h => (h, inr empty_kustomization);
  EnforceFields := fun k => [];
  yaml_Marshal := fun k h => inr "kustomization";
  krusty_Run := fun f p => match loadKustFile f p with inl e => inl e | inr c => inr ("rendered " +:+ c) end;
|}.
#[export] Instance laws : PackageLaws (gmap string string).
Proof.
  split.
  - intros f p y f' [= <-]. cbn. by rewrite lookup_insert_eq.
  - intros f p a b y f' [= <-] _ _ Hne. cbn. rewrite lookup_insert_ne; [done|]. intros Heq. apply Hne. by apply append_inj in Heq; simplify_eq.
  - apply (bool_decide_unpack _). vm_compute. exact I.
  - by left.
  - intros f p a b c d Ha Hb Hne Hra Hrb. cbn [krusty_Run lib].
    destruct (loadKustFile f p) as [e|content] eqn:Hl; [eauto|]. exfalso. revert Hl. unfold loadKustFile.
    pose proof (loadLoop_count f p fileNames 0 "") as Hc.
    assert (2 <= length (filter (fun kf => loadable f p kf = true) fileNames)) as H2.
    { apply (submseteq_length [a; b]), NoDup_submseteq; [by apply NoDup_cons; split; [set_solver|apply NoDup_singleton]|].
      intros x. rewrite !elem_of_cons, elem_of_nil, list_elem_of_filter. unfold loadable.
      intros [->|[->|[]]]; [by rewrite Hra|by rewrite Hrb]. }
    destruct (loadLoop f p fileNames 0 "") as [[|[|n]] c0]; cbn [fst] in Hc; [lia|lia|done].
Qed.
Definition package (name : string) : gmap string string := {["app/" +:+ name := "kustomization"]}.

(** With the default name the same package builds. *)
Example default_name : exists h f, MutateAndKustomize (package "kustomization.yaml") [AddNamespace "ns"] "app" ∅
  = (h, (f, inr "rendered kustomization")).
Proof. eexists _, _. vm_compute. reflexivity. Qed.
End DeclDemo.

Import RefErrors RefRange DeclDemo.

Lemma AddCommonLabels_shares_witness :
  exists h' k', Mutate [AddCommonLabels (Some 1%positive); AddCommonLabels (Some 2%positive)] empty_kustomization
      {[1%positive := {["a" := "1"]}; 2%positive := {["b" := "2"]}]} = (h', k') /\
    deref h' (CommonLabels k') = {["b" := "2"]} ∪ {["a" := "1"]} /\ CommonLabels k' = Some 1%positive /\
    h' = <[1%positive := {["b" := "2"]} ∪ {["a" := "1"]}]> {[1%positive := {["a" := "1"]}; 2%positive := {["b" := "2"]}]}.
Proof.
  exact (AddCommonLabels_shares empty_kustomization 1 2 {[1%positive := {["a" := "1"]}; 2%positive := {["b" := "2"]}]}
    {["a" := "1"]} {["b" := "2"]} eq_refl eq_refl eq_refl).
Defined.

Lemma MutateAndKustomize_other_name_witness :
  exists h' fs' e, MutateAndKustomize (package "Kustomization") [AddNamespace "ns"] "app" ∅ = (h', (fs', inl e)).
Proof.
  apply (MutateAndKustomize_other_name (package "Kustomization") [AddNamespace "ns"] "app" ∅).
  eexists. vm_compute. reflexivity.
Defined.
