(* ===== verification/Cache.v ===== *)
(** The cache of external objects: [cache/informer/cache_reader.go],
    [cache/informer/informersmap.go], [cache/informer_cache.go], [cache/cache.go],
    [cache/listwatcher.go] and the client
    that reads through it, [client/composite/client.go].

    An informers map creates one informer per kind on demand.  Its callers run
    concurrently, so [Get] and [Start] are also given as threads whose steps are
    the critical sections of the code.  A reader answers from the index of an
    informer, and the composite client asks the API server for what is missing
    there. *)
From S2P Require Import Prelude Object.

(** ** Keys *)

Definition objectKeyToStoreKey (k : NamespacedName) : string :=
  if bool_decide (NNNamespace k = "") then NNName k else NNNamespace k +:+ "/" +:+ NNName k.
Definition FieldIndexName (field : string) : string := "field:" +:+ field.
Definition allNamespacesNamespace : string := "__all_namespaces".
Definition KeyToNamespacedKey (ns baseKey : string) : string :=
  if negb (bool_decide (ns = "")) then ns +:+ "/" +:+ baseKey
  else allNamespacesNamespace +:+ "/" +:+ baseKey.

(** [fields.Requirement]; the operators are [selection.Equals] and
    [selection.DoubleEquals] among others. *)
Record Requirement := mkRequirement { req_Operator : string; req_Field : string; req_Value : string }.
Definition Equals : string := "=".
Definition DoubleEquals : string := "==".

(** [requiresExactMatch], on the requirements of the selector. *)
Definition requiresExactMatch (reqs : list Requirement) : string * string * bool :=
  match reqs with
  | [req] =>
    if negb (bool_decide (req_Operator req = Equals)) && negb (bool_decide (req_Operator req = DoubleEquals))
    then ("", "", false)
    else (req_Field req, req_Value req, true)
  | _ => ("", "", false)
  end.

(** [client.ListOptions] after all options are applied. *)
Record ListOptions := mkListOptions {
  FieldSelector : option (list Requirement);
  opt_Namespace : string;
  LabelSelector : option (gmap string string -> bool);
}.

(** What an index holds: objects, or values of another type. *)
Inductive item (Obj : Type) := CObject (o : Obj) | NotObject (typ : string).
Arguments CObject {Obj}. Arguments NotObject {Obj}.

(** [cache.Indexer] at one moment. *)
Record Indexer (Obj : Type) := mkIndexer {
  GetByKey : string -> error + option (item Obj);
  ByIndex : string -> string -> error + list (item Obj);
  ListItems : list (item Obj);
}.
Arguments mkIndexer {Obj}. Arguments GetByKey {Obj}. Arguments ByIndex {Obj}. Arguments ListItems {Obj}.

(** What the cache uses of objects, lists and their types: the Go type of an
    object, setting its kind, its labels, [apiutil.GVKForObject] for an object
    and for a list, the element a list type is cached as, [apimeta.SetList] and
    [errors.NewNotFound]. *)
Class CacheLib (Obj OList : Type) := {
  go_type : Obj -> string;
  SetGroupVersionKind : GVK -> Obj -> Obj;
  ObjLabels : Obj -> gmap string string;
  GVKFor : Obj -> error + GVK;
  GVKForList : OList -> error + GVK;
  listElement : OList -> error + Obj;
  SetList : OList -> list Obj -> error + OList;
  NewNotFound : string -> string -> string -> error;
}.

Definition RESTScopeNameRoot : string := "root".
Definition RESTScopeNameNamespace : string := "namespace".
Definition NamespaceIndex : string := "namespace".

(** [type CacheReader struct]; [indexer] is the informer whose indexer it wraps. *)
Record CacheReader := mkCacheReader { indexer : nat; groupVersionKind : GVK; scopeName : string }.

Section reader.
Context {Obj OList : Type} `{MetaLib Obj OList} `{CacheLib Obj OList}.

(** [CacheReader.Get] on the indexer [ix]: what is left in [out], and the error. *)
Definition cr_Get (ix : Indexer Obj) (c : CacheReader) (key : NamespacedName) (out : Obj) : Obj * err :=
  let key := if bool_decide (scopeName c = RESTScopeNameRoot) then mkNN "" (NNName key) else key in
  let storeKey := objectKeyToStoreKey key in
  match GetByKey ix storeKey with
  | inl e => (out, Some e)
  | inr None => (out, Some (NewNotFound (Obj := Obj) (OList := OList) (gvk_Group (groupVersionKind c))
                              (gvk_Kind (groupVersionKind c)) (NNName key)))
  | inr (Some (NotObject t)) => (out, Some (errorf "cache contained %T, which is not an Object" [t] [] None))
  | inr (Some (CObject obj)) =>
    if negb (bool_decide (go_type obj = go_type out)) then
      (out, Some (errorf "cache had type %s, but %s was asked for" [go_type obj; go_type out] [] None))
    else (SetGroupVersionKind (groupVersionKind c) obj, None)
  end.

(** The items [CacheReader.List] selects from the indexer. *)
Definition listItems (ix : Indexer Obj) (listOpts : ListOptions) : error + list (item Obj) :=
  match FieldSelector listOpts with
  | Some sel =>
    let '(field, val, requiresExact) := requiresExactMatch sel in
    if negb requiresExact then inl (errors_New "non-exact field matches are not supported by the cache")
    else ByIndex ix (FieldIndexName field) (KeyToNamespacedKey (opt_Namespace listOpts) val)
  | None =>
    if negb (bool_decide (opt_Namespace listOpts = "")) then ByIndex ix NamespaceIndex (opt_Namespace listOpts)
    else inr (ListItems ix)
  end.

(** The loop of [CacheReader.List]. *)
Fixpoint listLoop (gvk : GVK) (labelSel : option (gmap string string -> bool)) (objs : list (item Obj))
  : error + list Obj :=
  match objs with
  | [] => inr []
  | NotObject t :: _ => inl (errorf "cache contained %T, which is not an Object" [t] [] None)
  | CObject obj :: objs =>
    match Accessor obj with
    | inl e => inl e
    | inr _ =>
      let rest := listLoop gvk labelSel objs in
      if match labelSel with Some sel => negb (sel (ObjLabels obj)) | None => false end then rest
      else match rest with
           | inl e => inl e
           | inr os => inr (SetGroupVersionKind gvk obj :: os)
           end
    end
  end.

(** [CacheReader.List]: what is left in [out], and the error. *)
Definition cr_List (ix : Indexer Obj) (c : CacheReader) (out : OList) (listOpts : ListOptions) : OList * err :=
  match listItems ix listOpts with
  | inl e => (out, Some e)
  | inr objs =>
    match listLoop (groupVersionKind c) (LabelSelector listOpts) objs with
    | inl e => (out, Some e)
    | inr runtimeObjs =>
      match SetList out runtimeObjs with inl e => (out, Some e) | inr l => (l, None) end
    end
  end.

(** The index function of [indexByField]: an object with a namespace is also
    indexed under the name for all namespaces. *)
Definition indexFunc (extractor : Obj -> list string) (objRaw : item Obj) : error + list string :=
  match objRaw with
  | NotObject t => inl (errorf "object of type %T is not an Object" [t] [] None)
  | CObject obj =>
    match Accessor obj with
    | inl e => inl e
    | inr meta =>
      let ns := NNNamespace meta in
      let rawVals := extractor obj in
      if bool_decide (ns = "") then inr (KeyToNamespacedKey ns <$> rawVals)
      else inr ((KeyToNamespacedKey ns <$> rawVals) ++ (KeyToNamespacedKey "" <$> rawVals))
    end
  end.
End reader.

(** ** The informers map *)

(** [cache.SharedIndexInformer] and the package functions on informers, which
    are numbered in the order of their creation; [createListWatcher] is the
    function the map is configured with. *)
Class InformerLib (W Obj : Type) := {
  GetIndexer : nat -> W -> Indexer Obj;
  HasSynced : nat -> W -> bool;
  WaitForCacheSync : nat -> M W bool;
  AddIndexers : nat -> string -> (item Obj -> error + list string) -> M W err;
  NewTimeoutError : GVK -> error;
  createListWatcher : GVK -> string -> M W err;
}.

(** [type MapEntry struct]. *)
Record MapEntry := mkMapEntry { Informer : nat; Reader : CacheReader }.

(** [type InformersMap struct]: the map, whether it was started, whether the
    channel [startWait] is closed, and the namespace. *)
Record InformersMap := mkInformersMap {
  informersByGVK : gmap GVK MapEntry;
  started : bool;
  startWait : bool;
  im_namespace : string;
}.

(** What all callers share: the map, the rest of the world, the kinds of the
    informers in the order of their creation, and the informers whose [Run] was
    started. *)
Record CacheState (W : Type) := mkCacheState {
  im : InformersMap; env : W; created : list GVK; runs : list nat
}.
Arguments mkCacheState {W}. Arguments im {W}. Arguments env {W}. Arguments created {W}. Arguments runs {W}.

(** [NewInformersMap]. *)
Definition NewInformersMap (namespace : string) : InformersMap := mkInformersMap ∅ false false namespace.

Section informers.
Context {W Obj : Type} `{InformerLib W Obj}.
Local Abbreviation St := (CacheState W).

(** The first critical section of [InformersMap.Get]. *)
Definition lookupInformer (gvk : GVK) (s : St) : option MapEntry * bool :=
  (informersByGVK (im s) !! gvk, started (im s)).

(** [addInformerToMap], one critical section. *)
Definition addInformerToMap (gvk : GVK) : M St (bool * (error + MapEntry)) := fun s =>
  let m := im s in
  match informersByGVK m !! gvk with
  | Some i => (s, (started m, inr i))
  | None =>
    match createListWatcher gvk (im_namespace m) (env s) with
    | (e, Some x) => (mkCacheState m e (created s) (runs s), (false, inl x))
    | (e, None) =>
      let ni := length (created s) in
      let scope := if bool_decide (im_namespace m = "") then RESTScopeNameRoot else RESTScopeNameNamespace in
      let i := mkMapEntry ni (mkCacheReader ni gvk scope) in
      (mkCacheState (mkInformersMap (<[gvk := i]> (informersByGVK m)) (started m) (startWait m) (im_namespace m)) e
         (created s ++ [gvk]) (if started m then runs s ++ [ni] else runs s),
       (started m, inr i))
    end
  end.

(** The end of [InformersMap.Get]: waiting for a started informer. *)
Definition waitSynced (gvk : GVK) (started_ : bool) (i : MapEntry) : M St (bool * (error + MapEntry)) := fun s =>
  if started_ && negb (HasSynced (Informer i) (env s)) then
    let '(e, ok) := WaitForCacheSync (Informer i) (env s) in
    let s := mkCacheState (im s) e (created s) (runs s) in
    if (ok : bool) then (s, (started_, inr i)) else (s, (started_, inl (NewTimeoutError (W := W) (Obj := Obj) gvk)))
  else (s, (started_, inr i)).

(** [InformersMap.Get]; the entry is nil exactly when there is an error. *)
Definition im_Get (gvk : GVK) : M St (bool * (error + MapEntry)) := fun s =>
  match lookupInformer gvk s with
  | (Some i, started_) => waitSynced gvk started_ i s
  | (None, _) =>
    match addInformerToMap gvk s with
    | (s, (started_, inl e)) => (s, (started_, inl e))
    | (s, (started_, inr i)) => waitSynced gvk started_ i s
    end
  end.

(** The goroutine of [InformersMap.Start], one critical section: it starts the
    informers of the map, in no particular order, and closes [startWait]. *)
Definition im_Start (s : St) : outcome St :=
  let m := im s in
  if startWait m then Panic "close of closed channel"
  else Done (mkCacheState (mkInformersMap (informersByGVK m) true true (im_namespace m)) (env s) (created s)
               (runs s ++ (Informer ∘ snd <$> map_to_list (informersByGVK m)))).

(** [HasSyncedFuncs]: the informers whose [HasSynced] is returned. *)
Definition HasSyncedFuncs (s : St) : list nat := Informer ∘ snd <$> map_to_list (informersByGVK (im s)).

(** [waitForStarted]: which case of the [select] proceeds, none while it blocks;
    [tie] decides when both can. *)
Definition waitForStarted (s : St) (ctx_done tie : bool) : option bool :=
  match startWait (im s), ctx_done with
  | true, false => Some true
  | false, true => Some false
  | true, true => Some tie
  | false, false => None
  end.

(** [InformersMap.WaitForCacheSync]: the informers are taken in the state [s0],
    before the wait for the start ends in the state [s]; [cache.WaitForCacheSync]
    waits for them one after the other. *)
Fixpoint waitAll (informers : list nat) (e : W) : W * bool :=
  match informers with
  | [] => (e, true)
  | i :: informers => let '(e, ok) := WaitForCacheSync i e in if (ok : bool) then waitAll informers e else (e, false)
  end.
Definition im_WaitForCacheSync (s0 s : St) (ctx_done tie : bool) : option (W * bool) :=
  let syncedFuncs := HasSyncedFuncs s0 in
  match waitForStarted s ctx_done tie with
  | None => None
  | Some false => Some (env s, false)
  | Some true => Some (waitAll syncedFuncs (env s))
  end.

(** ** Construction *)

(** [cache.Options]; the pointers may be nil, the scheme is a name. *)
Record CacheOptions := mkCacheOptions { Scheme_ : option string; Resync : option Z; Namespace_ : string }.
Definition defaultResyncTime : Z := 10 * hour.
Definition defaultOpts (opts : CacheOptions) : CacheOptions :=
  mkCacheOptions (Some (default "scheme.Scheme" (Scheme_ opts))) (Some (default defaultResyncTime (Resync opts))) (Namespace_ opts).
(** [cache.New]: the map of a new cache, with its scheme and resync period. *)
Definition cache_New (opts : CacheOptions) : string * Z * InformersMap :=
  let opts := defaultOpts opts in
  (default "" (Scheme_ opts), default 0%Z (Resync opts), NewInformersMap (Namespace_ opts)).

(** [ListWatcher.CreateListWatcherFunc]: [new] is [scheme.New], and the two
    functions of the list watch call the client. *)
Definition CreateListWatcherFunc {L : Type} (new : GVK -> error + L) (copy : L -> L)
  (list_ : string -> L -> M W (error + L)) (watch : string -> string -> M W (error + nat)) (gvk : GVK) (namespace : string)
  : error + M W (error + L) * M W (error + nat) :=
  match new (mkGVK (gvk_Group gvk) (gvk_Version gvk) (gvk_Kind gvk +:+ "List")) with
  | inl e => inl e
  | inr listObj => inr (list_ namespace (copy listObj), watch namespace (gvk_Kind gvk))
  end.

(** ** Concurrent callers *)

(** A caller of [Get] before its first, before its second critical section,
    waiting, and returned; and the goroutine of [Start]. *)
Inductive thread :=
| TGet (gvk : GVK)
| TAdd (gvk : GVK)
| TWait (gvk : GVK) (started_ : bool) (i : MapEntry)
| TGot (gvk : GVK) (r : bool * (error + MapEntry))
| TStart
| TStarted
| TPanic.

(** One step of a thread. *)
Definition thread_step (t : thread) (s : St) : thread * St :=
  match t with
  | TGet gvk =>
    match lookupInformer gvk s with
    | (Some i, started_) => (TWait gvk started_ i, s)
    | (None, _) => (TAdd gvk, s)
    end
  | TAdd gvk =>
    match addInformerToMap gvk s with
    | (s, (started_, inl e)) => (TGot gvk (started_, inl e), s)
    | (s, (started_, inr i)) => (TWait gvk started_ i, s)
    end
  | TWait gvk started_ i => let '(s, r) := waitSynced gvk started_ i s in (TGot gvk r, s)
  | TStart => match im_Start s with Done s => (TStarted, s) | _ => (TPanic, s) end
  | t => (t, s)
  end.

(** A schedule is the list of the threads that move. *)
Definition sched_step (c : list thread * St) (j : nat) : list thread * St :=
  match c.1 !! j with
  | Some t => let '(t, s) := thread_step t c.2 in (<[j := t]> c.1, s)
  | None => c
  end.
Definition schedule (sched : list nat) (c : list thread * St) : list thread * St := foldl sched_step c sched.

(** ** The informer cache *)

Context {OList : Type} `{MetaLib Obj OList} `{CacheLib Obj OList}.

(** [crCache.ErrCacheNotStarted]. *)
Definition ErrCacheNotStarted : error := extError "cache.ErrCacheNotStarted" "the cache is not started, can not read objects" [].

(** [informerCache.Get]. *)
Definition ic_Get (key : NamespacedName) (out : Obj) : M St (Obj * err) := fun s =>
  match GVKFor (OList := OList) out with
  | inl e => (s, (out, Some e))
  | inr gvk =>
    match im_Get gvk s with
    | (s, (_, inl e)) => (s, (out, Some e))
    | (s, (started_, inr cache)) =>
      if negb started_ then (s, (out, Some ErrCacheNotStarted))
      else (s, cr_Get (OList := OList) (GetIndexer (indexer (Reader cache)) (env s)) (Reader cache) key out)
    end
  end.

(** [objectTypeForListObject]: the kind and the element of a list. *)
Definition objectTypeForListObject (list : OList) : error + GVK * Obj :=
  match GVKForList (Obj := Obj) list with
  | inl e => inl e
  | inr gvk =>
    if negb (HasSuffix (gvk_Kind gvk) "List") then
      inl (errorf "non-list type %T (kind %q) passed as output" [gvk_Kind gvk] [] None)
    else
      let gvk := mkGVK (gvk_Group gvk) (gvk_Version gvk)
                   (String.substring 0 (String.length (gvk_Kind gvk) - 4) (gvk_Kind gvk)) in
      match listElement list with
      | inl e => inl e
      | inr obj => inr (gvk, obj)
      end
  end.

(** [informerCache.List]. *)
Definition ic_List (out : OList) (opts : ListOptions) : M St (OList * err) := fun s =>
  match objectTypeForListObject out with
  | inl e => (s, (out, Some e))
  | inr (gvk, _) =>
    match im_Get gvk s with
    | (s, (_, inl e)) => (s, (out, Some e))
    | (s, (started_, inr cache)) =>
      if negb started_ then (s, (out, Some ErrCacheNotStarted))
      else (s, cr_List (GetIndexer (indexer (Reader cache)) (env s)) (Reader cache) out opts)
    end
  end.

(** [GetInformerForKind]; [schemeNew] is [Scheme.New], of which only the error
    matters. *)
Definition GetInformerForKind (schemeNew : GVK -> err) (gvk : GVK) : M St (error + nat) := fun s =>
  match schemeNew gvk with
  | Some e => (s, inl e)
  | None => let '(s, (_, r)) := im_Get gvk s in (s, match r with inl e => inl e | inr i => inr (Informer i) end)
  end.

(** [GetInformer]. *)
Definition GetInformer (obj : Obj) : M St (error + nat) := fun s =>
  match GVKFor (OList := OList) obj with
  | inl e => (s, inl e)
  | inr gvk => let '(s, (_, r)) := im_Get gvk s in (s, match r with inl e => inl e | inr i => inr (Informer i) end)
  end.

(** [IndexField] and [indexByField]. *)
Definition IndexField (obj : Obj) (field : string) (extractValue : Obj -> list string) : M St err := fun s =>
  match GetInformer obj s with
  | (s, inl e) => (s, Some e)
  | (s, inr informer) =>
    let '(e, x) := AddIndexers informer (FieldIndexName field) (indexFunc extractValue) (env s) in
    (mkCacheState (im s) e (created s) (runs s), x)
  end.
End informers.

(** ** The composite client *)

(** [client.Reader], the interface through which objects are read. *)
Record ObjectReader (S Obj OList : Type) := mkObjectReader {
  rd_Get : NamespacedName -> Obj -> M S (Obj * err);
  rd_List : OList -> ListOptions -> M S (OList * err);
}.
Arguments mkObjectReader {S Obj OList}. Arguments rd_Get {S Obj OList}. Arguments rd_List {S Obj OList}.

Section composite_client.
Context {S Obj OList : Type} `{ErrorLib}.

(** [type Client struct] and its options. *)
Record CompositeClient := mkCompositeClient {
  cached : ObjectReader S Obj OList; RawListing : bool; uncached : ObjectReader S Obj OList
}.

(** [NewClient], and [NewClientFromManager] with the client of the manager and what
    [client.New] returns for its configuration. *)
Definition NewClient (cached uncached : ObjectReader S Obj OList) (rawListing : bool) : CompositeClient :=
  mkCompositeClient cached rawListing uncached.
Definition NewClientFromManager (mgrClient : ObjectReader S Obj OList) (client_New : M S (error + ObjectReader S Obj OList))
  (rawListing : bool) : M S (error + CompositeClient) :=
  r ← client_New;
  match r with
  | inl e => mret (inl e)
  | inr uncachedClient => mret (inr (NewClient mgrClient uncachedClient rawListing))
  end.

(** [Client.Get]: an object the cached client does not know is fetched from the
    API server, into the object the failed call left behind. *)
Definition cc_Get (c : CompositeClient) (key : NamespacedName) (obj : Obj) : M S (Obj * err) :=
  '(obj, cErr) ← rd_Get (cached c) key obj;
  match cErr with
  | Some e => if IsNotFound e then rd_Get (uncached c) key obj else mret (obj, cErr)
  | None => mret (obj, None)
  end.

(** [Client.List]. *)
Definition cc_List (c : CompositeClient) (list : OList) (opts : ListOptions) : M S (OList * err) :=
  if RawListing c then rd_List (uncached c) list opts else rd_List (cached c) list opts.
End composite_client.
Arguments CompositeClient : clear implicits.

(** ** One informer per kind *)

Section informers_claims.
Context {W Obj : Type} `{InformerLib W Obj}.
Local Abbreviation St := (CacheState W).

(** A new cache, and the threads that use it: any number of callers of [Get] and
    the goroutine of [Start]. *)
Definition fresh (ns : string) (w : W) : St := mkCacheState (NewInformersMap ns) w [] [].
Definition threads (gvks : list GVK) : list thread := (TGet <$> gvks) ++ [TStart].
Definition scopeOf (ns : string) : string :=
  if bool_decide (ns = "") then RESTScopeNameRoot else RESTScopeNameNamespace.

(** What holds of the shared state. *)
Record map_inv (ns : string) (s : St) : Prop := {
  inv_namespace : im_namespace (im s) = ns;
  inv_started : started (im s) = startWait (im s);
  inv_entries : forall g i, informersByGVK (im s) !! g = Some i ->
    created s !! Informer i = Some g /\ Reader i = mkCacheReader (Informer i) g (scopeOf ns);
  inv_created : forall g, g ∈ created s -> is_Some (informersByGVK (im s) !! g);
  inv_nodup : NoDup (created s);
  inv_runs : if started (im s) then runs s ≡ₚ seq 0 (length (created s)) else runs s = [];
}.

(** What holds of thread [j] when [Start] is thread [n]. *)
Definition holds (n j : nat) (s : St) (t : thread) : Prop :=
  match t with
  | TWait g _ i | TGot g (_, inr i) => informersByGVK (im s) !! g = Some i
  | TStart => j = n /\ startWait (im s) = false
  | TPanic => False
  | _ => True
  end.

(** How a step of thread [j] changes the shared state. *)
Definition extends (n j : nat) (s s' : St) : Prop :=
  informersByGVK (im s) ⊆ informersByGVK (im s') /\ (j <> n -> startWait (im s') = startWait (im s)).

Lemma holds_extends n j k s s' t : j <> k -> extends n j s s' -> holds n k s t -> holds n k s' t.
Proof.
  intros Hjk [Hm Hs]. destruct t as [| |g b i|g [b [|i]]| | |]; cbn; try done.
  1, 2: intros Hi; by eapply lookup_weaken. intros [-> Hw]. by rewrite Hs.
Qed.

(** The informers of the map are the ones created, each once. *)
Lemma map_inv_informers ns s : map_inv ns s ->
  (Informer ∘ snd <$> map_to_list (informersByGVK (im s))) ≡ₚ seq 0 (length (created s)).
Proof.
  intros [_ _ He Hc Hnd _]. apply NoDup_Permutation; [|apply NoDup_seq|].
  - apply NoDup_fmap_2_strong; [|apply NoDup_map_to_list]. intros [g1 i1] [g2 i2] H1 H2; cbn.
    apply elem_of_map_to_list, He in H1 as [H1 H1'], H2 as [H2 H2']. intros Heq.
    rewrite Heq, H2 in H1. destruct i1, i2; cbn in *. congruence.
  - intros x. rewrite list_elem_of_fmap, elem_of_seq. split.
    + intros ([g i] & -> & Hi%elem_of_map_to_list). apply He in Hi as [Hi _]. apply lookup_lt_Some in Hi. cbn. lia.
    + intros [_ Hx]. apply lookup_lt_is_Some_2 in Hx as [g Hg].
      destruct (Hc g) as [i Hi]; [by eapply list_elem_of_lookup_2|]. exists (g, i).
      rewrite elem_of_map_to_list. split; [|done]. cbn. destruct (He _ _ Hi) as [Hi' _].
      by eapply NoDup_lookup.
Qed.

(** [addInformerToMap] returns the entry of the map. *)
Lemma addInformerToMap_inv ns g s : map_inv ns s ->
  let '(s', (b, r)) := addInformerToMap g s in
  map_inv ns s' /\ informersByGVK (im s) ⊆ informersByGVK (im s') /\ startWait (im s') = startWait (im s) /\
  match r with inr i => informersByGVK (im s') !! g = Some i | inl _ => True end.
Proof.
  intros [Hns Hst He Hc Hnd Hr]. unfold addInformerToMap. destruct (informersByGVK (im s) !! g) as [i|] eqn:Hg; [by split_and!|].
  destruct (createListWatcher g _ (env s)) as [e [x|]]; cbn; [by split_and!|].
  assert (g ∉ created s) as Hfresh by (intros [? ?]%Hc; congruence).
  split_and!; [|by apply insert_subseteq|done|by rewrite lookup_insert_eq]. split; cbn.
  - done.
  - done.
  - intros g' i'. rewrite lookup_insert_Some. intros [[<- <-]|[Hne Hi]]; cbn.
    + by rewrite lookup_app_r, Nat.sub_diag, Hns by done.
    + destruct (He _ _ Hi) as [H1 H2]. split; [|done]. by apply lookup_app_l_Some.
  - intros g'. rewrite elem_of_app, list_elem_of_singleton. intros [[i Hi]%Hc| ->].
    + destruct (decide (g = g')) as [<-|]; [congruence|]. by exists i; rewrite lookup_insert_ne.
    + rewrite lookup_insert_eq. by eexists.
  - apply NoDup_app. split_and!; [done|set_solver|apply NoDup_singleton].
  - destruct (started (im s)); [|done]. by rewrite Hr, length_app, seq_app.
Qed.

Lemma waitSynced_inv ns g b i s : map_inv ns s ->
  let '(s', (_, r)) := waitSynced g b i s in
  map_inv ns s' /\ im s' = im s /\ match r with inr i' => i' = i | inl _ => True end.
Proof.
  intros Hi. unfold waitSynced. destruct (b && _); [|done].
  destruct (WaitForCacheSync _ _) as [e [|]]; cbn; split_and!; try done; by destruct Hi.
Qed.

(** Every step of a thread keeps the invariant and what other threads rely on. *)
Lemma thread_step_inv ns n j t s : map_inv ns s -> holds n j s t ->
  let '(t', s') := thread_step t s in map_inv ns s' /\ holds n j s' t' /\ extends n j s s'.
Proof.
  intros Hi Ht. destruct t as [g|g|g b i|g r| | |]; cbn in *; try by split_and!.
  - destruct (informersByGVK (im s) !! g) eqn:Hg; by split_and!.
  - pose proof (addInformerToMap_inv ns g s Hi) as Hadd. destruct (addInformerToMap g s) as [s' [b [e|i]]].
    all: by destruct Hadd as (? & ? & ? & ?); split_and!.
  - pose proof (waitSynced_inv ns g b i s Hi) as Hw. destruct (waitSynced g b i s) as [s' [b' r]].
    destruct Hw as (? & Him & Hr). split; [done|]. unfold extends. rewrite Him. split; [|done].
    destruct r as [|i']; cbn; [done|]. by rewrite Him, Hr.
  - destruct Ht as [-> Hw]. pose proof (map_inv_informers ns s Hi) as Hp. unfold im_Start. rewrite Hw.
    destruct Hi as [Hns Hst He Hc Hnd Hr]. rewrite Hst, Hw in Hr. split; [|by split_and!].
    split; cbn; try done. by rewrite Hr.
Qed.

Definition config_inv (ns : string) (n : nat) (c : list thread * St) : Prop :=
  map_inv ns c.2 /\ forall j t, c.1 !! j = Some t -> holds n j c.2 t.

Lemma sched_step_inv ns n c j : config_inv ns n c -> config_inv ns n (sched_step c j).
Proof.
  intros [Hi Ht]. unfold sched_step. destruct (c.1 !! j) as [t|] eqn:Hj; [|done].
  pose proof (thread_step_inv ns n j t c.2 Hi (Ht _ _ Hj)) as Hs. destruct (thread_step t c.2) as [t' s'].
  destruct Hs as (Hi' & Ht' & Hx). split; [done|]. cbn. intros k u.
  rewrite list_lookup_insert_Some. intros [(<- & <- & _)|[Hne Hk]]; [done|].
  eapply holds_extends; eauto.
Qed.

Lemma schedule_inv ns w gvks sched :
  config_inv ns (length gvks) (schedule sched (threads gvks, fresh ns w)).
Proof.
  unfold schedule. assert (config_inv ns (length gvks) (threads gvks, fresh ns w)) as Hc.
  { split; [by split; cbn; try done; [set_solver|constructor]|]. cbn. intros j t.
    unfold threads. rewrite lookup_app_Some, list_lookup_fmap, length_fmap. intros [Hj|[Hj Ht]].
    - by destruct (gvks !! j); simplify_eq/=.
    - apply list_lookup_singleton_Some in Ht as [Hz <-]. cbn. split; [lia|done]. }
  revert Hc. generalize (threads gvks, fresh ns w). induction sched as [|j sched IH]; intros c Hc; [done|].
  cbn. by apply IH, sched_step_inv.
Qed.

(** [Get] is what a caller does when no other thread moves in between. *)
Lemma im_Get_thread g (s : St) :
  schedule [0; 0; 0] ([TGet g], s) = (let '(s', r) := im_Get g s in ([TGot g r], s')).
Proof.
  unfold schedule, im_Get, sched_step. cbn. destruct (informersByGVK (im s) !! g) as [i|]; cbn.
  - by destruct (waitSynced g (started (im s)) i s) as [s' r].
  - destruct (addInformerToMap g s) as [s1 [b [e|i]]]; cbn; [done|].
    by destruct (waitSynced g b i s1) as [s' r].
Qed.

(** C36: however the callers of [Get] and the start of the cache interleave, at
    most one informer is created per kind, all callers that ask for a kind get
    the same entry, which reads the informer created for that kind, and once the
    cache is started every informer is run exactly once, none before. *)
Theorem informers_unique ns (w : W) gvks sched ts (s : St) :
  schedule sched (threads gvks, fresh ns w) = (ts, s) ->
  NoDup (created s) /\
  (forall j g b i, ts !! j = Some (TGot g (b, inr i)) ->
     created s !! Informer i = Some g /\ Reader i = mkCacheReader (Informer i) g (scopeOf ns)) /\
  (forall j1 j2 g b1 b2 i1 i2, ts !! j1 = Some (TGot g (b1, inr i1)) -> ts !! j2 = Some (TGot g (b2, inr i2)) ->
     i1 = i2) /\
  (if started (im s) then runs s ≡ₚ seq 0 (length (created s)) else runs s = []) /\ TPanic ∉ ts.
Proof.
  intros Hs. pose proof (schedule_inv ns w gvks sched) as [Hi Ht]. rewrite Hs in Hi, Ht. cbn in *.
  assert (forall j g b i, ts !! j = Some (TGot g (b, inr i)) -> informersByGVK (im s) !! g = Some i) as Hgot
    by (intros j g b i Hj; apply (Ht _ _ Hj)).
  destruct Hi as [_ _ He _ Hnd Hr]. split_and!; try done.
  - intros j g b i Hj. by eapply He, Hgot.
  - intros j1 j2 g b1 b2 i1 i2 H1%Hgot H2%Hgot. congruence.
  - intros [j Hj]%list_elem_of_lookup. by apply (Ht _ _ Hj).
Qed.
End informers_claims.

(** ** Listing by a field *)

Section reader_claims.
Context {Obj OList : Type} `{MetaLib Obj OList} `{CacheLib Obj OList}.

Definition slash_free (s : string) : Prop := has_char (Ascii.ascii_of_nat 47) s = false.
(** A usable namespace: no slash, and not the name that stands for all of them. *)
Definition namespace_ok (ns : string) : Prop := slash_free ns /\ ns <> allNamespacesNamespace.

Lemma KeyToNamespacedKey_inj ns1 ns2 v1 v2 : namespace_ok ns1 -> namespace_ok ns2 ->
  KeyToNamespacedKey ns1 v1 = KeyToNamespacedKey ns2 v2 <-> ns1 = ns2 /\ v1 = v2.
Proof.
  intros [H1 H1'] [H2 H2']. split; [|by intros [-> ->]]. unfold KeyToNamespacedKey.
  repeat case_bool_decide; subst; cbn [negb]; intros Heq.
  all: apply (join_char_inj (Ascii.ascii_of_nat 47)) in Heq as [? ?]; subst; naive_solver.
Qed.

Definition indexed_under (extractor : Obj -> list string) (key : string) (o : Obj) : bool :=
  match indexFunc (OList := OList) extractor (CObject o) with inr vals => bool_decide (key ∈ vals) | inl _ => false end.

(** What an indexer with the index of [IndexField] promises: the items listed for
    a key are the stored objects whose index values contain it. *)
Definition field_indexed (ix : Indexer Obj) (field : string) (extractor : Obj -> list string) (items : list Obj)
  : Prop :=
  forall key, exists l, ByIndex ix (FieldIndexName field) key = inr l /\
    l ≡ₚ CObject <$> filter (fun o => indexed_under extractor key o = true) items.

(** The objects a field selector, a namespace and a label selector ask for. *)
Definition namespace_of (o : Obj) : string :=
  match Accessor (OList := OList) o with inr nn => NNNamespace nn | inl _ => "" end.
Definition labels_match (sel : option (gmap string string -> bool)) (o : Obj) : bool :=
  match sel with Some sel => sel (ObjLabels (OList := OList) o) | None => true end.
Definition selected (ns val : string) (sel : option (gmap string string -> bool)) (extractor : Obj -> list string)
  (o : Obj) : Prop :=
  (ns = "" \/ namespace_of o = ns) /\ val ∈ extractor o /\ labels_match sel o = true.
#[export] Instance selected_dec ns val sel extractor o : Decision (selected ns val sel extractor o).
Proof. unfold selected. apply _. Defined.

Lemma indexed_under_spec extractor ns val o nn :
  Accessor (OList := OList) o = inr nn -> namespace_ok (NNNamespace nn) -> namespace_ok ns ->
  indexed_under extractor (KeyToNamespacedKey ns val) o = true <->
    (ns = "" \/ namespace_of o = ns) /\ val ∈ extractor o.
Proof.
  intros Ha Hn Hns. unfold indexed_under, indexFunc, namespace_of. rewrite Ha.
  assert (namespace_ok "") as He by done.
  case_bool_decide as Hz; rewrite bool_decide_eq_true, ?elem_of_app, ?list_elem_of_fmap.
  all: setoid_rewrite (KeyToNamespacedKey_inj ns); try done; naive_solver.
Qed.

Lemma listLoop_objects gvk sel os : Forall (fun o => is_Some (match Accessor (OList := OList) o with inr n => Some n | inl _ => None end)) os ->
  listLoop (OList := OList) gvk sel (CObject <$> os) =
    inr (SetGroupVersionKind (OList := OList) gvk <$> filter (fun o => labels_match sel o = true) os).
Proof.
  induction 1 as [|o os Ho _ IH]; [done|]. rewrite fmap_cons, filter_cons. cbn [listLoop].
  destruct (Accessor o); [by destruct Ho|]. rewrite IH. case_decide as Hl; unfold labels_match in Hl.
  all: destruct sel as [sel|]; [|done]. 2: apply not_true_is_false in Hl. all: by rewrite Hl.
Qed.

(** C37: listing by an exact field match returns exactly the objects with that
    value of the field that are in the namespace asked for, or in any namespace
    when none is given, and match the labels, with the kind set on each. *)
Theorem cr_List_by_field ix c (out : OList) op field val ns sel extractor items :
  op = Equals \/ op = DoubleEquals -> field_indexed ix field extractor items ->
  Forall (fun o => exists nn, Accessor (OList := OList) o = inr nn /\ namespace_ok (NNNamespace nn)) items ->
  namespace_ok ns ->
  exists objs, objs ≡ₚ SetGroupVersionKind (OList := OList) (groupVersionKind c) <$>
                         filter (selected ns val sel extractor) items /\
    cr_List ix c out (mkListOptions (Some [mkRequirement op field val]) ns sel) =
      match SetList out objs with inl e => (out, Some e) | inr l => (l, None) end.
Proof.
  intros Hop Hix Hit Hns. unfold cr_List, listItems, requiresExactMatch. cbn.
  assert (negb (bool_decide (op = Equals)) && negb (bool_decide (op = DoubleEquals)) = false) as ->
    by (destruct Hop as [-> | ->]; done). cbn.
  destruct (Hix (KeyToNamespacedKey ns val)) as (l & -> & Hl).
  apply Permutation_map_inv in Hl as (os & -> & Hos). rewrite listLoop_objects.
  - eexists. split; [|done]. rewrite <- Hos, list_filter_filter. apply fmap_Permutation. apply Permutation_refl'.
    apply list_filter_ext. intros o Ho. rewrite Forall_forall in Hit. destruct (Hit o Ho) as (nn & Ha & Hn).
    unfold selected. rewrite (indexed_under_spec _ _ _ _ _ Ha Hn Hns). naive_solver.
  - rewrite <- Hos, Forall_forall. intros o [_ Ho]%list_elem_of_filter. rewrite Forall_forall in Hit.
    destruct (Hit o Ho) as (nn & -> & _). by eexists.
Qed.
End reader_claims.

(** ** Reading through the composite client *)

Section client_claims.
Context {W Obj OList : Type} `{InformerLib W Obj} `{MetaLib Obj OList} `{CacheLib Obj OList} `{ErrorLib}.
Local Abbreviation St := (CacheState W).

(** The informer cache as a reader. *)
Definition informerCache : ObjectReader St Obj OList :=
  mkObjectReader (ic_Get (OList := OList)) ic_List.

Definition key_ok (k : NamespacedName) : Prop := slash_free (NNNamespace k) /\ slash_free (NNName k).

Lemma has_char_join c a b : has_char c (a +:+ String c b) = true.
Proof.
  induction a as [|x a IH].
  - change ((Ascii.eqb c c || has_char c b)%bool = true). by rewrite Ascii.eqb_refl.
  - change ((Ascii.eqb x c || has_char c (a +:+ String c b))%bool = true). rewrite IH. apply orb_true_r.
Qed.

Lemma objectKeyToStoreKey_inj k1 k2 : key_ok k1 -> key_ok k2 ->
  objectKeyToStoreKey k1 = objectKeyToStoreKey k2 -> k1 = k2.
Proof.
  destruct k1 as [s1 n1], k2 as [s2 n2]. intros [Hs1 Hn1] [Hs2 Hn2]. unfold objectKeyToStoreKey. cbn in *.
  unfold slash_free in *. repeat case_bool_decide; subst; intros Heq; try congruence.
  - subst. by pose proof (eq_trans (eq_sym (has_char_join (Ascii.ascii_of_nat 47) s2 n2)) Hn1).
  - subst. by pose proof (eq_trans (eq_sym (has_char_join (Ascii.ascii_of_nat 47) s1 n1)) Hn2).
  - apply (join_char_inj (Ascii.ascii_of_nat 47)) in Heq as [-> ->]; done.
Qed.

(** What an indexer promises about keys: objects are stored under the key of
    their namespace and name. *)
Definition stores (ix : Indexer Obj) (store : gmap string Obj) : Prop :=
  (forall k, GetByKey ix k = inr (CObject <$> store !! k)) /\
  (forall k o, store !! k = Some o -> exists nn, Accessor (OList := OList) o = inr nn /\ key_ok nn /\
     k = objectKeyToStoreKey nn).

(** The key under which a cache for the namespace [ns] looks an object up. *)
Definition lookupKey (ns : string) (key : NamespacedName) : NamespacedName :=
  if bool_decide (ns = "") then mkNN "" (NNName key) else key.

Lemma ic_Get_ready ns s gvk i key out : map_inv ns s -> GVKFor (OList := OList) out = inr gvk ->
  informersByGVK (im s) !! gvk = Some i -> started (im s) = true -> HasSynced (Informer i) (env s) = true ->
  ic_Get (OList := OList) key out s =
    (s, cr_Get (OList := OList) (GetIndexer (Informer i) (env s)) (mkCacheReader (Informer i) gvk (scopeOf ns)) key out).
Proof.
  intros Hinv Hg Hi Hst Hsy. unfold ic_Get, im_Get, lookupInformer. rewrite Hg, Hi, Hst.
  unfold waitSynced. rewrite Hsy. cbn. destruct (inv_entries _ _ Hinv _ _ Hi) as [_ ->]. done.
Qed.

(** Once the cache has started and the informer of the kind has synced, the
    composite client answers from the cache exactly when the cache holds an
    object under the key it looks up, and otherwise returns what the API server
    returns.  A cache for one namespace looks up the key it was asked for; a
    cache for all namespaces drops the namespace of the key, so it never answers
    with an object of a namespace, and a cluster-scoped object of the same name
    is returned in its place. *)
Theorem cc_Get_cached (c : CompositeClient St Obj OList) ns w gvks sched ts s gvk i key out store :
  cached c = informerCache -> (forall g k n, IsNotFound (NewNotFound (Obj := Obj) (OList := OList) g k n) = true) ->
  schedule sched (threads gvks, fresh ns w) = (ts, s) ->
  informersByGVK (im s) !! gvk = Some i -> started (im s) = true -> HasSynced (Informer i) (env s) = true ->
  stores (GetIndexer (Informer i) (env s)) store ->
  GVKFor (OList := OList) out = inr gvk -> key_ok key ->
  match store !! objectKeyToStoreKey (lookupKey ns key) with
  | Some o => Accessor (OList := OList) o = inr (lookupKey ns key) /\
      (go_type (OList := OList) o = go_type (OList := OList) out ->
       cc_Get c key out s = (s, (SetGroupVersionKind (OList := OList) gvk o, None)))
  | None => cc_Get c key out s = rd_Get (uncached c) key out s
  end.
Proof.
  intros Hc Hnf Hs Hi Hst Hsy [Hk Hstore] Hg Hkey. pose proof (schedule_inv ns w gvks sched) as [Hinv _].
  rewrite Hs in Hinv. cbn in Hinv. unfold cc_Get. rewrite Hc. unfold mbind, M_bind. cbn.
  rewrite (ic_Get_ready ns s gvk i key out) by done. unfold cr_Get. cbn.
  assert ((if bool_decide (scopeOf ns = RESTScopeNameRoot) then mkNN "" (NNName key) else key) = lookupKey ns key) as ->.
  { unfold scopeOf, lookupKey. by destruct (bool_decide (ns = "")). }
  rewrite Hk. destruct (store !! _) as [o|] eqn:Ho; cbn; [|by rewrite Hnf].
  destruct (Hstore _ _ Ho) as (nn & Ha & Hn & Heq). split.
  - rewrite Ha. f_equal. symmetry. apply objectKeyToStoreKey_inj; [|done|done].
    unfold lookupKey. destruct (bool_decide (ns = "")); [|done]. destruct Hkey. by split.
  - intros ->. by rewrite bool_decide_eq_true_2.
Qed.
End client_claims.

(** ** Witnesses *)

(** Objects with a color, stored under their keys. *)
Module CacheDemo.
Record ball := mkBall { b_key : NamespacedName; b_color : string; b_kind : GVK }.
Definition kind : GVK := mkGVK "toys" "v1" "Ball".
#[export] Instance meta : MetaLib ball (list ball) := {| ExtractList := inr; Accessor := fun b => inr (b_key b) |}.
#[export] Instance lib : CacheLib ball (list ball) := {|
  go_type := fun _ => "*toys.Ball";
  SetGroupVersionKind := fun g b => mkBall (b_key b) (b_color b) g;
  ObjLabels := fun b => {["color" := b_color b]};
  GVKFor := fun _ => inr kind;
  GVKForList := fun _ => inr (mkGVK "toys" "v1" "BallList");
  listElement := fun _ => inr (mkBall (mkNN "" "") "" zeroGVK);
  SetList := fun _ l => inr l;
  NewNotFound := fun _ _ _ => extError "NotFound" "" [];
|}.
Definition colors (b : ball) : list string := [b_color b].
Definition ixOf (w : gmap string ball) : Indexer ball :=
  mkIndexer (fun k => inr (CObject <$> w !! k))
    (fun _ key => inr (CObject <$> filter (fun b => indexed_under colors key b = true) (snd <$> map_to_list w)))
    (CObject <$> (snd <$> map_to_list w)).
#[export] Instance informer : InformerLib (gmap string ball) ball := {|
  GetIndexer := fun _ w => ixOf w;
  HasSynced := fun _ _ => true;
  WaitForCacheSync := fun _ w => (w, true);
  AddIndexers := fun _ _ _ w => (w, None);
  NewTimeoutError := fun _ => extError "Timeout" "" [];
  createListWatcher := fun _ _ w => (w, None);
|}.
Definition red : ball := mkBall (mkNN "ns" "a") "red" zeroGVK.
Definition w0 : gmap string ball := {["ns/a" := red]}.
(** Two callers of the same kind both miss, then the cache starts and they go on. *)
Definition sched : list nat := [0; 1; 2; 0; 1; 0; 1].
Definition final (ns : string) := schedule sched (threads [kind; kind], fresh ns w0).
Definition api : ObjectReader (CacheState (gmap string ball)) ball (list ball) :=
  mkObjectReader (fun k b s => (s, (mkBall k "from the server" kind, None))) (fun l _ s => (s, (l, None))).
Definition client : CompositeClient (CacheState (gmap string ball)) ball (list ball) :=
  NewClient informerCache api false.
Definition blank : ball := mkBall (mkNN "" "") "" zeroGVK.
End CacheDemo.

Import RefErrors CacheDemo.

Lemma informers_unique_witness :
  created (final "ns").2 = [kind] /\ NoDup (created (final "ns").2) /\
  (forall j1 j2 g b1 b2 i1 i2, (final "ns").1 !! j1 = Some (TGot g (b1, inr i1)) ->
     (final "ns").1 !! j2 = Some (TGot g (b2, inr i2)) -> i1 = i2) /\
  runs (final "ns").2 ≡ₚ seq 0 (length (created (final "ns").2)).
Proof.
  destruct (informers_unique "ns" w0 [kind; kind] sched (final "ns").1 (final "ns").2 (surjective_pairing (final "ns")))
    as (Hnd & _ & Hsame & Hruns & _).
  split; [vm_compute; reflexivity|]. split; [exact Hnd|]. split; [exact Hsame|]. exact Hruns.
Defined.

Lemma cr_List_by_field_witness :
  exists objs, objs ≡ₚ [mkBall (mkNN "ns" "a") "red" kind] /\
    cr_List (ixOf w0) (mkCacheReader 0 kind RESTScopeNameNamespace) [] 
      (mkListOptions (Some [mkRequirement Equals "color" "red"]) "ns" None) = (objs, None).
Proof.
  destruct (cr_List_by_field (ixOf w0) (mkCacheReader 0 kind RESTScopeNameNamespace) [] Equals "color" "red" "ns" None
    colors [red]) as (objs & Hp & Hl).
  - left. reflexivity.
  - intros key. eexists. split; [reflexivity|]. reflexivity.
  - constructor; [|constructor]. exists (mkNN "ns" "a"). split; [reflexivity|]. split; [reflexivity|discriminate].
  - split; [reflexivity|discriminate].
  - exists objs. split; [|exact Hl]. etransitivity; [exact Hp|]. vm_compute. reflexivity.
Defined.

(** In a cache for one namespace the ball is found; in one for all namespaces it
    is fetched from the server. *)
Lemma cc_Get_cached_witness :
  (cc_Get client (mkNN "ns" "a") blank (final "ns").2 = ((final "ns").2, (mkBall (mkNN "ns" "a") "red" kind, None))) /\
  (cc_Get client (mkNN "ns" "a") blank (final "").2 =
     ((final "").2, (mkBall (mkNN "ns" "a") "from the server" kind, None))).
Proof.
  assert (stores (ixOf w0) w0) as Hstore.
  { split; [reflexivity|]. intros k o. unfold w0. rewrite lookup_singleton_Some. intros [<- <-].
    exists (mkNN "ns" "a"). split; [reflexivity|]. split; [split; reflexivity|reflexivity]. }
  split.
  - exact (proj2 (cc_Get_cached client "ns" w0 [kind; kind] sched (final "ns").1 (final "ns").2 kind
      (mkMapEntry 0 (mkCacheReader 0 kind RESTScopeNameNamespace)) (mkNN "ns" "a") blank w0
      eq_refl (fun _ _ _ => eq_refl) (surjective_pairing (final "ns")) eq_refl eq_refl eq_refl Hstore eq_refl
      (conj eq_refl eq_refl)) eq_refl).
  - exact (cc_Get_cached client "" w0 [kind; kind] sched (final "").1 (final "").2 kind
      (mkMapEntry 0 (mkCacheReader 0 kind RESTScopeNameRoot)) (mkNN "ns" "a") blank w0
      eq_refl (fun _ _ _ => eq_refl) (surjective_pairing (final "")) eq_refl eq_refl eq_refl Hstore eq_refl
      (conj eq_refl eq_refl)).
Defined.
