(* ===== verification/FieldIndex.v ===== *)
(** Field indices and memory: [indexByField] of [cache/informer_cache.go].

    [Cache.indexFunc] says which values an object is indexed under.  The code
    computes them in a slice: a new one for an object with a namespace, and the
    slice of the extractor itself for an object without one.  Here the slices are
    in a memory, the function is written as the code has it, and its results are
    compared with those of [Cache.indexFunc]. *)
From S2P Require Import Prelude Object Cache.

(** Slices of strings by address; a slice is nil or has an address. *)
Abbreviation slices := (gmap nat (list string)).
Definition deref (m : slices) (s : option nat) : list string :=
  match s with Some l => default [] (m !! l) | None => [] end.
Definition store (s : option nat) (i : nat) (v : string) (m : slices) : slices :=
  match s with Some l => alter <[i := v]> l m | None => m end.

Section index.
Context {Obj OList : Type} `{MetaLib Obj OList}.

(** The loop of the index function; every index is within both slices. *)
Fixpoint indexLoop (ns : string) (rawVals vals : option nat) (len : nat) (idx : list nat) (m : slices) : slices :=
  match idx with
  | [] => m
  | i :: idx =>
    let rawVal := nth i (deref m rawVals) "" in
    let m := store vals i (KeyToNamespacedKey ns rawVal) m in
    let m := if negb (bool_decide (ns = "")) then store vals (i + len) (KeyToNamespacedKey "" rawVal) m else m in
    indexLoop ns rawVals vals len idx m
  end.

(** The index function of [indexByField]. *)
Definition indexFunc_mem (extractor : Obj -> M slices (option nat)) (objRaw : item Obj) : M slices (error + option nat) := fun m =>
  match objRaw with
  | NotObject t => (m, inl (errorf "object of type %T is not an Object" [t] [] None))
  | CObject obj =>
    match Accessor obj with
    | inl e => (m, inl e)
    | inr meta =>
      let ns := NNNamespace meta in
      let '(m, rawVals) := extractor obj m in
      let len := length (deref m rawVals) in
      let '(m, vals) :=
        if bool_decide (ns = "") then (m, rawVals)
        else let l := base.fresh (dom m) in (<[l := replicate (len * 2) ""]> m, Some l) in
      (indexLoop ns rawVals vals len (seq 0 len) m, inr vals)
    end
  end.

(** ** Properties *)

(** A slice that has been handed out. *)
Definition allocated (m : slices) (s : option nat) : Prop := forall l, s = Some l -> is_Some (m !! l).

Lemma store_some l i v m xs : m !! l = Some xs -> store (Some l) i v m = <[l := <[i := v]> xs]> m.
Proof.
  intros Hl. cbn. apply map_eq. intros j. destruct (decide (j = l)) as [->|Hne].
  - by rewrite lookup_alter_eq, Hl, lookup_insert_eq.
  - by rewrite lookup_alter_ne, lookup_insert_ne.
Qed.

Lemma store_middle l i v m xs w ys : m !! l = Some (xs ++ w :: ys) -> i = length xs -> store (Some l) i v m = <[l := xs ++ v :: ys]> m.
Proof. intros Hl ->. rewrite (store_some _ _ _ _ _ Hl). by rewrite insert_app_r_alt, Nat.sub_diag. Qed.

(** The loop when it writes into the slice it reads. *)
Lemma indexLoop_shared l len todo : forall past m, m !! l = Some (past ++ todo) ->
  indexLoop "" (Some l) (Some l) len (seq (length past) (length todo)) m = <[l := past ++ (KeyToNamespacedKey "" <$> todo)]> m.
Proof.
  induction todo as [|x todo IH]; intros past m Hl; cbn [indexLoop length seq].
  { by rewrite fmap_nil, insert_id. }
  rewrite bool_decide_true by done. cbn [negb deref]. rewrite Hl. cbn [default from_option id].
  rewrite nth_middle, (store_middle _ _ _ _ _ _ _ Hl) by done.
  rewrite (cons_middle _ past todo). specialize (IH (past ++ [KeyToNamespacedKey "" x])). rewrite length_app, Nat.add_1_r in IH.
  rewrite IH by (by rewrite lookup_insert_eq, <- app_assoc). by rewrite insert_insert_eq, <- app_assoc.
Qed.

Corollary indexLoop_all l xs m : m !! l = Some xs ->
  indexLoop "" (Some l) (Some l) (length xs) (seq 0 (length xs)) m = <[l := KeyToNamespacedKey "" <$> xs]> m.
Proof. exact (indexLoop_shared l (length xs) xs [] m). Qed.

(** The loop when it fills the two halves of a new slice. *)
Lemma indexLoop_fresh ns raw l todo : ns <> "" -> raw <> Some l -> forall past m,
  deref m raw = past ++ todo -> m !! l = Some ((KeyToNamespacedKey ns <$> past) ++ replicate (length todo) "" ++
    (KeyToNamespacedKey "" <$> past) ++ replicate (length todo) "") ->
  indexLoop ns raw (Some l) (length (past ++ todo)) (seq (length past) (length todo)) m =
    <[l := (KeyToNamespacedKey ns <$> past ++ todo) ++ (KeyToNamespacedKey "" <$> past ++ todo)]> m.
Proof.
  intros Hns Hne. induction todo as [|x todo IH]; intros past m Hd Hl; cbn [indexLoop length seq].
  { cbn in Hl. rewrite !app_nil_r in *. by rewrite insert_id. }
  rewrite bool_decide_false by done. cbn [negb]. cbn [length replicate app] in Hl. rewrite Hd, nth_middle.
  rewrite (store_middle _ _ _ _ _ _ _ Hl) by (by rewrite length_fmap).
  set (k1 := KeyToNamespacedKey ns x). set (k2 := KeyToNamespacedKey "" x).
  set (l1 := (KeyToNamespacedKey ns <$> past) ++ k1 :: replicate (length todo) "" ++ (KeyToNamespacedKey "" <$> past)).
  rewrite (store_middle _ _ _ _ l1 "" (replicate (length todo) "")); cycle 1.
  { subst l1. rewrite lookup_insert_eq, <- app_assoc. cbn. by rewrite <- app_assoc. }
  { subst l1. rewrite !length_app. cbn. rewrite length_app, length_replicate, !length_fmap. lia. }
  rewrite insert_insert_eq. assert (l1 ++ k2 :: replicate (length todo) "" =
    (KeyToNamespacedKey ns <$> past ++ [x]) ++ replicate (length todo) "" ++ (KeyToNamespacedKey "" <$> past ++ [x]) ++ replicate (length todo) "") as ->.
  { subst l1. rewrite !fmap_app, <- !app_assoc. cbn. by rewrite <- app_assoc. }
  specialize (IH (past ++ [x])). rewrite (length_app past [x]), Nat.add_1_r in IH. rewrite <- app_assoc in IH. cbn [app] in IH.
  rewrite IH; [by rewrite insert_insert_eq| |by rewrite lookup_insert_eq].
  rewrite <- Hd. destruct raw as [l0|]; [|done]. cbn. rewrite lookup_insert_ne by congruence. done.
Qed.

(** C38: the index function returns the values of the reference definition, or its
    error.  For an object in a namespace they are in a new slice and everything
    that was in memory is as it was; for an object without a namespace they are in
    the slice of the extractor, which is overwritten, and nothing else is. *)
Theorem indexFunc_slices (extractor : Obj -> M slices (option nat)) obj m m1 raw :
  extractor obj m = (m1, raw) -> allocated m1 raw ->
  match indexFunc (OList := OList) (fun _ => deref m1 raw) (CObject obj) with
  | inl e => indexFunc_mem extractor (CObject obj) m = (m, inl e)
  | inr keys => exists m' vals, indexFunc_mem extractor (CObject obj) m = (m', inr vals) /\ deref m' vals = keys /\
      if bool_decide (namespace_of (OList := OList) obj = "") then vals = raw /\ forall l, raw <> Some l -> m' !! l = m1 !! l
      else m1 ⊆ m' /\ exists l, vals = Some l /\ m1 !! l = None
  end.
Proof.
  intros He Ha. unfold indexFunc, indexFunc_mem, namespace_of. rewrite He. destruct (Accessor obj) as [e|nn]; [done|].
  destruct (decide (NNNamespace nn = "")) as [Hn|Hn].
  - rewrite !(bool_decide_true (NNNamespace nn = "")) by done. rewrite Hn. eexists _, raw. split; [done|].
    destruct raw as [l|]; [|done]. destruct (Ha l eq_refl) as [xs Hl]. cbn [deref]. rewrite Hl. cbn [default from_option id].
    rewrite (indexLoop_all l xs m1 Hl). cbn. rewrite lookup_insert_eq. split; [done|]. split; [done|].
    intros l' Hne. rewrite lookup_insert_ne by congruence. done.
  - rewrite !(bool_decide_false (NNNamespace nn = "")) by done. set (l := base.fresh (dom m1)).
    assert (m1 !! l = None) as Hl by apply not_elem_of_dom, is_fresh. set (xs := deref m1 raw).
    assert (raw <> Some l) as Hne. { intros ->. destruct (Ha l eq_refl). congruence. }
    assert (indexLoop (NNNamespace nn) raw (Some l) (length xs) (seq 0 (length xs)) (<[l := replicate (length xs * 2) ""]> m1) =
      <[l := (KeyToNamespacedKey (NNNamespace nn) <$> xs) ++ (KeyToNamespacedKey "" <$> xs)]> m1) as ->.
    { rewrite (indexLoop_fresh (NNNamespace nn) raw l xs Hn Hne []); [by rewrite insert_insert_eq| |].
      - destruct raw as [l0|]; [|done]. subst xs. cbn. by rewrite lookup_insert_ne by congruence.
      - rewrite lookup_insert_eq. cbn. f_equal. rewrite <- replicate_add. f_equal. lia. }
    eexists _, (Some l). split; [done|]. cbn [deref]. rewrite lookup_insert_eq. split; [done|]. split; [by apply insert_subseteq|].
    by exists l.
Qed.

(** What several runs leave when the extractor returns a slice of the object. *)
Definition reindexed (extractor : Obj -> M slices (option nat)) (obj : Obj) (n : nat) (m : slices) : slices :=
  Nat.iter n (fun m => fst (indexFunc_mem extractor (CObject obj) m)) m.

Lemma reindexed_keys extractor obj l raw nn m n : Accessor obj = inr nn -> NNNamespace nn = "" ->
  (forall m, extractor obj m = (m, Some l)) -> m !! l = Some raw ->
  reindexed extractor obj n m !! l = Some (Nat.iter n (fmap (KeyToNamespacedKey "")) raw).
Proof.
  intros Ha Hn He Hl. unfold reindexed. induction n as [|n IH]; [done|]. rewrite !Nat.iter_succ.
  set (m' := Nat.iter n _ m) in *. unfold indexFunc_mem. rewrite Ha, He, (bool_decide_true (NNNamespace nn = "")), Hn by done.
  cbn [deref fst]. rewrite IH. cbn [default from_option id]. by rewrite (indexLoop_all l _ m' IH), lookup_insert_eq.
Qed.

(** An extractor that returns a slice of the object, such as the finalizers or a
    list of its specification: every run on a cluster-scoped object prefixes the
    strings in the cached object once more, and from the second run on the object
    is no longer indexed under any of its values. *)
Theorem cluster_reindexed extractor obj l raw nn m n v : Accessor obj = inr nn -> NNNamespace nn = "" ->
  (forall m, extractor obj m = (m, Some l)) -> m !! l = Some raw -> (forall x u, x ∈ raw -> x <> KeyToNamespacedKey "" u) ->
  v ∈ raw -> 1 < n ->
  deref (reindexed extractor obj n m) (Some l) = Nat.iter n (fmap (KeyToNamespacedKey "")) raw /\
  KeyToNamespacedKey "" v ∉ deref (reindexed extractor obj n m) (Some l).
Proof.
  intros Ha Hn He Hl Hpre Hv Hlt. cbn [deref]. rewrite (reindexed_keys _ _ _ _ _ _ n Ha Hn He Hl). split; [done|].
  destruct n as [|[|n]]; [lia..|]. cbn. rewrite list_elem_of_fmap. intros (x & Hx & Hin).
  apply KeyToNamespacedKey_inj in Hx as [_ <-]; [|done..]. apply list_elem_of_fmap in Hin as (u & Hu & _). by apply (Hpre v u).
Qed.
End index.

(** ** Witnesses *)

(** Objects are keys; the slice of the field is at address 0. *)
Module IndexDemo.
#[export] Instance metaLib : MetaLib NamespacedName (list NamespacedName) := {|
  ExtractList := fun l => inr l; Accessor := fun o => inr o |}.
Definition field : NamespacedName -> M slices (option nat) := fun _ m => (m, Some 0).
Definition memory : slices := {[0 := ["a"; "b"]]}.
Definition namespaced : NamespacedName := mkNN "ns" "x".
Definition cluster : NamespacedName := mkNN "" "x".
End IndexDemo.
Import IndexDemo.

Lemma indexFunc_slices_witness :
  (exists m' vals, indexFunc_mem field (CObject namespaced) memory = (m', inr vals) /\
     deref m' vals = ["ns/a"; "ns/b"; "__all_namespaces/a"; "__all_namespaces/b"] /\ memory ⊆ m') /\
  (exists m' vals, indexFunc_mem field (CObject cluster) memory = (m', inr vals) /\
     deref m' vals = ["__all_namespaces/a"; "__all_namespaces/b"] /\ vals = Some 0).
Proof.
  assert (allocated memory (Some 0)) as Ha. { intros l [= <-]. by eexists. }
  split.
  - destruct (indexFunc_slices field namespaced memory memory (Some 0) eq_refl Ha) as (m' & vals & Hr & Hd & Hs & _).
    exists m', vals. split; [exact Hr|]. split; [exact Hd|exact Hs].
  - destruct (indexFunc_slices field cluster memory memory (Some 0) eq_refl Ha) as (m' & vals & Hr & Hd & Hv & _).
    exists m', vals. split; [exact Hr|]. split; [exact Hd|exact Hv].
Defined.

(** Indexing a cluster-scoped object a second time loses it. *)
Example reindexed_lost : snd (indexFunc_mem field (CObject cluster) (reindexed field cluster 1 memory)) = inr (Some 0) /\
  deref (reindexed field cluster 2 memory) (Some 0) = ["__all_namespaces/__all_namespaces/a"; "__all_namespaces/__all_namespaces/b"].
Proof. split; reflexivity. Qed.
