(* ===== verification/Events.v ===== *)
(** Events: the adapter between informers and event handlers
    [source/internal/eventsource.go], the kind source [source/source.go], the
    finalizer predicate [predicate/predicate.go] and the handler for external
    controllers [controller/external/handler/cachedenqueue.go].

    Informers notify a handler of the values they store.  The adapter extracts
    the objects, asks the predicates and calls the event handler; the handler
    for external objects enqueues what its cache does not know. *)
From S2P Require Import Prelude Object.

(** A value an informer passes on: an object, a tombstone with the last known
    value of a deleted object ([cache.DeletedFinalStateUnknown]), or a value of
    another type. *)
Inductive notified (Obj : Type) :=
| NObject (o : Obj)
| NTombstone (v : notified Obj)
| NOther (typ : string).
Arguments NObject {Obj}. Arguments NTombstone {Obj}. Arguments NOther {Obj}.

(** Create, update, delete and generic events; [None] is a nil object. *)
Record UpdateEvent (Obj : Type) := mkUpdateEvent { ObjectOld : option Obj; ObjectNew : option Obj }.
Arguments mkUpdateEvent {Obj}. Arguments ObjectOld {Obj}. Arguments ObjectNew {Obj}.

(** [predicate.Predicate]. *)
Record Predicate (Obj : Type) := mkPredicate {
  pr_Create : Obj -> bool; pr_Update : UpdateEvent Obj -> bool; pr_Delete : Obj -> bool
}.
Arguments mkPredicate {Obj}. Arguments pr_Create {Obj}. Arguments pr_Update {Obj}. Arguments pr_Delete {Obj}.

(** The calls to a [handler.EventHandler]. *)
Inductive EventCall (Obj : Type) := ECreate (o : Obj) | EUpdate (old new : Obj) | EDelete (o : Obj).
Arguments ECreate {Obj}. Arguments EUpdate {Obj}. Arguments EDelete {Obj}.

Section events.
Context {W Obj : Type}.
Local Abbreviation St := (World W (EventCall Obj)).

(** [handler.EventHandler], with its queue. *)
Record Handler := mkHandler {
  h_Create : Obj -> M W unit; h_Update : Obj -> Obj -> M W unit; h_Delete : Obj -> M W unit
}.

(** [type EventHandler struct]. *)
Record EventHandler := mkEventHandler { eh_Handler : Handler; Predicates : list (Predicate Obj) }.

(** [EventHandler.OnAdd]. *)
Definition OnAdd (e : EventHandler) (obj : notified Obj) : M St unit :=
  match obj with
  | NObject o =>
    if forallb (fun p => pr_Create p o) (Predicates e) then logged (ECreate o) (h_Create (eh_Handler e) o)
    else mret tt
  | _ => mret tt
  end.

(** [EventHandler.OnUpdate]. *)
Definition OnUpdate (e : EventHandler) (oldObj newObj : notified Obj) : M St unit :=
  match oldObj, newObj with
  | NObject o, NObject n =>
    if forallb (fun p => pr_Update p (mkUpdateEvent (Some o) (Some n))) (Predicates e)
    then logged (EUpdate o n) (h_Update (eh_Handler e) o n) else mret tt
  | _, _ => mret tt
  end.

(** [EventHandler.OnDelete]: one tombstone is opened. *)
Definition OnDelete (e : EventHandler) (obj : notified Obj) : M St unit :=
  let deliver obj : M St unit :=
    match obj with
    | NObject o =>
      if forallb (fun p => pr_Delete p o) (Predicates e) then logged (EDelete o) (h_Delete (eh_Handler e) o)
      else mret tt
    | _ => mret tt
    end in
  match obj with
  | NObject _ => deliver obj
  | NTombstone v => deliver v
  | NOther _ => mret tt
  end.

(** ** The finalizer predicate *)

(** [reflect.DeepEqual] on slices of strings: a nil slice ([None]) differs from
    an empty one. *)
Definition DeepEqual_strings (a b : option (list string)) : bool := bool_decide (a = b).

(** [FinalizerChangedPredicate.Update]; [finalizers] is [GetFinalizers] with nil
    slices told apart. *)
Definition FinalizerChanged_Update (finalizers : Obj -> option (list string)) (e : UpdateEvent Obj) : bool :=
  match ObjectOld e, ObjectNew e with
  | None, _ => false
  | _, None => false
  | Some o, Some n => negb (DeepEqual_strings (finalizers n) (finalizers o))
  end.

(** [FinalizerChangedPredicate]: the embedded [predicate.Funcs] accepts every
    other event. *)
Definition FinalizerChangedPredicate (finalizers : Obj -> option (list string)) : Predicate Obj :=
  mkPredicate (fun _ => true) (FinalizerChanged_Update finalizers) (fun _ => true).

(** ** The kind source *)

(** [type Kind struct] over a cache, of which it uses [GetInformer],
    [WaitForCacheSync] and the [AddEventHandler] of an informer. *)
Record EventCache := mkEventCache {
  ec_GetInformer : Obj -> M W (error + nat);
  ec_AddEventHandler : nat -> EventHandler -> M W unit;
  ec_WaitForCacheSync : M W bool;
}.
Record KindSource := mkKindSource { ks_Type : option Obj; ks_cache : option EventCache }.

(** [Kind.Start]. *)
Definition ks_Start (ks : KindSource) (handler : Handler) (prct : list (Predicate Obj)) : M W err :=
  match ks_Type ks with
  | None => mret (Some (errors_New "must specify Kind.Type"))
  | Some t =>
    match ks_cache ks with
    | None => mret (Some (errors_New "must call CacheInto on Kind before calling Start"))
    | Some c =>
      r ← ec_GetInformer c t;
      match r with
      | inl e => mret (Some e)
      | inr i => _ ← ec_AddEventHandler c i (mkEventHandler handler prct); mret None
      end
    end
  end.

(** [Kind.WaitForSync]; a missing cache is a nil dereference. *)
Definition ks_WaitForSync (ks : KindSource) (w : W) : outcome (W * err) :=
  match ks_cache ks with
  | None => Panic "nil pointer dereference"
  | Some c =>
    let '(w, ok) := ec_WaitForCacheSync c w in
    Done (w, if negb ok then Some (errors_New "cache did not sync") else None)
  end.

(** [Kind.InjectCache] keeps a cache it already has. *)
Definition InjectCache (ks : KindSource) (c : EventCache) : KindSource :=
  match ks_cache ks with None => mkKindSource (ks_Type ks) (Some c) | Some _ => ks end.

(** ** Enqueueing external objects *)

Context `{ClientObject Obj}.

(** The generic event handler of [NewEnqueueRequestFromCache]; the queue is the
    list of the requests added to it. *)
Definition EnqueueRequestFromCache (CacheMiss : Obj -> M W bool) (evt : option Obj) (queue : list NamespacedName)
  : M W (list NamespacedName) :=
  match evt with
  | None => mret queue
  | Some o =>
    miss ← CacheMiss o;
    mret (if (miss : bool) then queue ++ [mkNN (GetNamespace o) (GetName o)] else queue)
  end.

(** The handler over a sequence of events. *)
Fixpoint enqueueAll (CacheMiss : Obj -> M W bool) (evts : list (option Obj)) (queue : list NamespacedName)
  : M W (list NamespacedName) :=
  match evts with
  | [] => mret queue
  | evt :: evts => queue ← EnqueueRequestFromCache CacheMiss evt queue; enqueueAll CacheMiss evts queue
  end.
End events.
Arguments Handler : clear implicits. Arguments EventHandler : clear implicits.

(** ** Properties *)

(** What an informer reports. *)
Inductive notification (Obj : Type) :=
| Added (v : notified Obj)
| Updated (old new : notified Obj)
| Deleted (v : notified Obj).
Arguments Added {Obj}. Arguments Updated {Obj}. Arguments Deleted {Obj}.

Section events_claims.
Context {W Obj : Type}.
Local Abbreviation St := (World W (EventCall Obj)).

Definition notify (e : EventHandler W Obj) (n : notification Obj) : M St unit :=
  match n with
  | Added v => OnAdd e v
  | Updated old new => OnUpdate e old new
  | Deleted v => OnDelete e v
  end.

(** The event a notification stands for: a deletion may be wrapped in a tombstone. *)
Definition event_of (n : notification Obj) : option (EventCall Obj) :=
  match n with
  | Added (NObject o) => Some (ECreate o)
  | Updated (NObject o) (NObject n) => Some (EUpdate o n)
  | Deleted (NObject o) | Deleted (NTombstone (NObject o)) => Some (EDelete o)
  | _ => None
  end.
Definition accepts (c : EventCall Obj) (p : Predicate Obj) : bool :=
  match c with
  | ECreate o => pr_Create p o
  | EUpdate o n => pr_Update p (mkUpdateEvent (Some o) (Some n))
  | EDelete o => pr_Delete p o
  end.
Definition accepted (ps : list (Predicate Obj)) (c : EventCall Obj) : Prop := Forall (fun p => accepts c p = true) ps.
#[export] Instance accepted_dec ps c : Decision (accepted ps c).
Proof. unfold accepted. apply _. Defined.

(** The handler method an event is for. *)
Definition dispatch (h : Handler W Obj) (c : EventCall Obj) : M W unit :=
  match c with
  | ECreate o => h_Create h o
  | EUpdate o n => h_Update h o n
  | EDelete o => h_Delete h o
  end.

Lemma forallb_accepted ps c : forallb (accepts c) ps = bool_decide (accepted ps c).
Proof.
  unfold accepted. apply eq_bool_prop_intro. rewrite bool_decide_spec, forallb_True.
  apply Forall_iff. intros p. by rewrite Is_true_true.
Qed.

Lemma notify_run e n (w : St) : notify e n w =
  match event_of n with
  | Some c => if bool_decide (accepted (Predicates e) c) then logged c (dispatch (eh_Handler e) c) w else (w, tt)
  | None => (w, tt)
  end.
Proof.
  destruct n as [[o|v|t]|[o|v|t] [n|v'|t']|[o|[o|v|t]|t]]; try done; cbn; rewrite <- forallb_accepted.
  - by change (fun p => pr_Create p o) with (accepts (ECreate o)); destruct (forallb _ _).
  - by change (fun p => pr_Update p _) with (accepts (EUpdate o n)); destruct (forallb _ _).
  - by change (fun p => pr_Delete p o) with (accepts (EDelete o)); destruct (forallb _ _).
  - by change (fun p => pr_Delete p o) with (accepts (EDelete o)); destruct (forallb _ _).
Qed.

(** Of a sequence of notifications, the handler gets exactly the events of
    the objects in them that all predicates accept, in their order: a deletion
    also when it comes as a tombstone, and nothing else changes the world. *)
Theorem notifications_delivered (e : EventHandler W Obj) ns (w : St) :
  let delivered := filter (accepted (Predicates e)) (omap event_of ns) in
  let w' := fst (forM_ ns (notify e) w) in
  wlog w' = wlog w ++ delivered /\
  wst w' = fst (forM_ delivered (dispatch (eh_Handler e)) (wst w)).
Proof.
  revert w. induction ns as [|n ns IH]; intros w; [by cbn; rewrite app_nil_r|]. cbn [forM_ omap list_omap].
  unfold mbind, M_bind. rewrite notify_run. destruct (event_of n) as [c|]; [|apply IH].
  rewrite filter_cons. case_bool_decide as Hc; [rewrite decide_True by done|rewrite decide_False by done; apply IH].
  unfold logged. cbn. unfold mbind, M_bind. destruct (dispatch (eh_Handler e) c (wst w)) as [s []].
  destruct (IH (mkWorld s (wlog w ++ [c]))) as [Hl Hw].
  split; [|exact Hw]. rewrite Hl. cbn. by rewrite <- app_assoc.
Qed.
End events_claims.
