(* ===== verification/Pki.v ===== *)
(** Keys and certificates: [internal/pkiutil/pki_helpers.go] and
    [internal/pkiutil/pem.go].

    The package makes keys, certificates and certificate requests and keeps them
    in PEM files.  Byte slices, key material and IP addresses are strings, times
    are nanoseconds.  What it uses of [crypto/x509], [encoding/pem], client-go's
    certificate helpers and the file system are the classes [X509Lib] and
    [DiskLib], with documented behaviour as laws. *)
From Stdlib Require Import Ascii.
From S2P Require Import Prelude.

(** ** Data of the standard library *)

(** A [crypto.Signer] of one of the two kinds the package makes. *)
Inductive Signer := RSAKey (k : string) | ECDSAKey (k : string).
(** What parsing a private key may return. *)
Inductive PrivateKey := SignerKey (s : Signer) | OtherKey (typ : string).

(** [x509.Certificate], as a template and as parsed from [Raw]. *)
Record Cert := mkCert {
  CommonName : string; Organization : list string;
  DNSNames : list string; IPAddresses : list string;
  SerialNumber : Z; NotBefore : Z; NotAfter : Z;
  KeyUsage : Z; ExtKeyUsage : list Z; BasicConstraintsValid : bool; IsCA : bool;
  cert_PublicKey : string; Raw : string;
}.

(** [x509.CertificateRequest]. *)
Record CertificateRequest := mkCSR {
  csr_CommonName : string; csr_Organization : list string;
  csr_DNSNames : list string; csr_IPAddresses : list string; csr_Raw : string;
}.

Definition KeyUsageDigitalSignature : Z := 1.
Definition KeyUsageKeyEncipherment : Z := 4.
Definition KeyUsageCertSign : Z := 32.
Definition ExtKeyUsageAny : Z := 0.
Definition ExtKeyUsageServerAuth : Z := 1.
Definition MaxInt64 : Z := 2 ^ 63 - 1.

(** [x509.PublicKeyAlgorithm]: RSA is 1 and ECDSA is 3. *)
Definition x509_RSA : Z := 1.
Definition x509_ECDSA : Z := 3.

(** [x509.VerifyOptions]; no current time means now. *)
Record VerifyOptions := mkVerifyOptions {
  vo_DNSName : string; vo_Roots : list Cert; vo_Intermediates : list Cert;
  vo_CurrentTime : option Z; vo_KeyUsages : list Z;
}.

(** ** Configuration *)

(** [certutil.AltNames] and the fields of [certutil.Config] with the algorithm
    that [CertConfig] adds. *)
Record AltNames := mkAltNames { alt_DNSNames : list string; alt_IPs : list string }.
Record CertConfig := mkCertConfig {
  cfg_CommonName : string; cfg_Organization : list string; cfg_AltNames : AltNames;
  Usages : list Z; PublicKeyAlgorithm : Z;
}.
Definition with_AltNames (cfg : CertConfig) (a : AltNames) : CertConfig :=
  mkCertConfig (cfg_CommonName cfg) (cfg_Organization cfg) a (Usages cfg) (PublicKeyAlgorithm cfg).

Definition PrivateKeyBlockType : string := "PRIVATE KEY".
Definition PublicKeyBlockType : string := "PUBLIC KEY".
Definition CertificateBlockType : string := "CERTIFICATE".
Definition RSAPrivateKeyBlockType : string := "RSA PRIVATE KEY".
Definition CertificateRequestBlockType : string := "CERTIFICATE REQUEST".
Definition rsaKeySize : Z := 2048.
Definition CertificateValidity : Z := hour * 24 * 365.

(** ** Libraries *)

(** Clock, randomness, keys, certificates and their encodings.  Verifying is
    given the current time, which the options may override. *)
Class X509Lib (W : Type) := {
  Now : W -> Z;
  rand_Int : Z -> M W (error + Z);
  rsa_GenerateKey : Z -> M W (error + string);
  ecdsa_GenerateKey : M W (error + string);
  Public : Signer -> string;
  CreateCertificate : Cert -> Cert -> string -> Signer -> M W (error + string);
  x509_ParseCertificate : string -> error + Cert;
  CreateCertificateRequest : CertificateRequest -> Signer -> M W (error + string);
  ParseCertificateRequest : string -> error + CertificateRequest;
  NewSelfSignedCACert : CertConfig -> Signer -> M W (error + Cert);
  x509_Verify : Cert -> VerifyOptions -> Z -> err;
  MarshalPKCS1PrivateKey : string -> string;
  MarshalPKIXPublicKey : string -> error + string;
  MarshalPrivateKeyToPEM : Signer -> error + string;
  ParsePrivateKeyPEM : string -> error + PrivateKey;
  ParseCertsPEM : string -> error + list Cert;
  pem_Encode : string -> string -> string;
  pem_Block : string -> option (string * string);
  ip_String : string -> string;
}.

(** Files, paths, and client-go's functions that read and write PEM files. *)
Class DiskLib (W : Type) := {
  ReadFile : string -> M W (error + string);
  WriteFile : string -> string -> Z -> M W err;
  MkdirAll : string -> Z -> M W err;
  Stat : string -> M W err;
  IsNotExist : err -> bool;
  path_Join : string -> string -> string;
  path_Dir : string -> string;
  cert_WriteCert : string -> string -> M W err;
  key_WriteKey : string -> string -> M W err;
  CertsFromFile : string -> M W (error + list Cert);
  PrivateKeyFromFile : string -> M W (error + PrivateKey);
  PublicKeysFromFile : string -> M W (error + list (string * string));
}.

Section pki.
Context {W : Type} `{X509Lib W} `{DiskLib W} `{ErrorLib}.

(** ** PEM *)

Definition EncodePrivateKeyPEM (key : string) : string := pem_Encode RSAPrivateKeyBlockType (MarshalPKCS1PrivateKey key).
Definition EncodeCSRPEM (csr : CertificateRequest) : string := pem_Encode CertificateRequestBlockType (csr_Raw csr).
Definition EncodeCertPEM (cert : Cert) : string := pem_Encode CertificateBlockType (Raw cert).
(** Encoding a block without headers into a buffer does not fail. *)
Definition EncodeCertBundlePEM (certs : list Cert) : error + string :=
  inr (foldl (fun buf cert => buf +:+ pem_Encode CertificateBlockType (Raw cert)) "" certs).
Definition EncodePublicKeyPEM (key : string) : error + string :=
  match MarshalPKIXPublicKey key with
  | inl e => inl e
  | inr der => inr (pem_Encode PublicKeyBlockType der)
  end.

Definition parseCSRPEM (pemCSR : string) : error + CertificateRequest :=
  match pem_Block pemCSR with
  | None => inl (errors_New "data doesn't contain a valid certificate request")
  | Some (typ, bytes) =>
    if negb (bool_decide (typ = CertificateRequestBlockType)) then
      inl (errorf "expected block type %q, but PEM had type %q" [CertificateRequestBlockType; typ] [] None)
    else ParseCertificateRequest bytes
  end.

(** ** Paths *)

Definition pathForCert (pkiPath name : string) : string := path_Join pkiPath (name +:+ ".crt").
Definition pathForKey (pkiPath name : string) : string := path_Join pkiPath (name +:+ ".key").
Definition pathForPublicKey (pkiPath name : string) : string := path_Join pkiPath (name +:+ ".pub").
Definition pathForCSR (pkiPath name : string) : string := path_Join pkiPath (name +:+ ".csr").
Definition PathsForCertAndKey (pkiPath name : string) : string * string :=
  (pathForCert pkiPath name, pathForKey pkiPath name).

(** ** Keys and certificates *)

Definition GeneratePrivateKey (keyType : Z) : M W (error + Signer) :=
  if bool_decide (keyType = x509_ECDSA) then k ←? ecdsa_GenerateKey; mret (inr (ECDSAKey k))
  else k ←? rsa_GenerateKey rsaKeySize; mret (inr (RSAKey k)).

(** The loop of [RemoveDuplicateAltNames] over the IPs, with the keys seen. *)
Fixpoint uniqueIPs (ips : list string) (ipsKeys : gset string) : list string :=
  match ips with
  | [] => []
  | one :: ips =>
    if bool_decide (ip_String one ∈ ipsKeys) then uniqueIPs ips ipsKeys
    else one :: uniqueIPs ips ({[ip_String one]} ∪ ipsKeys)
  end.
(** [RemoveDuplicateAltNames]; [sets.NewString(l...).List()] is the sorted list
    of the distinct elements. *)
Definition sets_List (l : list string) : list string := sort_Strings (remove_dups l).
Definition RemoveDuplicateAltNames (a : AltNames) : AltNames :=
  mkAltNames (sets_List (alt_DNSNames a)) (uniqueIPs (alt_IPs a) ∅).

(** [NewSignedCertWithValidity]: the configuration, whose names it changes in
    place, and the certificate. *)
Definition NewSignedCertWithValidity (cfg : CertConfig) (key : Signer) (caCert : Cert) (caKey : Signer)
  (isCA : bool) (validity : Z) : M W (CertConfig * (error + Cert)) :=
  r ← rand_Int MaxInt64;
  match r with
  | inl e => mret (cfg, inl e)
  | inr serial =>
    if bool_decide (String.length (cfg_CommonName cfg) = 0) then
      mret (cfg, inl (errors_New "must specify a CommonName"))
    else
      let keyUsage := Z.lor KeyUsageKeyEncipherment KeyUsageDigitalSignature in
      let keyUsage := if isCA then Z.lor keyUsage KeyUsageCertSign else keyUsage in
      let cfg := with_AltNames cfg (RemoveDuplicateAltNames (cfg_AltNames cfg)) in
      let certTmpl := mkCert (cfg_CommonName cfg) (cfg_Organization cfg)
        (alt_DNSNames (cfg_AltNames cfg)) (alt_IPs (cfg_AltNames cfg))
        serial (NotBefore caCert) validity keyUsage (Usages cfg) true isCA "" "" in
      r ← CreateCertificate certTmpl caCert (Public key) caKey;
      mret (cfg, match r with inl e => inl e | inr der => x509_ParseCertificate der end)
  end.

Definition NewSignedCert (cfg : CertConfig) (key : Signer) (caCert : Cert) (caKey : Signer) (isCA : bool)
  : M W (CertConfig * (error + Cert)) := fun w =>
  let validity := (Now w + CertificateValidity)%Z in
  NewSignedCertWithValidity cfg key caCert caKey isCA validity w.

Definition NewCertificateAuthority (config : CertConfig) : M W (error + Cert * Signer) :=
  key ←? on_error (GeneratePrivateKey (PublicKeyAlgorithm config))
           (fun e => Wrapf e "unable to create private key while generating CA certificate" []);
  cert ←? on_error (NewSelfSignedCACert config key) (fun e => Wrapf e "unable to create self-signed CA certificate" []);
  mret (inr (cert, key)).

Definition NewIntermediateCertificateAuthority (parentCert : Cert) (parentKey : Signer) (config : CertConfig)
  : M W (error + Cert * Signer) :=
  key ←? on_error (GeneratePrivateKey (PublicKeyAlgorithm config))
           (fun e => Wrapf e "unable to create private key while generating intermediate CA certificate" []);
  cert ←? on_error ('(_, r) ← NewSignedCert config key parentCert parentKey true; mret r)
            (fun e => Wrapf e "unable to sign intermediate CA certificate" []);
  mret (inr (cert, key)).

Definition NewCertAndKey (caCert : Cert) (caKey : Signer) (config : CertConfig) : M W (error + Cert * Signer) :=
  if bool_decide (length (Usages config) = 0) then
    mret (inl (errors_New "must specify at least one ExtKeyUsage"))
  else
    key ←? on_error (GeneratePrivateKey (PublicKeyAlgorithm config))
             (fun e => Wrapf e "unable to create private key" []);
    cert ←? on_error ('(_, r) ← NewSignedCert config key caCert caKey false; mret r)
              (fun e => Wrapf e "unable to sign certificate" []);
    mret (inr (cert, key)).

Definition NewCSR (cfg : CertConfig) (key : Signer) : M W (error + CertificateRequest) :=
  let template := mkCSR (cfg_CommonName cfg) (cfg_Organization cfg)
    (alt_DNSNames (cfg_AltNames cfg)) (alt_IPs (cfg_AltNames cfg)) "" in
  csrBytes ←? on_error (CreateCertificateRequest template key) (fun e => Wrapf e "failed to create a CSR" []);
  mret (ParseCertificateRequest csrBytes).

Definition NewCSRAndKey (config : CertConfig) : M W (error + CertificateRequest * Signer) :=
  key ←? on_error (GeneratePrivateKey (PublicKeyAlgorithm config)) (fun e => Wrapf e "unable to create private key" []);
  csr ←? on_error (NewCSR config key) (fun e => Wrapf e "unable to generate CSR" []);
  mret (inr (csr, key)).

Definition HasServerAuth (cert : Cert) : bool :=
  existsb (fun u => bool_decide (u = ExtKeyUsageServerAuth)) (ExtKeyUsage cert).

(** [ValidateCertPeriod]; the period it prints is given by its two times. *)
Definition ValidateCertPeriod (cert : Cert) (offset : Z) (w : W) : err :=
  let period := [pretty (NotBefore cert); pretty (NotAfter cert)] in
  let now := (Now w + offset)%Z in
  if (now <? NotBefore cert)%Z then Some (errorf "the certificate is not valid yet: %s" period [] None)
  else if (NotAfter cert <? now)%Z then Some (errorf "the certificate has expired: %s" period [] None)
  else None.

Definition VerifyCertChain (cert : Cert) (intermediates : list Cert) (root : Cert) (w : W) : err :=
  x509_Verify cert (mkVerifyOptions "" [root] intermediates None [ExtKeyUsageAny]) (Now w).

(** ** Files *)

(** [WriteCert]; the pointer may be nil. *)
Definition WriteCert (pkiPath name : string) (cert : option Cert) : M W err :=
  match cert with
  | None => mret (Some (errors_New "certificate cannot be nil when writing to file"))
  | Some cert =>
    let certificatePath := pathForCert pkiPath name in
    wrap_err (cert_WriteCert certificatePath (EncodeCertPEM cert))
      (fun e => Wrapf e "unable to write certificate to file %s" [certificatePath])
  end.

(** The first loop of [WriteCertBundle]: the position of a nil certificate. *)
Fixpoint nilPosition (i : nat) (certs : list (option Cert)) : nat + list Cert :=
  match certs with
  | [] => inr []
  | None :: _ => inl i
  | Some c :: certs => match nilPosition (S i) certs with inl j => inl j | inr cs => inr (c :: cs) end
  end.
Definition WriteCertBundle (pkiPath name : string) (certs : list (option Cert)) : M W err :=
  match nilPosition 0 certs with
  | inl i => mret (Some (errorf "found nil certificate at position %d when writing bundle to file" [pretty i] [] None))
  | inr certs =>
    let certificatePath := pathForCert pkiPath name in
    match EncodeCertBundlePEM certs with
    | inl e => mret (Some (Wrapf e "unable to marshal certificate bundle to PEM" []))
    | inr encoded =>
      wrap_err (cert_WriteCert certificatePath encoded)
        (fun e => Wrapf e "unable to write certificate bundle to file %s" [certificatePath])
    end
  end.

Definition WriteKey (pkiPath name : string) (key : option Signer) : M W err :=
  match key with
  | None => mret (Some (errors_New "private key cannot be nil when writing to file"))
  | Some key =>
    let privateKeyPath := pathForKey pkiPath name in
    match MarshalPrivateKeyToPEM key with
    | inl e => mret (Some (Wrapf e "unable to marshal private key to PEM" []))
    | inr encoded =>
      wrap_err (key_WriteKey privateKeyPath encoded)
        (fun e => Wrapf e "unable to write private key to file %s" [privateKeyPath])
    end
  end.

Definition WriteCertAndKey (pkiPath name : string) (cert : option Cert) (key : option Signer) : M W err :=
  check wrap_err (WriteKey pkiPath name key) (fun e => Wrapf e "couldn't write key" []);
  WriteCert pkiPath name cert.

Definition WriteCSR (csrDir name : string) (csr : option CertificateRequest) : M W err :=
  match csr with
  | None => mret (Some (errors_New "certificate request cannot be nil when writing to file"))
  | Some csr =>
    let csrPath := pathForCSR csrDir name in
    check wrap_err (MkdirAll (path_Dir csrPath) 448)
      (fun e => Wrapf e "failed to make directory %s" [path_Dir csrPath]);
    wrap_err (WriteFile csrPath (EncodeCSRPEM csr) 384)
      (fun e => Wrapf e "unable to write CSR to file %s" [csrPath])
  end.

Definition WritePublicKey (pkiPath name : string) (key : option string) : M W err :=
  match key with
  | None => mret (Some (errors_New "public key cannot be nil when writing to file"))
  | Some key =>
    match EncodePublicKeyPEM key with
    | inl e => mret (Some e)
    | inr publicKeyBytes =>
      let publicKeyPath := pathForPublicKey pkiPath name in
      wrap_err (key_WriteKey publicKeyPath publicKeyBytes)
        (fun e => Wrapf e "unable to write public key to file %s" [publicKeyPath])
    end
  end.

Definition CertOrKeyExist (pkiPath name : string) : M W bool :=
  let '(certificatePath, privateKeyPath) := PathsForCertAndKey pkiPath name in
  certErr ← Stat certificatePath;
  keyErr ← Stat privateKeyPath;
  mret (negb (IsNotExist certErr && IsNotExist keyErr)).

Definition CSROrKeyExist (csrDir name : string) : M W bool :=
  csrErr ← Stat (pathForCSR csrDir name);
  keyErr ← Stat (pathForKey csrDir name);
  mret (negb (IsNotExist csrErr && IsNotExist keyErr)).

(** Loading.  [certs[0]] panics on a file without certificates, which
    [CertsFromFile] reports as an error. *)
Definition TryLoadCertChainFromDisk (pkiPath name : string) (w : W) : outcome (W * (error + Cert * list Cert)) :=
  let certificatePath := pathForCert pkiPath name in
  match CertsFromFile certificatePath w with
  | (w, inl e) => Done (w, inl (Wrapf e "couldn't load the certificate file %s" [certificatePath]))
  | (w, inr []) => Panic "index out of range"
  | (w, inr (cert :: intermediates)) => Done (w, inr (cert, intermediates))
  end.
Definition TryLoadCertFromDisk (pkiPath name : string) (w : W) : outcome (W * (error + Cert)) :=
  let certificatePath := pathForCert pkiPath name in
  match CertsFromFile certificatePath w with
  | (w, inl e) => Done (w, inl (Wrapf e "couldn't load the certificate file %s" [certificatePath]))
  | (w, inr []) => Panic "index out of range"
  | (w, inr (cert :: _)) => Done (w, inr cert)
  end.

Definition TryLoadKeyFromDisk (pkiPath name : string) : M W (error + Signer) :=
  let privateKeyPath := pathForKey pkiPath name in
  privKey ←? on_error (PrivateKeyFromFile privateKeyPath)
               (fun e => Wrapf e "couldn't load the private key file %s" [privateKeyPath]);
  match privKey with
  | SignerKey k => mret (inr k)
  | OtherKey _ => mret (inl (errorf "the private key file %s is neither in RSA nor ECDSA format" [privateKeyPath] [] None))
  end.

Definition TryLoadCertAndKeyFromDisk (pkiPath name : string) (w : W) : outcome (W * (error + Cert * Signer)) :=
  match TryLoadCertFromDisk pkiPath name w with
  | Panic p => Panic p
  | OutOfFuel => OutOfFuel
  | Done (w, inl e) => Done (w, inl (Wrapf e "failed to load certificate" []))
  | Done (w, inr cert) =>
    Done ((key ←? on_error (TryLoadKeyFromDisk pkiPath name) (fun e => Wrapf e "failed to load key" []);
           mret (inr (cert, key))) w)
  end.

Definition CertificateRequestFromFile (file : string) : M W (error + CertificateRequest) :=
  pemBlock ←? on_error (ReadFile file) (fun e => Wrapf e "failed to read file" []);
  on_error (mret (parseCSRPEM pemBlock)) (fun e => Wrapf e "error reading certificate request file %s" [file]).

Definition TryLoadCSRFromDisk (pkiPath name : string) : M W (error + CertificateRequest) :=
  let csrPath := pathForCSR pkiPath name in
  on_error (CertificateRequestFromFile csrPath) (fun e => Wrapf e "could not load the CSR %s" [csrPath]).

Definition TryLoadCSRAndKeyFromDisk (pkiPath name : string) : M W (error + CertificateRequest * Signer) :=
  csr ←? on_error (TryLoadCSRFromDisk pkiPath name) (fun e => Wrapf e "could not load CSR file" []);
  key ←? on_error (TryLoadKeyFromDisk pkiPath name) (fun e => Wrapf e "could not load key file" []);
  mret (inr (csr, key)).

(** [TryLoadPrivatePublicKeyFromDisk]: a public key is its type and material; the
    type assertion on the first one panics on another type than RSA. *)
Definition TryLoadPrivatePublicKeyFromDisk (pkiPath name : string) (w : W)
  : outcome (W * (error + string * string)) :=
  let privateKeyPath := pathForKey pkiPath name in
  let publicKeyPath := pathForPublicKey pkiPath name in
  match PrivateKeyFromFile privateKeyPath w with
  | (w, inl e) => Done (w, inl (Wrapf e "couldn't load the private key file %s" [privateKeyPath]))
  | (w, inr privKey) =>
    match PublicKeysFromFile publicKeyPath w with
    | (w, inl e) => Done (w, inl (Wrapf e "couldn't load the public key file %s" [publicKeyPath]))
    | (w, inr pubKeys) =>
      match privKey with
      | SignerKey (RSAKey k) =>
        match pubKeys with
        | [] => Panic "index out of range"
        | (typ, p) :: _ =>
          if bool_decide (typ = "*rsa.PublicKey") then Done (w, inr (k, p)) else Panic "interface conversion"
        end
      | _ => Done (w, inl (errorf "the private key file %s isn't in RSA format" [privateKeyPath] [] None))
      end
    end
  end.
End pki.

(** ** Alternative names *)

Section altnames.
Context {W : Type} `{X509Lib W}.

Lemma elem_of_sets_List l x : x ∈ sets_List l <-> x ∈ l.
Proof. unfold sets_List. by rewrite sort_Strings_perm, elem_of_remove_dups. Qed.
Lemma sets_List_NoDup l : NoDup (sets_List l).
Proof. unfold sets_List. rewrite sort_Strings_perm. apply NoDup_remove_dups. Qed.
(** The list of a set is the sorted list of its elements, whatever their order
    and number in the list it is made from. *)
Lemma sets_List_canonical l k :
  StronglySorted string_le k -> NoDup k -> (forall x, x ∈ k <-> x ∈ l) -> sets_List l = k.
Proof.
  intros Hs Hk He. apply sort_Strings_unique; [done|].
  apply NoDup_Permutation; [done|apply NoDup_remove_dups|]. intros x. by rewrite elem_of_remove_dups.
Qed.

(** The first of the IPs with the same text. *)
Definition first_with (ips : list string) (x : string) : Prop :=
  exists i, ips !! i = Some x /\
    forall j y, j < i -> ips !! j = Some y -> ip_String y <> ip_String x.

Lemma uniqueIPs_spec ips keys :
  let us := uniqueIPs ips keys in
  us `sublist_of` ips /\ NoDup (ip_String <$> us) /\
  (forall x, x ∈ us <-> first_with ips x /\ ip_String x ∉ keys).
Proof.
  revert keys. induction ips as [|a ips IH]; intros keys; cbn.
  { split_and!; [constructor|constructor|]. intros x. split; [by intros ?%elem_of_nil|].
    intros [(i & Hi & _) _]. by rewrite lookup_nil in Hi. }
  assert (forall x, first_with (a :: ips) x <-> x = a \/ ip_String a <> ip_String x /\ first_with ips x) as Hf.
  { intros x. unfold first_with. split.
    - intros ([|i] & Hi & Hj); cbn in Hi; [left; congruence|right]. split; [by apply (Hj 0); [lia|]|].
      exists i. split; [done|]. intros j y Hlt. apply (Hj (S j)). lia.
    - intros [->|[Hne (i & Hi & Hj)]]; [exists 0; split; [done|lia]|]. exists (S i). split; [done|].
      intros [|j] y Hlt Hy; cbn in Hy; [by simplify_eq|]. eapply Hj; [|done]. lia. }
  case_bool_decide as Hin.
  - destruct (IH keys) as (Hs & Hn & He). split_and!; [by constructor|done|]. intros x. rewrite He, Hf.
    split; [|intros [[->|[? ?]] ?]; naive_solver]. intros [Hx Hk]. split; [|done]. right. split; [|done]. congruence.
  - destruct (IH ({[ip_String a]} ∪ keys)) as (Hs & Hn & He). split_and!; [by constructor| |].
    + constructor; [|done]. intros (y & Hy & Hy')%list_elem_of_fmap. apply He in Hy' as [_ Hk]. set_solver.
    + intros x. rewrite elem_of_cons, He, Hf. split; [intros [->|[? ?]]; set_solver|].
      intros [[->|[? ?]] ?]; [by left|right; set_solver].
Qed.

Lemma uniqueIPs_id ips keys : NoDup (ip_String <$> ips) -> Forall (fun x => ip_String x ∉ keys) ips ->
  uniqueIPs ips keys = ips.
Proof.
  revert keys. induction ips as [|a ips IH]; intros keys Hn Hk; cbn; [done|].
  apply NoDup_cons in Hn as [Ha Hn]. apply Forall_cons in Hk as [Hka Hk].
  rewrite bool_decide_false by done. f_equal. apply IH; [done|]. apply Forall_forall. intros x Hx.
  rewrite Forall_forall in Hk. specialize (Hk x Hx).
  assert (ip_String x <> ip_String a) by (intros Heq; apply Ha; rewrite <- Heq; by apply list_elem_of_fmap_2). set_solver.
Qed.

(** C40: removing duplicate names leaves the sorted list of the distinct DNS names,
    and of the IPs with the same text the first, in their order; doing it twice
    changes nothing. *)
Theorem RemoveDuplicateAltNames_spec (a : AltNames) :
  let r := RemoveDuplicateAltNames a in
  (forall k, StronglySorted string_le k -> NoDup k -> (forall x, x ∈ k <-> x ∈ alt_DNSNames a) -> alt_DNSNames r = k) /\
  StronglySorted string_le (alt_DNSNames r) /\ NoDup (alt_DNSNames r) /\
  (forall x, x ∈ alt_DNSNames r <-> x ∈ alt_DNSNames a) /\
  alt_IPs r `sublist_of` alt_IPs a /\ NoDup (ip_String <$> alt_IPs r) /\
  (forall x, x ∈ alt_IPs r <-> first_with (alt_IPs a) x) /\
  RemoveDuplicateAltNames r = r.
Proof.
  destruct (uniqueIPs_spec (alt_IPs a) ∅) as (Hs & Hn & He). cbn.
  split_and!; try done.
  - intros k. apply sets_List_canonical.
  - apply sort_Strings_sorted.
  - apply sets_List_NoDup.
  - intros x. apply elem_of_sets_List.
  - intros x. rewrite He. set_solver.
  - unfold RemoveDuplicateAltNames. cbn. f_equal.
    + apply sets_List_canonical; [apply sort_Strings_sorted|apply sets_List_NoDup|done].
    + apply uniqueIPs_id; [done|]. apply Forall_forall. set_solver.
Qed.
End altnames.

(** ** Documented behaviour of the libraries *)

(** Certificates hold times in seconds. *)
Definition to_seconds (t : Z) : Z := (t - t mod second)%Z.
(** The block types of the package. *)
Definition block_types : list string :=
  [PrivateKeyBlockType; PublicKeyBlockType; CertificateBlockType; RSAPrivateKeyBlockType; CertificateRequestBlockType].
(** [c] has the contents of the template and the public key. *)
Definition issued `{X509Lib W} (tmpl : Cert) (pub : string) (c : Cert) : Prop :=
  CommonName c = CommonName tmpl /\ Organization c = Organization tmpl /\
  DNSNames c = DNSNames tmpl /\ ip_String <$> IPAddresses c = ip_String <$> IPAddresses tmpl /\ SerialNumber c = SerialNumber tmpl /\
  NotBefore c = to_seconds (NotBefore tmpl) /\ NotAfter c = to_seconds (NotAfter tmpl) /\
  KeyUsage c = KeyUsage tmpl /\ ExtKeyUsage c = ExtKeyUsage tmpl /\ IsCA c = IsCA tmpl /\ cert_PublicKey c = pub.

(** A certificate that is what its raw bytes parse to. *)
Definition parsed `{X509Lib W} (c : Cert) : Prop := x509_ParseCertificate (Raw c) = inr c.
Definition parsed_csr `{X509Lib W} (r : CertificateRequest) : Prop := ParseCertificateRequest (csr_Raw r) = inr r.

(** The period of a certificate, and certificates that may sign others; certificates
    have no name constraints. *)
Definition valid_at (t : Z) (c : Cert) : Prop := (NotBefore c <= t <= NotAfter c)%Z.
Definition may_sign (c : Cert) : Prop := IsCA c = true /\ Z.testbit (KeyUsage c) 5 = true /\ ExtKeyUsage c = [].

(** PEM decodes what it encodes; random numbers are in range; what is created
    parses to its template, and is signed with the key; PEM texts of
    certificates and keys parse to them.  [signed_by c p] says that the issuer of
    [c] is the subject of [p] and that its signature is by the key of [p]: then the
    chain of [c] and the root [p] verifies, for any name and use, while both are
    valid and [p] may sign. *)
Class X509Laws (W : Type) `{X509Lib W} := {
  signed_by : Cert -> Cert -> Prop;
  pem_roundtrip : forall t b, t ∈ block_types -> pem_Block (pem_Encode t b) = Some (t, b);
  rand_Int_range : forall max w w' n, (0 < max)%Z -> rand_Int max w = (w', inr n) -> (0 <= n < max)%Z;
  parse_raw : forall d c, x509_ParseCertificate d = inr c -> Raw c = d;
  create_parse : forall tmpl parent pub priv w w' d, CreateCertificate tmpl parent pub priv w = (w', inr d) ->
    exists c, x509_ParseCertificate d = inr c /\ issued tmpl pub c /\
      (Public priv = cert_PublicKey parent -> signed_by c parent);
  verify_chain : forall c r t, signed_by c r -> may_sign r -> valid_at t r -> valid_at t c ->
    x509_Verify c (mkVerifyOptions "" [r] [] None [ExtKeyUsageAny]) t = None;
  parse_csr_raw : forall d r, ParseCertificateRequest d = inr r -> csr_Raw r = d;
  certs_pem : forall cs, cs <> [] -> Forall parsed cs ->
    ParseCertsPEM (foldl (fun buf c => buf +:+ pem_Encode CertificateBlockType (Raw c)) "" cs) = inr cs;
  certs_parsed : forall p cs, ParseCertsPEM p = inr cs -> Forall parsed cs;
  marshal_key : forall k p, MarshalPrivateKeyToPEM k = inr p -> ParsePrivateKeyPEM p = inr (SignerKey k);
  pkcs1_key : forall k,
    ParsePrivateKeyPEM (pem_Encode RSAPrivateKeyBlockType (MarshalPKCS1PrivateKey k)) = inr (SignerKey (RSAKey k));
}.

(** A disk that works: [files] are its contents.  What is written can be read
    back, reading changes nothing, and the four extensions give four files. *)
Class DiskLaws (W : Type) `{X509Lib W} `{DiskLib W} := {
  files : W -> gmap string string;
  WriteFile_files : forall p d m w w', WriteFile p d m w = (w', None) -> files w' = <[p := d]> (files w);
  MkdirAll_files : forall p m w w' e, MkdirAll p m w = (w', e) -> files w' = files w;
  WriteCert_files : forall p d w w', cert_WriteCert p d w = (w', None) -> files w' = <[p := d]> (files w);
  WriteKey_files : forall p d w w', key_WriteKey p d w = (w', None) -> files w' = <[p := d]> (files w);
  ReadFile_files : forall p d w, files w !! p = Some d -> exists w', ReadFile p w = (w', inr d) /\ files w' = files w;
  CertsFromFile_files : forall p d cs w, files w !! p = Some d -> ParseCertsPEM d = inr cs ->
    exists w', CertsFromFile p w = (w', inr cs) /\ files w' = files w;
  PrivateKeyFromFile_files : forall p d k w, files w !! p = Some d -> ParsePrivateKeyPEM d = inr k ->
    exists w', PrivateKeyFromFile p w = (w', inr k) /\ files w' = files w;
  path_extension : forall dir name e1 e2, e1 ∈ [".crt"; ".key"; ".pub"; ".csr"] -> e2 ∈ [".crt"; ".key"; ".pub"; ".csr"] ->
    path_Join dir (name +:+ e1) = path_Join dir (name +:+ e2) -> e1 = e2;
}.

Section pki_claims.
Context {W : Type} `{HX : X509Lib W} `{HD : DiskLib W} `{HE : ErrorLib} `{!X509Laws W} `{!DiskLaws W}.

Lemma create_raw tmpl parent pub priv w w' d c : CreateCertificate tmpl parent pub priv w = (w', inr d) ->
  x509_ParseCertificate d = inr c -> parsed c /\ issued tmpl pub c /\
  (Public priv = cert_PublicKey parent -> signed_by c parent).
Proof.
  intros Hc Hp. destruct (create_parse _ _ _ _ _ _ _ Hc) as (c' & Hp' & Hi & Hs).
  rewrite Hp in Hp'. simplify_eq. split; [|done]. unfold parsed. by rewrite (parse_raw _ _ Hp).
Qed.

Lemma to_seconds_bounds t : (t - second < to_seconds t <= t)%Z.
Proof. unfold to_seconds. pose proof (Z.mod_pos_bound t second). unfold second in *. lia. Qed.

(** What a signed certificate is. *)
Lemma NewSignedCert_run cfg key caCert caKey isCA validity w w' cfg' (c : Cert) :
  NewSignedCertWithValidity cfg key caCert caKey isCA validity w = (w', (cfg', inr c)) ->
  parsed c /\ cfg_CommonName cfg <> "" /\ (0 <= SerialNumber c < MaxInt64)%Z /\
  cfg_AltNames cfg' = RemoveDuplicateAltNames (cfg_AltNames cfg) /\
  CommonName c = cfg_CommonName cfg /\ DNSNames c = alt_DNSNames (cfg_AltNames cfg') /\
  ip_String <$> IPAddresses c = ip_String <$> alt_IPs (cfg_AltNames cfg') /\
  NotBefore c = to_seconds (NotBefore caCert) /\ NotAfter c = to_seconds validity /\
  KeyUsage c = (if isCA then 37 else 5)%Z /\ ExtKeyUsage c = Usages cfg /\ IsCA c = isCA /\
  cert_PublicKey c = Public key /\ (Public caKey = cert_PublicKey caCert -> signed_by c caCert).
Proof.
  unfold NewSignedCertWithValidity, mbind, M_bind. destruct (rand_Int MaxInt64 w) as [w1 [e|n]] eqn:Hr; [done|].
  case_bool_decide as Hcn; [done|].
  destruct (CreateCertificate _ caCert (Public key) caKey w1) as [w2 [e|d]] eqn:Hc; [done|].
  unfold mret, M_ret. intros [= <- <- Hp].
  destruct (create_raw _ _ _ _ _ _ _ _ Hc Hp) as (Hpc & (H1 & _ & H3 & H4 & H5 & H6 & H7 & H8 & H9 & H10 & H11) & Hs).
  cbn in *. apply rand_Int_range in Hr; [|done]. rewrite H5. 
  split_and!; try done; try lia. by intros Hn; rewrite Hn in Hcn.
Qed.

(** C25: a certificate that is signed has a serial number of at most 63 bits, ends
    at the validity asked for, cut to the second, begins when that of its CA
    does, may sign certificates exactly when it is for a CA, has the DNS names asked
    for, sorted and without duplicates, and belongs to the key.  When the key that
    signed it is the one of the CA, and the CA may sign, [VerifyCertChain] accepts the
    certificate with the CA as root at every time at which the CA is valid and the
    certificate has not ended. *)
Theorem NewSignedCertWithValidity_bounds cfg key caCert caKey isCA validity w w' cfg' (c : Cert) :
  NewSignedCertWithValidity cfg key caCert caKey isCA validity w = (w', (cfg', inr c)) ->
  (0 <= SerialNumber c < 2 ^ 63 - 1)%Z /\
  (validity - second < NotAfter c <= validity)%Z /\
  (NotBefore caCert - second < NotBefore c <= NotBefore caCert)%Z /\
  Z.testbit (KeyUsage c) 5 = isCA /\ IsCA c = isCA /\
  StronglySorted string_le (DNSNames c) /\ NoDup (DNSNames c) /\
  (forall n, n ∈ DNSNames c <-> n ∈ alt_DNSNames (cfg_AltNames cfg)) /\
  cert_PublicKey c = Public key /\
  (Public caKey = cert_PublicKey caCert -> may_sign caCert -> forall wv,
     valid_at (Now wv) caCert -> (Now wv <= NotAfter c)%Z -> VerifyCertChain c [] caCert wv = None).
Proof.
  intros Hn. apply NewSignedCert_run in Hn as (_ & _ & Hs & Ha & _ & Hd & _ & Hb & He & Hk & _ & Hca & Hpub & Hsig).
  pose proof (to_seconds_bounds (NotBefore caCert)) as Hbb.
  assert (forall wv, Public caKey = cert_PublicKey caCert -> may_sign caCert -> valid_at (Now wv) caCert ->
    (Now wv <= NotAfter c)%Z -> VerifyCertChain c [] caCert wv = None) as Hver.
  { intros wv Hkey Hm Hv Hna. apply verify_chain; auto. unfold valid_at in *. lia. }
  rewrite Hb, He, Hk, Hd, Ha in *. split_and!; try done; try apply to_seconds_bounds; auto.
  - lia.
  - unfold MaxInt64 in Hs. lia.
  - by destruct isCA.
  - apply sort_Strings_sorted.
  - apply sets_List_NoDup.
  - intros n. apply elem_of_sets_List.
Qed.

(** ** Files *)

Lemma cert_pem c : parsed c -> ParseCertsPEM (EncodeCertPEM c) = inr [c].
Proof. intros Hc. apply (certs_pem [c]); [done|]. by repeat constructor. Qed.
Lemma loads_cert dir name c w : parsed c -> files w !! pathForCert dir name = Some (EncodeCertPEM c) ->
  exists w', TryLoadCertFromDisk dir name w = Done (w', inr c) /\ files w' = files w.
Proof.
  intros Hc Hf. unfold TryLoadCertFromDisk.
  destruct (CertsFromFile_files _ _ [c] w Hf) as (w' & -> & Hw'); [by apply cert_pem|by eexists].
Qed.
Lemma loads_key dir name k p w : MarshalPrivateKeyToPEM k = inr p -> files w !! pathForKey dir name = Some p ->
  exists w', TryLoadKeyFromDisk dir name w = (w', inr k) /\ files w' = files w.
Proof.
  intros Hk Hf. destruct (PrivateKeyFromFile_files _ _ _ w Hf (marshal_key _ _ Hk)) as (w' & Hp & Hw').
  exists w'. split; [|done]. unfold TryLoadKeyFromDisk. apply ebind_inr. exists w', (SignerKey k).
  by rewrite on_error_inr.
Qed.
Lemma loads_csr dir name r w : parsed_csr r -> files w !! pathForCSR dir name = Some (EncodeCSRPEM r) ->
  exists w', TryLoadCSRFromDisk dir name w = (w', inr r) /\ files w' = files w.
Proof.
  intros Hr Hf. destruct (ReadFile_files _ _ w Hf) as (w' & Hp & Hw'). exists w'. split; [|done].
  unfold TryLoadCSRFromDisk. apply on_error_inr. unfold CertificateRequestFromFile. apply ebind_inr.
  exists w', (EncodeCSRPEM r). rewrite !on_error_inr. split; [done|]. unfold parseCSRPEM, EncodeCSRPEM.
  rewrite pem_roundtrip by (unfold block_types; set_solver). cbn. by rewrite Hr.
Qed.

Lemma writes_key dir name k w w' : WriteKey dir name (Some k) w = (w', None) ->
  exists p, MarshalPrivateKeyToPEM k = inr p /\ files w' = <[pathForKey dir name := p]> (files w).
Proof.
  unfold WriteKey. destruct (MarshalPrivateKeyToPEM k) as [e|p]; [done|]. intros Hw. estrip Hw.
  exists p. split; [done|]. by apply WriteKey_files in Hw.
Qed.

Lemma paths_differ dir name e1 e2 : e1 ∈ [".crt"; ".key"; ".pub"; ".csr"] -> e2 ∈ [".crt"; ".key"; ".pub"; ".csr"] ->
  e1 <> e2 -> path_Join dir (name +:+ e1) <> path_Join dir (name +:+ e2).
Proof. intros H1 H2 Hne Heq. by apply Hne, (path_extension dir name). Qed.

(** C26: a certificate or a certificate request and a key that were written to disk
    without an error are loaded again as they were. *)
Theorem disk_roundtrip dir name (k : Signer) w :
  (forall c w', parsed c -> WriteCertAndKey dir name (Some c) (Some k) w = (w', None) ->
     exists w'', TryLoadCertAndKeyFromDisk dir name w' = Done (w'', inr (c, k)) /\ files w'' = files w') /\
  (forall r w1 w', parsed_csr r -> WriteKey dir name (Some k) w = (w1, None) -> WriteCSR dir name (Some r) w1 = (w', None) ->
     exists w'', TryLoadCSRAndKeyFromDisk dir name w' = (w'', inr (r, k)) /\ files w'' = files w').
Proof.
  split.
  - intros c w' Hc Hw. unfold WriteCertAndKey in Hw. einv Hw Hk.
    destruct (writes_key _ _ _ _ _ Hk) as (p & Hp & Hf1). unfold WriteCert in Hw. estrip Hw. apply WriteCert_files in Hw as Hf2.
    destruct (loads_cert dir name c w') as (w2 & Hl & Hw2); [done|by rewrite Hf2, lookup_insert_eq|].
    destruct (loads_key dir name k p w2 Hp) as (w3 & Hl' & Hw3).
    { rewrite Hw2, Hf2, Hf1, lookup_insert_ne, lookup_insert_eq; [done|]. apply paths_differ; set_solver. }
    exists w3. unfold TryLoadCertAndKeyFromDisk. rewrite Hl. split; [|congruence]. f_equal.
    apply ebind_inr. exists w3, k. by rewrite on_error_inr.
  - intros r w1 w' Hr Hk Hw. destruct (writes_key _ _ _ _ _ Hk) as (p & Hp & Hf1).
    unfold WriteCSR in Hw. einv Hw Hm. apply MkdirAll_files in Hm.
    apply WriteFile_files in Hw as Hf2.
    destruct (loads_csr dir name r w') as (w2 & Hl & Hw2); [done|by rewrite Hf2, lookup_insert_eq|].
    destruct (loads_key dir name k p w2 Hp) as (w3 & Hl' & Hw3).
    { rewrite Hw2, Hf2, Hm, Hf1, lookup_insert_ne, lookup_insert_eq; [done|]. apply paths_differ; set_solver. }
    exists w3. split; [|congruence]. apply ebind_inr. exists w2, r. rewrite on_error_inr. split; [done|].
    apply ebind_inr. exists w3, k. by rewrite on_error_inr.
Qed.
End pki_claims.

(** ** A reference instance *)

(** Symbolic cryptography: key material is a name, the bytes of a certificate
    are its fields with the name of the key that signed it.  The clock stands
    still, and keys are numbered. *)
Module RefPki.
Record world := mkWorld { clock : Z; keys : nat; disk : gmap string string }.
Definition tick (w : world) : world := mkWorld (clock w) (S (keys w)) (disk w).

(** Texts that can be concatenated: every character is marked, the end too. *)
Fixpoint esc (s : string) : string :=
  match s with "" => "." | String c s => String "+" (String c (esc s)) end.
Fixpoint unesc (s : string) : list string :=
  match s with
  | String "."%char s => "" :: unesc s
  | String "+"%char (String c s) => match unesc s with x :: xs => String c x :: xs | [] => [] end
  | _ => []
  end.
Definition esc_list (l : list string) : string := foldr (fun x acc => esc x +:+ acc) "" l.
Lemma unesc_esc x s : unesc (esc x +:+ s) = x :: unesc s.
Proof.
  induction x as [|c x IH]; [done|].
  change (unesc (String "+" (String c (esc x +:+ s))) = String c x :: unesc s). cbn [unesc]. by rewrite IH.
Qed.
Lemma unesc_esc_list l : unesc (esc_list l) = l.
Proof. induction l as [|x l IH]; [done|]. cbn [esc_list foldr]. rewrite unesc_esc. by f_equal. Qed.

(** Numbers as texts. *)
Definition show_Z (z : Z) : string := RefText.show z.
Definition read_Z (s : string) : Z := default 0%Z (RefText.read s).
Lemma read_show_Z z : read_Z (show_Z z) = z.
Proof. unfold read_Z, show_Z. by rewrite RefText.read_show. Qed.
Lemma read_show_Zs (zs : list Z) : read_Z <$> (show_Z <$> zs) = zs.
Proof. rewrite <- list_fmap_compose. rewrite <- (list_fmap_id zs) at 2. apply list_fmap_ext. intros ? z _. apply read_show_Z. Qed.
(** The bytes of a certificate: its lists of strings, its numbers, its public
    key and who signed it. *)
Definition bool_Z (b : bool) : Z := if b then 1 else 0.
Definition create_der (c : Cert) (pub issuer : string) : string :=
  esc_list [esc_list [CommonName c; pub; issuer]; esc_list (Organization c); esc_list (DNSNames c); esc_list (IPAddresses c);
    esc_list (show_Z <$> SerialNumber c :: to_seconds (NotBefore c) :: to_seconds (NotAfter c) :: KeyUsage c ::
      bool_Z (BasicConstraintsValid c) :: bool_Z (IsCA c) :: ExtKeyUsage c)].
Definition read_der (d : string) : option (Cert * string) :=
  match unesc d with
  | [names; org; dns; ips; numbers] =>
    match unesc names, read_Z <$> unesc numbers with
    | [cn; pub; issuer], sn :: nb :: na :: ku :: bc :: ca :: eku =>
      Some (mkCert cn (unesc org) (unesc dns) (unesc ips) sn nb na ku eku (bool_decide (bc = 1%Z)) (bool_decide (ca = 1%Z)) pub d, issuer)
    | _, _ => None
    end
  | _ => None
  end.
Definition issuer (c : Cert) : option string := snd <$> read_der (Raw c).

Definition malformed {A} : error + A := inl (errors_New "malformed").
Definition parse_cert (d : string) : error + Cert :=
  match read_der d with Some (c, _) => inr c | None => malformed end.
Definition parse_csr (d : string) : error + CertificateRequest :=
  match unesc <$> unesc d with [[cn]; org; dns; ips] => inr (mkCSR cn org dns ips d) | _ => malformed end.

(** Induction two elements at a time. *)
Lemma list_rec2 {A} (P : list A -> Prop) : P [] -> (forall x, P [x]) -> (forall x y l, P l -> P (x :: y :: l)) -> forall l, P l.
Proof. intros H0 H1 H2. fix IH 1. intros [|x [|y l]]; [done|apply H1|]. apply H2, IH. Qed.
(** The certificates of a PEM text: other blocks are skipped. *)
Fixpoint parse_certs (blocks : list string) : error + list Cert :=
  match blocks with
  | t :: d :: blocks =>
    if bool_decide (t = CertificateBlockType) then
      match parse_cert d, parse_certs blocks with inr c, inr cs => inr (c :: cs) | _, _ => malformed end
    else parse_certs blocks
  | _ => inr []
  end.
Definition block (t d : string) : string := esc t +:+ esc d.
Definition first_block (p : string) : option (string * string) :=
  match unesc p with t :: d :: _ => Some (t, d) | _ => None end.
Lemma unesc_block t d s : unesc (block t d +:+ s) = t :: d :: unesc s.
Proof. unfold block. by rewrite app_assoc_string, !unesc_esc. Qed.
Lemma first_block_block t d : first_block (block t d) = Some (t, d).
Proof. unfold first_block. by rewrite <- (app_nil_string (block t d)), unesc_block. Qed.
Definition pub (k : Signer) : string := match k with RSAKey k => "rsa:" +:+ k | ECDSAKey k => "ecdsa:" +:+ k end.
Definition create (tmpl : Cert) (priv : Signer) (key : string) : string := create_der tmpl key (pub priv).
Definition tenYears : Z := CertificateValidity * 10.
Definition ca_template (cn : string) (now : Z) : Cert :=
  mkCert cn [] [cn] [] 0 now (now + tenYears) 37 [] true true "" "".
Definition is_ip (host : string) : bool := match host with String "1"%char _ => true | _ => false end.

(** Verification: a certificate in the pool is trusted, another one has to be
    signed by a CA in it. *)
Definition in_period (t : Z) (c : Cert) : bool := ((NotBefore c <=? t) && (t <=? NotAfter c))%Z.
Definition serves (o : VerifyOptions) (c : Cert) : bool :=
  bool_decide (ExtKeyUsageAny ∈ vo_KeyUsages o) || bool_decide (ExtKeyUsage c = []) ||
  bool_decide (ExtKeyUsageServerAuth ∈ ExtKeyUsage c).
Definition signs (c r : Cert) : bool :=
  IsCA r && Z.testbit (KeyUsage r) 5 && bool_decide (issuer c = Some (cert_PublicKey r)).
Definition names (c : Cert) (host : string) : bool :=
  bool_decide (host = "") ||
  (if is_ip host then bool_decide (host ∈ IPAddresses c) else bool_decide (host ∈ DNSNames c)).
Definition same (c r : Cert) : bool := bool_decide (Raw c = Raw r).
Definition verify (c : Cert) (o : VerifyOptions) (now : Z) : err :=
  let t := default now (vo_CurrentTime o) in
  if in_period t c && names c (vo_DNSName o) && serves o c
     && existsb (fun r => same c r || (signs c r && in_period t r && serves o r)) (vo_Roots o)
  then None else Some (errors_New "x509: certificate is not valid").

#[export] Instance x509 : X509Lib world := {|
  Now := clock;
  rand_Int := fun max w => (tick w, inr (Z.of_nat (keys w) mod max)%Z);
  rsa_GenerateKey := fun _ w => (tick w, inr (pretty (keys w)));
  ecdsa_GenerateKey := fun w => (tick w, inr (pretty (keys w)));
  Public := pub;
  CreateCertificate := fun tmpl parent key priv w => (w, inr (create tmpl priv key));
  x509_ParseCertificate := parse_cert;
  CreateCertificateRequest := fun r k w => (w, inr (esc_list [esc_list [csr_CommonName r]; esc_list (csr_Organization r); esc_list (csr_DNSNames r); esc_list (csr_IPAddresses r)]));
  ParseCertificateRequest := parse_csr;
  NewSelfSignedCACert := fun cfg k w => (w, parse_cert (create (ca_template (cfg_CommonName cfg) (clock w)) k (pub k)));
  x509_Verify := verify;
  MarshalPKCS1PrivateKey := fun k => k;
  MarshalPKIXPublicKey := fun k => inr k;
  MarshalPrivateKeyToPEM := fun k => inr (match k with RSAKey k => block RSAPrivateKeyBlockType k | ECDSAKey k => block "EC PRIVATE KEY" k end);
  ParsePrivateKeyPEM := fun p =>
    match first_block p with
    | Some (t, k) => if bool_decide (t = RSAPrivateKeyBlockType) then inr (SignerKey (RSAKey k)) else inr (SignerKey (ECDSAKey k))
    | None => malformed
    end;
  ParseCertsPEM := fun p => match parse_certs (unesc p) with inr [] => malformed | r => r end;
  pem_Encode := block;
  pem_Block := first_block;
  ip_String := fun ip => ip;
|}.

#[export] Instance files_lib : DiskLib world := {|
  ReadFile := fun p w => (w, match disk w !! p with Some d => inr d | None => malformed end);
  WriteFile := fun p d _ w => (mkWorld (clock w) (keys w) (<[p := d]> (disk w)), None);
  MkdirAll := fun _ _ w => (w, None);
  Stat := fun p w => (w, match disk w !! p with Some _ => None | None => Some (errors_New "not exist") end);
  IsNotExist := fun e => match e with Some _ => true | None => false end;
  path_Join := fun d f => d +:+ "/" +:+ f;
  path_Dir := fun p => p;
  cert_WriteCert := fun p d w => (mkWorld (clock w) (keys w) (<[p := d]> (disk w)), None);
  key_WriteKey := fun p d w => (mkWorld (clock w) (keys w) (<[p := d]> (disk w)), None);
  CertsFromFile := fun p w => (w, match disk w !! p with Some d => ParseCertsPEM d | None => malformed end);
  PrivateKeyFromFile := fun p w => (w, match disk w !! p with Some d => ParsePrivateKeyPEM d | None => malformed end);
  PublicKeysFromFile := fun p w => (w, malformed);
|}.

(** What a created certificate parses to. *)
Definition issued_cert (c : Cert) (key d : string) : Cert :=
  mkCert (CommonName c) (Organization c) (DNSNames c) (IPAddresses c) (SerialNumber c)
    (to_seconds (NotBefore c)) (to_seconds (NotAfter c)) (KeyUsage c) (ExtKeyUsage c)
    (BasicConstraintsValid c) (IsCA c) key d.
Lemma read_created tmpl key priv : read_der (create tmpl priv key) =
  Some (issued_cert tmpl key (create tmpl priv key), pub priv).
Proof.
  unfold read_der. unfold create at 1, create_der. rewrite !unesc_esc_list, read_show_Zs.
  unfold issued_cert. f_equal. f_equal. f_equal; by destruct tmpl as [????????? [] []].
Qed.
Lemma parse_created tmpl key priv : parse_cert (create tmpl priv key) = inr (issued_cert tmpl key (create tmpl priv key)).
Proof. unfold parse_cert. by rewrite read_created. Qed.
Lemma parse_cert_Raw d c : parse_cert d = inr c -> Raw c = d.
Proof. unfold parse_cert, read_der. repeat case_match; intros; by simplify_eq/=. Qed.
Lemma certs_blocks cs s : Forall parsed cs ->
  exists s', foldl (fun buf c => buf +:+ block CertificateBlockType (Raw c)) s cs = s +:+ s' /\
    parse_certs (unesc s') = inr cs.
Proof.
  revert s. induction cs as [|c cs IH]; intros s Hcs; cbn [foldl].
  { exists "". by rewrite app_nil_string. }
  apply Forall_cons in Hcs as [Hc Hcs]. destruct (IH (s +:+ block CertificateBlockType (Raw c)) Hcs) as (s' & -> & Hs').
  exists (block CertificateBlockType (Raw c) +:+ s'). split; [apply app_assoc_string|].
  rewrite unesc_block. cbn [parse_certs]. rewrite bool_decide_true by done. rewrite Hs'. by rewrite Hc.
Qed.

Lemma parse_certs_parsed blocks : forall cs, parse_certs blocks = inr cs -> Forall parsed cs.
Proof.
  induction blocks as [| | t d blocks IH] using list_rec2; intros cs; cbn; try (by intros [= <-]).
  case_bool_decide; [|apply IH]. destruct (parse_cert d) as [|c] eqn:Hc, (parse_certs blocks) as [|cs']; try done.
  intros [= <-]. constructor; [|by apply IH]. unfold parsed. cbn. by rewrite (parse_cert_Raw _ _ Hc).
Qed.

#[export] Instance x509_laws : X509Laws world.
Proof.
  refine {| signed_by := fun c p => issuer c = Some (cert_PublicKey p) |}; cbn -[create].
  - intros t b _. apply first_block_block.
  - intros max w w' n Hm [= _ <-]. by apply Z.mod_pos_bound.
  - apply parse_cert_Raw.
  - intros tmpl parent key priv w w' d [= _ <-]. eexists. rewrite parse_created. split; [done|]. split; [done|].
    intros Hp. unfold issuer. cbn [issued_cert Raw]. rewrite read_created. cbn. by f_equal.
  - intros c r t Hs (H1 & H2 & _) Hr Hc. unfold verify. cbn. assert (in_period t c = true /\ in_period t r = true) as [-> ->].
    { unfold in_period, valid_at in *. rewrite !andb_true_iff, !Z.leb_le. lia. }
    unfold signs. rewrite H1, H2, (bool_decide_true (issuer c = _)) by done. cbn. by rewrite orb_true_r.
  - intros d r. unfold parse_csr. repeat case_match; intros; by simplify_eq/=.
  - intros cs Hne Hcs. destruct (certs_blocks cs "" Hcs) as (s' & -> & Hs'). change ("" +:+ s') with s'.
    rewrite Hs'. by destruct cs.
  - intros p cs Hp. apply (parse_certs_parsed (unesc p)). by destruct (parse_certs (unesc p)) as [|[]]; simplify_eq.
  - intros [k|k] p [= <-]; by rewrite first_block_block.
  - intros k. by rewrite first_block_block.
Defined.

#[export] Instance disk_laws : DiskLaws world.
Proof.
  refine {| files := disk |}; cbn.
  - by intros p d m w w' [= <-].
  - by intros p m w w' e [= <- _].
  - by intros p d w w' [= <-].
  - by intros p d w w' [= <-].
  - intros p d w ->. by eexists.
  - intros p d cs w -> Hcs. exists w. by rewrite Hcs.
  - intros p d k w -> Hk. exists w. by rewrite Hk.
  - intros dir name e1 e2 _ _ Heq. by simplify_eq.
Qed.

Definition start : world := mkWorld (hour * 24) 0 ∅.
Definition caKey : Signer := RSAKey "ca".
Definition ca : Cert := issued_cert (ca_template "ca" 0) (pub caKey) (create (ca_template "ca" 0) caKey (pub caKey)).
Definition config : CertConfig := mkCertConfig "svc" ["toolkit"] (mkAltNames ["svc.ns"; "svc"; "svc.ns"] ["10.0.0.1"]) [ExtKeyUsageServerAuth] x509_RSA.
End RefPki.

Import RefErrors RefPki.

Lemma NewSignedCertWithValidity_bounds_witness : exists w' cfg' c,
  NewSignedCertWithValidity config (RSAKey "k") ca caKey false (48 * hour + 1) start = (w', (cfg', inr c)) /\
  (0 <= SerialNumber c < 2 ^ 63 - 1)%Z /\ (48 * hour + 1 - second < NotAfter c <= 48 * hour + 1)%Z /\ DNSNames c = ["svc"; "svc.ns"] /\
  VerifyCertChain c [] ca start = None.
Proof.
  eexists _, _, _. split; [vm_compute; reflexivity|].
  edestruct (NewSignedCertWithValidity_bounds config (RSAKey "k") ca caKey false (48 * hour + 1) start)
    as (Hs & Ha & _ & _ & _ & _ & _ & _ & _ & Hv); [vm_compute; reflexivity|].
  split; [exact Hs|]. split; [exact Ha|]. split; [vm_compute; reflexivity|].
  apply Hv; [reflexivity|by split_and!|split; vm_compute; discriminate|vm_compute; discriminate].
Defined.

(** A certificate signed by the CA is written and loaded again. *)
Definition signed : Cert :=
  match (NewSignedCertWithValidity config (RSAKey "k") ca caKey false hour start).2.2 with inr c => c | inl _ => ca end.
Definition written : world := fst (WriteCertAndKey "pki" "svc" (Some signed) (Some (RSAKey "k")) start).
Lemma disk_roundtrip_witness : parsed signed /\ WriteCertAndKey "pki" "svc" (Some signed) (Some (RSAKey "k")) start = (written, None) /\
  exists w'', TryLoadCertAndKeyFromDisk "pki" "svc" written = Done (w'', inr (signed, RSAKey "k")) /\ files w'' = files written.
Proof.
  assert (parsed signed) as Hp by (vm_compute; reflexivity).
  assert (WriteCertAndKey "pki" "svc" (Some signed) (Some (RSAKey "k")) start = (written, None)) as Hw by (vm_compute; reflexivity).
  split; [exact Hp|split; [exact Hw|]].
  exact (proj1 (disk_roundtrip "pki" "svc" (RSAKey "k") start) signed written Hp Hw).
Defined.
