(* ===== verification/SelfSigned.v ===== *)
(** The self-signed certificate generator:
    [internal/webhook/cert/generator/selfsigned.go] and [util.go].

    The generator keeps a CA and signs serving certificates with it.  The part of
    [crypto/tls] and [crypto/x509] that validates certificates is the instance
    [x509_crypto] of the class the certificate writer uses, built from the PKI
    operations, so that the certificates made here are judged by the writer's
    own check. *)
From S2P Require Import Prelude Cert Pki.

(** ** Libraries *)

(** [tls.X509KeyPair], [CertPool.AppendCertsFromPEM] on an empty pool (the
    certificates it holds), [Time.AddDate] for months, and whether a host is an
    IP address or a DNS name. *)
Class TlsLib := {
  tls_X509KeyPair : string -> string -> bool;
  CertPool_of : string -> list Cert;
  AddDate_months : Z -> Z -> Z;
  host_IP : string -> bool;
  host_DNS : string -> bool;
}.

(** [VerifyOptions] with a DNS name, roots and a time; extended key usages
    default to those of a server. *)
Definition serverOptions (dnsName : string) (roots : list Cert) (t : Z) : VerifyOptions :=
  mkVerifyOptions dnsName roots [] (Some t) [].

#[export] Instance x509_crypto {W} `{X509Lib W} `{TlsLib} : CryptoLib := {|
  Certificate := Cert;
  X509KeyPair := tls_X509KeyPair;
  AppendCertsFromPEM := fun p => negb (bool_decide (length (CertPool_of p) = 0));
  pem_Decode := fun p => snd <$> pem_Block p;
  ParseCertificate := fun d => match x509_ParseCertificate d with inr c => Some c | inl _ => None end;
  Verify := fun c dnsName ca t =>
    match x509_Verify c (serverOptions dnsName (CertPool_of ca) t) t with None => true | Some _ => false end;
  addMonths := AddDate_months;
|}.

(** ** The generator *)

Definition oneYear : Z := 365 * 24 * hour.

(** [type SelfSignedCertGenerator struct]; unset byte slices are empty. *)
Record SelfSignedCertGenerator := mkSelfSigned { caKey : string; caCert : string; Validity : Z }.

(** [ValidCACert] of [util.go]. *)
Definition ValidCACert `{CryptoLib} (key cert caCert dnsName : string) (time : Z) : bool :=
  if bool_decide (String.length key = 0) || bool_decide (String.length cert = 0) || bool_decide (String.length caCert = 0)
  then false
  else if negb (X509KeyPair cert key) then false
  else if negb (AppendCertsFromPEM caCert) then false
  else match pem_Decode cert with
       | None => false
       | Some block =>
         match ParseCertificate block with
         | None => false
         | Some c => Verify c dnsName caCert time
         end
       end.

Section generator.
Context {W : Type} `{X509Lib W} `{TlsLib} `{ErrorLib}.

(** [validCACert]: the key and the certificate of a CA that is valid at [time]. *)
Definition validCACert (cp : SelfSignedCertGenerator) (time : Z) : option (string * Cert) :=
  if negb (ValidCACert (caKey cp) (caCert cp) (caCert cp) "" time) then None
  else match ParsePrivateKeyPEM (caKey cp) with
       | inr (SignerKey (RSAKey privateKey)) =>
         match ParseCertsPEM (caCert cp) with
         | inr [c] => Some (privateKey, c)
         | _ => None
         end
       | _ => None
       end.

(** The branch of [Generate] that makes a CA. *)
Definition newCA : M W (error + string * Cert) :=
  signer ←? on_error (GeneratePrivateKey x509_RSA) (fun e => errorf "failed to create the CA private key: %v" [] [e] None);
  match signer with
  | RSAKey signingKey =>
    signingCert ←? on_error (NewSelfSignedCACert (mkCertConfig "webhook-cert-ca" [] (mkAltNames [] []) [] 0) signer)
                     (fun e => errorf "failed to create the CA cert: %v" [] [e] None);
    mret (inr (signingKey, signingCert))
  | ECDSAKey _ => mret (inl (errors_New "failed to convert CA signer to RSA private key"))
  end.

(** The configuration of the serving certificate. *)
Definition servingConfig (commonName : string) : CertConfig :=
  mkCertConfig commonName [] (mkAltNames [commonName] []) [ExtKeyUsageServerAuth] 0.

(** The second half of [Generate]: the serving certificate. *)
Definition sign (commonName : string) (certBestBefore : Z) (signingKey : string) (signingCert : Cert) : M W (error + Artifacts) :=
  signer ←? on_error (GeneratePrivateKey x509_RSA) (fun e => errorf "failed to create the private key: %v" [] [e] None);
  match signer with
  | RSAKey key =>
    signedCert ←? on_error ('(_, r) ← NewSignedCertWithValidity (servingConfig commonName) signer signingCert
                              (RSAKey signingKey) false certBestBefore; mret r)
                    (fun e => errorf "failed to create the cert: %v" [] [e] None);
    mret (inr (mkArtifacts (EncodePrivateKeyPEM key) (EncodeCertPEM signedCert)
                 (EncodePrivateKeyPEM signingKey) (EncodeCertPEM signingCert)))
  | ECDSAKey _ => mret (inl (errors_New "failed to conver signer to RSA private key"))
  end.

(** [SetCA] and [Generate]; the generator is part of the world. *)
Definition ss_SetCA (key cert : string) : M (SelfSignedCertGenerator * W) unit := fun '(cp, w) =>
  ((mkSelfSigned key cert (Validity cp), w), tt).
Definition defaultValidity (cp : SelfSignedCertGenerator) : SelfSignedCertGenerator :=
  if (Validity cp =? 0)%Z then mkSelfSigned (caKey cp) (caCert cp) oneYear else cp.
Definition ss_Generate (commonName : string) : M (SelfSignedCertGenerator * W) (error + Artifacts) := fun '(cp, w) =>
  let cp := defaultValidity cp in
  let certBestBefore := (Now w + Validity cp)%Z in
  let '(w, r) :=
    (ca ←? match validCACert cp certBestBefore with Some ca => mret (inr ca) | None => newCA end;
     let '(signingKey, signingCert) := ca : string * Cert in
     sign commonName certBestBefore signingKey signingCert) w in
  ((cp, w), r).

(** [SelfSignedCertGenerator] as a [CertGenerator]. *)
Definition selfSigned : CertGenerator (SelfSignedCertGenerator * W) := mkCertGenerator ss_Generate ss_SetCA.
End generator.

(** ** Documented behaviour of the libraries *)

(** Self-signed CAs of client-go last ten years. *)
Definition tenYears : Z := 10 * oneYear.

(** Time does not go back; self-signed CAs are made as client-go documents; a PEM
    text of a key is not empty; a key pair is a certificate and its key; a pool
    holds what is appended; a certificate of the pool verifies, and so does one
    signed by a CA of the pool, for its DNS names, while both are valid; no
    certificate verifies outside its period, or for an IP it does not name. *)
Class SelfSignedLaws (W : Type) `{X509Lib W} `{TlsLib} `{!X509Laws W} := {
  clock_rsa : forall n w, (Now w <= Now (rsa_GenerateKey n w).1)%Z;
  clock_rand : forall n w, (Now w <= Now (rand_Int n w).1)%Z;
  clock_create : forall t p k s w, (Now w <= Now (CreateCertificate t p k s w).1)%Z;
  ca_made : forall cfg k w w' c, NewSelfSignedCACert cfg k w = (w', inr c) ->
    parsed c /\ may_sign c /\ cert_PublicKey c = Public k /\
    exists t, (Now w <= t <= Now w')%Z /\ NotBefore c = to_seconds t /\ NotAfter c = to_seconds (t + tenYears);
  pem_nonempty : forall t b, pem_Encode t b <> "";
  keypair_made : forall c k, parsed c -> Public (RSAKey k) = cert_PublicKey c ->
    tls_X509KeyPair (EncodeCertPEM c) (EncodePrivateKeyPEM k) = true;
  keypair_sound : forall c k ct kt, tls_X509KeyPair ct kt = true -> ParsePrivateKeyPEM kt = inr (SignerKey k) ->
    ParseCertsPEM ct = inr [c] -> Public k = cert_PublicKey c;
  pool_made : forall c, parsed c -> CertPool_of (EncodeCertPEM c) = [c];
  verify_root : forall c roots t, c ∈ roots -> valid_at t c -> ExtKeyUsage c = [] ->
    x509_Verify c (serverOptions "" roots t) t = None;
  verify_signed : forall c r roots dns t, r ∈ roots -> signed_by c r -> may_sign r ->
    valid_at t r -> valid_at t c -> ExtKeyUsageServerAuth ∈ ExtKeyUsage c -> host_DNS dns = true -> dns ∈ DNSNames c ->
    x509_Verify c (serverOptions dns roots t) t = None;
  verify_valid : forall c roots dns t, x509_Verify c (serverOptions dns roots t) t = None -> valid_at t c;
  verify_ip : forall c roots dns t, x509_Verify c (serverOptions dns roots t) t = None ->
    host_IP dns = true -> exists ip, ip ∈ IPAddresses c;
}.

Section generator_claims.
Context {W : Type} `{HX : X509Lib W} `{HT : TlsLib} `{HE : ErrorLib} `{!X509Laws W} `{!SelfSignedLaws W}.

Lemma cert_block c : parsed c -> pem_Decode (EncodeCertPEM c) = Some (Raw c) /\ ParseCertificate (Raw c) = Some c.
Proof.
  intros Hc. cbn. unfold EncodeCertPEM. rewrite pem_roundtrip by (unfold block_types; set_solver).
  cbn. by rewrite Hc.
Qed.

Lemma cert_pool c : parsed c -> AppendCertsFromPEM (EncodeCertPEM c) = true.
Proof. intros Hc. cbn. by rewrite pool_made. Qed.

Lemma PEM_length t b : String.length (pem_Encode t b) <> 0.
Proof. intros Hl. apply (pem_nonempty t b). by destruct (pem_Encode t b). Qed.

(** A generator with the given CA accepts it while it is valid. *)
Lemma validCACert_made k c v time : parsed c -> ExtKeyUsage c = [] -> Public (RSAKey k) = cert_PublicKey c -> valid_at time c ->
  validCACert (mkSelfSigned (EncodePrivateKeyPEM k) (EncodeCertPEM c) v) time = Some (k, c).
Proof.
  intros Hc Hx Hk Ht. unfold validCACert, ValidCACert. cbn [caKey caCert].
  rewrite !bool_decide_false by apply PEM_length. destruct (cert_block c Hc) as [Hd Hp].
  change X509KeyPair with tls_X509KeyPair. rewrite (keypair_made c k) by done. rewrite (cert_pool c Hc), Hd, Hp.
  cbn [negb orb Verify x509_crypto]. rewrite pool_made, verify_root by (done || set_solver). cbn.
  unfold EncodePrivateKeyPEM. by rewrite pkcs1_key, cert_pem.
Qed.

(** What a CA that is accepted is. *)
Lemma validCACert_sound cp time k c : validCACert cp time = Some (k, c) -> Public (RSAKey k) = cert_PublicKey c.
Proof.
  unfold validCACert, ValidCACert. case_match eqn:Hv; [done|]. intros Hp.
  destruct (bool_decide _ || bool_decide _ || bool_decide _); [done|].
  destruct (X509KeyPair (caCert cp) (caKey cp)) eqn:Hx; [|done].
  repeat case_match; simplify_eq. eapply keypair_sound; eauto.
Qed.

Lemma validCACert_parsed cp time k c : validCACert cp time = Some (k, c) -> parsed c.
Proof.
  unfold validCACert. repeat case_match; intros; simplify_eq.
  match goal with Hp : ParseCertsPEM _ = inr _ |- _ => apply certs_parsed in Hp; by inversion Hp end.
Qed.

Lemma GeneratePrivateKey_RSA w w' s : GeneratePrivateKey x509_RSA w = (w', inr s) ->
  exists k, s = RSAKey k /\ (Now w <= Now w')%Z.
Proof.
  unfold GeneratePrivateKey. rewrite bool_decide_false by done. intros Hr. einv Hr H.
  apply (f_equal fst) in H as Hw. pose proof (clock_rsa rsaKeySize w) as Hc. rewrite Hw in Hc. cbn in Hc.
  unfold mret, M_ret in Hr. simplify_eq. by eexists.
Qed.

(** The serving certificate. *)
Definition serving (cn : string) (best : Z) (key : string) (sc c : Cert) : Prop :=
  parsed c /\ DNSNames c = [cn] /\ IPAddresses c = [] /\ ExtKeyUsage c = [ExtKeyUsageServerAuth] /\
  NotBefore c = to_seconds (NotBefore sc) /\ NotAfter c = to_seconds best /\ cert_PublicKey c = Public (RSAKey key).

Lemma sign_run cn best sk sc w w' a : sign cn best sk sc w = (w', inr a) ->
  exists key c, a = mkArtifacts (EncodePrivateKeyPEM key) (EncodeCertPEM c) (EncodePrivateKeyPEM sk) (EncodeCertPEM sc) /\
    serving cn best key sc c /\ (Public (RSAKey sk) = cert_PublicKey sc -> signed_by c sc).
Proof.
  unfold sign. intros Hs. einv Hs H. apply GeneratePrivateKey_RSA in H as (key & -> & _). einv Hs H.
  unfold mbind, M_bind, mret, M_ret in H. destruct (NewSignedCertWithValidity _ _ _ _ _ _ _) as [w2 [cfg' r]] eqn:Hn.
  simplify_eq. apply NewSignedCert_run in Hn as (Hp & _ & _ & Ha & _ & Hd & Hi & Hb & He & _ & Hx & _ & Hpub & Hsig).
  unfold mret, M_ret in Hs. simplify_eq. eexists key, _. split; [done|]. split; [|done].
  unfold serving. rewrite Hd, Hx, Hb, He, Hpub, Ha. cbn. split_and!; try done.
  rewrite Ha in Hi. cbn in Hi. by destruct (IPAddresses _).
Qed.

(** The CA of a generation: the stored one, or a new one. *)
Definition fresh_CA (w w' : W) (sc : Cert) : Prop :=
  may_sign sc /\ exists t, (Now w <= t <= Now w')%Z /\ NotBefore sc = to_seconds t /\ NotAfter sc = to_seconds (t + tenYears).

Lemma newCA_run w w' sk sc : newCA w = (w', inr (sk, sc)) ->
  parsed sc /\ Public (RSAKey sk) = cert_PublicKey sc /\ fresh_CA w w' sc.
Proof.
  unfold newCA. intros Hn. einv Hn H. apply GeneratePrivateKey_RSA in H as (k & -> & Hc). einv Hn H.
  unfold mret, M_ret in Hn. simplify_eq.
  destruct (ca_made _ _ _ _ _ H) as (Hp & Hs & Hk & t & Ht & Hb & He). split; [done|]. split; [done|].
  split; [done|]. exists t. split_and!; lia || done.
Qed.

Lemma sign_clock cn best sk sc w w' r : sign cn best sk sc w = (w', inr r) -> (Now w <= Now w')%Z.
Proof.
  unfold sign. intros Hs. einv Hs H. apply GeneratePrivateKey_RSA in H as (key & -> & Hc). einv Hs H.
  unfold NewSignedCertWithValidity, mbind, M_bind, mret, M_ret in H.
  pose proof (clock_rand MaxInt64 x) as H1. destruct (rand_Int MaxInt64 x) as [w1 [|n]]; [done|].
  case_bool_decide; [done|].
  match type of H with context [CreateCertificate ?t ?p ?k ?s w1] =>
    pose proof (clock_create t p k s w1) as H2; destruct (CreateCertificate t p k s w1) as [w2 r2] end.
  cbn in *. unfold mret, M_ret in Hs. simplify_eq. lia.
Qed.

Lemma Generate_run cn cp w cp' w' a : ss_Generate cn (cp, w) = ((cp', w'), inr a) ->
  cp' = defaultValidity cp /\
  exists sk sc key c w1, let best := (Now w + Validity cp')%Z in
    a = mkArtifacts (EncodePrivateKeyPEM key) (EncodeCertPEM c) (EncodePrivateKeyPEM sk) (EncodeCertPEM sc) /\
    serving cn best key sc c /\ parsed sc /\ Public (RSAKey sk) = cert_PublicKey sc /\ signed_by c sc /\
    sign cn best sk sc w1 = (w', inr a) /\
    (validCACert cp' best = Some (sk, sc) /\ w1 = w \/ validCACert cp' best = None /\ fresh_CA w w1 sc).
Proof.
  unfold ss_Generate. destruct (ebind _ _ w) as [w2 r] eqn:Hg. intros [= <- -> ->]. split; [done|].
  einv Hg H. destruct x0 as [sk sc]. exists sk, sc. destruct (sign_run _ _ _ _ _ _ _ Hg) as (key & c & Ha & Hc & Hs).
  exists key, c, x. cbn zeta. destruct (validCACert _ _) as [ca|] eqn:Hv.
  - injection H as <- ->. pose proof (validCACert_sound _ _ _ _ Hv) as Hk. pose proof (validCACert_parsed _ _ _ _ Hv).
    split_and!; auto.
  - apply newCA_run in H as (Hp & Hk & Hf). split_and!; auto.
Qed.

(** The check of the writer on artifacts of the generator. *)
Lemma validCert_made now cn key c sk sc :
  parsed c -> parsed sc -> cert_PublicKey c = Public (RSAKey key) ->
  validCert now (Some (mkArtifacts (EncodePrivateKeyPEM key) (EncodeCertPEM c) sk (EncodeCertPEM sc))) cn = true <->
  x509_Verify c (serverOptions cn [sc] (AddDate_months now 6)) (AddDate_months now 6) = None.
Proof.
  intros Hc Hsc Hk. unfold validCert. cbn [art_Cert art_Key art_CACert].
  change X509KeyPair with tls_X509KeyPair. rewrite (keypair_made c key) by done.
  rewrite (cert_pool sc Hsc). destruct (cert_block c Hc) as [-> ->]. cbn. rewrite pool_made by done.
  by destruct (x509_Verify _ _ _).
Qed.

Lemma to_seconds_le a b : (a <= b - second)%Z -> (a <= to_seconds b)%Z.
Proof. intros Hab. pose proof (to_seconds_bounds b). lia. Qed.

(** What the generator returns passes the check of the writer. *)
Lemma Generate_passes cn cp w cp' w' a now :
  ss_Generate cn (cp, w) = ((cp', w'), inr a) -> host_DNS cn = true ->
  let best := (Now w + Validity cp')%Z in let t := AddDate_months now 6 in
  (forall k c, validCACert cp' best = Some (k, c) -> may_sign c /\ valid_at t c) ->
  (Now w' <= t <= Z.min best (Now w + tenYears) - second)%Z ->
  validCert now (Some a) cn = true.
Proof.
  intros Hg Hcn best t Hca Ht.
  apply Generate_run in Hg as (Hcp & sk & sc & key & c & w1 & -> & Hc & Hsc & Hk & Hsig & Hs & Hv).
  destruct Hc as (Hp & Hd & _ & Hx & Hb & He & Hpub). apply validCert_made; [done|done|done|].
  assert (may_sign sc /\ valid_at t sc) as [Hm Ht'].
  { destruct Hv as [[Hv _]|[_ (Hm & t0 & Ht0 & Hb0 & He0)]]; [by eapply Hca|]. split; [done|].
    unfold valid_at. rewrite Hb0, He0. pose proof (to_seconds_bounds t0). pose proof (sign_clock _ _ _ _ _ _ _ Hs).
    split; [lia|]. apply to_seconds_le. lia. }
  eapply verify_signed; eauto; [set_solver| |rewrite Hx; set_solver|rewrite Hd; set_solver].
  unfold valid_at in *. rewrite Hb, He. pose proof (to_seconds_bounds (NotBefore sc)). split; [lia|].
  apply to_seconds_le. subst best. lia.
Qed.


(** C24: the CA survives renewals: a generation with a new CA returns one that may
    sign for ten years, up to the second, and a generator that is given the CA of
    earlier artifacts returns the same CA as long as the CA is valid at the end of
    the certificates it signs. *)
Theorem Generate_keeps_CA cn cp w cp' w' a :
  ss_Generate cn (cp, w) = ((cp', w'), inr a) ->
  exists k c, art_CAKey a = EncodePrivateKeyPEM k /\ art_CACert a = EncodeCertPEM c /\
    (validCACert cp' (Now w + Validity cp') = None ->
       may_sign c /\ (NotBefore c <= Now w')%Z /\ (Now w + tenYears - second <= NotAfter c)%Z) /\
    forall cp0 w0 cn2 cp2 w2 a2, ExtKeyUsage c = [] ->
      ss_Generate cn2 (ss_SetCA (art_CAKey a) (art_CACert a) (cp0, w0)).1 = ((cp2, w2), inr a2) ->
      valid_at (Now w0 + Validity cp2) c ->
      art_CAKey a2 = art_CAKey a /\ art_CACert a2 = art_CACert a.
Proof.
  intros Hg. apply Generate_run in Hg as (Hcp & sk & sc & key & c & w1 & -> & Hc & Hsc & Hk & Hsig & Hs & Hv).
  exists sk, sc. cbn [art_CAKey art_CACert]. split_and!; [done|done| |].
  - intros Hn. destruct Hv as [[Hv _]|[_ (Hm & t0 & Ht0 & Hb0 & He0)]]; [congruence|]. split; [done|].
    pose proof (to_seconds_bounds t0). pose proof (to_seconds_bounds (t0 + tenYears)).
    pose proof (sign_clock _ _ _ _ _ _ _ Hs). lia.
  - intros cp0 w0 cn2 cp2 w2 a2 Hx Hg Ht.
    apply Generate_run in Hg as (Hcp2 & sk2 & sc2 & key2 & c2 & w3 & -> & _ & _ & _ & _ & _ & Hv2).
    cbn [art_CAKey art_CACert].
    assert (exists v, cp2 = mkSelfSigned (EncodePrivateKeyPEM sk) (EncodeCertPEM sc) v) as [v Hv'].
    { rewrite Hcp2. unfold defaultValidity. cbn. case_match; by eexists. }
    rewrite Hv' in Hv2, Ht. rewrite validCACert_made in Hv2 by done. destruct Hv2 as [[[= <- <-] _]|[[=] _]]. done.
Qed.

(** Certificates for an IP, or that last less than six months, do not pass. *)
Lemma Generate_invalid cn cp w cp' w' a now :
  ss_Generate cn (cp, w) = ((cp', w'), inr a) ->
  host_IP cn = true \/ (Now w + Validity cp' < AddDate_months now 6)%Z -> validCert now (Some a) cn = false.
Proof.
  intros Hg Hbad. apply Generate_run in Hg as (Hcp & sk & sc & key & c & w1 & -> & Hc & Hsc & Hk & Hsig & Hs & Hv).
  destruct Hc as (Hp & Hd & Hi & Hx & Hb & He & Hpub). apply not_true_iff_false. rewrite validCert_made by done.
  intros Hver. destruct Hbad as [Hip|Hlt].
  - destruct (verify_ip _ _ _ _ Hver Hip) as [ip Hin]. rewrite Hi in Hin. set_solver.
  - apply verify_valid in Hver as [_ Ht]. rewrite He in Ht. pose proof (to_seconds_bounds (Now w + Validity cp')). lia.
Qed.

(** A server reached by an IP, or whose certificates are to last less than six
    months, never keeps a certificate: whenever the secret holds what was
    generated, ensuring the certificate generates another one, and reports a
    change. *)
Theorem EnsureCert_rotates (s : secretCertWriter (SelfSignedCertGenerator * W)) dns cp w x1 a now x2 x3 :
  scw_CertGenerator s = selfSigned -> scw_overwrite s dns (cp, w) = (x1, (Some a, None)) ->
  host_IP dns = true \/ (Now w + Validity (defaultValidity cp) < AddDate_months now 6)%Z ->
  secGet (scw_Client s) (scw_Secret s) (mkSecret (mkNN "" "") None) x2 = (x3, (certsToSecret a (scw_Secret s), None)) ->
  dns <> "" ->
  exists x4 x5 certs e, scw_overwrite s dns x4 = (x5, (certs, e)) /\
    match e with
    | None => scw_EnsureCert now s dns x2 = (x5, (certs, true, None))
    | Some _ => scw_EnsureCert now s dns x2 = (x5, (None, false, e))
    end.
Proof.
  intros Hs Hw Hbad Hget Hdns. unfold scw_overwrite, buildSecret, mbind, M_bind in Hw. rewrite Hs in Hw.
  cbn [Generate selfSigned] in Hw. destruct (ss_Generate dns (cp, w)) as [[cp' w'] [e|a']] eqn:Hg; [done|]. cbn in Hw.
  destruct (secUpdate _ _ _) as [x1' e']. unfold mret, M_ret in Hw. simplify_eq.
  assert (cp' = defaultValidity cp) as -> by by apply Generate_run in Hg as [? _].
  pose proof (Generate_invalid _ _ _ _ _ _ now Hg Hbad) as Hinv.
  unfold scw_EnsureCert, handleCommon, createIfNotExists, mbind, M_bind.
  rewrite bool_decide_false by (by destruct dns). cbn [read write overwrite].
  unfold scw_read, mbind, M_bind. rewrite Hget, secret_roundtrip. unfold storeCA, mbind, M_bind.
  destruct (SetCA _ _ _ x3) as [x4 []]. cbn. unfold mret, M_ret. rewrite Hinv. cbn.
  destruct (scw_overwrite s dns x4) as [x5 [certs [e|]]] eqn:Ho; exists x4, x5, certs; eexists; by rewrite Ho.
Qed.
End generator_claims.

(** ** A reference instance and witnesses *)

Module RefTls.
Import RefPki.
#[export] Instance tls : TlsLib := {|
  tls_X509KeyPair := fun ct kt =>
    match ParseCertsPEM ct, ParsePrivateKeyPEM kt with
    | inr (c :: _), inr (SignerKey k) => bool_decide (Public k = cert_PublicKey c)
    | _, _ => false
    end;
  CertPool_of := fun p => match ParseCertsPEM p with inr cs => cs | inl _ => [] end;
  AddDate_months := fun t n => (t + n * 30 * 24 * hour)%Z;
  host_IP := is_ip;
  host_DNS := fun h => negb (is_ip h) && negb (bool_decide (h = ""));
|}.

Lemma in_period_valid t c : in_period t c = true <-> valid_at t c.
Proof. unfold in_period, valid_at. rewrite andb_true_iff, !Z.leb_le. done. Qed.

(** The verification of the reference instance, as a proposition. *)
Definition trusts (t : Z) (c r : Cert) : Prop := same c r = true \/ signs c r = true /\ valid_at t r /\ serves (serverOptions "" [] t) r = true.
Lemma verify_spec c dns roots t : verify c (serverOptions dns roots t) t = None <->
  valid_at t c /\ names c dns = true /\ serves (serverOptions "" [] t) c = true /\ exists r, r ∈ roots /\ trusts t c r.
Proof.
  assert (existsb (fun r => same c r || (signs c r && in_period t r && serves (serverOptions "" [] t) r)) roots = true <->
          exists r, r ∈ roots /\ trusts t c r) as <-.
  { rewrite existsb_exists. split; intros (r & Hin & Hr); exists r; rewrite ?list_elem_of_In in *;
      (split; [done|]); revert Hr; unfold trusts; rewrite <- in_period_valid;
      destruct (same c r), (signs c r), (in_period t r), (serves (serverOptions "" [] t) r); cbn; naive_solver. }
  rewrite <- in_period_valid. unfold verify. change (serves (serverOptions dns roots t)) with (serves (serverOptions "" [] t)).
  cbn [vo_CurrentTime serverOptions vo_DNSName vo_Roots]. change (default t (Some t)) with t. fold (serverOptions "" [] t).
  destruct (in_period t c), (names c dns), (serves (serverOptions "" [] t) c), (existsb _ roots); cbn; naive_solver.
Qed.

#[export] Instance tls_laws : SelfSignedLaws world.
Proof.
  split.
  - intros n w. cbn. lia.
  - intros n w. cbn. lia.
  - intros t p k s w. cbn. lia.
  - intros cfg k w w' c Hc. cbn -[create] in Hc. rewrite parse_created in Hc. injection Hc as <- <-.
    split; [unfold parsed; cbn -[create]; apply parse_created|]. split; [done|]. split; [done|].
    exists (clock w). split; [cbn; lia|]. done.
  - intros t b. change (block t b <> ""). unfold block. destruct t; discriminate.
  - intros c k Hc Hk. unfold tls_X509KeyPair, tls. rewrite cert_pem by done.
    unfold EncodePrivateKeyPEM. rewrite pkcs1_key. by apply bool_decide_eq_true.
  - intros c k ct kt Hx Hk Hc. unfold tls_X509KeyPair, tls in Hx. rewrite Hk, Hc in Hx. by apply bool_decide_eq_true in Hx.
  - intros c Hc. unfold CertPool_of, tls. by rewrite cert_pem.
  - intros c roots t Hin Ht Hx. apply verify_spec. split; [done|]. split; [done|].
    split; [unfold serves; by rewrite Hx|]. exists c. split; [done|]. left. by apply bool_decide_eq_true.
  - intros c r roots dns t Hin Hs (H1 & H2 & H3) Hr Hc Hx Hd Hn. apply verify_spec. split; [done|].
    apply andb_true_iff in Hd as [Hd _]. apply negb_true_iff in Hd.
    split; [unfold names; rewrite Hd, (bool_decide_true (dns ∈ _)) by done; apply orb_true_r|].
    split; [unfold serves; rewrite (bool_decide_true (ExtKeyUsageServerAuth ∈ _)) by done; apply orb_true_r|].
    exists r. split; [done|]. right. split; [|split; [done|unfold serves; by rewrite H3]].
    unfold signs. rewrite H1, H2. by rewrite bool_decide_true.
  - intros c roots dns t Hv. by apply verify_spec in Hv as [? _].
  - intros c roots dns t Hv Hip. apply verify_spec in Hv as (_ & Hn & _). unfold names in Hn. cbn in Hip.
    rewrite Hip in Hn. apply orb_true_iff in Hn as [->%bool_decide_eq_true|Hn%bool_decide_eq_true]; [done|by exists dns].
Qed.
End RefTls.

Import RefErrors RefPki RefTls.

(** A generator without a CA, the first generation for a name, and its results. *)
Definition new : SelfSignedCertGenerator := mkSelfSigned "" "" 0.
Definition dns : string := "svc.ns.svc".
Definition made (cn : string) (x : SelfSignedCertGenerator * world) : SelfSignedCertGenerator * world * Artifacts :=
  match ss_Generate cn x with (x, inr a) => (x, a) | (x, inl _) => (x, mkArtifacts "" "" "" "") end.
Definition first_made : SelfSignedCertGenerator * world * Artifacts := made dns (new, start).

Lemma first_made_eq : ss_Generate dns (new, start) = ((first_made.1.1, first_made.1.2), inr first_made.2).
Proof. vm_compute. reflexivity. Qed.
Lemma first_no_CA t : validCACert first_made.1.1 t = None.
Proof. vm_compute. reflexivity. Qed.


(** The CA of the first generation is that of the second one. *)
Lemma Generate_keeps_CA_witness :
  exists k c, art_CAKey first_made.2 = EncodePrivateKeyPEM k /\ art_CACert first_made.2 = EncodeCertPEM c /\ may_sign c /\
    (clock start + tenYears - second <= NotAfter c)%Z.
Proof.
  destruct (Generate_keeps_CA dns new start _ _ _ first_made_eq) as (k & c & Hk & Hc & Hn & _).
  exists k, c. split; [exact Hk|split; [exact Hc|]].
  destruct (Hn (first_no_CA _)) as (Hs & _ & He). split; [exact Hs|exact He].
Defined.
Example second_generation_same_CA :
  let '(x, a) := first_made in let '(_, a2) := made "other.ns.svc" (ss_SetCA (art_CAKey a) (art_CACert a) x).1 in
  art_CACert a2 = art_CACert a /\ art_CAKey a2 = art_CAKey a /\ art_Cert a2 <> art_Cert a.
Proof. vm_compute. split; [reflexivity|split; [reflexivity|discriminate]]. Qed.

(** A writer on a secret kept in the file [secret] of the world. *)
Definition secretStore : SecretClient (SelfSignedCertGenerator * world) :=
  mkSecretClient
    (fun k e '(cp, w) => match disk w !! "key", disk w !! "cert", disk w !! "cakey", disk w !! "cacert" with
      | Some a, Some b, Some c, Some d => ((cp, w), (certsToSecret (mkArtifacts a b c d) k, None))
      | _, _, _, _ => ((cp, w), (e, Some (errors_New "absent")))
      end)
    (fun _ x => (x, None))
    (fun s '(cp, w) => match secretToCerts s with
      | Some a => ((cp, mkWorld (clock w) (keys w) (<["key" := art_Key a]> (<["cert" := art_Cert a]>
          (<["cakey" := art_CAKey a]> (<["cacert" := art_CACert a]> (disk w)))))), None)
      | None => ((cp, w), None)
      end).
Definition ssWriter : secretCertWriter (SelfSignedCertGenerator * world) := mkSecretCertWriter secretStore selfSigned (mkNN "ns" "cert").

(** A server at an IP gets a new certificate every time. *)
Definition ip_stored : SelfSignedCertGenerator * world * (option Artifacts * err) := scw_overwrite ssWriter "10.0.0.1" (new, start).
Definition ip_artifacts : Artifacts := default (mkArtifacts "" "" "" "") ip_stored.2.1.
Lemma EnsureCert_rotates_witness : exists x4 x5 certs e,
  scw_overwrite ssWriter "10.0.0.1" x4 = (x5, (certs, e)) /\
  match e with
  | None => scw_EnsureCert (clock start) ssWriter "10.0.0.1" ip_stored.1 = (x5, (certs, true, None))
  | Some _ => scw_EnsureCert (clock start) ssWriter "10.0.0.1" ip_stored.1 = (x5, (None, false, e))
  end.
Proof.
  apply (EnsureCert_rotates ssWriter "10.0.0.1" new start ip_stored.1 ip_artifacts (clock start) ip_stored.1 ip_stored.1).
  - reflexivity.
  - vm_compute. reflexivity.
  - left. reflexivity.
  - vm_compute. reflexivity.
  - discriminate.
Defined.
