(* ===== verification/Transform.v ===== *)
(** Transforms of manifests: the functions of [declarative/transform/transform.go]
    that transform a node, and what [Transform] makes of a file system.

    A node is a value of kyaml's [RNode]; what the code uses of kyaml and of the
    template package is the class [NodeLib]. *)
From S2P Require Import Prelude Object Declarative.

(** The labels and annotations of a node, nil or a map; [LookupCreate] of a
    scalar at a path followed by [Set]; [LookupCreate] of a sequence at a path
    followed by [SetField]; [yaml.Parse] and [RNode.String]; and the execution of
    a template on named values. *)
Class NodeLib (Node : Type) := {
  GetLabels : Node -> error + option (gmap string string);
  SetLabels : gmap string string -> Node -> Node * err;
  GetAnnotations : Node -> error + option (gmap string string);
  SetAnnotations : gmap string string -> Node -> Node * err;
  setScalar : list string -> string -> Node -> Node * err;
  setSequenceField : list string -> string -> Node -> Node -> Node * err;
  yaml_Parse : string -> error + Node;
  node_String : Node -> error + string;
  template_Parse : string -> err;
  template_Execute : string -> list (string * string) -> error + string;
}.

(** [type OwnerRefTemplateParam struct]. *)
Record OwnerRefTemplateParam := mkOwnerRefTemplateParam {
  tp_APIVersion : string; tp_Kind : string; tp_Name : string; tp_UID : string; tp_Controller : bool; tp_BlockOwnerDeletion : bool;
}.

Definition newline : string := String (Ascii.Ascii false true false true false false false false) "".
Definition ownerRefTemplate : string :=
  newline +:+ "- apiVersion: {{.APIVersion}}" +:+ newline +:+ "  blockOwnerDeletion: {{.BlockOwnerDeletion}}" +:+ newline
  +:+ "  controller: {{.Controller}}" +:+ newline +:+ "  kind: {{.Kind}}" +:+ newline +:+ "  name: {{.Name}}" +:+ newline
  +:+ "  uid: {{.UID}}" +:+ newline.

(** [GetOwnerRefTemplateParamFor]. *)
Definition GetOwnerRefTemplateParamFor (ownerRef : OwnerReference) : OwnerRefTemplateParam :=
  mkOwnerRefTemplateParam (or_APIVersion ownerRef) (or_Kind ownerRef) (or_Name ownerRef) (or_UID ownerRef)
    (default false (or_Controller ownerRef)) (default false (or_BlockOwnerDeletion ownerRef)).

(** The named values of the template. *)
Definition show_bool (b : bool) : string := if b then "true" else "false".
Definition templateData (p : OwnerRefTemplateParam) : list (string * string) :=
  [("APIVersion", tp_APIVersion p); ("Kind", tp_Kind p); ("Name", tp_Name p); ("UID", tp_UID p);
   ("Controller", show_bool (tp_Controller p)); ("BlockOwnerDeletion", show_bool (tp_BlockOwnerDeletion p))].

Section transforms.
Context {Node : Type} `{NodeLib Node} `{MapRange} `{ErrorLib}.

(** [AddLabelsFunc]. *)
Definition AddLabelsFunc (labels : gmap string string) : TransformFunc (Node := Node) := fun obj =>
  match GetLabels obj with
  | inl e => (obj, Some e)
  | inr l => SetLabels (assignAll labels (default ∅ l)) obj
  end.

(** [AddAnnotationsFunc]. *)
Definition AddAnnotationsFunc (annotations : gmap string string) : TransformFunc (Node := Node) := fun obj =>
  match GetAnnotations obj with
  | inl e => (obj, Some e)
  | inr a => SetAnnotations (assignAll annotations (default ∅ a)) obj
  end.

(** [SetReplicaFunc]. *)
Definition SetReplicaFunc (replica : Z) : TransformFunc (Node := Node) := fun obj =>
  setScalar ["spec"; "replicas"] (pretty replica) obj.

(** The loop of [SetOwnerReference] over the references. *)
Fixpoint renderOwnerRefs (ownerRefs : list OwnerReference) (stringOwnerRefs : string) : error + string :=
  match ownerRefs with
  | [] => inr stringOwnerRefs
  | ownerRef :: ownerRefs =>
    match template_Execute ownerRefTemplate (templateData (GetOwnerRefTemplateParamFor ownerRef)) with
    | inl e => inl (errorf_w "failed to execute OwnerReference template: %w" [] e)
    | inr orResult => renderOwnerRefs ownerRefs (stringOwnerRefs +:+ orResult)
    end
  end.
(** [SetOwnerReference]; writing to a [strings.Builder] does not fail. *)
Definition SetOwnerReference (ownerRefs : list OwnerReference) : TransformFunc (Node := Node) := fun obj =>
  match template_Parse ownerRefTemplate with
  | Some e => (obj, Some (errorf_w "failed parsing OwnerReference template: %w" [] e))
  | None =>
    match renderOwnerRefs ownerRefs "" with
    | inl e => (obj, Some e)
    | inr s =>
      match yaml_Parse s with
      | inl e => (obj, Some (errorf_w "failed to parse string OwnerReferences: %w" [] e))
      | inr parsedOR => setSequenceField ["metadata"] "ownerReferences" parsedOR obj
      end
    end
  end.
End transforms.

(** ** Properties *)

(** A file system holds what is written to it, a node reads back from its text,
    and setting labels or annotations sets those and nothing else. *)
Class NodeLaws (FS Node : Type) `{FileSystem FS} `{NodeLib Node} : Prop := {
  file_written : forall fs p y fs', fs_WriteFile fs p y = (fs', None) -> ReadFile fs' p = inr y;
  file_kept : forall fs p y fs' q, fs_WriteFile fs p y = (fs', None) -> q <> p -> ReadFile fs' q = ReadFile fs q;
  node_roundtrip : forall n s, node_String n = inr s -> yaml_Parse s = inr n;
  labels_set : forall l n n', SetLabels l n = (n', None) ->
    GetLabels n' = inr (Some l) /\ GetAnnotations n' = GetAnnotations n;
  annotations_set : forall a n n', SetAnnotations a n = (n', None) ->
    GetAnnotations n' = inr (Some a) /\ GetLabels n' = GetLabels n;
}.

Section transform_claims.
Context {FS Node : Type} `{HF : FileSystem FS} `{HN : NodeLib Node} `{HR : MapRange} `{HE : ErrorLib}.
Context `{!MapRangeLaws} `{!NodeLaws FS Node}.
Local Abbreviation TF := (TransformFunc (Node := Node)).
Local Abbreviation Transform := (Transform (FS := FS) yaml_Parse node_String).

(** What a file becomes. *)
Definition becomes (p : string) (ts common : list TF) (o r : string) : Prop :=
  exists obj obj1 obj2, yaml_Parse o = inr obj /\ runTransforms p ts obj = (obj1, None) /\
    runTransforms p common obj1 = (obj2, None) /\ node_String obj2 = inr r.

Lemma transformOne_run fs p ts common fs' : transformOne yaml_Parse node_String fs p ts common = (fs', None) ->
  (exists o r, ReadFile fs p = inr o /\ becomes p ts common o r /\ ReadFile fs' p = inr r) /\
  forall q, q <> p -> ReadFile fs' q = ReadFile fs q.
Proof.
  unfold transformOne, becomes. repeat case_match; intros; simplify_eq.
  match goal with Hw : fs_WriteFile _ _ _ = (_, None) |- _ => rename Hw into Hw' end.
  split; [|intros q Hq; by eapply file_kept]. eexists _, _. split; [done|]. split; [by repeat eexists|]. by eapply file_written.
Qed.

Lemma transformAll_run mt common : forall fs fs', NoDup mt.*1 ->
  transformAll yaml_Parse node_String fs mt common = (fs', None) ->
  (forall p, p ∉ mt.*1 -> ReadFile fs' p = ReadFile fs p) /\
  (forall p ts, (p, ts) ∈ mt -> exists o r, ReadFile fs p = inr o /\ becomes p ts common o r /\ ReadFile fs' p = inr r).
Proof.
  induction mt as [|[m ts] mt IH]; intros fs fs' Hn; cbn [transformAll].
  { intros [= <-]. split; [done|]. by intros p ts ?%elem_of_nil. }
  destruct (transformOne _ _ fs m ts common) as [fs1 [e|]] eqn:H1; [done|]. intros H2.
  cbn in Hn. apply NoDup_cons in Hn as [Hm Hn]. destruct (transformOne_run _ _ _ _ _ H1) as [(o & r & Ho & Hb & Hr) Hk].
  destruct (IH _ _ Hn H2) as [Hk2 Hb2]. split.
  - intros p Hp. rewrite Hk2, Hk; [done|set_solver|set_solver].
  - intros p ts' [[= -> ->]|Hin]%elem_of_cons.
    + exists o, r. split_and!; try done. by rewrite Hk2.
    + destruct (Hb2 p ts' Hin) as (o' & r' & Ho' & Hb' & Hr'). exists o', r'. split_and!; try done.
      rewrite <- Hk; [done|]. intros ->. apply Hm. by apply (list_elem_of_fmap_2 fst mt (m, ts')).
Qed.

(** After a transform without an error the manifests of the map are what their
    functions make of them, and the other files are as before. *)
Lemma Transform_run fs (mt : gmap string (list TF)) common fs' : Transform fs mt common = (fs', None) ->
  forall p, match mt !! p with
            | None => ReadFile fs' p = ReadFile fs p
            | Some ts => exists o r, ReadFile fs p = inr o /\ becomes p ts common o r /\ ReadFile fs' p = inr r
            end.
Proof.
  unfold Transform. intros Ht. pose proof (range_map_perm _ mt) as Hp.
  destruct (transformAll_run (range_map mt) common fs fs') as [Hk Hb]; [|done|].
  { rewrite (fmap_Permutation fst _ _ Hp). apply NoDup_fst_map_to_list. }
  intros p. destruct (mt !! p) as [ts|] eqn:Hm.
  - apply Hb. rewrite Hp. by apply elem_of_map_to_list.
  - apply Hk. rewrite (fmap_Permutation fst _ _ Hp). intros ([k ts] & -> & Hin)%list_elem_of_fmap.
    apply elem_of_map_to_list in Hin. cbn in Hm. congruence.
Qed.

(** The manifests of a package. *)
Lemma ManifestTransformForPackage_lookup fs pkg mt : ManifestTransformForPackage (Node := Node) fs pkg = inr mt ->
  exists entries, Walk fs pkg = inr entries /\
    forall p, mt !! p = if bool_decide ((p, false) ∈ entries /\ IsKustomization (FS := FS) p = false) then Some [] else None.
Proof.
  unfold ManifestTransformForPackage. destruct (Walk fs pkg) as [|entries]; [done|]. intros [= <-].
  exists entries. split; [done|]. intros p. set (f := fun mt _ => _).
  assert (forall m, foldl f m entries !! p =
    if bool_decide ((p, false) ∈ entries /\ IsKustomization (FS := FS) p = false) then Some [] else m !! p) as Hf; [|by rewrite Hf, lookup_empty].
  induction entries as [|[q d] entries IH]; intros m; cbn [foldl]; [by rewrite bool_decide_false by set_solver|].
  rewrite IH. clear IH. subst f. cbn. destruct (decide ((p, false) ∈ entries /\ IsKustomization (FS := FS) p = false)) as [Hin|Hin].
  - rewrite !bool_decide_true; [done|set_solver|done].
  - rewrite (bool_decide_false _ Hin). destruct d; cbn.
    { rewrite bool_decide_false; [done|]. set_solver. }
    destruct (IsKustomization q) eqn:Hq; cbn.
    { rewrite bool_decide_false; [done|]. intros [[[= ->]|?]%elem_of_cons Hk]; [congruence|tauto]. }
    destruct (decide (p = q)) as [->|Hne].
    + rewrite lookup_insert_eq, bool_decide_true by set_solver. done.
    + rewrite lookup_insert_ne, bool_decide_false by set_solver. done.
Qed.

(** The node a file holds, and its labels and annotations. *)
Definition holds (fs : FS) (p : string) (n : Node) : Prop := exists o, ReadFile fs p = inr o /\ yaml_Parse o = inr n.

Lemma AddLabelsFunc_run labels (n n' : Node) : AddLabelsFunc labels n = (n', None) ->
  exists old, GetLabels n = inr old /\ GetLabels n' = inr (Some (labels ∪ default ∅ old)) /\ GetAnnotations n' = GetAnnotations n.
Proof.
  unfold AddLabelsFunc. destruct (GetLabels n) as [|old] eqn:Hl; [done|]. rewrite assignAll_union.
  intros Hs%labels_set. by exists old.
Qed.
Lemma AddAnnotationsFunc_run annotations (n n' : Node) : AddAnnotationsFunc annotations n = (n', None) ->
  exists old, GetAnnotations n = inr old /\ GetAnnotations n' = inr (Some (annotations ∪ default ∅ old)) /\ GetLabels n' = GetLabels n.
Proof.
  unfold AddAnnotationsFunc. destruct (GetAnnotations n) as [|old] eqn:Hl; [done|]. rewrite assignAll_union.
  intros Hs%annotations_set. by exists old.
Qed.

(** Labels and annotations given to a package as common transforms reach every
    manifest of the package, where they take precedence over those it has, and
    no other file changes, in particular no kustomization file. *)
Theorem package_labels fs pkg mt labels annotations fs' :
  ManifestTransformForPackage fs pkg = inr mt ->
  Transform fs mt [AddLabelsFunc labels; AddAnnotationsFunc annotations] = (fs', None) ->
  exists entries, Walk fs pkg = inr entries /\ forall p,
    if bool_decide ((p, false) ∈ entries /\ IsKustomization (FS := FS) p = false) then
      exists n n' l a, holds fs p n /\ holds fs' p n' /\ GetLabels n = inr l /\ GetAnnotations n = inr a /\
        GetLabels n' = inr (Some (labels ∪ default ∅ l)) /\ GetAnnotations n' = inr (Some (annotations ∪ default ∅ a))
    else ReadFile fs' p = ReadFile fs p.
Proof.
  intros Hmt Ht. destruct (ManifestTransformForPackage_lookup _ _ _ Hmt) as (entries & Hw & Hm).
  exists entries. split; [done|]. intros p. pose proof (Transform_run _ _ _ _ Ht p) as Hp. rewrite Hm in Hp.
  case_bool_decide; [|done]. destruct Hp as (o & r & Ho & (n & n1 & n2 & Hpa & [= <-] & Hrun & Hs) & Hr).
  cbn in Hrun. destruct (AddLabelsFunc labels n) as [n3 [e|]] eqn:Hl; [done|].
  destruct (AddAnnotationsFunc annotations n3) as [n4 [e|]] eqn:Ha; [done|]. simplify_eq.
  apply AddLabelsFunc_run in Hl as (l & Hl1 & Hl2 & Hl3). apply AddAnnotationsFunc_run in Ha as (a & Ha1 & Ha2 & Ha3).
  exists n, n2, l, a. split_and!; try congruence; [by exists o|]. exists r. split; [done|]. by apply node_roundtrip.
Qed.

(** Without references there is nothing to parse, and the transform fails. *)
Lemma SetOwnerReference_empty (n : Node) e : yaml_Parse "" = (inl e : error + Node) -> template_Parse ownerRefTemplate = None ->
  SetOwnerReference [] n = (n, Some (errorf_w "failed to parse string OwnerReferences: %w" [] e)).
Proof. intros Hp Ht. unfold SetOwnerReference. rewrite Ht. cbn. by rewrite Hp. Qed.
End transform_claims.

(** ** Witnesses *)

(** A node is its labels and annotations, kept in a text. *)
Module TransformDemo.
Import RefErrors RefRange DeclDemo.
Definition Node : Type := option (gmap string string) * option (gmap string string).
#[export] Instance nodes : NodeLib Node := {|
  GetLabels := fun n => inr n.1;
  SetLabels := fun l n => ((Some l, n.2), None);
  GetAnnotations := fun n => inr n.2;
  SetAnnotations := fun a n => ((n.1, Some a), None);
  setScalar := fun _ _ n => (n, None);
  setSequenceField := fun _ _ _ n => (n, None);
  yaml_Parse := fun s => match RefText.read s with Some n => inr n | None => inl (errors_New "EOF") end;
  node_String := fun n => inr (RefText.show n);
  template_Parse := fun _ => None;
  template_Execute := fun t _ => inr t;
|}.
#[export] Instance node_laws : NodeLaws (gmap string string) Node.
Proof.
  split.
  - intros f p y f' [= <-]. cbn. by rewrite lookup_insert_eq.
  - intros f p y f' q [= <-] Hne. cbn. by rewrite lookup_insert_ne.
  - intros n s [= <-]. cbn -[RefText.read]. by rewrite RefText.read_show.
  - by intros l n n' [= <-].
  - by intros a n n' [= <-].
Qed.
Definition files : gmap string string :=
  {["app/kustomization.yaml" := "resources"; "app/web.yaml" := RefText.show ((Some {["app" := "web"]}, None) : Node)]}.
Definition manifests : gmap string (list (TransformFunc (Node := Node))) :=
  match ManifestTransformForPackage files "app" with inr mt => mt | inl _ => ∅ end.
Definition labels : gmap string string := {["app" := "shop"]}.
Definition transformed : gmap string string :=
  fst (Transform (FS := gmap string string) yaml_Parse node_String files manifests [AddLabelsFunc labels; AddAnnotationsFunc ∅]).
End TransformDemo.

Import RefErrors RefRange DeclDemo TransformDemo.

Lemma package_labels_witness : exists entries, Walk files "app" = inr entries /\ forall p,
  if bool_decide ((p, false) ∈ entries /\ IsKustomization (FS := gmap string string) p = false) then
    exists (n n' : Node) l a, holds files p n /\ holds transformed p n' /\ GetLabels n = inr l /\ GetAnnotations n = inr a /\
      GetLabels n' = inr (Some (labels ∪ default ∅ l)) /\ GetAnnotations n' = inr (Some (∅ ∪ default ∅ a))
  else ReadFile transformed p = ReadFile files p.
Proof.
  apply (package_labels files "app" manifests labels ∅ transformed).
  - vm_compute. reflexivity.
  - vm_compute. reflexivity.
Defined.

(** The manifest has the new label, the kustomization file is as it was. *)
Example web_relabelled : transformed !! "app/web.yaml" = Some (RefText.show ((Some {["app" := "shop"]}, Some ∅) : Node)) /\
  transformed !! "app/kustomization.yaml" = Some "resources".
Proof. vm_compute. split; reflexivity. Qed.
