(* ===== verification/Loader.v ===== *)
(** Loading packages: [declarative/loader/loader.go] and
    [declarative/loader/filesystem.go].

    The loader reads the list of packages of a channel from disk and copies their
    directories into a file system in memory.  The disk is the class [HostDisk],
    the file system the class [FileSystem] of the packages with the files that
    can be written to it, [MemFiles]. *)
From S2P Require Import Prelude Declarative.

(** ** Libraries *)

(** [ioutil.ReadDir] (the names, in order), [os.Stat] (the mode of the file,
    following links), [os.Open] (the content that can be read), [File.Close] on
    the opened file, and [ioutil.ReadFile]. *)
Class HostDisk := {
  ReadDir : string -> error + list string;
  os_Stat : string -> error + Z;
  os_Open : string -> error + string;
  in_Close : string -> err;
  ioutil_ReadFile : string -> error + string;
}.

(** [Create], [io.Copy] into the created file, and its [Close]. *)
Class MemFiles (FS : Type) := {
  fs_Create : FS -> string -> FS * err;
  io_Copy : FS -> string -> string -> FS * err;
  out_Close : FS -> string -> FS * err;
}.

(** [os.FileMode] bits. *)
Definition ModeDir : Z := Z.shiftl 1 31.
Definition ModeSymlink : Z := Z.shiftl 1 27.
Definition ModeDevice : Z := Z.shiftl 1 26.
Definition ModeNamedPipe : Z := Z.shiftl 1 25.
Definition ModeSocket : Z := Z.shiftl 1 24.
Definition ModeCharDevice : Z := Z.shiftl 1 21.
Definition ModeIrregular : Z := Z.shiftl 1 19.
Definition ModeType : Z :=
  Z.lor ModeDir (Z.lor ModeSymlink (Z.lor ModeNamedPipe (Z.lor ModeSocket
    (Z.lor ModeDevice (Z.lor ModeCharDevice ModeIrregular))))).

(** [loaders.Channel]: the packages and their versions. *)
Record PackageSpec := mkPackageSpec { pkg_Package : string; pkg_Version : string }.

Definition DefaultChannelDir : string := "channels".
Definition DefaultChannelName : string := "stable".

(** [os.ErrInvalid], what closing a nil file returns. *)
Definition ErrInvalid : error := sentinel "os.ErrInvalid".

Section loader.
Context {FS : Type} `{FileSystem FS} `{MemFiles FS} `{HostDisk}.

(** [Copy]: the two deferred calls run last, and their errors replace the one
    returned; closing the source runs also when it could not be opened. *)
Definition Copy (fs : FS) (srcFile dstFile : string) : FS * err :=
  match fs_Create fs dstFile with
  | (fs, Some e) => (fs, Some e)
  | (fs, None) =>
    let opened := os_Open srcFile in
    let '(fs, e) :=
      match opened with
      | inl oErr => (fs, Some oErr)
      | inr content => io_Copy fs dstFile content
      end in
    let cErr := match opened with inl _ => Some ErrInvalid | inr _ => in_Close srcFile end in
    let e := match cErr with Some _ => cErr | None => e end in
    let '(fs, cErr) := out_Close fs dstFile in
    (fs, match cErr with Some _ => cErr | None => e end)
  end.

(** [CreateIfNotExists]. *)
Definition CreateIfNotExists (fs : FS) (dir : string) : FS * err :=
  if fs_Exists fs dir then (fs, None)
  else match fs_MkdirAll fs dir with
       | (fs, Some e) => (fs, Some (errorf "failed to create directory: %q, error: %v" [dir] [e] None))
       | (fs, None) => (fs, None)
       end.

(** The loop of [CopyDirectory] over the entries; [rec] is the recursive call. *)
Fixpoint copyLoop (rec : string -> string -> FS -> outcome (FS * err)) (srcDir dest : string)
  (entries : list string) (fs : FS) : outcome (FS * err) :=
  match entries with
  | [] => Done (fs, None)
  | entry :: entries =>
    let sourcePath := fs_Join srcDir entry in
    let destPath := fs_Join dest entry in
    match os_Stat sourcePath with
    | inl e => Done (fs, Some e)
    | inr mode =>
      let t := Z.land mode ModeType in
      if (t =? ModeDir)%Z then
        match CreateIfNotExists fs destPath with
        | (fs, Some e) => Done (fs, Some e)
        | (fs, None) =>
          match rec sourcePath destPath fs with
          | Done (fs, None) => copyLoop rec srcDir dest entries fs
          | r => r
          end
        end
      else if (t =? ModeSymlink)%Z then copyLoop rec srcDir dest entries fs
      else match Copy fs sourcePath destPath with
           | (fs, Some e) => Done (fs, Some e)
           | (fs, None) => copyLoop rec srcDir dest entries fs
           end
    end
  end.

(** [CopyDirectory]; the fuel bounds the depth of the directories. *)
Fixpoint CopyDirectory (fuel : nat) (srcDir dest : string) (fs : FS) : outcome (FS * err) :=
  match fuel with
  | 0 => OutOfFuel
  | S fuel =>
    match ReadDir srcDir with
    | inl e => Done (fs, Some e)
    | inr entries => copyLoop (CopyDirectory fuel) srcDir dest entries fs
    end
  end.

(** [LoadManifests]; the directory of a package on disk. *)
Definition packagePath (baseDir : string) (manifest : PackageSpec) : string :=
  fs_Join (fs_Join (fs_Join baseDir "packages") (pkg_Package manifest)) (pkg_Version manifest).
Fixpoint LoadManifests (fuel : nat) (fs : FS) (baseDir : string) (manifests : list PackageSpec) : outcome (FS * err) :=
  match manifests with
  | [] => Done (fs, None)
  | manifest :: manifests =>
    let path := packagePath baseDir manifest in
    match CopyDirectory fuel path (pkg_Package manifest) fs with
    | Done (fs, Some e) => Done (fs, Some (errorf_w "failed to load manifests at %q: %w" [path] e))
    | Done (fs, None) => LoadManifests fuel fs baseDir manifests
    | r => r
    end
  end.

(** [LoadPackages]; [unmarshal] is [yaml.Unmarshal] into a channel. *)
Context (unmarshal : string -> error + list PackageSpec).
Definition LoadPackages (fuel : nat) (fs : FS) (baseDir channel : string) : outcome (FS * err) :=
  let baseDir := if bool_decide (baseDir = "") then DefaultChannelDir else baseDir in
  let channel := if bool_decide (channel = "") then DefaultChannelName else channel in
  let p := fs_Join baseDir channel in
  match ioutil_ReadFile p with
  | inl e => Done (fs, Some (errorf_w "failed to read file %q: %w" [p] e))
  | inr b =>
    match unmarshal b with
    | inl e => Done (fs, Some (errorf_w "failed to unmarshal channel %q: %w" [p] e))
    | inr ch => LoadManifests fuel fs baseDir ch
    end
  end.

(** [NewLoadedManifestFileSystem]; [emptyFS] is [filesys.MakeFsInMemory()]. *)
Definition NewLoadedManifestFileSystem (fuel : nat) (emptyFS : FS) (baseDir channel : string) : outcome (error + FS) :=
  let baseDir := if bool_decide (baseDir = "") then DefaultChannelDir else baseDir in
  let channel := if bool_decide (channel = "") then DefaultChannelName else channel in
  match LoadPackages fuel emptyFS baseDir channel with
  | Done (_, Some e) => Done (inl (errorf_w "failed to load channel packages: %w" [] e))
  | Done (fs, None) => Done (inr fs)
  | Panic m => Panic m
  | OutOfFuel => OutOfFuel
  end.
End loader.

(** ** Directories *)

(** The contents of a directory. *)
Inductive Tree := TFile (content : string) | TDir (entries : list (string * Tree)).

(** Induction on trees. *)
Lemma Tree_induction (P : Tree -> Prop) :
  (forall c, P (TFile c)) -> (forall l, Forall (fun e => P e.2) l -> P (TDir l)) -> forall t, P t.
Proof.
  intros Hf Hd. fix IH 1. intros [c|l]; [apply Hf|]. apply Hd.
  induction l as [|[n t] l IHl]; constructor; [apply IH|exact IHl].
Qed.

Fixpoint depth (t : Tree) : nat :=
  match t with TFile _ => 0 | TDir l => S (List.fold_right (fun '(_, t) m => Nat.max (depth t) m) 0 l) end.

Section trees.
Context {FS : Type} `{HF : FileSystem FS} `{HM : MemFiles FS} `{HH : HostDisk}.

(** The files of a tree at a path, with their contents. *)
Fixpoint files_of (t : Tree) (p : string) : list (string * string) :=
  match t with
  | TFile c => [(p, c)]
  | TDir l => List.flat_map (fun '(n, t) => files_of t (fs_Join p n)) l
  end.

(** The disk has the tree at the path. *)
Fixpoint hosted (t : Tree) (p : string) : Prop :=
  match t with
  | TFile c => exists mode, os_Stat p = inr mode /\ Z.land mode ModeType <> ModeDir /\
      Z.land mode ModeType <> ModeSymlink /\ os_Open p = inr c
  | TDir l => exists mode, os_Stat p = inr mode /\ Z.land mode ModeType = ModeDir /\ ReadDir p = inr l.*1 /\
      List.fold_right (fun '(n, t) P => hosted t (fs_Join p n) /\ P) True l
  end.

End trees.

(** The content of the file that a path names, if there is one; the error of reading
    another path, whose text depends on the path and the directories, is left out. *)
Definition content {FS} `{FileSystem FS} (fs : FS) (p : string) : option string :=
  match ReadFile fs p with inr c => Some c | inl _ => None end.

(** Documented behaviour of the file system in memory.  A file has many paths, such as
    [a/x] and [/a/x]: [names] gives the file that a path names, and paths of the same
    file read the same.  Creating a file empties it, what is copied into an empty file
    is its content, and neither these, nor closing the file, nor making a directory,
    touch another file. *)
Class MemLaws (FS : Type) `{FileSystem FS} `{MemFiles FS} := {
  names : string -> string;
  content_names : forall fs p q, names p = names q -> content fs p = content fs q;
  create_files : forall fs p fs', fs_Create fs p = (fs', None) -> content fs' p = Some "" /\
    forall q, names q <> names p -> content fs' q = content fs q;
  copy_files : forall fs p c fs', content fs p = Some "" -> io_Copy fs p c = (fs', None) -> content fs' p = Some c /\
    forall q, names q <> names p -> content fs' q = content fs q;
  close_files : forall fs p fs' e q, out_Close fs p = (fs', e) -> content fs' q = content fs q;
  mkdir_files : forall fs d fs' q, fs_MkdirAll fs d = (fs', None) -> content fs' q = content fs q;
}.

Section loader_claims.
Context {FS : Type} `{HF : FileSystem FS} `{HM : MemFiles FS} `{HH : HostDisk} `{!MemLaws FS}.

(** What the last file of the list that a path names holds. *)
Definition written (l : list (string * string)) (q : string) : option string :=
  foldl (fun r x => if bool_decide (names (FS := FS) x.1 = names (FS := FS) q) then Some x.2 else r) None l.
(** [fs'] is [fs] with the files of the list written, in order. *)
Definition extends (fs : FS) (l : list (string * string)) (fs' : FS) : Prop :=
  forall q, content fs' q = match written l q with Some c => Some c | None => content fs q end.

Lemma written_app l1 l2 q : written (l1 ++ l2) q = match written l2 q with Some c => Some c | None => written l1 q end.
Proof.
  unfold written. rewrite foldl_app. generalize (foldl (fun r x => if bool_decide (names (FS := FS) x.1 = names (FS := FS) q) then Some x.2 else r) None l1) as r0.
  intros r0. induction l2 as [|x l2 IH] using rev_ind; [done|]. rewrite !foldl_app. cbn. by case_bool_decide.
Qed.
Lemma extends_nil fs fs' : (forall q, content fs' q = content fs q) -> extends fs [] fs'.
Proof. intros Hq q. cbn. apply Hq. Qed.
Lemma extends_app fs fs1 fs2 l1 l2 : extends fs l1 fs1 -> extends fs1 l2 fs2 -> extends fs (l1 ++ l2) fs2.
Proof. intros H1 H2 q. rewrite H2, H1, written_app. by destruct (written l2 q). Qed.

Lemma Copy_run (fs : FS) src dst fs' : Copy fs src dst = (fs', None) ->
  exists c, os_Open src = inr c /\ extends fs [(dst, c)] fs'.
Proof.
  unfold Copy. destruct (fs_Create fs dst) as [fs1 [e|]] eqn:Hc; [done|].
  destruct (os_Open src) as [e|c].
  { destruct (out_Close fs1 dst) as [fs2 [e2|]]; done. }
  destruct (io_Copy fs1 dst c) as [fs2 [e|]] eqn:Hi; destruct (in_Close src); destruct (out_Close fs2 dst) as [fs3 [e3|]] eqn:Ho; try done.
  intros [= <-]. exists c. split; [done|]. destruct (create_files _ _ _ Hc) as [H0 H1]. destruct (copy_files _ _ _ _ H0 Hi) as [H2 H3].
  intros q. rewrite (close_files _ _ _ _ _ Ho). unfold written. cbn. case_bool_decide as Hq.
  - by rewrite <- H2; apply content_names.
  - rewrite H3, H1; [done|congruence|congruence].
Qed.

Lemma CreateIfNotExists_run (fs : FS) dir fs' : CreateIfNotExists fs dir = (fs', None) -> extends fs [] fs'.
Proof.
  unfold CreateIfNotExists. intros Hc. apply extends_nil. intros q. revert Hc.
  destruct (fs_Exists fs dir); [by intros [= <-]|]. destruct (fs_MkdirAll fs dir) as [fs1 [e|]] eqn:Hm; [done|].
  intros [= <-]. by eapply mkdir_files.
Qed.

(** The result of copying a tree. *)
Definition copied (fs : FS) (files : list (string * string)) (r : outcome (FS * err)) : Prop :=
  exists fs' e, r = Done (fs', e) /\ (e = None -> extends fs files fs').

Lemma CopyDirectory_tree t : forall fuel src dest (fs : FS), depth t <= fuel -> hosted t src ->
  match t with TFile _ => True | TDir _ => copied fs (files_of t dest) (CopyDirectory fuel src dest fs) end.
Proof.
  induction t as [c|l IH] using Tree_induction; [done|]. intros [|fuel] src dest fs Hd Hh; [cbn in Hd; lia|].
  cbn [hosted] in Hh. destruct Hh as (mode & _ & _ & Hr & Hl). cbn [CopyDirectory]. rewrite Hr. cbn [files_of].
  cbn [depth] in Hd. apply le_S_n in Hd. clear Hr mode. revert fs Hd Hl.
  induction IH as [|[n t] l Ht _ IHl]; intros fs Hd Hl; cbn in *.
  { exists fs, None. split; [done|]. intros _. by apply extends_nil. }
  destruct Hl as [Hh Hl].
  assert (forall fs1, extends fs (files_of t (fs_Join dest n)) fs1 ->
    copied fs (files_of t (fs_Join dest n) ++ List.flat_map (fun '(n, t) => files_of t (fs_Join dest n)) l)
      (copyLoop (CopyDirectory fuel) src dest l.*1 fs1)) as Hnext.
  { intros fs1 H1. destruct (IHl fs1) as (fs2 & e & Hc & He); [lia|done|]. exists fs2, e. split; [done|]. intros He'.
    eapply extends_app; [done|by apply He]. }
  destruct t as [c|l'].
  - destruct Hh as (mode & -> & Hm1%Z.eqb_neq & Hm2%Z.eqb_neq & Ho). rewrite Hm1, Hm2.
    destruct (Copy fs _ _) as [fs1 [e|]] eqn:Hc; [by exists fs1, (Some e)|].
    apply Copy_run in Hc as (c' & Ho' & Hx). rewrite Ho in Ho'. simplify_eq. by apply Hnext.
  - pose proof Hh as Hh0. cbn [hosted] in Hh. destruct Hh as (mode & -> & Hm%Z.eqb_eq & _). rewrite Hm.
    destruct (CreateIfNotExists fs _) as [fs0 [e|]] eqn:Hc; [by exists fs0, (Some e)|]. apply CreateIfNotExists_run in Hc.
    destruct (Ht fuel (fs_Join src n) (fs_Join dest n) fs0) as (fs1 & e & -> & He); [lia|done|].
    destruct e as [e|]; [by exists fs1, (Some e)|]. apply Hnext. apply (extends_app fs fs0 fs1 []); auto.
Qed.

(** C34: loading a channel whose packages are directories on disk that can be read and
    are as deep as the fuel terminates, and when it reports no error the file system
    holds every file of every package, below the name of the package and with the
    content it has on disk, and otherwise the files it held before: what can be read
    at a path is the content of the last of these files that the path names, and when
    it names none of them the content that could be read before, if any. *)
Theorem LoadManifests_loads fuel base (pkgs : list (PackageSpec * list (string * Tree))) : forall (fs : FS),
  Forall (fun '(m, l) => depth (TDir l) <= fuel /\ hosted (TDir l) (packagePath base m)) pkgs ->
  let files := List.flat_map (fun '(m, l) => files_of (TDir l) (pkg_Package m)) pkgs in
  exists fs' e, LoadManifests fuel fs base pkgs.*1 = Done (fs', e) /\
    (e = None -> forall q, content fs' q = match written files q with Some c => Some c | None => content fs q end).
Proof.
  induction pkgs as [|[m l] pkgs IH]; intros fs Hp files; subst files; cbn in *; [by exists fs, None|].
  apply Forall_cons in Hp as [[Hd Hh] Hp].
  destruct (CopyDirectory_tree (TDir l) fuel (packagePath base m) (pkg_Package m) fs Hd Hh) as (fs1 & e & -> & He).
  destruct e as [e|]; [by eexists _, (Some _)|].
  destruct (IH fs1 Hp) as (fs2 & e & -> & He2). exists fs2, e. split; [done|]. intros He'.
  exact (extends_app fs fs1 fs2 _ _ (He eq_refl) (He2 He')).
Qed.

(** When the source cannot be opened, the error of opening it is lost: closing
    the file that was not opened replaces it with an error that does not name the
    file; the destination is left behind, empty. *)
Theorem Copy_open_error (fs fs1 fs2 : FS) src dst e :
  os_Open src = inl e -> fs_Create fs dst = (fs1, None) -> out_Close fs1 dst = (fs2, None) ->
  Copy fs src dst = (fs2, Some ErrInvalid) /\ content fs2 dst = Some "".
Proof.
  intros Ho Hc Hx. unfold Copy. rewrite Hc, Ho, Hx. split; [done|].
  rewrite (close_files _ _ _ _ _ Hx). by destruct (create_files _ _ _ Hc).
Qed.
End loader_claims.

(** ** Witnesses *)

Module LoaderDemo.
(** A file is stored under its path without leading separators. *)
Fixpoint strip (p : string) : string :=
  match p with String a p' => if Ascii.eqb a (Ascii.ascii_of_nat 47) then strip p' else p | EmptyString => p end.
#[export] Instance fs : FileSystem (gmap string string) := {|
  ReadFile := fun f p => match f !! strip p with Some c => inr c | None => inl (errors_New "not found") end;
  fs_WriteFile := fun f p c => (<[strip p := c]> f, None);
  fs_Exists := fun f p => bool_decide (is_Some (f !! strip p));
  Walk := fun f p => inr ((fun e => (e.1, false)) <$> map_to_list f);
  fs_MkdirAll := fun f p => (f, None);
  fs_Join := fun p f => p +:+ "/" +:+ f;
  fileNames := ["kustomization.yaml"; "kustomization.yml"; "Kustomization"];
|}.
(** A disk with one package; the links to it are followed. *)
Definition tree : list (string * Tree) :=
  [("db.yaml", TFile "db"); ("web", TDir [("web.yaml", TFile "web"); ("empty", TDir [])])].
#[export] Instance host : HostDisk := {|
  ReadDir := fun p => if bool_decide (p = "channels/packages/shop/1.0") then inr ["db.yaml"; "web"]
    else if bool_decide (p = "channels/packages/shop/1.0/web") then inr ["web.yaml"; "empty"] else inr [];
  os_Stat := fun p => if bool_decide (p ∈ ["channels/packages/shop/1.0/db.yaml"; "channels/packages/shop/1.0/web/web.yaml"])
    then inr 420%Z else inr (Z.lor ModeDir 493);
  os_Open := fun p => if bool_decide (p = "channels/packages/shop/1.0/db.yaml") then inr "db"
    else if bool_decide (p = "channels/packages/shop/1.0/web/web.yaml") then inr "web" else inl (errors_New "no such file");
  in_Close := fun _ => None;
  ioutil_ReadFile := fun p => inr "channel";
|}.
#[export] Instance mem : MemFiles (gmap string string) := {|
  fs_Create := fun f p => (<[strip p := ""]> f, None);
  io_Copy := fun f p c => (<[strip p := c]> f, None);
  out_Close := fun f p => (f, None);
|}.
#[export] Instance mem_laws : MemLaws (gmap string string).
Proof.
  refine {| names := strip |}; cbn.
  - unfold content. cbn. by intros f p q ->.
  - unfold content. cbn. intros f p f' [= <-]. split; [by rewrite lookup_insert_eq|]. intros q Hq. by rewrite lookup_insert_ne.
  - unfold content. cbn. intros f p c f' _ [= <-]. split; [by rewrite lookup_insert_eq|]. intros q Hq. by rewrite lookup_insert_ne.
  - by intros f p f' e q [= <- _].
  - by intros f d f' q [= <-].
Defined.
Definition shop : PackageSpec := mkPackageSpec "shop" "1.0".
End LoaderDemo.

Import LoaderDemo.

Lemma LoadManifests_loads_witness : exists fs' e,
  LoadManifests 3 ∅ "channels" [shop] = Done (fs', e) /\
  (e = None -> content fs' "shop/db.yaml" = Some "db" /\ content fs' "/shop/web/web.yaml" = Some "web" /\
     content fs' "shop/x" = None).
Proof.
  destruct (LoadManifests_loads (FS := gmap string string) 3 "channels" [(shop, tree)] ∅) as (fs' & e & Hl & He).
  - repeat constructor; cbn; repeat (eexists; split_and!); try (vm_compute; reflexivity || discriminate || lia).
  - exists fs', e. split; [exact Hl|]. intros Hn. specialize (He Hn). split_and!; by rewrite He.
Defined.
Example package_loaded : NewLoadedManifestFileSystem (fun _ => inr [shop]) 3 ∅ "" "" =
  Done (inr {["shop/db.yaml" := "db"; "shop/web/web.yaml" := "web"]}).
Proof. vm_compute. reflexivity. Qed.

Lemma Copy_open_error_witness : Copy (∅ : gmap string string) "missing" "shop/x" = ({["shop/x" := ""]}, Some ErrInvalid) /\
  content ({["shop/x" := ""]} : gmap string string) "shop/x" = Some "".
Proof.
  exact (Copy_open_error ∅ {["shop/x" := ""]} {["shop/x" := ""]} "missing" "shop/x" (errors_New "no such file") eq_refl eq_refl eq_refl).
Defined.
