(* ===== verification/Kubectl.v ===== *)
(** Applying and deleting manifests: [declarative/kubectl/kubectl.go],
    [declarative/applier/apply.go] and [declarative/deleter/delete.go].

    The applier and the deleter fill in the options of kubectl's commands and run
    them; the deleter goes through a temporary file.  kubectl, its factory and
    temporary files are the class [KubectlLib]. *)
From S2P Require Import Prelude Declarative.

(** [genericclioptions.IOStreams], by the names of its streams. *)
Record IOStreams := mkIOStreams { In : string; Out : string; ErrOut : string }.
Definition osStreams : IOStreams := mkIOStreams "os.Stdin" "os.Stdout" "os.Stderr".

Definition DeletePropagationForeground : string := "Foreground".

(** The fields of [delete.DeleteOptions] the code reads or sets; the clients that
    [complete] stores are options, nil before it has run. *)
Record DeleteOptions (Client : Type) := mkDeleteOptions {
  Filenames : list string; del_IOStreams : IOStreams; IgnoreNotFound : bool; CascadingStrategy : string;
  DeleteNow : bool; GracePeriod : Z; ForceDeletion : bool; DeleteAll : bool; DeleteAllNamespaces : bool;
  LabelSelector : string; FieldSelector : string; Raw : string; WarnClusterScope : bool;
  DryRunVerifier : option (Client * Client); Result : option Client; Mapper : option Client; DynamicClient : option Client;
}.
Arguments mkDeleteOptions {Client}. Arguments Filenames {Client}. Arguments del_IOStreams {Client}.
Arguments IgnoreNotFound {Client}. Arguments CascadingStrategy {Client}. Arguments DeleteNow {Client}.
Arguments GracePeriod {Client}. Arguments ForceDeletion {Client}. Arguments DeleteAll {Client}.
Arguments DeleteAllNamespaces {Client}. Arguments LabelSelector {Client}. Arguments FieldSelector {Client}.
Arguments Raw {Client}. Arguments WarnClusterScope {Client}. Arguments DryRunVerifier {Client}.
Arguments Result {Client}. Arguments Mapper {Client}. Arguments DynamicClient {Client}.

(** What [apply.ApplyOptions] is given. *)
Record ApplyOptions (Client : Type) := mkApplyOptions {
  ao_IOStreams : IOStreams; ao_Namespace : string; ao_Objects : Client; ao_DeleteStreams : IOStreams;
}.
Arguments mkApplyOptions {Client}. Arguments ao_IOStreams {Client}. Arguments ao_Namespace {Client}.
Arguments ao_Objects {Client}. Arguments ao_DeleteStreams {Client}.

(** The parameters of the resource builder in [complete]. *)
Record BuilderParams := mkBuilderParams {
  bp_Namespace : string; bp_EnforceNamespace : bool; bp_Filenames : list string; bp_LabelSelector : string;
  bp_FieldSelector : string; bp_All : bool; bp_AllNamespaces : bool; bp_Args : list string;
}.

(** Clients, mappers and results of builders are values of [Client].  [Infos] is
    the builder of the applier on a manifest with [Infos], [f_Build] that of the
    deleter with [Do] and [Err]; the other methods are those of the factory, of
    kubectl's options and of temporary files. *)
Class KubectlLib (W : Type) := {
  Client : Type;
  Infos : string -> M W (error + Client);
  apply_Run : ApplyOptions Client -> M W err;
  f_Validator : bool -> M W err;
  f_Namespace : M W (error + string * bool);
  f_DynamicClient : M W (error + Client);
  f_ToDiscoveryClient : M W (error + Client);
  f_Build : BuilderParams -> M W (error + Client);
  f_ToRESTMapper : M W (error + Client);
  RunDelete : DeleteOptions Client -> M W err;
  TempFile : string -> M W (error + string);
  WriteString : string -> string -> M W err;
  file_Close : string -> M W err;
  os_Remove : string -> M W err;
}.

Section kubectl.
Context {W : Type} `{KubectlLib W} `{ErrorLib}.

(** ** Applier *)

Record DirectApplier := mkDirectApplier { a_ioStreams : IOStreams }.
Definition NewDirectApplier : DirectApplier := mkDirectApplier osStreams.
Definition applier_IOStreams (d : DirectApplier) (s : IOStreams) : DirectApplier := mkDirectApplier s.

(** [DirectApplier.Apply]; it does not use [validate] and [extraArgs]. *)
Definition da_Apply (d : DirectApplier) (namespace manifest : string) (validate : bool) (extraArgs : list string) : M W err :=
  infos ← Infos manifest;
  match infos with
  | inl e => mret (Some e)
  | inr infos => apply_Run (mkApplyOptions (a_ioStreams d) namespace infos (a_ioStreams d))
  end.

(** ** Deleter *)

Record DirectDeleter := mkDirectDeleter { d_ioStreams : IOStreams }.
Definition NewDirectDeleter : DirectDeleter := mkDirectDeleter osStreams.
Definition deleter_IOStreams (d : DirectDeleter) (s : IOStreams) : DirectDeleter := mkDirectDeleter s.

(** [NewDeleteOptions]: the other fields have their zero values. *)
Definition NewDeleteOptions (ioStreams : IOStreams) (filenames : list string) : DeleteOptions Client :=
  mkDeleteOptions filenames ioStreams true DeletePropagationForeground false 0 false false false "" "" "" false None None None None.

(** The part of [complete] that computes the grace period. *)
Definition gracePeriod (o : DeleteOptions Client) : error + Z :=
  let next g :=
    let g := if ((g =? 0)%Z && negb (ForceDeletion o)) then 1%Z else g in
    if ForceDeletion o && (g <? 0)%Z then 0%Z else g in
  if DeleteNow o then
    if negb (GracePeriod o =? -1)%Z then inl (errors_New "--now and --grace-period cannot be specified together")
    else inr (next 1%Z)
  else inr (next (GracePeriod o)).

(** The options with the computed and the stored fields. *)
Definition completed (o : DeleteOptions Client) (warn : bool) (g : Z) (verifier : Client * Client)
  (res mapper dyn : option Client) : DeleteOptions Client :=
  mkDeleteOptions (Filenames o) (del_IOStreams o) (IgnoreNotFound o) (CascadingStrategy o) (DeleteNow o) g (ForceDeletion o)
    (DeleteAll o) (DeleteAllNamespaces o) (LabelSelector o) (FieldSelector o) (Raw o) warn (Some verifier) res mapper dyn.

(** [complete]: the options as it leaves them; on an error they are not used. *)
Definition complete (o : DeleteOptions Client) (args : list string) : M W (error + DeleteOptions Client) :=
  ns ←? f_Namespace;
  let '(cmdNamespace, enforceNamespace) := ns : string * bool in
  let warn := enforceNamespace && negb (DeleteAllNamespaces o) in
  g ←? mret (gracePeriod o);
  dynamicClient ←? f_DynamicClient;
  discoveryClient ←? f_ToDiscoveryClient;
  let verifier := (dynamicClient, discoveryClient) in
  if bool_decide (String.length (Raw o) = 0) then
    r ←? f_Build (mkBuilderParams cmdNamespace enforceNamespace (Filenames o) (LabelSelector o) (FieldSelector o)
                    (DeleteAll o) (DeleteAllNamespaces o) args);
    mapper ←? f_ToRESTMapper;
    dyn ←? f_DynamicClient;
    mret (inr (completed o warn g verifier (Some r) (Some mapper) (Some dyn)))
  else mret (inr (completed o warn g verifier (Result o) (Mapper o) (DynamicClient o))).

(** The rest of [Delete] once the file is open; [file] is its name. *)
Definition deleteFile (d : DirectDeleter) (file manifest : string) : M W err :=
  check wrap_err (WriteString file manifest) (fun e => Wrapf e "failed to write manifest %q" [file]);
  _ ← file_Close file;
  opts ← complete (NewDeleteOptions (d_ioStreams d) [file]) [];
  match opts with
  | inl e => mret (Some e)
  | inr opts => RunDelete opts
  end.

(** [DirectDeleter.Delete]; the file is removed when the function returns, and
    asking for the name of a file that was not created panics. *)
Definition dd_Delete (d : DirectDeleter) (namespace manifest : string) (validate : bool) (extraArgs : list string) (w : W)
  : outcome (W * err) :=
  match f_Validator validate w with
  | (w, Some e) => Done (w, Some (Wrapf e "validation failed" []))
  | (w, None) =>
    match TempFile "delete-*.yaml" w with
    | (w, inl e) => Panic "nil pointer dereference"
    | (w, inr file) =>
      Done ((e ← deleteFile d file manifest; _ ← os_Remove file; mret e) w)
    end
  end.

(** ** Kubectl *)

(** [DefaultKubectl], its constructor and its methods, those of the two parts. *)
Record DefaultKubectl := mkDefaultKubectl { kc_Applier : DirectApplier; kc_Deleter : DirectDeleter }.
Definition kubectl_New : DefaultKubectl := mkDefaultKubectl NewDirectApplier NewDirectDeleter.
Definition kubectl_IOStreams (d : DefaultKubectl) (s : IOStreams) : DefaultKubectl :=
  mkDefaultKubectl (applier_IOStreams (kc_Applier d) s) (deleter_IOStreams (kc_Deleter d) s).
End kubectl.

(** ** Properties *)

(** The files in the directory for temporary files: creating one gives it a new
    name, writing fills it, and removing deletes it when it reports no error.  A
    removal that fails may leave the file; it touches no other one.  kubectl, which
    keeps its caches elsewhere, touches none of them. *)
Class TempLaws (W : Type) `{KubectlLib W} := {
  temp_files : W -> gmap string string;
  TempFile_files : forall p w w' f, TempFile p w = (w', inr f) ->
    temp_files w !! f = None /\ temp_files w' = <[f := ""]> (temp_files w);
  WriteString_files : forall f s w w' e, WriteString f s w = (w', e) ->
    exists c, temp_files w' = <[f := c]> (temp_files w) /\ (e = None -> c = s);
  Close_files : forall f w, temp_files (file_Close f w).1 = temp_files w;
  Remove_files : forall f w w', os_Remove f w = (w', None) -> temp_files w' = delete f (temp_files w);
  Remove_other : forall f w, delete f (temp_files (os_Remove f w).1) = delete f (temp_files w);
  Validator_files : forall b w, temp_files (f_Validator b w).1 = temp_files w;
  Namespace_files : forall w, temp_files (f_Namespace w).1 = temp_files w;
  DynamicClient_files : forall w, temp_files (f_DynamicClient w).1 = temp_files w;
  Discovery_files : forall w, temp_files (f_ToDiscoveryClient w).1 = temp_files w;
  Build_files : forall p w, temp_files (f_Build p w).1 = temp_files w;
  Mapper_files : forall w, temp_files (f_ToRESTMapper w).1 = temp_files w;
  RunDelete_files : forall o w, temp_files (RunDelete o w).1 = temp_files w;
}.

Section kubectl_claims.
Context {W : Type} `{HK : KubectlLib W} `{HE : ErrorLib} `{!TempLaws W}.

Lemma gracePeriod_spec (o : DeleteOptions Client) g : gracePeriod o = inr g ->
  (ForceDeletion o = false -> g <> 0%Z) /\ (ForceDeletion o = true -> (0 <= g)%Z) /\ (DeleteNow o = true -> g = 1%Z).
Proof.
  unfold gracePeriod. destruct (DeleteNow o), (ForceDeletion o); cbn;
    repeat case_match; intros; simplify_eq; split_and!; intros; lia.
Qed.

(** Completing keeps the flags, computes the grace period and fills the clients. *)
Lemma complete_run (o o' : DeleteOptions Client) args w w' : complete o args w = (w', inr o') ->
  Filenames o' = Filenames o /\ IgnoreNotFound o' = IgnoreNotFound o /\ CascadingStrategy o' = CascadingStrategy o /\
  del_IOStreams o' = del_IOStreams o /\ gracePeriod o = inr (GracePeriod o') /\
  (Raw o = "" -> is_Some (Result o') /\ is_Some (Mapper o') /\ is_Some (DynamicClient o')) /\ is_Some (DryRunVerifier o').
Proof.
  unfold complete. intros Hc. einv Hc H1. destruct x0 as [ns enf]. einv Hc Hg. einv Hc H2. einv Hc H3.
  unfold mret, M_ret in Hg. injection Hg as <- Hg. case_bool_decide as Hraw.
  - einv Hc H4. einv Hc H5. einv Hc H6. unfold mret, M_ret in Hc. simplify_eq. cbn. split_and!; eauto.
  - unfold mret, M_ret in Hc. simplify_eq. cbn. split_and!; eauto. intros Hr. by rewrite Hr in Hraw.
Qed.

(** Whether a computation leaves the files alone. *)
Definition keeps {A} (m : M W A) : Prop := forall w, temp_files (m w).1 = temp_files w.
Lemma keeps_ebind {A B} (m : M W (error + A)) (k : A -> M W (error + B)) : keeps m -> (forall a, keeps (k a)) -> keeps (ebind m k).
Proof.
  intros Hm Hk w. unfold ebind, mbind, M_bind. specialize (Hm w). destruct (m w) as [w1 [e|a]]; cbn in *; [done|]. by rewrite Hk.
Qed.
Lemma keeps_ret {A} (a : A) : keeps (mret a).
Proof. by intros w. Qed.
Lemma keeps_complete o args : keeps (complete o args).
Proof.
  unfold complete. apply keeps_ebind; [exact Namespace_files|]. intros [ns enf].
  apply keeps_ebind; [apply keeps_ret|]. intros g. apply keeps_ebind; [exact DynamicClient_files|]. intros dyn.
  apply keeps_ebind; [exact Discovery_files|]. intros disc. case_bool_decide; [|apply keeps_ret].
  apply keeps_ebind; [intros w; apply Build_files|]. intros r. apply keeps_ebind; [exact Mapper_files|]. intros m.
  apply keeps_ebind; [exact DynamicClient_files|]. intros d. apply keeps_ret.
Qed.

(** The options kubectl deletes with: those of a file, waiting for dependents,
    ignoring objects that are gone, and with a grace period of one second. *)
Definition deletes_with (d : DirectDeleter) (file : string) (opts : DeleteOptions Client) : Prop :=
  Filenames opts = [file] /\ del_IOStreams opts = d_ioStreams d /\ IgnoreNotFound opts = true /\
  CascadingStrategy opts = DeletePropagationForeground /\ GracePeriod opts = 1%Z.

(** What is done with the temporary file. *)
Lemma deleteFile_run d file manifest w w' e : deleteFile d file manifest w = (w', e) ->
  (exists c, temp_files w' = <[file := c]> (temp_files w)) /\
  (e = None -> exists opts w1, RunDelete opts w1 = (w', None) /\ temp_files w1 = <[file := manifest]> (temp_files w) /\
     deletes_with d file opts).
Proof.
  unfold deleteFile, echeck, wrap_err, mbind, M_bind. destruct (WriteString file manifest w) as [w1 e1] eqn:Hw.
  destruct (WriteString_files _ _ _ _ _ Hw) as (c & Hc & Hce). destruct e1 as [e1|]; cbn.
  { intros [= <- <-]. split; [by exists c|done]. }
  rewrite (Hce eq_refl) in Hc. pose proof (Close_files file w1) as Hcl. destruct (file_Close file w1) as [w2 e2]. cbn in Hcl.
  pose proof (keeps_complete (NewDeleteOptions (d_ioStreams d) [file]) [] w2) as Hk.
  destruct (complete _ [] w2) as [w3 [e3|opts]] eqn:Hcomp; cbn in Hk.
  { intros [= <- <-]. split; [exists manifest; congruence|done]. }
  intros Hr. pose proof (RunDelete_files opts w3) as Hd. rewrite Hr in Hd. cbn in Hd. split; [exists manifest; congruence|].
  intros ->. exists opts, w3. apply complete_run in Hcomp as (Hf & Hi & Hca & Hio & Hg & _).
  cbn in Hg. injection Hg as Hg. split_and!; try done. congruence.
Qed.

(** A new file that is filled and removed again is gone, unless removing it failed. *)
Lemma Remove_new file (w w1 w' : W) re : temp_files w !! file = None ->
  delete file (temp_files w1) = temp_files w -> os_Remove file w1 = (w', re) ->
  delete file (temp_files w') = temp_files w /\ (re = None -> temp_files w' = temp_files w).
Proof.
  intros Hnew Hw1 Hr. split.
  - pose proof (Remove_other file w1) as Ho. rewrite Hr in Ho. cbn in Ho. congruence.
  - intros ->. rewrite (Remove_files _ _ _ Hr). done.
Qed.

(** C35: after deleting a manifest the temporary files are those from before,
    whatever failed, except that the file with the manifest, a new one, may be left
    when removing it, the last thing that is done, fails; that error is not
    reported.  When success is reported, the last thing before the removal was that
    kubectl succeeded on a new file with the manifest, which was then the only
    difference between the files, waiting for dependents and ignoring objects that
    are gone, and with a grace period of one second, whatever grace period the
    objects ask for. *)
Theorem Delete_removes_file d ns manifest validate args w w' e :
  dd_Delete d ns manifest validate args w = Done (w', e) ->
  (temp_files w' = temp_files w \/
   exists file w2 re, os_Remove file w2 = (w', Some re) /\ temp_files w !! file = None /\
     delete file (temp_files w') = temp_files w) /\
  (e = None -> exists file opts w1 w2 re, RunDelete opts w1 = (w2, None) /\ os_Remove file w2 = (w', re) /\
     temp_files w !! file = None /\ temp_files w1 = <[file := manifest]> (temp_files w) /\ deletes_with d file opts).
Proof.
  unfold dd_Delete. pose proof (Validator_files validate w) as Hv. destruct (f_Validator validate w) as [w1 [e1|]]; cbn in Hv.
  { intros [= <- <-]. split; [by left|done]. }
  destruct (TempFile _ w1) as [w2 [e2|file]] eqn:Ht; [done|]. apply TempFile_files in Ht as [Hnew Ht]. rewrite Hv in Hnew, Ht.
  unfold mbind, M_bind. destruct (deleteFile d file manifest w2) as [w3 e3] eqn:Hd.
  destruct (os_Remove file w3) as [w4 re] eqn:Hr. intros [= <- <-]. apply deleteFile_run in Hd as [[c Hc] He].
  assert (delete file (temp_files w3) = temp_files w) as H3 by (rewrite Hc, Ht, insert_insert_eq, delete_insert_id; done).
  destruct (Remove_new file w w3 w4 re Hnew H3 Hr) as [Hrest Hgone]. split.
  - destruct re as [re|]; [right; by exists file, w3, re|left; by apply Hgone].
  - intros He3. destruct (He He3) as (opts & w5 & Hrun & Hfile & Hopts). exists file, opts, w5, w3, re.
    split_and!; try done. by rewrite Hfile, Ht, insert_insert_eq.
Qed.

(** A grace period of zero is sent only when deletion is forced, and then it
    is never negative; deleting now means one second, and asking for both that and
    a grace period is an error. *)
Theorem complete_grace (o o' : DeleteOptions Client) args w w' :
  complete o args w = (w', inr o') ->
  (GracePeriod o' = 0%Z -> ForceDeletion o = true) /\ (ForceDeletion o = true -> (0 <= GracePeriod o')%Z) /\
  (DeleteNow o = true -> GracePeriod o' = 1%Z /\ GracePeriod o = (-1)%Z).
Proof.
  intros Hc. apply complete_run in Hc as (_ & _ & _ & _ & Hg & _).
  pose proof (gracePeriod_spec _ _ Hg) as (H1 & H2 & H3). split_and!.
  - intros Hz. destruct (ForceDeletion o); [done|]. by apply H1 in Hz.
  - done.
  - intros Hn. split; [by apply H3|]. unfold gracePeriod in Hg. rewrite Hn in Hg.
    destruct (GracePeriod o =? -1)%Z eqn:Heq; [lia|done].
Qed.
End kubectl_claims.

(** ** Witnesses *)

(** A host with its temporary files, and whether they can be removed; kubectl
    always succeeds. *)
Module KubectlDemo.
#[export] Instance lib : KubectlLib (bool * gmap string string) := {|
  Client := unit;
  Infos := fun m w => (w, inr tt);
  apply_Run := fun _ w => (w, None);
  f_Validator := fun _ w => (w, None);
  f_Namespace := fun w => (w, inr ("default", false));
  f_DynamicClient := fun w => (w, inr tt);
  f_ToDiscoveryClient := fun w => (w, inr tt);
  f_Build := fun _ w => (w, inr tt);
  f_ToRESTMapper := fun w => (w, inr tt);
  RunDelete := fun _ w => (w, None);
  TempFile := fun _ w => let f := fresh (dom w.2) in ((w.1, <[f := ""]> w.2), inr f);
  WriteString := fun f s w => ((w.1, <[f := s]> w.2), None);
  file_Close := fun _ w => (w, None);
  os_Remove := fun f w => if (w.1 : bool) then ((w.1, delete f w.2), None) else (w, Some (errors_New ("remove " +:+ f)));
|}.
#[export] Instance laws : TempLaws (bool * gmap string string).
Proof.
  refine {| temp_files := snd |}; cbn; try done.
  - intros _ w w' f [= <- <-]. split; [|done]. apply not_elem_of_dom, is_fresh.
  - intros f s w w' e [= <- <-]. by exists s.
  - intros f [[] m] w'; cbn; [by intros [= <-]|done].
  - intros f [[] m]; cbn; [by rewrite delete_delete_eq|done].
Defined.
End KubectlDemo.

Import RefErrors KubectlDemo.

Lemma Delete_removes_file_witness :
  dd_Delete NewDirectDeleter "" "kind: Pod" true [] (true, ∅) = Done ((true, ∅), None) /\
  exists file (opts : DeleteOptions Client) (w1 w2 : bool * gmap string string) re, RunDelete opts w1 = (w2, None) /\
    os_Remove file w2 = ((true, ∅), re) /\
    (∅ : gmap string string) !! file = None /\ temp_files w1 = {[file := "kind: Pod"]} /\ deletes_with NewDirectDeleter file opts.
Proof.
  assert (dd_Delete NewDirectDeleter "" "kind: Pod" true [] (true, ∅) = Done ((true, ∅), None)) as Hd by (vm_compute; reflexivity).
  split; [exact Hd|]. exact (proj2 (Delete_removes_file NewDirectDeleter "" "kind: Pod" true [] (true, ∅) (true, ∅) None Hd) eq_refl).
Defined.

(** When the file cannot be removed, the manifest stays on the host and success is
    reported. *)
Example Delete_leaves_file : exists file,
  dd_Delete NewDirectDeleter "" "kind: Pod" true [] (false, ∅) = Done ((false, {[file := "kind: Pod"]}), None).
Proof. exists (fresh (dom (∅ : gmap string string))). vm_compute. reflexivity. Qed.

Definition forced : DeleteOptions Client :=
  mkDeleteOptions [] osStreams true DeletePropagationForeground false (-5) true false false "" "" "" false None None None None.
Lemma complete_grace_witness : exists o', complete forced [] (true, ∅) = ((true, ∅), inr o') /\ (0 <= GracePeriod o')%Z.
Proof.
  eexists. split; [vm_compute; reflexivity|].
  exact (proj1 (proj2 (complete_grace forced _ [] (true, ∅) (true, ∅) eq_refl)) eq_refl).
Defined.
