(* ===== verification/Platform.v ===== *)
(** Helpers around the controllers: cluster discovery
    [discovery/cluster/cluster.go], the graceful runnable [runnable/graceful.go],
    telemetry [telemetry/tracing/logger.go], [telemetry/instrumentation.go] and
    [telemetry/export/*.go], and the builder of external controllers
    [controller/external/builder/controller.go]. *)
From S2P Require Import Prelude.

(** * Cluster discovery *)

(** [semver.Version]: numbers, pre-release and build parts. *)
Record Version := mkVersion { Major : N; Minor : N; Patch : N; Pre : list string; Build : list string }.

(** [semver.ParseTolerant], [semver.Parse] and [Version.Compare]. *)
Class SemverLib := {
  ParseTolerant : string -> error + Version;
  semver_Parse : string -> error + Version;
  semver_Compare : Version -> Version -> Z;
}.

(** A resource list of the server: its group version and the kinds in it. *)
Record APIResourceList := mkAPIResourceList { GroupVersion : string; APIResources : list string }.

Section discovery.
Context `{SemverLib} {W : Type}.

(** [discovery.DiscoveryInterface] as the code uses it: the version string of the
    server, and its resource lists. *)
Record DiscoveryClient := mkDiscoveryClient {
  ServerVersion : M W (error + string);
  ServerGroupsAndResources : M W (error + list APIResourceList);
}.

(** [New], with what the constructor of the discovery interface returns for the
    configuration; the client only embeds the interface. *)
Definition NewFromDiscoveryClient (discoveryClient : DiscoveryClient) : DiscoveryClient := discoveryClient.
Definition cluster_New (newForConfig : M W (error + DiscoveryClient)) : M W (error + DiscoveryClient) :=
  dc ←? newForConfig;
  mret (inr dc).

(** [basicVersion]. *)
Definition printVersion (v : Version) : string :=
  pretty (Major v) +:+ "." +:+ pretty (Minor v) +:+ "." +:+ pretty (Patch v).
Definition basicVersion (version : string) : error + string :=
  match ParseTolerant version with
  | inl e => inl e
  | inr ver => inr (printVersion ver)
  end.

(** [GetClusterVersion]. *)
Definition GetClusterVersion (d : DiscoveryClient) : M W (error + string) :=
  version ←? ServerVersion d;
  mret (basicVersion version).

(** [ClusterVersionCompare]. *)
Definition ClusterVersionCompare (d : DiscoveryClient) (targetVersion : string) : M W (error + Z) :=
  currentVersion ←? GetClusterVersion d;
  cv ←? mret (semver_Parse currentVersion);
  tvSimple ←? mret (basicVersion targetVersion);
  tv ←? mret (semver_Parse tvSimple);
  mret (inr (semver_Compare cv tv)).

(** [HasResource]: the two loops, which return at the first match. *)
Fixpoint hasKind (resources : list string) (kind : string) : bool :=
  match resources with
  | [] => false
  | r :: resources => if bool_decide (r = kind) then true else hasKind resources kind
  end.
Fixpoint hasResourceIn (apiLists : list APIResourceList) (apiVersion kind : string) : bool :=
  match apiLists with
  | [] => false
  | l :: apiLists =>
    if bool_decide (GroupVersion l = apiVersion) && hasKind (APIResources l) kind then true
    else hasResourceIn apiLists apiVersion kind
  end.
Definition HasResource (d : DiscoveryClient) (apiVersion kind : string) : M W (error + bool) :=
  apiLists ←? ServerGroupsAndResources d;
  mret (inr (hasResourceIn apiLists apiVersion kind)).
End discovery.
Arguments DiscoveryClient : clear implicits.

(** * The graceful runnable *)

(** [Start] runs [run] and, in a goroutine, waits for the context, calls [stop]
    and counts the wait group down.  The state: how far the goroutine is, the
    result of [run] once it has returned, whether the context is done, the calls
    made, and the counter of the wait group. *)
Inductive StopPhase := Waiting | Stopping | Stopped.
Inductive RunEvent := EvStop | EvDone.
#[global] Instance RunEvent_eq_dec : EqDecision RunEvent.
Proof. solve_decision. Defined.
Record GracefulState := mkGracefulState {
  phase : StopPhase; run_result : option err; ctx_done : bool; calls : list RunEvent; wg : Z;
}.

(** [Start]: the goroutine is started and [run] begins.  A counter that would go
    below zero panics, which is the absence of the last step. *)
Definition graceful_Start (wg0 : Z) : GracefulState := mkGracefulState Waiting None false [] wg0.

(** The steps: the environment cancels the context, [run] returns (whenever it
    likes), [ctx.Done] lets the goroutine call [stop], [stop] returns, with an error that is only logged,
    and the deferred [Done] runs. *)
Inductive graceful_step : GracefulState -> GracefulState -> Prop :=
| gs_cancel ph r cs n : graceful_step (mkGracefulState ph r false cs n) (mkGracefulState ph r true cs n)
| gs_return ph e d cs n : graceful_step (mkGracefulState ph None d cs n) (mkGracefulState ph (Some e) d cs n)
| gs_stop r cs n : graceful_step (mkGracefulState Waiting r true cs n) (mkGracefulState Stopping r true (cs ++ [EvStop]) n)
| gs_done r d cs n : (0 < n)%Z ->
    graceful_step (mkGracefulState Stopping r d cs n) (mkGracefulState Stopped r d (cs ++ [EvDone]) (n - 1)).

(** [NeedLeaderElection] and the constructor. *)
Record Graceful (W : Type) := mkGraceful { g_run : M W err; g_stop : M W err; requireLeaderElection : bool; g_log : string }.
Arguments mkGraceful {W}. Arguments g_run {W}. Arguments g_stop {W}. Arguments requireLeaderElection {W}. Arguments g_log {W}.
Definition NewGraceful {W} (run stop : M W err) (requireLeaderElection : bool) (logger : option string) : Graceful W :=
  mkGraceful run stop requireLeaderElection (default "graceful-runnable" logger).
Definition NeedLeaderElection {W} (g : Graceful W) : bool := requireLeaderElection g.

(** * Telemetry *)

(** Values in a list of keys and values: strings and others. *)
Inductive any := AString (s : string) | AOther (repr : string).

Definition infoEventName : string := "info".
Definition errorEventName : string := "error".
Definition messageKey : string := "message".
Definition eventTypeKey : string := "event.type".
Definition nonStringKey : string := "non-string".
Definition logEventTypeValue : string := "log".

(** [keyValues]: attributes from pairs; a last key without a value is dropped. *)
Fixpoint keyValues (keysAndValues : list any) : list (string * any) :=
  match keysAndValues with
  | k :: v :: rest => (match k with AString s => s | AOther _ => nonStringKey end, v) :: keyValues rest
  | _ => []
  end.

(** The calls a tracing logger makes on its logger and its span. *)
Inductive TraceCall :=
| LInfo (msg : string) (kvs : list any)
| LError (e : error) (msg : string) (kvs : list any)
| LWithValues (kvs : list any)
| LWithName (name : string)
| SAddEvent (name : string) (attrs : list (string * any))
| SRecordError (e : error)
| SSetStatusError (e : error)
| SSetAttributes (attrs : list (string * any)).

Definition emit (cs : list TraceCall) : M (list TraceCall) unit := fun w => (w ++ cs, tt).

(** [NewLogger]; the recording span adds its identifiers to the logger. *)
Definition NewLogger (recording : bool) (spanID traceID : string) : M (list TraceCall) unit :=
  if recording then emit [LWithValues [AString "SpanID"; AOther spanID; AString "TraceID"; AOther traceID]] else mret tt.

(** The attributes of a log event. *)
Definition logAttributes (msg : string) (keysAndValues : list any) : list (string * any) :=
  [(messageKey, AString msg); (eventTypeKey, AString logEventTypeValue)] ++ keyValues keysAndValues.
(** [TracingLogger.Info], [Error], [WithValues] and [WithName]. *)
Definition tl_Info (msg : string) (keysAndValues : list any) : M (list TraceCall) unit :=
  emit [LInfo msg keysAndValues; SAddEvent infoEventName (logAttributes msg keysAndValues)].
(** [Error] on a nil error panics when it asks for the message. *)
Definition tl_Error (e : err) (msg : string) (keysAndValues : list any) (w : list TraceCall) : outcome (list TraceCall * unit) :=
  match e with
  | None => Panic "nil pointer dereference"
  | Some e => Done (emit [LError e msg keysAndValues; SAddEvent errorEventName (logAttributes msg keysAndValues);
                          SRecordError e; SSetStatusError e] w)
  end.
Definition tl_WithValues (keysAndValues : list any) : M (list TraceCall) unit :=
  emit [SSetAttributes (keyValues keysAndValues); LWithValues keysAndValues].
Definition tl_WithName (name : string) : M (list TraceCall) unit :=
  emit [SSetAttributes [("name", AString name)]; LWithName name].

(** ** Instrumentation *)

Definition logLibraryKey : string := "library".

(** [type Instrumentation struct]: a tracer and a meter, by their provider and
    their name, and a logger, by its sink and the values added to it. *)
Record Instrumentation := mkInstrumentation {
  i_trace : string * string; i_metric : string * string; i_log : string * list any;
}.

Section instrumentation.
(** [otel.GetTracerProvider()], [global.GetMeterProvider()] and [ctrl.Log], and
    the span a tracer starts: whether it records, and its identifiers. *)
Context (GetTracerProvider GetMeterProvider : string) (ctrl_Log : string * list any).
Context (tracer_Start : string * string -> string -> bool * string * string).

Definition withValues (log : string * list any) (kvs : list any) : string * list any := (log.1, log.2 ++ kvs).

Definition NewInstrumentationWithProviders (name : string) (tp mp : option string) (log : option (string * list any))
  : Instrumentation :=
  let tp := match tp with None => GetTracerProvider | Some tp => tp end in
  let mp := match mp with None => GetMeterProvider | Some mp => mp end in
  let log := match log with None => ctrl_Log | Some log => log end in
  mkInstrumentation (tp, name) (mp, name) (withValues log [AString logLibraryKey; AString name]).

Definition NewInstrumentation (name : string) : Instrumentation :=
  mkInstrumentation (GetTracerProvider, name) (GetMeterProvider, name) (withValues ctrl_Log [AString logLibraryKey; AString name]).

(** [Instrumentation.Start]: the span, the meter and the tracing logger, whose
    calls on the logger it is given are recorded. *)
Definition i_Start (i : Instrumentation) (name : string) : M (list TraceCall) ((bool * string * string) * (string * string)) :=
  let '(recording, spanID, traceID) := tracer_Start (i_trace i) name in
  _ ← emit [LWithValues [AString "spanName"; AString name]];
  _ ← NewLogger recording spanID traceID;
  mret ((recording, spanID, traceID), i_metric i).

(** The two constructors agree on the default providers. *)
Lemma NewInstrumentation_default name : NewInstrumentation name = NewInstrumentationWithProviders name None None None.
Proof. reflexivity. Qed.
End instrumentation.

(** ** Exporters *)

Definition envDisableTracing : string := "DISABLE_TRACING".

(** [strconv.ParseBool]. *)
Definition ParseBool (s : string) : option bool :=
  if bool_decide (s ∈ ["1"; "t"; "T"; "TRUE"; "true"; "True"]) then Some true
  else if bool_decide (s ∈ ["0"; "f"; "F"; "FALSE"; "false"; "False"]) then Some false
  else None.

Definition getEnv (env : gmap string string) (key defaultVal : string) : string :=
  match env !! key with Some value => value | None => defaultVal end.
Definition getEnvAsBool (env : gmap string string) (name : string) (defaultVal : bool) : bool :=
  match ParseBool (getEnv env name "") with Some val => val | None => defaultVal end.

(** The steps of installing an exporter, each of which may fail, and that of
    registering the provider. *)
Record ExporterLib (W : Type) := mkExporterLib {
  newJaegerExporter : M W (error + string);
  newOTLPExporter : M W (error + string);
  newResource : string -> M W (error + string);
  setTracerProvider : string -> M W unit;
  setTextMapPropagator : M W unit;
  startController : string -> M W err;
}.
Arguments mkExporterLib {W}. Arguments newJaegerExporter {W}. Arguments newOTLPExporter {W}.
Arguments newResource {W}. Arguments setTracerProvider {W}. Arguments setTextMapPropagator {W}. Arguments startController {W}.

(** A shutdown function: none, that of a provider, or that of a controller and a
    provider. *)
Inductive Shutdown := NoShutdown | ShutdownProvider (exp : string) | StopAndShutdown (exp : string).

(** [InstallJaegerExporter] and [InstallOTLPExporter]. *)
Definition InstallJaegerExporter {W} (lib : ExporterLib W) (env : gmap string string) (serviceName : string) : M W (error + Shutdown) :=
  if getEnvAsBool env envDisableTracing true then mret (inr NoShutdown)
  else
    exp ←? newJaegerExporter lib;
    _ ← setTracerProvider lib exp;
    mret (inr (ShutdownProvider exp)).
Definition InstallOTLPExporter {W} (lib : ExporterLib W) (env : gmap string string) (serviceName : string) : M W (error + Shutdown) :=
  if getEnvAsBool env envDisableTracing true then mret (inr NoShutdown)
  else
    exp ←? newOTLPExporter lib;
    res ←? newResource lib serviceName;
    _ ← setTextMapPropagator lib;
    _ ← setTracerProvider lib res;
    e ← startController lib exp;
    match e with
    | Some e => mret (inl e)
    | None => mret (inr (StopAndShutdown exp))
    end.

(** * The builder of external controllers *)

(** [controller.Options] as the builder handles them: the reconciler and the
    logger may be nil; [Other] are the other options. *)
Record CtrlOptions := mkCtrlOptions { Reconciler : option string; Log : option string; Other : string }.

(** [type Builder struct]; sources, handlers, reconcilers, managers and
    controllers are names. *)
Record Builder := mkBuilder {
  evntSrc : option string; hdler : option string; mgr : option string; ctrl : option string;
  ctrlOptions : CtrlOptions; b_name : string;
}.
Definition ControllerManagedBy (m : option string) : Builder := mkBuilder None None m None (mkCtrlOptions None None "") "".
Definition WithSource (b : Builder) (src : string) : Builder :=
  mkBuilder (Some src) (hdler b) (mgr b) (ctrl b) (ctrlOptions b) (b_name b).
Definition WithEventHandler (b : Builder) (h : string) : Builder :=
  mkBuilder (evntSrc b) (Some h) (mgr b) (ctrl b) (ctrlOptions b) (b_name b).
Definition WithOptions (b : Builder) (o : CtrlOptions) : Builder :=
  mkBuilder (evntSrc b) (hdler b) (mgr b) (ctrl b) o (b_name b).
Definition WithLogger (b : Builder) (log : string) : Builder :=
  mkBuilder (evntSrc b) (hdler b) (mgr b) (ctrl b)
    (mkCtrlOptions (Reconciler (ctrlOptions b)) (Some log) (Other (ctrlOptions b))) (b_name b).
Definition Named (b : Builder) (name : string) : Builder :=
  mkBuilder (evntSrc b) (hdler b) (mgr b) (ctrl b) (ctrlOptions b) name.

(** [controller.New], [Controller.Watch] and [Manager.GetLogger]. *)
Record ControllerLib (W : Type) := mkControllerLib {
  controller_New : string -> string -> CtrlOptions -> M W (option string * err);
  ctrl_Watch : option string -> option string -> option string -> M W err;
  GetLogger : string -> string;
}.
Arguments mkControllerLib {W}. Arguments controller_New {W}. Arguments ctrl_Watch {W}. Arguments GetLogger {W}.

Section builder.
Context {W : Type} (lib : ControllerLib W).

(** [doController]: the builder with its controller, and the error. *)
Definition doController (b : Builder) (m r : string) : M W (Builder * err) :=
  let o := ctrlOptions b in
  let o := mkCtrlOptions (match Reconciler o with None => Some r | x => x end) (Log o) (Other o) in
  let o := mkCtrlOptions (Reconciler o) (match Log o with None => Some (GetLogger lib m) | x => x end) (Other o) in
  '(c, e) ← controller_New lib (b_name b) m o;
  mret (mkBuilder (evntSrc b) (hdler b) (mgr b) c (ctrlOptions b) (b_name b), e).

(** [doWatch]. *)
Definition doWatch (b : Builder) : M W err := ctrl_Watch lib (ctrl b) (evntSrc b) (hdler b).

(** [Build] and [Complete]; reconcilers and managers may be nil. *)
Definition b_Build (b : Builder) (r : option string) : M W (Builder * (option string * err)) :=
  match r, mgr b with
  | None, _ => mret (b, (None, Some (errors_New "must provide a non-nil Reconciler")))
  | Some _, None => mret (b, (None, Some (errors_New "must provide a non-nil Manager")))
  | Some r, Some m =>
    '(b, e) ← doController b m r;
    match e with
    | Some _ => mret (b, (None, e))
    | None =>
      e ← doWatch b;
      match e with
      | Some _ => mret (b, (None, e))
      | None => mret (b, (ctrl b, None))
      end
    end
  end.
Definition b_Complete (b : Builder) (r : option string) : M W err := '(_, (_, e)) ← b_Build b r; mret e.
End builder.

(** * Properties *)

(** Comparison of the numbers of versions, the first that differs counting. *)
Definition compareNumbers (v t : Version) : Z :=
  match (Major v ?= Major t)%N, (Minor v ?= Minor t)%N, (Patch v ?= Patch t)%N with
  | Gt, _, _ => 1 | Lt, _, _ => -1
  | Eq, Gt, _ => 1 | Eq, Lt, _ => -1
  | Eq, Eq, Gt => 1 | Eq, Eq, Lt => -1
  | Eq, Eq, Eq => 0
  end.

(** Documented behaviour: a version that is printed without its suffixes parses,
    and versions without suffixes compare by their numbers. *)
Class SemverLaws `{SemverLib} : Prop := {
  parse_printed : forall v, semver_Parse (printVersion v) = inr (mkVersion (Major v) (Minor v) (Patch v) [] []);
  compare_released : forall v t, Pre v = [] -> Pre t = [] -> semver_Compare v t = compareNumbers v t;
}.

Section discovery_claims.
Context `{SemverLaws} {W : Type}.

(** The comparison of cluster versions ignores suffixes of the two versions. *)
Lemma ClusterVersionCompare_spec (d : DiscoveryClient W) target w w' s v t :
  ServerVersion d w = (w', inr s) -> ParseTolerant s = inr v -> ParseTolerant target = inr t ->
  ClusterVersionCompare d target w = (w', inr (compareNumbers v t)).
Proof.
  intros Hs Hv Ht. unfold ClusterVersionCompare. apply ebind_inr. exists w', (printVersion v). split.
  { unfold GetClusterVersion. apply ebind_inr. exists w', s. split; [done|]. unfold basicVersion. by rewrite Hv. }
  rewrite parse_printed. apply ebind_inr. eexists _, _. split; [reflexivity|].
  unfold basicVersion. rewrite Ht. apply ebind_inr. eexists _, _. split; [reflexivity|].
  rewrite parse_printed. apply ebind_inr. eexists _, _. split; [reflexivity|].
  by rewrite compare_released.
Qed.
End discovery_claims.

Lemma hasKind_spec rs kind : hasKind rs kind = bool_decide (kind ∈ rs).
Proof.
  induction rs as [|r rs IH]; cbn; [done|]. destruct (decide (r = kind)) as [->|Hr].
  { rewrite (bool_decide_true (kind = kind)) by done. symmetry. apply bool_decide_eq_true. by left. }
  rewrite (bool_decide_false (r = kind)), IH by done. apply bool_decide_ext. rewrite elem_of_cons. naive_solver.
Qed.
(** A resource is found when some list of its group version has its kind. *)
Lemma hasResourceIn_spec ls apiVersion kind :
  hasResourceIn ls apiVersion kind = true <-> exists l, l ∈ ls /\ GroupVersion l = apiVersion /\ kind ∈ APIResources l.
Proof.
  induction ls as [|l ls IH]; cbn [hasResourceIn]; [split; [done|by intros (? & ?%elem_of_nil & _)]|].
  rewrite hasKind_spec. setoid_rewrite elem_of_cons. case_bool_decide; case_bool_decide; cbn; rewrite ?IH; naive_solver.
Qed.

(** What holds while the runnable runs: the goroutine has called what its phase
    says, only after the context was done, and the counter follows. *)
Definition graceful_inv (wg0 : Z) (s : GracefulState) : Prop :=
  match phase s with
  | Waiting => calls s = [] /\ wg s = wg0
  | Stopping => calls s = [EvStop] /\ wg s = wg0 /\ ctx_done s = true
  | Stopped => calls s = [EvStop; EvDone] /\ wg s = (wg0 - 1)%Z /\ ctx_done s = true
  end.

Lemma graceful_step_inv wg0 s s' : graceful_inv wg0 s -> graceful_step s s' -> graceful_inv wg0 s'.
Proof.
  intros Hi Hs. destruct Hs as [[]| [] | |]; cbn in *; destruct_and?; subst; split_and?; try done; lia.
Qed.

(** A graceful runnable calls stop at most once, and only after its context is
    done, whether or not run has returned; its wait group is counted down once,
    after stop has returned; and once the context is done, stopping can always
    complete, so that a wait group to which the runnable was added is released. *)
Theorem graceful_stops_once wg0 s : (0 < wg0)%Z -> rtc graceful_step (graceful_Start wg0) s ->
  calls s `prefix_of` [EvStop; EvDone] /\ (calls s <> [] -> ctx_done s = true) /\
  wg s = (if bool_decide (EvDone ∈ calls s) then wg0 - 1 else wg0)%Z /\
  (ctx_done s = true -> exists s', rtc graceful_step s s' /\ calls s' = [EvStop; EvDone] /\ wg s' = (wg0 - 1)%Z /\
     run_result s' = run_result s).
Proof.
  intros Hp Hr. assert (graceful_inv wg0 s) as Hi.
  { refine (rtc_ind_r (graceful_inv wg0) (graceful_Start wg0) _ _ s Hr); [done|]. intros y z _ Hs Hy. by eapply graceful_step_inv. }
  destruct s as [ph r d cs n]. unfold graceful_inv in Hi. cbn in *.
  destruct ph; [destruct Hi as (-> & ->)|destruct Hi as (-> & -> & ->)|destruct Hi as (-> & -> & ->)].
  - split_and!; [apply prefix_nil|done|done|]. intros ->. eexists. split_and!.
    + eapply rtc_l; [apply gs_stop|]. eapply rtc_l; [by apply gs_done|]. apply rtc_refl.
    + done.
    + done.
    + done.
  - split_and!; [by exists [EvDone]|done|rewrite bool_decide_false; [done|]; intros []%elem_of_cons; set_solver|].
    intros _. eexists. split_and!; [by apply rtc_once, gs_done|done|done|done].
  - split_and!; [done|done|by rewrite bool_decide_true by set_solver|]. intros _. eexists. split_and!; [apply rtc_refl|done|done|done].
Qed.

Lemma keyValues_length kvs : length (keyValues kvs) = length kvs / 2.
Proof.
  assert (forall n kvs, length kvs <= n -> length (keyValues kvs) = length kvs / 2) as Hn; [|by eapply Hn].
  clear kvs. induction n as [|n IH]; intros [|k [|v kvs]] Hl; cbn [keyValues length] in *; try done; [lia|].
  rewrite IH by lia. replace (S (S (length kvs))) with (1 * 2 + length kvs) by lia. by rewrite Nat.div_add_l by done.
Qed.

(** Tracing has to be asked for: without the variable nothing is installed. *)
Lemma tracing_off_by_default {W} (lib : ExporterLib W) env name w : env !! envDisableTracing = None ->
  InstallJaegerExporter lib env name w = (w, inr NoShutdown) /\ InstallOTLPExporter lib env name w = (w, inr NoShutdown).
Proof.
  intros He. unfold InstallJaegerExporter, InstallOTLPExporter, getEnvAsBool, getEnv. by rewrite He.
Qed.

(** What a controller that was built is: made with the reconciler of the options,
    or else the given one, and with the logger of the manager when none is set,
    and watching the source with the handler. *)
Lemma Build_spec {W} (lib : ControllerLib W) b r w b' c w' :
  b_Build lib b (Some r) w = (w', (b', (c, None))) ->
  exists m w1, mgr b = Some m /\
    controller_New lib (b_name b) m
      (mkCtrlOptions (Some (default r (Reconciler (ctrlOptions b)))) (Some (default (GetLogger lib m) (Log (ctrlOptions b))))
         (Other (ctrlOptions b))) w = (w1, (c, None)) /\
    ctrl_Watch lib c (evntSrc b) (hdler b) w1 = (w', None).
Proof.
  unfold b_Build. destruct (mgr b) as [m|] eqn:Hm; [|done]. unfold doController, doWatch, mbind, M_bind. cbn.
  intros Hb. exists m. destruct (controller_New _ _ _ _ w) as [w1 [c1 [e|]]] eqn:Hn; [done|]. cbn in Hb.
  destruct (ctrl_Watch lib c1 _ _ w1) as [w2 [e|]] eqn:Hw; [done|]. unfold mret, M_ret in Hb. simplify_eq/=.
  exists w1. rewrite <- Hn, <- Hw. by destruct (Reconciler (ctrlOptions b)), (Log (ctrlOptions b)).
Qed.

(** ** Witnesses *)

Lemma graceful_stops_once_witness :
  exists s', rtc graceful_step (mkGracefulState Waiting (Some None) true [] 1) s' /\ calls s' = [EvStop; EvDone] /\
    wg s' = 0%Z /\ run_result s' = Some None.
Proof.
  refine (proj2 (proj2 (proj2 (graceful_stops_once 1 (mkGracefulState Waiting (Some None) true [] 1) _ _))) eq_refl).
  - reflexivity.
  - eapply rtc_l; [apply gs_return|]. eapply rtc_l; [apply gs_cancel|]. apply rtc_refl.
Defined.
