(* ===== verification/Example.v ===== *)
(** Two controllers of the example operator: the space controller with its cache
    [example/controllers/cache.go] and [space_controller.go], and the namespace
    recorder [example/controllers/nsrecorder_controller.go].

    The space controller enqueues what the cache does not know, through the
    handler of external controllers; the namespace recorder is an action of the
    stateless action controller. *)
From S2P Require Import Prelude Platform Object Events StatelessAction.

(** * The cache of the space controller *)

(** [getKey]. *)
Definition getKey (name namespace : string) : string := name +:+ "/" +:+ namespace.

(** [type FakeCache struct] is its store. *)
Abbreviation FakeCache := (gmap string string).
Definition NewFakeCache : FakeCache := ∅.
Definition fc_Get (fc : FakeCache) (key : string) : string * bool :=
  match fc !! key with Some val => (val, true) | None => ("", false) end.
Definition fc_Set (key val : string) : M FakeCache unit := fun fc => (<[key := val]> fc, tt).

(** [FakeCache.CacheMiss]. *)
Definition CacheMiss `{ClientObject Obj} (obj : Obj) : M FakeCache bool := fun fc =>
  let key := getKey (Object.GetName obj) (GetNamespace obj) in
  let '(_, found) := fc_Get fc key in
  if (found : bool) then (fc, false)
  else let '(fc, _) := fc_Set key "foo" fc in (fc, true).

(** [SpaceReconciler.Reconcile]: the value it logs, if the object is known. *)
Definition space_Reconcile (fc : FakeCache) (nn : NamespacedName) : option string * (Result * err) :=
  let '(val, found) := fc_Get fc (getKey (NNName nn) (NNNamespace nn)) in
  ((if (found : bool) then Some val else None), (emptyResult, None)).

(** The object the poller of [SpaceReconciler.SetupWithManager] sends at every
    tick, and the events of a number of ticks; [game] is [&Game{}]. *)
Definition spaceObject `{ClientObject Obj} (game : Obj) : Obj := SetNamespace (SetName game "test-object") "test-namespace".
Definition spaceEvents `{ClientObject Obj} (game : Obj) (ticks : nat) : list (option Obj) := replicate ticks (Some (spaceObject game)).

(** [SpaceReconciler.SetupWithManager]: the new cache and the error of building
    the controller; the channel, the handler over the cache and the reconciler
    are given by their names. *)
Definition space_SetupWithManager {W} (lib : Platform.ControllerLib W) (mgr : option string) (src eventHandler r : string)
  : M W (FakeCache * err) :=
  e ← Platform.b_Complete lib
        (Platform.WithEventHandler (Platform.WithSource (Platform.Named (Platform.ControllerManagedBy mgr) "space-controller") src) eventHandler)
        (Some r);
  mret (NewFakeCache, e).

(** * The namespace recorder *)

Definition configmapCreatedKey : string := "createdOn".

(** [interface{}] as the recorder sees it: a namespace, by its name, or another
    value. *)
Inductive Value := VNamespace (name : string) | VOther (repr : string).

(** [corev1.ConfigMap]: its key and its data, nil or a map. *)
Record ConfigMap := mkConfigMap { cm_Key : NamespacedName; cm_Data : option (gmap string string) }.

(** The client methods the recorder calls; [Get] fills the object it is given and
    leaves it unchanged on an error. *)
Record CMClient (W : Type) := mkCMClient {
  getNamespace : NamespacedName -> M W (string * err);
  getConfigMap : NamespacedName -> ConfigMap -> M W (ConfigMap * err);
  createConfigMap : ConfigMap -> M W (ConfigMap * err);
  updateConfigMap : ConfigMap -> M W (ConfigMap * err);
  timeNow : W -> string;
}.
Arguments mkCMClient {W}. Arguments getNamespace {W}. Arguments getConfigMap {W}.
Arguments createConfigMap {W}. Arguments updateConfigMap {W}. Arguments timeNow {W}.

Section nsrecorder.
Context {W : Type} `{ErrorLib} (cl : CMClient W) (configmapNamespace : string).

(** [nsRecorder.GetObject]: the pointer is never nil. *)
Definition ns_GetObject (key : NamespacedName) : M W (option Value * err) :=
  '(ns, e) ← getNamespace cl key;
  mret (Some (VNamespace ns), e).

(** [nsRecorder.RequireAction]: an error other than NotFound is only logged. *)
Definition ns_RequireAction (i : Value) : M W (bool * err) :=
  match i with
  | VOther _ => mret (false, Some (errors_New "failed to convert into Namespace"))
  | VNamespace ns =>
    let key := mkNN configmapNamespace ns in
    '(cm, e) ← getConfigMap cl key (mkConfigMap (mkNN "" "") None);
    match e with
    | Some x => mret (IsNotFound x, None)
    | None => mret (false, None)
    end
  end.

(** The methods of [nsActionManager]. *)
Definition am_GetName (i : Value) : M W (string * err) :=
  match i with
  | VOther _ => mret ("", Some (errors_New "failed to convert into Namespace"))
  | VNamespace ns => mret (ns, None)
  end.

Definition am_Check (i : Value) : M W (bool * err) :=
  match i with
  | VOther r => mret (true, Some (errorf "failed to convert into Namespace %v" [r] [] None))
  | VNamespace ns =>
    let key := mkNN configmapNamespace ns in
    '(cm, e) ← getConfigMap cl key (mkConfigMap (mkNN "" "") None);
    match e with
    | Some x => mret (true, Some (Wrapf x "failed to get configmap" []))
    | None =>
      match cm_Data cm with
      | None => mret (true, None)
      | Some d => if bool_decide (d !! configmapCreatedKey = None) then mret (true, None) else mret (false, None)
      end
    end
  end.

(** The end of [Run]: the record is added and the configmap updated. *)
Definition am_record (cm : ConfigMap) : M W err := fun w =>
  let data := default ∅ (cm_Data cm) in
  let data := <[configmapCreatedKey := timeNow cl w]> data in
  let '(w, (_, updateErr)) := updateConfigMap cl (mkConfigMap (cm_Key cm) (Some data)) w in
  (w, match updateErr with Some x => Some (Wrapf x "failed to update configmap" []) | None => None end).
Definition am_Run (i : Value) : M W err :=
  match i with
  | VOther r => mret (Some (errorf "failed to convert into Namespace: %v" [r] [] None))
  | VNamespace ns =>
    let key := mkNN configmapNamespace ns in
    let cm := mkConfigMap key None in
    '(cm, getErr) ← getConfigMap cl key cm;
    match getErr with
    | Some x =>
      if IsNotFound x then
        '(cm, createErr) ← createConfigMap cl cm;
        match createErr with
        | Some x => mret (Some (Wrapf x "failed to create configmap" []))
        | None => am_record cm
        end
      else mret (Some (Wrapf x "failed to get the configmap" []))
    | None => am_record cm
    end
  end.

(** The manager and the controller as the action controller uses them; [dc] and
    [dr] are the times a check and a run take. *)
Context (dc dr : N).
Definition timed {A} (d : N) (m : M W A) : M W (N * A) := a ← m; mret (d, a).
Definition am_GetObjects (ns : Value) : M W (list Value * err) := mret ([ns], None).
Definition am_Defer (i : Value) : M W err := mret None.
Definition nsActionManager (ns : Value) : Manager W Value :=
  mkManager am_GetName (am_GetObjects ns) (fun i => timed dc (am_Check i)) (fun i => timed dr (am_Run i)) am_Defer.

(** [BuildActionManager]; the manager returned beside an error is nil in the
    source and never used. *)
Definition ns_BuildActionManager (i : Value) : M W (Manager W Value * err) :=
  match i with
  | VOther _ => mret (nsActionManager i, Some (errors_New "failed to convert into Namespace"))
  | VNamespace _ => mret (nsActionManager i, None)
  end.
Definition nsRecorder : Controller W Value := mkController ns_GetObject ns_RequireAction ns_BuildActionManager.
End nsrecorder.

(** [NamespaceRecorderReconciler.SetupWithManager]: the reconciler [r] with its
    options and the namespace of the configmaps, and its registration with the
    builder of controller-runtime, [complete]. *)
Definition nsSetup {W} `{ErrorLib} (cl : CMClient W) (dc dr : N) (r : Reconciler (W := W) (O := Value)) : Reconciler :=
  StatelessAction.Init r (Some (nsRecorder cl "default" dc dr))
    [WithName "ns-recorder-controller"; WithActionTimeout (10 * second); WithActionRetryPeriod (2 * second)].
Definition ns_SetupWithManager {W S} `{ErrorLib} (cl : CMClient W) (dc dr : N) (complete : Reconciler (W := W) (O := Value) -> M S err)
  (r : Reconciler) : M S (Reconciler * err) :=
  let r := nsSetup cl dc dr r in e ← complete r; mret (r, e).

(** * Properties of the cache *)

Fixpoint no_slash (s : string) : bool :=
  match s with
  | "" => true
  | String c s => negb (bool_decide (c = Ascii.Ascii true true true true false true false false)) && no_slash s
  end.

Lemma getKey_inj n1 n2 s1 s2 : no_slash n1 = true -> no_slash n2 = true -> getKey n1 s1 = getKey n2 s2 -> n1 = n2 /\ s1 = s2.
Proof.
  unfold getKey. revert n2. induction n1 as [|c n1 IH]; intros [|c2 n2] H1 H2 Heq; cbn in *; simplify_eq; try done.
  apply andb_true_iff in H1 as [_ H1], H2 as [_ H2]. destruct (IH n2 H1 H2) as [-> ->]; [assumption|done].
Qed.

Section cache_claims.
Context {Obj : Type} `{ClientObject Obj}.

(** The request of an object. *)
Definition request (o : Obj) : NamespacedName := mkNN (GetNamespace o) (Object.GetName o).
Definition known (fc : FakeCache) (nn : NamespacedName) : Prop := is_Some (fc !! getKey (NNName nn) (NNNamespace nn)).

Lemma CacheMiss_run (o : Obj) fc :
  CacheMiss o fc = if bool_decide (known fc (request o)) then (fc, false)
                   else (<[getKey (Object.GetName o) (GetNamespace o) := "foo"]> fc, true).
Proof.
  unfold CacheMiss, fc_Get. destruct (fc !! getKey (Object.GetName o) (GetNamespace o)) as [v|] eqn:Hf.
  - by rewrite bool_decide_true by by exists v.
  - rewrite bool_decide_false; [done|]. intros [v Hv]. cbn in Hv. congruence.
Qed.
Lemma known_insert (o : Obj) fc nn : no_slash (Object.GetName o) = true -> no_slash (NNName nn) = true ->
  known (<[getKey (Object.GetName o) (GetNamespace o) := "foo"]> fc) nn <-> nn = request o \/ known fc nn.
Proof.
  intros Ho Hn. unfold known. destruct (decide (getKey (Object.GetName o) (GetNamespace o) = getKey (NNName nn) (NNNamespace nn))) as [Heq|Hne].
  - rewrite Heq, lookup_insert_eq. apply getKey_inj in Heq as [Hk1 Hk2]; [|done|done]. split; [|by eexists].
    intros _. left. unfold request. destruct nn. cbn in *. by subst.
  - rewrite lookup_insert_ne by done. split; [by right|]. intros [->|]; [by destruct Hne|done].
Qed.

Lemma enqueueAll_run (objs : list Obj) : forall fc queue, Forall (fun o => no_slash (Object.GetName o) = true) objs ->
  exists fc' added, enqueueAll CacheMiss (Some <$> objs) queue fc = (fc', queue ++ added) /\
    NoDup added /\ added `sublist_of` (request <$> objs) /\
    (forall nn, nn ∈ added <-> nn ∈ request <$> objs /\ ~ known fc nn) /\
    (forall o, o ∈ objs -> known fc' (request o)) /\ (forall nn, known fc nn -> known fc' nn).
Proof.
  induction objs as [|o objs IH]; intros fc queue Hall; cbn [fmap list_fmap enqueueAll].
  { exists fc, []. unfold mret, M_ret. rewrite app_nil_r. split_and!; try done; [constructor|set_solver|set_solver]. }
  apply Forall_cons in Hall as [Ho Hall]. unfold EnqueueRequestFromCache, mbind, M_bind, mret, M_ret. rewrite CacheMiss_run.
  rewrite Forall_forall in Hall. case_bool_decide as Hk.
  - destruct (IH fc queue) as (fc' & added & -> & Hn & Hs & Ha & Hin & Hmono); [by apply Forall_forall|].
    exists fc', added. split_and!; try done; [by constructor| |].
    + intros nn. rewrite Ha, elem_of_cons. split; [naive_solver|]. intros [[->|?] ?]; [done|done].
    + intros o' [->|Hin']%elem_of_cons; auto.
  - set (fc1 := <[_ := "foo"]> fc). change (mkNN (GetNamespace o) (Object.GetName o)) with (request o).
    destruct (IH fc1 (queue ++ [request o])) as (fc' & added & He & Hn & Hs & Ha & Hin & Hmono); [by apply Forall_forall|].
    assert (forall nn, nn ∈ request <$> objs -> known fc1 nn <-> nn = request o \/ known fc nn) as Hk1.
    { intros nn (o' & -> & Ho')%list_elem_of_fmap. apply known_insert; [done|]. by apply Hall. }
    assert (known fc1 (request o)) as Hself by by apply known_insert; [..|left].
    exists fc', (request o :: added). rewrite He, <- app_assoc. split_and!; try done.
    + constructor; [|done]. rewrite Ha. tauto.
    + by constructor.
    + intros nn. rewrite !elem_of_cons, Ha. split.
      * intros [->|[Hnn Hnk]]; [split; [by left|done]|]. split; [by right|]. rewrite Hk1 in Hnk by done. tauto.
      * intros [[->|Hnn] Hnk]; [by left|]. destruct (decide (nn = request o)) as [->|Hne]; [by left|]. right. split; [done|].
        rewrite Hk1 by done. tauto.
    + intros o' [->|Hin']%elem_of_cons; [by apply Hmono|auto].
    + intros nn Hnn. apply Hmono. unfold fc1, known. destruct (decide (getKey (Object.GetName o) (GetNamespace o) = getKey (NNName nn) (NNNamespace nn))) as [->|Hne];
        [rewrite lookup_insert_eq; by eexists|by rewrite lookup_insert_ne].
Qed.

(** From a sequence of events the space controller enqueues every object
    exactly once, in the order in which they first appear, and the reconciler then
    finds each of them in the cache. *)
Theorem space_enqueues_once (objs : list Obj) :
  Forall (fun o => no_slash (Object.GetName o) = true) objs ->
  exists fc queue, enqueueAll CacheMiss (Some <$> objs) [] NewFakeCache = (fc, queue) /\
    NoDup queue /\ queue `sublist_of` (request <$> objs) /\ (forall o, o ∈ objs -> request o ∈ queue) /\
    forall nn, nn ∈ queue -> exists val, space_Reconcile fc nn = (Some val, (emptyResult, None)).
Proof.
  intros Hall. destruct (enqueueAll_run objs NewFakeCache [] Hall) as (fc & queue & -> & Hn & Hs & Ha & Hin & _).
  exists fc, queue. split_and!; try done.
  - intros o Ho. apply Ha. split; [by apply list_elem_of_fmap_2|]. unfold known, NewFakeCache. rewrite lookup_empty. by intros [? ?].
  - intros nn [(o & -> & Ho)%list_elem_of_fmap _]%Ha. destruct (Hin o Ho) as [v Hv]. exists v.
    unfold space_Reconcile, fc_Get. cbn in Hv |- *. by rewrite Hv.
Qed.

Lemma enqueueAll_known (o : Obj) n queue fc : known fc (request o) ->
  enqueueAll CacheMiss (replicate n (Some o)) queue fc = (fc, queue).
Proof.
  intros Hk. induction n as [|n IH]; [done|]. cbn. unfold mbind, M_bind. by rewrite CacheMiss_run, bool_decide_true.
Qed.

(** However often space is polled, its one object is enqueued once. *)
Lemma space_polls_once `{!ClientObjectLaws Obj} (game : Obj) ticks : exists fc,
  enqueueAll CacheMiss (spaceEvents game (S ticks)) [] NewFakeCache = (fc, [mkNN "test-namespace" "test-object"]).
Proof.
  eexists. unfold spaceEvents. cbn [replicate enqueueAll EnqueueRequestFromCache]. unfold mbind, M_bind.
  rewrite CacheMiss_run, bool_decide_false by (unfold known, NewFakeCache; rewrite lookup_empty; by intros [v ?]).
  unfold mret, M_ret. rewrite enqueueAll_known by (eexists; apply lookup_insert_eq).
  unfold spaceObject. by rewrite GetNamespace_SetNamespace, GetName_SetNamespace, GetName_SetName.
Qed.
End cache_claims.

(** * Properties of the namespace recorder *)

Section nsrecorder_claims.
Context {W : Type} `{ErrorLibLaws} (cl : CMClient W) (cmns : string) (dc dr : N).
Local Abbreviation St := (World W (ActCall Value)).

(** A working cluster: [view] is the data of its configmaps. *)
Record cluster_works (view : W -> gmap NamespacedName (option (gmap string string))) : Prop := {
  get_found : forall w k d cm, view w !! k = Some d -> getConfigMap cl k cm w = (w, (mkConfigMap k d, None));
  get_missing : forall w k cm, view w !! k = None ->
    exists x, getConfigMap cl k cm w = (w, (cm, Some x)) /\ IsNotFound x = true;
  create_works : forall w k d, view w !! k = None ->
    exists w', createConfigMap cl (mkConfigMap k d) w = (w', (mkConfigMap k d, None)) /\ view w' = <[k := d]> (view w);
  update_works : forall w k d, is_Some (view w !! k) ->
    exists w' cm, updateConfigMap cl (mkConfigMap k d) w = (w', (cm, None)) /\ view w' = <[k := d]> (view w);
}.

Context (view : W -> gmap NamespacedName (option (gmap string string))) (Hw : cluster_works view).

(** The record of a namespace: a configmap with the creation time. *)
Definition recorded (w : W) (ns : string) : Prop :=
  exists d, view w !! mkNN cmns ns = Some (Some d) /\ is_Some (d !! configmapCreatedKey).
(** Other configmaps are as they were. *)
Definition others_kept (w w' : W) (ns : string) : Prop :=
  forall k, k <> mkNN cmns ns -> view w' !! k = view w !! k.

Lemma am_record_run w ns d : is_Some (view w !! mkNN cmns ns) ->
  exists w', am_record cl (mkConfigMap (mkNN cmns ns) d) w = (w', None) /\ recorded w' ns /\ others_kept w w' ns.
Proof.
  intros Hs. unfold am_record. cbn [cm_Key cm_Data].
  destruct (update_works view Hw w (mkNN cmns ns) (Some (<[configmapCreatedKey := timeNow cl w]> (default ∅ d))) Hs)
    as (w' & cm & -> & Hv). exists w'. split; [done|]. split.
  - eexists. rewrite Hv, lookup_insert_eq. split; [done|]. by rewrite lookup_insert_eq.
  - intros k Hk. by rewrite Hv, lookup_insert_ne by done.
Qed.

Lemma am_Run_records w ns : exists w', am_Run cl cmns (VNamespace ns) w = (w', None) /\ recorded w' ns /\ others_kept w w' ns.
Proof.
  unfold am_Run, mbind, M_bind. destruct (view w !! mkNN cmns ns) as [d|] eqn:Hv.
  - rewrite (get_found view Hw _ _ _ _ Hv). cbn. apply am_record_run. by rewrite Hv.
  - destruct (get_missing view Hw w (mkNN cmns ns) (mkConfigMap (mkNN cmns ns) None) Hv) as (x & -> & ->).
    destruct (create_works view Hw w (mkNN cmns ns) None Hv) as (w1 & -> & Hv1).
    destruct (am_record_run w1 ns None) as (w' & Hr & Hrec & Ho); [by rewrite Hv1, lookup_insert_eq|].
    exists w'. split; [done|]. split; [done|]. intros k Hk. rewrite (Ho k Hk), Hv1. by rewrite lookup_insert_ne.
Qed.

Lemma am_Check_recorded w ns : recorded w ns -> am_Check cl cmns (VNamespace ns) w = (w, (false, None)).
Proof.
  intros (d & Hv & Hd). unfold am_Check, mbind, M_bind. rewrite (get_found view Hw _ _ _ _ Hv). cbn.
  rewrite bool_decide_false; [done|]. intros Hn. rewrite Hn in Hd. by destruct Hd.
Qed.

(** From a record on, the loop of the action ends at its first check, or when the
    time is up. *)
Lemma loop_recorded fuel (r : Reconciler (W := W) (O := Value)) m ns now ties (w w' : St) :
  m = nsActionManager cl cmns dc dr (VNamespace ns) -> recorded (wst w) ns ->
  RunAction_loop fuel r m (VNamespace ns) now ties w = Done w' -> wst w' = wst w.
Proof.
  intros -> Hr. destruct fuel as [|fuel]; [done|]. cbn [RunAction_loop].
  destruct (select_timer _ _ _ _); [|by intros [= <-]]. unfold logged. cbn [Check nsActionManager]. unfold timed, mbind, M_bind.
  rewrite am_Check_recorded by done. cbn. by intros [= <-].
Qed.

(** C21: on a working cluster, whose calls succeed (none is cut short by the
    deadline of the action, which the calls do not see in the model), reconciling a
    namespace without a configmap starts one action, and whatever the timing of its
    checks that action ends without an error and leaves the namespace recorded and
    every other configmap as it was; afterwards no action is required any more. *)
Theorem nsRecorder_records fuel ties (r : Reconciler (W := W) (O := Value)) key ns (w : St) :
  ctrlr r = Some (nsRecorder cl cmns dc dr) -> getNamespace cl key (wst w) = (wst w, (ns, None)) ->
  view (wst w) !! mkNN cmns ns = None ->
  (0 < actionRetryPeriod r)%Z -> (actionTimeout r < Z.of_nat fuel * actionRetryPeriod r)%Z -> 0 < fuel ->
  exists w1 m w2, Reconcile r key w = Done (w1, (emptyResult, None, [(m, VNamespace ns)])) /\
    RunAction fuel r m (VNamespace ns) ties w1 = Done (w2, None) /\
    recorded (wst w2) ns /\ others_kept (wst w) (wst w2) ns /\
    (ns_RequireAction cl cmns (VNamespace ns) (wst w2)).2 = (false, None).
Proof.
  intros Hk Hns Hv Hp Hf Hpos. set (m := nsActionManager cl cmns dc dr (VNamespace ns)).
  assert (exists l, Reconcile r key w = Done (mkWorld (wst w) (wlog w ++ l), (emptyResult, None, [(m, VNamespace ns)]))) as [l Hrec].
  { unfold Reconcile. rewrite Hk. unfold reconcileWith, reconcileFound, RunActionManager, logged, mbind, M_bind, mret, M_ret.
    cbn [GetObject RequireAction BuildActionManager nsRecorder]. unfold ns_GetObject, ns_RequireAction, mbind, M_bind, mret, M_ret.
    rewrite Hns. cbn [wst wlog].
    destruct (get_missing view Hw (wst w) (mkNN cmns ns) (mkConfigMap (mkNN "" "") None) Hv) as (x & -> & Hx). cbn.
    rewrite Hx. cbn. eexists. by rewrite <- !app_assoc. }
  exists (mkWorld (wst w) (wlog w ++ l)), m. rewrite Hrec. unfold RunAction, logged. unfold m. cbn [GetName Run Defer nsActionManager am_GetName wst]. unfold timed, mbind, M_bind, mret, M_ret.
  cbn [wst wlog].
  destruct (am_Run_records (wst w) ns) as (s1 & -> & Hr1 & Ho1). cbn.
  set (w1 := mkWorld s1 _). destruct (RunAction_loop_terminates fuel r m (VNamespace ns) (Z.of_N dr) ties w1) as [w2 Hl]; [done|lia|done|].
  fold m. rewrite Hl. assert (wst w2 = s1) as Hw2 by exact (loop_recorded fuel r m ns _ ties w1 w2 eq_refl Hr1 Hl).
  eexists. split; [done|]. split; [done|]. cbn. rewrite Hw2. split; [done|]. split; [done|].
  destruct Hr1 as (d & Hd & _). unfold ns_RequireAction, mbind, M_bind. by rewrite (get_found view Hw _ _ _ _ Hd).
Qed.

(** A configmap that was created and not filled is never filled: no action is
    required, although the check of the action says that it is needed. *)
Lemma nsRecorder_forgets ns w : view w !! mkNN cmns ns = Some None ->
  ns_RequireAction cl cmns (VNamespace ns) w = (w, (false, None)) /\ am_Check cl cmns (VNamespace ns) w = (w, (true, None)).
Proof.
  intros Hv. unfold ns_RequireAction, am_Check, mbind, M_bind. by rewrite (get_found view Hw _ _ _ _ Hv).
Qed.
End nsrecorder_claims.

(** * Witnesses *)

Module ExampleDemo.
(** Objects are their names; the world of the recorder is its configmaps. *)
Record obj := mkObj { o_name : string; o_ns : string }.
#[export] Instance objects : ClientObject obj := {|
  Object.GetName := o_name; GetNamespace := o_ns; SetName := fun o n => mkObj n (o_ns o); SetNamespace := fun o n => mkObj (o_name o) n;
  GetUID := fun _ => ""; GroupVersion := fun _ => "v1"; Kind := fun _ => "Game"; DeletionTimestampIsZero := fun _ => true;
  GetFinalizers := fun _ => []; ContainsFinalizer := fun _ _ => false; AddFinalizer := fun o _ => o; RemoveFinalizer := fun o _ => o;
|}.
Abbreviation cluster := (gmap NamespacedName (option (gmap string string))).
Definition NotFound : error := extError "NotFound" "" [].
Definition client : CMClient cluster :=
  mkCMClient (fun k w => (w, (NNName k, None)))
    (fun k cm w => match w !! k with Some d => (w, (mkConfigMap k d, None)) | None => (w, (cm, Some NotFound)) end)
    (fun cm w => (<[cm_Key cm := cm_Data cm]> w, (cm, None)))
    (fun cm w => (<[cm_Key cm := cm_Data cm]> w, (cm, None)))
    (fun _ => "now").
End ExampleDemo.

Import RefErrors ExampleDemo.

Lemma client_works : cluster_works client (fun w => w).
Proof.
  split; cbn.
  - by intros w k d cm ->.
  - intros w k cm ->. by exists NotFound.
  - intros w k d Hk. by eexists.
  - intros w k d Hk. by eexists _, _.
Qed.

Lemma space_enqueues_once_witness : exists fc queue,
  enqueueAll CacheMiss (Some <$> [mkObj "a" "x"; mkObj "b" "x"; mkObj "a" "x"]) [] NewFakeCache = (fc, queue) /\
  NoDup queue /\ queue `sublist_of` (request <$> [mkObj "a" "x"; mkObj "b" "x"; mkObj "a" "x"]) /\
  (forall o, o ∈ [mkObj "a" "x"; mkObj "b" "x"; mkObj "a" "x"] -> request o ∈ queue) /\
  forall nn, nn ∈ queue -> exists val, space_Reconcile fc nn = (Some val, (emptyResult, None)).
Proof.
  apply (space_enqueues_once [mkObj "a" "x"; mkObj "b" "x"; mkObj "a" "x"]). repeat constructor.
Defined.

Lemma nsRecorder_records_witness : exists w1 m w2,
  Reconcile (nsSetup client 1 2 (mkReconciler "" None 0 0)) (mkNN "" "team") (mkWorld ∅ []) = Done (w1, (emptyResult, None, [(m, VNamespace "team")])) /\
  RunAction 6 (nsSetup client 1 2 (mkReconciler "" None 0 0)) m (VNamespace "team") (fun _ => true) w1 = Done (w2, None) /\
  recorded "default" (fun w => w) (wst w2) "team" /\ others_kept "default" (fun w => w) ∅ (wst w2) "team" /\
  (ns_RequireAction client "default" (VNamespace "team") (wst w2)).2 = (false, None).
Proof.
  apply (nsRecorder_records client "default" 1 2 (fun w => w) client_works 6 (fun _ => true) (nsSetup client 1 2 (mkReconciler "" None 0 0))
    (mkNN "" "team") "team" (mkWorld ∅ [])).
  - reflexivity.
  - reflexivity.
  - reflexivity.
  - reflexivity.
  - reflexivity.
  - lia.
Defined.
