(* ===== verification/Game.v ===== *)
(** The game operator of the example: [example/controllers/game/*.go] and
    [example/controllers/game_controller.go].

    It puts the toolkit together: a declarative operand in a composite operator,
    which the composite controller drives.  The theorem of this file is about
    that composition and holds for any operands. *)
From S2P Require Import Prelude Object Operand Dag Executor CompositeOperator CompositeController.
From S2P Require Import Declarative Transform Loader.

(** ** Operators as controllers see them *)

(** [type Operator interface]. *)
Record Operator (W Obj Ref : Type) := mkOperator {
  op_IsSuspended : Obj -> M W bool;
  op_Ensure : Obj -> Ref -> M W (Result * err);
  op_Cleanup : Obj -> M W (Result * err);
}.
Arguments mkOperator {W Obj Ref}. Arguments op_IsSuspended {W Obj Ref}. Arguments op_Ensure {W Obj Ref}.
Arguments op_Cleanup {W Obj Ref}.

(** ** The configmap operand *)

Definition manifestPackage : string := "configmap".

Section operand.
Context {FS Node W Obj Ev : Type} `{FileSystem FS} `{KustomizeLib FS} `{NodeLib Node} `{MapRange} `{ErrorLib}.
(** The namespace of a [*Game], [None] for another type; an empty file system in
    memory; and the kubectl client of a builder. *)
Context (asGame : Obj -> option string) (repr : Obj -> string) (emptyFS : FS) (kubectl_Apply : string -> M W err).

(** [ConfigmapOperand.Ensure]; the heap holds the maps of the kustomization. *)
Definition configmap_Ensure (fs : FS) (obj : Obj) (ownerRef : OwnerReference) : M (heap * W) (option Ev * err) := fun '(h, w) =>
  match asGame obj with
  | None => ((h, w), (None, Some (errorf "failed to convert %v to Game" [repr obj] [] None)))
  | Some ns =>
    let opts := applyOptions
      [WithManifestTransform {["configmap/configmap.yaml" := [AddLabelsFunc {["labelkey1" := "labelval1"]}]]};
       WithCommonTransforms [SetOwnerReference [ownerRef]]; WithKustomizeMutationFunc [AddNamespace ns]] in
    let '(h, r) := NewBuilder yaml_Parse node_String emptyFS manifestPackage fs opts h in
    match r with
    | inl e => ((h, w), (None, Some e))
    | inr manifest => let '(w, e) := b_Apply manifest kubectl_Apply w in ((h, w), (None, e))
    end
  end.

(** [ReadyCheck], [PostReady] and [Delete]. *)
Definition configmap_ReadyCheck (obj : Obj) : M (heap * W) (bool * err) := mret (true, None).
Definition configmap_PostReady (obj : Obj) : M (heap * W) err := mret None.
Definition configmap_Delete (obj : Obj) : M (heap * W) (option Ev * err) := mret (None, None).

(** [NewConfigmapOperand]: an operand with its fields and methods. *)
Definition NewConfigmapOperand (name : string) (requires : list string) (strategy : RequeueStrategy) (fs : FS)
  : Operand (heap * W) Obj OwnerReference Ev :=
  mkOperand name requires (configmap_Ensure fs) configmap_Delete strategy
    configmap_ReadyCheck configmap_PostReady.

(** [NewOperator]; [rec] is the event recorder of the manager. *)
Definition NewOperator `{DAGLib (Operand (heap * W) Obj OwnerReference Ev)} (fuel : nat) (rec : Ev -> M (heap * W) unit)
  (fs : FS) (execStrategy : ExecutionStrategy) : outcome (error + CompositeOperator (heap * W) Obj OwnerReference Ev) :=
  NewCompositeOperator fuel
    [WithEventRecorder rec; WithExecutionStrategy execStrategy;
     WithOperands [NewConfigmapOperand "configmap-operand" [] RequeueOnError fs]].
End operand.

(** ** The game controller *)

Section controller.
Context {W Obj : Type} `{ClientObject Obj}.
(** [meta.SetStatusCondition] on the status of a [*Game], [None] for another
    type. *)
Context (SetStatusCondition : Obj -> Condition -> option Obj) (repr : Obj -> string).

(** [GameController]: only [Initialize] and [Operate] do something. *)
Definition GameController (operator : Operator W Obj OwnerReference) : Controller W Obj :=
  mkController
    (fun obj => mret obj)
    (fun obj => mret (obj, None))
    (fun obj condn => match SetStatusCondition obj condn with
                      | None => mret (obj, Some (errorf "failed to convert %v to Game" [repr obj] [] None))
                      | Some obj => mret (obj, None)
                      end)
    (fun obj => mret (obj, None))
    (fun obj => r ← op_Ensure operator obj (OwnerReferenceFromObject obj); mret (obj, r))
    (fun obj => mret (obj, (emptyResult, None))).

(** The reconciler that [GameReconciler.SetupWithManager] initializes; [mgr] is
    the client of the manager. *)
Definition initGameReconciler (r : CompositeReconciler (W := W) (Obj := Obj)) (mgr : Client W Obj) (gc : Controller W Obj) (prototype : Obj) :=
  Init r (Some mgr) (Some gc) (Some prototype)
    [CompositeController.WithName "game-controller"; WithCleanupStrategy OwnerReferenceCleanup; WithInitCondition DefaultInitCondition].
Definition gameReconciler (mgr : Client W Obj) (operator : Operator W Obj OwnerReference) (prototype : Obj)
  : CompositeReconciler (W := W) (Obj := Obj) :=
  fst (initGameReconciler (mkCompositeReconciler "" (mkCondition "" "" "" "") "" 0%Z None None None) mgr (GameController operator) prototype).
End controller.

(** *** Setup *)

Section setup.
Context {FS Node W Obj Ev : Type} `{FileSystem FS} `{KustomizeLib FS} `{NodeLib Node} `{MapRange} `{ErrorLib} `{ClientObject Obj}.
Context `{MemFiles FS} `{HostDisk} `{DAGLib (Operand (heap * W) Obj OwnerReference Ev)}.
Context (asGame : Obj -> option string) (repr : Obj -> string) (emptyFS : FS) (kubectl_Apply : string -> M W err).
Context (SetStatusCondition : Obj -> Condition -> option Obj) (unmarshal : string -> error + list PackageSpec).
Local Abbreviation St := (heap * W)%type.
Local Abbreviation Composite := (CompositeOperator St Obj OwnerReference Ev).

(** A composite operator as an operator, under the schedules of its steps; the
    event recorder of the manager; and registering a reconciler with the builder
    of controller-runtime ([For] and [Complete]). *)
Context (asOperator : Composite -> Operator St Obj OwnerReference) (rec : Ev -> M St unit).
Context (complete : CompositeReconciler (W := St) (Obj := Obj) -> M St err).

(** [NewGameController]. *)
Definition NewGameController (fuel : nat) (fs : FS) (execStrategy : ExecutionStrategy) : outcome (error + Controller St Obj) :=
  match NewOperator asGame repr emptyFS kubectl_Apply fuel rec fs execStrategy with
  | Done (inl e) => Done (inl (errorf_w "failed to create a new operator: %w" [] e))
  | Done (inr operator) => Done (inr (GameController SetStatusCondition repr (asOperator operator)))
  | Panic m => Panic m
  | OutOfFuel => OutOfFuel
  end.

(** [GameReconciler.SetupWithManager]: the reconciler as it leaves it, and the
    error. *)
Definition game_SetupWithManager (fuel : nat) (r : CompositeReconciler (W := St) (Obj := Obj)) (mgr : Client St Obj) (prototype : Obj) (w : St)
  : outcome (St * (CompositeReconciler (W := St) (Obj := Obj) * err)) :=
  match NewLoadedManifestFileSystem unmarshal fuel emptyFS "channels" "stable" with
  | Done (inl e) => Done (w, (r, Some (errorf_w "failed to create loaded ManifestFileSystem: %w" [] e)))
  | Done (inr fs) =>
    match NewGameController fuel fs Parallel with
    | Done (inl e) => Done (w, (r, Some e))
    | Done (inr gc) =>
      match initGameReconciler r mgr gc prototype with
      | (r, Some e) => Done (w, (r, Some (errorf_w "failed to create new CompositeReconciler: %w" [] e)))
      | (r, None) => let '(w, e) := complete r w in Done (w, (r, e))
      end
    | Panic m => Panic m
    | OutOfFuel => OutOfFuel
    end
  | Panic m => Panic m
  | OutOfFuel => OutOfFuel
  end.

(** A reconciler that was set up has the game controller with an operator of the
    one operand of the package, and any reconciliation by it goes through that
    operator; nothing is registered when the packages cannot be loaded. *)
Lemma game_setup fuel r mgr prototype w w' r' : game_SetupWithManager fuel r mgr prototype w = Done (w', (r', None)) ->
  exists fs co, NewLoadedManifestFileSystem unmarshal fuel emptyFS "channels" "stable" = Done (inr fs) /\
    NewOperator asGame repr emptyFS kubectl_Apply fuel rec fs Parallel = Done (inr co) /\
    ctrlr r' = Some (GameController SetStatusCondition repr (asOperator co)) /\ client r' = Some mgr /\
    cleanupStrategy r' = OwnerReferenceCleanup /\ complete r' w = (w', None).
Proof.
  unfold game_SetupWithManager, NewGameController. destruct (NewLoadedManifestFileSystem _ _ _ _ _) as [[e|fs]| |] eqn:Hl; try done.
  destruct (NewOperator _ _ _ _ _ _ _ _) as [[e|co]| |] eqn:Ho; try done. cbn.
  match goal with |- context [complete ?r0 w] => destruct (complete r0 w) as [w1 e1] eqn:Hc end. intros [= <- <- ->].
  exists fs, co. by case_bool_decide; split_and!.
Qed.
End setup.

(** ** Composition *)

Section composition.
Context {W Obj Ev : Type} `{ErrorLibLaws} `{Scheme Obj} `{ClientObjectLaws Obj}.
Context `{DAGLaws (Operand W Obj OwnerReference Ev)} `{MapRangeLaws}.
Local Abbreviation St := (World W (OpCall Obj OwnerReference)).

(** An operator that behaves as a composite operator under some schedule of its
    steps. *)
Definition implements (co : CompositeOperator W Obj OwnerReference Ev) (op : Operator St Obj OwnerReference) : Prop :=
  forall obj ref w, exists scheds, co_Ensure co scheds obj ref w = Done (op_Ensure op obj ref w).

(** A client of the API that runs no operand. *)
Record no_operand_calls (cl : Client St Obj) : Prop := {
  nc_Get : forall n o s, wlog (fst (cl_Get cl n o s)) = wlog s;
  nc_Update : forall o s, wlog (fst (cl_Update cl o s)) = wlog s;
  nc_StatusUpdate : forall o s, wlog (fst (cl_StatusUpdate cl o s)) = wlog s;
}.

Lemma game_untouched setCondition repr op cl : no_operand_calls cl -> untouched (GameController setCondition repr op) cl wlog.
Proof.
  intros [Hg Hu Hs]. split; try done. intros o x s. cbn. by destruct (setCondition o x).
Qed.

Lemma operated_dec (l : list (CtrlCall Obj)) : (exists o, COperate o ∈ l) \/ forall o, COperate o ∉ l.
Proof.
  induction l as [|x l [[o Ho]|IH]]; [right; intros o; apply not_elem_of_nil|left; exists o; by right|].
  destruct x; try (right; intros ?; apply not_elem_of_cons; naive_solver). left. eexists. left.
Qed.

(** The operation of the game controller, when it succeeds. *)
Lemma operate_calls fuel opts co op setCondition repr o s1 s2 o1 r e res :
  NewCompositeOperator fuel opts = Done (inr co) ->
  NoDup (Name <$> Operands co) -> acyclic (depEdges (Operands co)) -> length (Operands co) <= fuel ->
  (forall obj s, snd (IsSuspended co obj s) = false) -> implements co op ->
  Operate (GameController setCondition repr op) o s1 = (s2, (o1, (r, e))) ->
  (e <> None -> @None error <> None) -> (@None error = None -> res = r) -> Requeue res = false ->
  exists calls, wlog s2 = wlog s1 ++ calls /\ omap on_operand calls ≡ₚ
    concat ((fun x => calls_Ensure x o (OwnerReferenceFromObject o)) <$> Operands co).
Proof.
  intros Hnew Hnd Hac Hf Hsus Himp Hop He Hres Hq. cbn in Hop. unfold mbind, M_bind, mret, M_ret in Hop.
  destruct (op_Ensure op o (OwnerReferenceFromObject o) s1) as [s' [r' e']] eqn:Hen. injection Hop as -> _ -> ->.
  assert (e = None) as -> by (destruct e; [|done]; exfalso; by apply He). rewrite (Hres eq_refl) in Hq.
  destruct (Himp o (OwnerReferenceFromObject o) s1) as [scheds Hs]. rewrite Hen in Hs.
  by eapply Ensure_calls_all.
Qed.

(** C7: a reconciliation of the game controller that reports success without a
    requeue leaves exactly these calls on operands in the log of its operator: none
    when it did not get to operate, and when it operated on the object [o], Ensure,
    ReadyCheck and PostReady of every operand of its operator exactly once, with [o]
    and the owner reference made from [o].  The operands have distinct names and
    acyclic dependencies, the operator is never suspended, and the client runs no
    operand. *)
Theorem reconcile_ensures_operands fuel opts co op setCondition repr (c : CompositeReconciler (W := St) (Obj := Obj)) cl req w w' res :
  NewCompositeOperator fuel opts = Done (inr co) ->
  NoDup (Name <$> Operands co) -> acyclic (depEdges (Operands co)) -> length (Operands co) <= fuel ->
  (forall obj s, snd (IsSuspended co obj s) = false) -> implements co op -> no_operand_calls cl ->
  ctrlr c = Some (GameController setCondition repr op) -> client c = Some cl ->
  Reconcile c req w = Done (w', (res, None)) -> Requeue res = false ->
  exists l calls, wlog w' = wlog w ++ l /\ wlog (wst w') = wlog (wst w) ++ calls /\
    ((forall o, COperate o ∉ l) -> calls = []) /\
    forall o, COperate o ∈ l -> omap on_operand calls ≡ₚ
      concat ((fun x => [CEnsure (Name x) o (OwnerReferenceFromObject o); CReadyCheck (Name x) o; CPostReady (Name x) o]) <$> Operands co).
Proof.
  intros Hnew Hnd Hac Hf Hsus Himp Hncl Hk Hcl Hrec Hq.
  destruct (Reconcile_protocol c _ cl req w w' (res, None) Hk Hcl Hrec) as (l & proto & Hl & _ & Hp).
  destruct (protocol_frame c _ cl wlog proto req _ l _ _ (game_untouched setCondition repr op cl Hncl) Hp) as [Hno Hop].
  assert (forall o, COperate o ∈ l -> exists calls, wlog (wst w') = wlog (wst w) ++ calls /\ omap on_operand calls ≡ₚ
    concat ((fun x => calls_Ensure x o (OwnerReferenceFromObject o)) <$> Operands co)) as Hran.
  { intros o Ho. destruct (Hop o Ho) as (s1 & s2 & o1 & r & e & Hs1 & Hm & Hs2 & [Hk1 _] & Hres).
    rewrite Hs2, <- Hs1. by eapply (operate_calls fuel opts co op setCondition repr o). }
  exists l. destruct (operated_dec l) as [[o Ho]|Hn].
  - destruct (Hran o Ho) as (calls & Hc & _). exists calls. split_and!; [done|done|intros Hn; by destruct (Hn o)|].
    intros o' Ho'. destruct (Hran o' Ho') as (calls' & Hc' & Hperm). rewrite Hc in Hc'. by apply app_inv_head in Hc' as <-.
  - exists []. rewrite app_nil_r. split_and!; [done|by apply Hno|done|]. intros o Ho. by destruct (Hn o).
Qed.
End composition.

(** With serial execution an operator needs no schedule: it always returns. *)
Lemma serial_returns {W Obj Ref Ev} `{ErrorLib} `{DAGLib (Operand W Obj Ref Ev)} (co : CompositeOperator W Obj Ref Ev) rec obj ref w :
  executor co = Some (mkExecutor Serial rec) -> exists x, co_Ensure co [] obj ref w = Done x.
Proof.
  intros He. unfold co_Ensure, execute. rewrite He. destruct (IsSuspended co obj w) as [w1 []]; cbn [negb]; [by eexists|].
  assert (forall ord scheds w, exists x, ExecuteOperands (mkExecutor Serial rec) scheds ord CallEnsure obj ref w = Done x) as Hx.
  { induction ord as [|ops ord IH]; intros scheds w0; cbn [ExecuteOperands]; [by eexists|].
    change (execStrategy (mkExecutor Serial rec) =? Serial)%Z with true. cbn [negb].
    destruct (serialExec _ ops _ _ _ w0) as [w2 [r2 [e2|]]]; [by eexists|]. case_match; [by eexists|apply IH]. }
  destruct (Hx (order co) [] w1) as [[w2 [r2 [e2|]]] ->]; [|by eexists]. case_match; by eexists.
Qed.

(** ** Witness *)

Module GameDemo.
Import RefErrors RefRange RefDag ApiDemo.
Definition part (name : string) : Operand (list string) obj OwnerReference string :=
  mkOperand name [] (fun _ _ w => (w ++ [name], (None, None))) (fun _ w => (w, (None, None))) RequeueOnError
    (fun _ w => (w, (true, None))) (fun _ w => (w, None)).
Definition opts : list (CompositeOperatorOption (list string) obj OwnerReference string) :=
  [WithEventRecorder (fun _ w => (w, tt)); WithExecutionStrategy Serial; WithOperands [part "a"; part "b"]].
Definition co : CompositeOperator (list string) obj OwnerReference string :=
  match NewCompositeOperator 2 opts with Done (inr co) => co | _ => newDefaults end.
Local Abbreviation St := (World (list string) (OpCall obj OwnerReference)).
Definition operator : Operator St obj OwnerReference :=
  mkOperator (fun _ w => (w, false))
    (fun o r w => match co_Ensure co [] o r w with Done x => x | _ => (w, (emptyResult, None)) end)
    (fun _ w => (w, (emptyResult, None))).
Definition game : obj := mkObj (mkNN "default" "g") [] true (ObjectDemo.game "g").
Definition cluster : Client St obj :=
  mkClient (fun _ _ w => (w, (game, None))) (fun o w => (w, (o, None))) (fun o w => (w, (o, None))).
Definition reconciler : CompositeReconciler (W := St) (Obj := obj) :=
  gameReconciler (fun o _ => Some o) (fun _ => "") cluster operator game.
End GameDemo.

Import RefErrors RefRange RefDag ApiDemo.

Lemma reconcile_ensures_operands_witness :
  exists w' l calls, Reconcile GameDemo.reconciler (mkNN "default" "g") (mkWorld (mkWorld [] []) []) = Done (w', (emptyResult, None)) /\
    wlog w' = l /\ COperate GameDemo.game ∈ l /\ wlog (wst w') = calls /\
    forall o, COperate o ∈ l -> omap on_operand calls ≡ₚ
      [CEnsure "a" o (OwnerReferenceFromObject o); CReadyCheck "a" o; CPostReady "a" o;
       CEnsure "b" o (OwnerReferenceFromObject o); CReadyCheck "b" o; CPostReady "b" o].
Proof.
  assert (exists w', Reconcile GameDemo.reconciler (mkNN "default" "g") (mkWorld (mkWorld [] []) []) = Done (w', (emptyResult, None)) /\
    COperate GameDemo.game ∈ wlog w') as (w' & Hw & Hin).
  { eexists. split; [vm_compute; reflexivity|]. cbn. do 3 right. left. }
  edestruct (reconcile_ensures_operands 2 GameDemo.opts GameDemo.co GameDemo.operator (fun o _ => Some o) (fun _ => "")
    GameDemo.reconciler GameDemo.cluster (mkNN "default" "g") (mkWorld (mkWorld [] []) []) w' emptyResult) as (l & calls & Hl & Hc & _ & Ho).
  - vm_compute. reflexivity.
  - vm_compute. repeat constructor; set_solver.
  - apply (acyclic_rank (fun _ => 0)). vm_compute. constructor.
  - exact (le_n 2).
  - intros obj s. destruct s. reflexivity.
  - intros obj ref w. exists []. edestruct (serial_returns GameDemo.co) as [x Hx]; [vm_compute; reflexivity|].
    unfold op_Ensure, GameDemo.operator. rewrite Hx. reflexivity.
  - by split.
  - reflexivity.
  - reflexivity.
  - exact Hw.
  - reflexivity.
  - exists w', l, calls. rewrite Hl in Hin. split_and!; [exact Hw|exact Hl|exact Hin|exact Hc|exact Ho].
Defined.
