(* ===== verification/ConfigMapWebhook.v ===== *)
(** The configmap webhook of the example:
    [example/controllers/configmap_admission_controller.go].

    Its defaulting puts the stock functions of the toolkit together with the
    discovery of the cluster version, its validation has no functions. *)
From S2P Require Import Prelude Object Admission Webhook Platform.

Section webhook.
Context {W Obj Status : Type} `{ClientObject Obj} `{AdmissionLib Obj Status} `{MetaObject Obj} `{MapRange} `{SemverLib}.

(** [ConfigMapAdmissionController]: its name and its discovery client; the API
    client and the logger are not used. *)
Record ConfigMapAdmissionController := mkConfigMapAdmissionController { CtrlName : string; cmac_DiscoveryClient : DiscoveryClient W }.
Definition NewConfigMapAdmissionController (name : string) (dc : DiscoveryClient W) : ConfigMapAdmissionController :=
  mkConfigMapAdmissionController name dc.
Definition cmac_Name (cmac : ConfigMapAdmissionController) : string := CtrlName cmac.
Definition cmac_Default (cmac : ConfigMapAdmissionController) : list (DefaultFunc (W := W) (Obj := Obj)) :=
  [AddLabels {["foo" := "bar"]}; AddAnnotations {["zzz" := "qqqq"]}; AddClusterVersionAnnotation (GetClusterVersion (cmac_DiscoveryClient cmac))].
Definition cmac_RequireDefaulting (obj : Obj) : bool := true.
Definition cmac_RequireValidating (obj : Obj) : bool := true.
Definition cmac_ValidateCreate : list (ValidateCreateFunc (W := W) (Obj := Obj)) := [].
Definition cmac_ValidateUpdate : list (ValidateUpdateFunc (W := W) (Obj := Obj)) := [].
Definition cmac_ValidateDelete : list (ValidateDeleteFunc (W := W) (Obj := Obj)) := [].

(** The controller as a controller of the toolkit; [newObject] is
    [&corev1.ConfigMap{}], which [GetNewObject] returns. *)
Definition cmac_Controller (newObject : Obj) (cmac : ConfigMapAdmissionController) : Controller W Obj :=
  mkController (cmac_Name cmac) newObject (cmac_Default cmac) cmac_RequireDefaulting
    cmac_ValidateCreate cmac_ValidateUpdate cmac_ValidateDelete cmac_RequireValidating.

(** [SetupWithManager]. *)
Definition cmac_SetupWithManager {Decoder Srv : Type} `{WebhookServer Srv (Webhook W Obj Decoder)}
  (newObject : Obj) (cmac : ConfigMapAdmissionController) (srv : Srv) : outcome (Srv * err) :=
  Complete (ValidatePath (MutatePath WebhookManagedBy "/mutate-configmap") "/validate-configmap") (Some (cmac_Controller newObject cmac)) srv.
End webhook.

(** Setting labels or annotations of an object sets those and nothing else. *)
Class MetaObjectLaws (Obj : Type) `{MetaObject Obj} : Prop := {
  GetLabels_SetLabels : forall (o : Obj) l, GetLabels (SetLabels o l) = Some l;
  GetLabels_SetAnnotations : forall (o : Obj) a, GetLabels (SetAnnotations o a) = GetLabels o;
  GetAnnotations_SetLabels : forall (o : Obj) l, GetAnnotations (SetLabels o l) = GetAnnotations o;
  GetAnnotations_SetAnnotations : forall (o : Obj) a, GetAnnotations (SetAnnotations o a) = Some a;
}.

Section webhook_claims.
Context {W Obj Status : Type} `{ClientObject Obj} `{AdmissionLib Obj Status} `{MetaObjectLaws Obj} `{MapRangeLaws} `{SemverLib}.

(** A configmap that reaches the mutating webhook is answered with itself, its
    labels and annotations completed by those of the controller, which take
    precedence, and by the version of the cluster when it can be discovered. *)
Theorem configmap_defaulted (newObject obj : Obj) (cmac : ConfigMapAdmissionController (W := W)) req w w' r :
  Decode (Status := Status) req (SetNamespace newObject (req_Namespace req)) = inr obj ->
  mutatingHandle (Status := Status) (Some (as_Defaulter (cmac_Controller newObject cmac))) req w = Done (w', r) ->
  exists obj' v, GetClusterVersion (cmac_DiscoveryClient cmac) w = (w', v) /\
    r = match Marshal (Status := Status) obj' with
        | inl e => Errored StatusInternalServerError e
        | inr marshalled => PatchResponseFromRaw (req_Object req) marshalled
        end /\
    GetLabels obj' = Some ({["foo" := "bar"]} ∪ default ∅ (GetLabels obj)) /\
    GetAnnotations obj' = Some (match v with inr v => {["cluster-version" := v]} | inl _ => ∅ end ∪
      ({["zzz" := "qqqq"]} ∪ default ∅ (GetAnnotations obj))).
Proof.
  intros Hd. unfold mutatingHandle. cbn [d_GetNewObject as_Defaulter cmac_Controller ctl_GetNewObject]. rewrite Hd. cbn [RequireDefaulting as_Defaulter cmac_Controller ctl_Default ctl_RequireDefaulting d_Default cmac_RequireDefaulting].
  unfold cmac_Default, runDefaults, AddLabels, AddAnnotations, AddClusterVersionAnnotation, mbind, M_bind, mret, M_ret.
  set (obj1 := SetAnnotations _ _). destruct (GetClusterVersion (cmac_DiscoveryClient cmac) w) as [w1 v] eqn:Hv.
  assert (GetLabels obj1 = Some ({["foo" := "bar"]} ∪ default ∅ (GetLabels obj))) as Hl.
  { subst obj1. by rewrite GetLabels_SetAnnotations, GetLabels_SetLabels, assignAll_union. }
  assert (GetAnnotations obj1 = Some ({["zzz" := "qqqq"]} ∪ default ∅ (GetAnnotations obj))) as Ha.
  { subst obj1. by rewrite GetAnnotations_SetAnnotations, GetAnnotations_SetLabels, assignAll_union. }
  clearbody obj1. set (obj2 := match v with inl _ => _ | inr _ => _ end).
  assert (exists obj', obj2 w1 = (w1, obj') /\ GetLabels obj' = GetLabels obj1 /\
    GetAnnotations obj' = Some (match v with inr v => {["cluster-version" := v]} | inl _ => ∅ end ∪ default ∅ (GetAnnotations obj1)))
    as (obj' & -> & Hl' & Ha').
  { subst obj2. destruct v as [e|v]; eexists; (split; [done|]).
    - rewrite Ha. cbn. by rewrite (left_id_L ∅ (∪)).
    - by rewrite GetLabels_SetAnnotations, GetAnnotations_SetAnnotations, insert_union_singleton_l. }
  intros Hr. exists obj', v. rewrite Hl', Ha', Ha, Hl. destruct (Marshal obj'); simplify_eq; done.
Qed.

(** Validation admits every configmap it can decode. *)
Lemma configmap_admitted (newObject : Obj) (cmac : ConfigMapAdmissionController (W := W)) req (w : W) : exists r,
  validatingHandle (Status := Status) (Some (as_Validator (cmac_Controller newObject cmac))) req w = Done (w, r) /\
  (admits r = false -> exists e, r = Errored StatusBadRequest e).
Proof.
  unfold validatingHandle. cbn. destruct (req_Operation req); repeat case_match; eexists; split; try done; eauto.
Qed.

(** The two paths of a fresh server are served by the handlers of the controller. *)
Lemma configmap_registered {Decoder Srv} `{WebhookServerLaws Srv (Webhook W Obj Decoder)} newObject (cmac : ConfigMapAdmissionController (W := W)) (srv : Srv) :
  clean_builder (Obj := Obj) (Decoder := Decoder) (Srv := Srv) (W := W) (ValidatePath (MutatePath WebhookManagedBy "/mutate-configmap") "/validate-configmap") ->
  hooks (Hook := Webhook W Obj Decoder) srv = ∅ -> exists srv', cmac_SetupWithManager newObject cmac srv = Done (srv', None) /\
  hooks srv' !! "/mutate-configmap" = Some (webhook_of (Mutates, cmac_Controller newObject cmac)) /\
  hooks srv' !! "/validate-configmap" = Some (webhook_of (Validates, cmac_Controller newObject cmac)).
Proof.
  intros Hc He. destruct (Complete_hooks _ (cmac_Controller newObject cmac) srv Hc) as (s & Hs & Hh). exists s. split; [exact Hs|].
  rewrite Hh, He, (left_id_L ∅ (∪)). split; rewrite lookup_fmap; reflexivity.
Qed.
End webhook_claims.

(** ** Witness *)

(** Objects are labels and annotations. *)
Module WebhookDemo.
Import RefErrors RefRange.
Definition obj : Type := option (gmap string string) * option (gmap string string).
#[export] Instance clientObject : ClientObject obj := {|
  GetName := fun _ => ""; GetNamespace := fun _ => ""; SetName := fun o _ => o; SetNamespace := fun o _ => o;
  GetUID := fun _ => ""; Object.GroupVersion := fun _ => "v1"; Kind := fun _ => "ConfigMap"; DeletionTimestampIsZero := fun _ => true;
  GetFinalizers := fun _ => []; ContainsFinalizer := fun _ _ => false; AddFinalizer := fun o _ => o; RemoveFinalizer := fun o _ => o;
|}.
#[export] Instance lib : AdmissionLib obj string := {|
  Decode := fun req o => inr o; DecodeRaw := fun raw o => inr o; Marshal := fun o => inr "object"; AsAPIStatus := fun e => None;
|}.
#[export] Instance metaObject : MetaObject (Obj := obj) := {|
  GetLabels := fst; SetLabels := fun o l => (Some l, o.2); GetAnnotations := snd; SetAnnotations := fun o a => (o.1, Some a);
|}.
#[export] Instance metaObject_laws : MetaObjectLaws obj.
Proof. by split. Qed.
#[export] Instance semver : SemverLib := {|
  ParseTolerant := fun s => inr (mkVersion 1 20 2 ["k3s1"] []);
  semver_Parse := fun s => inr (mkVersion 1 20 2 [] []);
  semver_Compare := compareNumbers;
|}.
Definition discovery : DiscoveryClient unit := mkDiscoveryClient (fun w => (w, inr "v1.20.2-k3s1")) (fun w => (w, inr [])).
Definition configmap : obj := (Some {["foo" := "old"; "app" := "web"]}, None).
Definition request : Request := mkRequest Create "ns" "raw" "".
End WebhookDemo.

Import RefErrors RefRange WebhookDemo.

Lemma configmap_defaulted_witness : exists (obj' : obj) v, GetClusterVersion discovery tt = (tt, v) /\
  PatchResponseFromRaw "raw" "object" = match Marshal (Status := string) obj' with
    | inl e => Errored StatusInternalServerError e | inr marshalled => PatchResponseFromRaw (Status := string) "raw" marshalled end /\
  GetLabels obj' = Some ({["foo" := "bar"]} ∪ {["foo" := "old"; "app" := "web"]}) /\
  GetAnnotations obj' = Some (match v with inr v => {["cluster-version" := v]} | inl _ => ∅ end ∪ ({["zzz" := "qqqq"]} ∪ ∅)).
Proof.
  refine (configmap_defaulted (Status := string) configmap configmap (NewConfigMapAdmissionController "configmap" discovery) request tt tt (PatchResponseFromRaw "raw" "object") _ _).
  - reflexivity.
  - vm_compute. reflexivity.
Defined.
