(* ===== verification/ExternalGame.v ===== *)
(** The external game sync of the example:
    [example/controllers/external-game-sync_controller.go] and
    [example/controllers/externalGameSync/controller.go].

    A client of the external object sync whose external system is empty and
    ignores every call. *)
From S2P Require Import Prelude Object Sync.

Section external_game.
Context {W Obj OList : Type} `{ClientObjectLaws Obj} `{Scheme Obj} `{MetaLib Obj OList}.
Local Abbreviation St := (World W (SyncCall Obj)).

(** [ExternalGameSyncController]. *)
Definition eg_Ensure (obj : Obj) : M W err := mret None.
Definition eg_Delete (obj : Obj) : M W err := mret None.
Definition eg_List : M W (list NamespacedName * err) := mret ([], None).
Definition NewExternalGameSyncController : ExtController (W := W) (Obj := Obj) :=
  mkExtController (mkSyncController eg_Ensure eg_Delete) eg_List.

(** [ExternalGameSyncReconciler.SetupWithManager]: the initialization of the
    reconciler [s], whose garbage collector is [gc], and its registration with the
    builder of controller-runtime, [complete]. *)
Definition eg_init (s : ExtReconciler (W := W) (Obj := Obj) (OList := OList)) (mgr : option (SyncClient (W := W)))
  (cl : SyncClient (W := W)) (game : Obj) (gameList : OList) (gc : M St unit) :=
  let s := SetGarbageCollectionPeriod s (5 * second) in
  let s := SetStartupGarbageCollectionDelay s (5 * second) in
  let '(s, started, e) := ExtInit s mgr NewExternalGameSyncController (Some game) (Some gameList)
    [WithName "external-game-sync-controller"; WithClient cl] gc in
  (s, started, match e with
               | Some e => Some (errorf_w "failed to create new ExternalObjectSyncReconciler: %w" [] e)
               | None => None
               end).
Definition eg_SetupWithManager {S} (s : ExtReconciler (W := W) (Obj := Obj) (OList := OList)) (mgr : option (SyncClient (W := W)))
  (cl : SyncClient (W := W)) (game : Obj) (gameList : OList) (gc : M St unit)
  (complete : ExtReconciler (W := W) (Obj := Obj) (OList := OList) -> M S err) : M S (list (SyncFunc St) * err) :=
  match eg_init s mgr cl game gameList gc with
  | (s, started, Some e) => mret (started, Some e)
  | (s, started, None) => e ← complete s; mret (started, e)
  end.

(** The garbage collector is the one periodic function, run every five seconds
    after the first five, and initialization does not fail. *)
Lemma eg_scheduled s mgr cl game gameList gc : exists s',
  eg_init s mgr cl game gameList gc = (s', [NewSyncFunc gc (5 * second) (5 * second)], None).
Proof. unfold eg_init, ExtInit, Init. cbn. eexists. reflexivity. Qed.

(** It deletes nothing, since the external system lists nothing. *)
Lemma eg_collects_nothing cl (proto : Obj) (protoList : OList) (w : St) : exists l,
  wlog (run (collectGarbage NewExternalGameSyncController cl proto protoList) w).1 = wlog w ++ l /\ l ⊆ [SList; SExtList].
Proof.
  unfold collectGarbage, collectExternal, logged. cbn. destruct (scl_List cl protoList (wst w)) as [w1 [insts [e|]]]; cbn.
  { exists [SList]. split; [done|set_solver]. }
  destruct (NamespacedNames insts); cbn; [exists [SList]; split; [done|set_solver]|].
  exists [SList; SExtList]. by rewrite <- app_assoc.
Qed.
End external_game.
