(* ===== verification/Space.v ===== *)
(** The space cache of the example: the mock API client and the cache made from
    it in [example/main.go], the API types [example/api/v1alpha1/game_types.go]
    with their webhook [game_webhook.go], and the controllers that share the
    cache, [spaceinformer1_controller.go], [spaceinformer2_controller.go] and
    [podinformer1_controller.go].

    The mock client lists two games and a pod, and pushes a changed game and a
    changed pod through unbuffered channels at every tick.  The list watcher of
    [cache/listwatcher.go] gives them to the informers of the cache, which the
    reader answers from. *)
From S2P Require Import Prelude Object CompositeController Cache Events.

(** ** API types *)

(** [type GameSpec], [GameStatus], [Game] and [GameList]; [TypeMeta] is a group,
    version and kind, of [ObjectMeta] the name and the namespace are set. *)
Record GameSpec := mkGameSpec { Foo : string }.
Record GameStatus := mkGameStatus { Conditions : list Condition }.
Record Game := mkGame { g_TypeMeta : GVK; g_ObjectMeta : NamespacedName; g_Spec : GameSpec; g_Status : GameStatus }.
Record GameList := mkGameList { gl_ResourceVersion : string; gl_Items : list Game }.

(** [corev1.Pod] and [PodList], as far as the program fills them. *)
Record Pod := mkPod { p_TypeMeta : GVK; p_ObjectMeta : NamespacedName; NodeName : string }.
Record PodList := mkPodList { pl_ResourceVersion : string; pl_Items : list Pod }.

(** Values of [client.Object] and [runtime.Object] in this program. *)
Inductive SpaceObject := OGame (g : Game) | OPod (p : Pod).
Inductive SpaceList := LGame (l : GameList) | LPod (l : PodList) | LOther (kind : string).

(** The kinds the two schemes register the types under: [GroupVersion] of
    [groupversion_info.go], and the core group. *)
Definition gameGVK : GVK := mkGVK "app.example.com" "v1alpha1" "Game".
Definition podGVK : GVK := mkGVK "" "v1" "Pod".

(** The webhook methods of a [*Game] only log. *)
Definition game_Default (r : Game) : Game := r.
Definition game_ValidateCreate (r : Game) : err := None.
Definition game_ValidateUpdate (r : Game) (old : SpaceObject) : err := None.
Definition game_ValidateDelete (r : Game) : err := None.

(** ** The mock API client *)

(** [watch.Event]. *)
Inductive EventType := WAdded | WModified | WDeleted.
Record WatchEvent := mkWatchEvent { we_Type : EventType; we_Object : SpaceObject }.

(** [type XClient struct]: the scheme is the kind it converts an object to, the
    channels are numbers. *)
Record XClient := mkXClient { x_scheme : SpaceList -> error + string; gameChan : nat; podChan : nat }.

(** The objects of the mock server. *)
Definition spaceGame (name foo : string) : Game := mkGame zeroGVK (mkNN "default" name) (mkGameSpec foo) (mkGameStatus []).
Definition spacePod (name node : string) : Pod := mkPod zeroGVK (mkNN "default" name) node.

(** The [switch] of [XClient.List], and the method. *)
Definition x_listKind (kind : string) : error + SpaceList :=
  if bool_decide (kind = "GameList") then
    inr (LGame (mkGameList "888889999" [spaceGame "spacefoo1" "aaa"; spaceGame "spacefoo2" "bbb"]))
  else if bool_decide (kind = "PodList") then inr (LPod (mkPodList "4444447777" [spacePod "podfoo1" "ccc"]))
  else inl (errorf "unknown kind to list: %q" [kind] [] None).
Definition x_List (c : XClient) (namespace : string) (obj : SpaceList) : error + SpaceList :=
  match x_scheme c obj with
  | inl e => inl e
  | inr kind => x_listKind kind
  end.

(** [XClient.Watch]: the channel of the watcher. *)
Definition x_Watch (c : XClient) (namespace kind : string) : error + nat :=
  if bool_decide (kind = "Game") then inr (gameChan c)
  else if bool_decide (kind = "Pod") then inr (podChan c)
  else inl (errorf "unknown kind to watch: %q" [kind] [] None).

(** [int], with its wrap-around. *)
Definition wrap_int (z : Z) : Z := ((z + 2 ^ 63) mod 2 ^ 64 - 2 ^ 63)%Z.

(** A goroutine of [XClient.Start]: whether a tick waits in [ticker.C] (whose
    buffer is one tick, later ones are dropped), the counter, and the event it is
    sending, if it is. *)
Record Pusher := mkPusher { ticked : bool; count : Z; sending : option WatchEvent }.

(** The events the two goroutines send. *)
Definition gameEvent (count : Z) : WatchEvent := mkWatchEvent WModified (OGame (spaceGame "spacefoo1" ("aaa" +:+ pretty count))).
Definition podEvent (count : Z) : WatchEvent := mkWatchEvent WModified (OPod (spacePod "podfoo1" ("ccc" +:+ pretty count))).

(** The steps of a goroutine: the ticker fires, the goroutine takes the tick,
    counts and begins to send, and a receiver takes the event, which is the label
    of the step. *)
Inductive pusher_step (mk : Z -> WatchEvent) : Pusher -> option WatchEvent -> Pusher -> Prop :=
| ps_fire b c e : pusher_step mk (mkPusher b c e) None (mkPusher true c e)
| ps_tick c : pusher_step mk (mkPusher true c None) None (mkPusher false (wrap_int (c + 1)) (Some (mk (wrap_int (c + 1)))))
| ps_receive b c e : pusher_step mk (mkPusher b c (Some e)) (Some e) (mkPusher b c None).

(** [XClient.Start]: the goroutines as they start. *)
Definition pusher_Start : Pusher := mkPusher false 0 None.
Definition x_Start (c : XClient) : list (nat * (Z -> WatchEvent) * Pusher) :=
  [(gameChan c, gameEvent, pusher_Start); (podChan c, podEvent, pusher_Start)].

(** ** The space cache *)

Section space_cache.
Context {W : Type}.
(** [scheme.New] on the kind of a list, and [DeepCopyObject] on a list. *)
Context (new : GVK -> error + SpaceList) (copy : SpaceList -> SpaceList).

(** [createSpaceCache]: the goroutines it starts, the configuration of the cache
    and the list watcher of its informers. *)
Definition createSpaceCache (scheme : string) (convert : SpaceList -> error + string) :=
  let x := mkXClient convert 0 1 in
  let lw := CreateListWatcherFunc (W := W) new copy (fun ns l => mret (x_List x ns l)) (fun ns k => mret (x_Watch x ns k)) in
  (x_Start x, cache_New (mkCacheOptions (Some scheme) None "default"), lw).
End space_cache.

(** ** The controllers that share it *)

(** [NewKindWithCache]. *)
Definition NewKindWithCache {W Obj} (object : Obj) (cache : EventCache (W := W) (Obj := Obj)) : KindSource :=
  mkKindSource (Some object) (Some cache).

Section informers.
Context {W Obj : Type}.
(** [controller.New] with a reconciler and [Controller.Watch]; controllers are
    numbers, and [enqueueForObject] is [handler.EnqueueRequestForObject]. *)
Context (controller_New : string -> (NamespacedName -> Result * err) -> M W (error + nat)).
Context (ctrl_Watch : nat -> KindSource (W := W) (Obj := Obj) -> Handler W Obj -> M W err) (enqueueForObject : Handler W Obj).

(** The three reconcilers log the request. *)
Definition spaceInformer1_Reconcile (req : NamespacedName) : Result * err := (emptyResult, None).
Definition spaceInformer2_Reconcile (req : NamespacedName) : Result * err := (emptyResult, None).
Definition podInformer1_Reconcile (req : NamespacedName) : Result * err := (emptyResult, None).

(** What their [SetupWithManager] have in common, and each of them. *)
Definition watchShared (name : string) (r : NamespacedName -> Result * err) (obj : Obj) (spaceCache : EventCache (W := W) (Obj := Obj)) : M W err :=
  c ← controller_New name r;
  match c with
  | inl e => mret (Some e)
  | inr c => ctrl_Watch c (NewKindWithCache obj spaceCache) enqueueForObject
  end.
Definition spaceInformer1_SetupWithManager (game : Obj) := watchShared "spaceinformer1-controller" spaceInformer1_Reconcile game.
Definition spaceInformer2_SetupWithManager (game : Obj) := watchShared "spaceinformer2-controller" spaceInformer2_Reconcile game.
Definition podInformer1_SetupWithManager (pod : Obj) := watchShared "podinformer1-controller" podInformer1_Reconcile pod.
End informers.

(** ** The events of a channel *)

Section pusher.
Context (mk : Z -> WatchEvent).

(** A run of a goroutine, with the events received from its channel. *)
Inductive pusher_run : list WatchEvent -> Pusher -> Prop :=
| pr_start : pusher_run [] pusher_Start
| pr_step evs p l p' : pusher_run evs p -> pusher_step mk p l p' -> pusher_run (evs ++ option_list l) p'.

Lemma wrap_int_succ z : wrap_int (wrap_int z + 1) = wrap_int (z + 1).
Proof.
  unfold wrap_int. f_equal.
  replace ((z + 2 ^ 63) mod 2 ^ 64 - 2 ^ 63 + 1 + 2 ^ 63)%Z with ((z + 2 ^ 63) mod 2 ^ 64 + 1)%Z by lia.
  rewrite Zplus_mod_idemp_l. f_equal. lia.
Qed.

(** The events received are numbered from one, and the counter is the number of
    the last event received or being sent. *)
Lemma pusher_run_inv evs p : pusher_run evs p ->
  evs = (fun i => mk (wrap_int (Z.of_nat i))) <$> seq 1 (length evs) /\
  match sending p with
  | None => count p = wrap_int (Z.of_nat (length evs))
  | Some e => e = mk (count p) /\ count p = wrap_int (Z.of_nat (S (length evs)))
  end.
Proof.
  induction 1 as [|evs p l p' _ [He Hp] Hs]; [done|]. destruct Hs; cbn in *; rewrite ?app_nil_r; [done| |].
  - split; [done|]. split; [done|]. rewrite Hp, wrap_int_succ. f_equal. lia.
  - destruct Hp as [-> ->]. rewrite length_app, Nat.add_1_r. split; [|done].
    rewrite seq_S, fmap_app, <- He. done.
Qed.

(** A receiver that goes on reading gets any number of events. *)
Lemma pusher_lives n : exists evs p, pusher_run evs p /\ sending p = None /\ length evs = n.
Proof.
  induction n as [|n (evs & [b c e] & Hr & Hs & Hl)]; [by exists [], pusher_Start; split; [constructor|]|]. cbn in Hs. subst e.
  eexists _, _. split.
  - eapply pr_step; [eapply pr_step; [eapply pr_step; [exact Hr|apply ps_fire]|apply ps_tick]|apply ps_receive].
  - cbn. rewrite !app_nil_r, length_app. cbn. split; [done|lia].
Qed.
End pusher.

(** ** Reading the space cache *)

Definition obj_key (o : SpaceObject) : NamespacedName := match o with OGame g => g_ObjectMeta g | OPod p => p_ObjectMeta p end.
Definition list_items (l : SpaceList) : list SpaceObject :=
  match l with LGame l => OGame <$> gl_Items l | LPod l => OPod <$> pl_Items l | LOther _ => [] end.

(** What a store holds after a list and the events of a watch, as
    [cache.ListerWatcher] and [cache.Store] document it. *)
Definition applyEvent (m : gmap string SpaceObject) (e : WatchEvent) : gmap string SpaceObject :=
  let k := objectKeyToStoreKey (obj_key (we_Object e)) in
  match we_Type e with WDeleted => delete k m | _ => <[k := we_Object e]> m end.
Definition listed (l : SpaceList) : gmap string SpaceObject :=
  list_to_map ((fun o => (objectKeyToStoreKey (obj_key o), o)) <$> list_items l).
Definition storeOf (l : SpaceList) (evs : list WatchEvent) : gmap string SpaceObject := foldl applyEvent (listed l) evs.

Lemma applyEvents_modified k evs : forall m,
  Forall (fun e => we_Type e = WModified /\ objectKeyToStoreKey (obj_key (we_Object e)) = k) evs ->
  foldl applyEvent m evs = match last evs with Some e => <[k := we_Object e]> m | None => m end.
Proof.
  induction evs as [|e evs IH]; intros m Hf; [done|]. apply Forall_cons in Hf as [[Ht Hk] Hf]. cbn [foldl].
  rewrite (IH _ Hf). unfold applyEvent. rewrite Ht, Hk, last_cons. destruct (last evs); [|done]. by rewrite insert_insert_eq.
Qed.

(** The value a counter is appended to, after a number of events. *)
Definition latest (base : string) (n : nat) : string :=
  match n with 0 => base | S _ => base +:+ pretty (wrap_int (Z.of_nat n)) end.

(** The store of a channel: its one object changes with every event. *)
Lemma storeOf_run mk base evs p l (obj : string -> SpaceObject) k : pusher_run mk evs p ->
  (forall c, mk c = mkWatchEvent WModified (obj (base +:+ pretty c))) ->
  (forall v, objectKeyToStoreKey (obj_key (obj v)) = k) -> listed l !! k = Some (obj base) ->
  storeOf l evs = <[k := obj (latest base (length evs))]> (listed l).
Proof.
  intros Hr Hmk Hk Hl. destruct (pusher_run_inv _ _ _ Hr) as [He _]. unfold storeOf. rewrite (applyEvents_modified k).
  - rewrite He at 1. destruct (length evs) as [|n]; [cbn; by rewrite insert_id|].
    rewrite seq_S, fmap_app. cbn [fmap list_fmap]. by rewrite last_snoc, Hmk.
  - rewrite He. apply Forall_fmap, Forall_forall. intros i _. cbn. rewrite Hmk. split; [done|apply Hk].
Qed.

Lemma store_key_inj ns n1 n2 : ns <> "" ->
  objectKeyToStoreKey (mkNN ns n1) = objectKeyToStoreKey (mkNN ns n2) -> n1 = n2.
Proof.
  intros Hns. unfold objectKeyToStoreKey. cbn. rewrite !bool_decide_false by done. intros Heq.
  by apply append_inj, append_inj in Heq.
Qed.

Section reads.
Context {W : Type} `{InformerLib W SpaceObject} `{MetaLib SpaceObject SpaceList} `{CacheLib SpaceObject SpaceList}.
Context (new : GVK -> error + SpaceList) (copy : SpaceList -> SpaceList) (convert : SpaceList -> error + string).

(** Documented behaviour of the scheme: a registered kind of list has a new
    object, whose copy converts to an unstructured object of that kind. *)
Definition registered (gvk : GVK) : Prop := exists l,
  new (mkGVK (gvk_Group gvk) (gvk_Version gvk) (gvk_Kind gvk +:+ "List")) = inr l /\
  convert (copy l) = inr (gvk_Kind gvk +:+ "List").

(** The scheme and the accessors on the types of the program. *)
Record space_types : Prop := {
  game_registered : registered gameGVK;
  pod_registered : registered podGVK;
  game_kind : forall g, GVKFor (OList := SpaceList) (OGame g) = inr gameGVK;
  pod_kind : forall p, GVKFor (OList := SpaceList) (OPod p) = inr podGVK;
  game_type : forall g g', go_type (OList := SpaceList) (OGame g) = go_type (OList := SpaceList) (OGame g');
  pod_type : forall p p', go_type (OList := SpaceList) (OPod p) = go_type (OList := SpaceList) (OPod p');
  game_set : forall k g, SetGroupVersionKind (OList := SpaceList) k (OGame g) = OGame (mkGame k (g_ObjectMeta g) (g_Spec g) (g_Status g));
  pod_set : forall k p, SetGroupVersionKind (OList := SpaceList) k (OPod p) = OPod (mkPod k (p_ObjectMeta p) (NodeName p));
}.

(** Documented behaviour of informers: one that has synced has listed and
    watched, with the functions of its list watcher, and holds what the list and
    the events received from the channel since leave. *)
Definition reflects (lw : GVK -> string -> error + M W (error + SpaceList) * M W (error + nat))
  (received : nat -> W -> list WatchEvent) (s : CacheState W) : Prop :=
  forall g i, informersByGVK (im s) !! g = Some i -> HasSynced (Informer i) (env s) = true ->
    exists listF watchF l ch w0 w1 w2, lw g (im_namespace (im s)) = inr (listF, watchF) /\
      listF w0 = (w1, inr l) /\ watchF w1 = (w2, inr ch) /\
      forall k, GetByKey (GetIndexer (Informer i) (env s)) k = inr (CObject <$> storeOf l (received ch (env s)) !! k).

(** A read of a ready cache that answers from the objects of the store. *)
Definition stored_as (s : CacheState W) (i : MapEntry) (objs : list SpaceObject) : Prop :=
  forall k, GetByKey (GetIndexer (Informer i) (env s)) k =
    inr (CObject <$> (list_to_map ((fun o => (objectKeyToStoreKey (obj_key o), o)) <$> objs) : gmap string SpaceObject) !! k).
Definition named (name : string) (o : SpaceObject) : bool := bool_decide (obj_key o = mkNN "default" name).

Lemma lookup_named name objs : Forall (fun o => NNNamespace (obj_key o) = "default") objs ->
  (list_to_map ((fun o => (objectKeyToStoreKey (obj_key o), o)) <$> objs) : gmap string SpaceObject)
    !! objectKeyToStoreKey (mkNN "default" name) = List.find (named name) objs.
Proof.
  induction 1 as [|o objs Ho _ IH]; [done|]. cbn. unfold named at 1. case_bool_decide as Hn.
  - rewrite <- Hn. by rewrite lookup_insert_eq.
  - rewrite lookup_insert_ne; [done|]. destruct (obj_key o) as [ns n]. cbn in Ho. subst ns.
    intros ->%store_key_inj; done.
Qed.

Lemma named_key name n o : obj_key o = mkNN "default" n -> named name o = bool_decide (name = n).
Proof. intros Hk. unfold named. rewrite Hk. apply bool_decide_ext. naive_solver. Qed.

Lemma ic_Get_stored s g i objs name out :
  map_inv "default" s -> GVKFor (OList := SpaceList) out = inr g -> informersByGVK (im s) !! g = Some i ->
  started (im s) = true -> HasSynced (Informer i) (env s) = true -> stored_as s i objs ->
  Forall (fun o => NNNamespace (obj_key o) = "default" /\ go_type (OList := SpaceList) o = go_type (OList := SpaceList) out) objs ->
  ic_Get (OList := SpaceList) (mkNN "default" name) out s =
    (s, match List.find (named name) objs with
        | Some o => (SetGroupVersionKind (OList := SpaceList) g o, None)
        | None => (out, Some (NewNotFound (Obj := SpaceObject) (OList := SpaceList) (gvk_Group g) (gvk_Kind g) name))
        end).
Proof.
  intros Hinv Hg Hi Hst Hsy Hk [Hns Hty]%Forall_and. rewrite (ic_Get_ready "default" s g i) by done. unfold cr_Get. cbn [scopeName scopeOf].
  rewrite bool_decide_false by done. rewrite Hk, lookup_named by done. destruct (List.find _ objs) as [o|] eqn:Ho; [|done].
  cbn. rewrite Forall_forall in Hty. rewrite bool_decide_true; [done|]. apply Hty. apply List.find_some in Ho as [Ho _]. by apply list_elem_of_In.
Qed.

(** What the informer of a registered kind holds. *)
Lemma reflects_mock sch received s g i : registered g ->
  reflects (createSpaceCache (W := W) new copy sch convert).2 received s ->
  informersByGVK (im s) !! g = Some i -> HasSynced (Informer i) (env s) = true ->
  exists l ch, x_listKind (gvk_Kind g +:+ "List") = inr l /\ x_Watch (mkXClient convert 0 1) "default" (gvk_Kind g) = inr ch /\
    forall k, GetByKey (GetIndexer (Informer i) (env s)) k = inr (CObject <$> storeOf l (received ch (env s)) !! k).
Proof.
  intros (l & Hn & Hcv) Hr Hi Hsy. destruct (Hr g i Hi Hsy) as (lf & wf & l' & ch & w0 & w1 & w2 & Hlw & Hlf & Hwf & Hk).
  cbn [createSpaceCache snd] in Hlw. unfold CreateListWatcherFunc in Hlw. rewrite Hn in Hlw. injection Hlw as <- <-.
  exists l', ch. unfold x_List, mret, M_ret in Hlf. cbn in Hlf. rewrite Hcv in Hlf. injection Hlf as _ Hl. injection Hwf as _ Hw. done.
Qed.

(** C39: a read of the space cache, once it has started and the informer of the
    kind has synced, answers with the objects of the mock server: the game it
    pushes with the number of the last event received, the other game and the
    pod likewise, and nothing else in the namespace is found.  Events of one kind
    never reach the other. *)
Theorem space_cache_reads sch w gvks sched ts s received :
  space_types ->
  let '(pushers, (_, _, m), lw) := createSpaceCache (W := W) new copy sch convert in
  schedule sched (threads gvks, mkCacheState m w [] []) = (ts, s) -> started (im s) = true -> reflects lw received s ->
  (forall ch mk p, (ch, mk, p) ∈ pushers -> exists p', pusher_run mk (received ch (env s)) p') ->
  (forall i out name, informersByGVK (im s) !! gameGVK = Some i -> HasSynced (Informer i) (env s) = true ->
     ic_Get (OList := SpaceList) (mkNN "default" name) (OGame out) s = (s,
       let found foo := (OGame (mkGame gameGVK (mkNN "default" name) (mkGameSpec foo) (mkGameStatus [])), None) in
       if bool_decide (name = "spacefoo1") then found (latest "aaa" (length (received 0 (env s))))
       else if bool_decide (name = "spacefoo2") then found "bbb"
       else (OGame out, Some (NewNotFound (Obj := SpaceObject) (OList := SpaceList) "app.example.com" "Game" name)))) /\
  (forall i out name, informersByGVK (im s) !! podGVK = Some i -> HasSynced (Informer i) (env s) = true ->
     ic_Get (OList := SpaceList) (mkNN "default" name) (OPod out) s = (s,
       if bool_decide (name = "podfoo1")
       then (OPod (mkPod podGVK (mkNN "default" name) (latest "ccc" (length (received 1 (env s))))), None)
       else (OPod out, Some (NewNotFound (Obj := SpaceObject) (OList := SpaceList) "" "Pod" name)))).
Proof.
  intros Hty. cbn [createSpaceCache cache_New]. intros Hs Hst Hr Hp. change (NewInformersMap _) with (NewInformersMap "default") in Hs.
  fold (fresh "default" w) in Hs.
  assert (map_inv "default" s) as Hinv by (destruct (schedule_inv "default" w gvks sched) as [Hi _]; by rewrite Hs in Hi).
  split; intros i out name Hi Hsy.
  - destruct (reflects_mock sch received s gameGVK i) as (l & ch & [= <-] & [= <-] & Hk); [apply Hty|done..|].
    destruct (Hp 0 gameEvent pusher_Start) as [p' Hrun]; [by left|].
    set (foo := latest "aaa" _).
    rewrite (ic_Get_stored s gameGVK i [OGame (spaceGame "spacefoo1" foo); OGame (spaceGame "spacefoo2" "bbb")]); try done; [|by apply Hty| |].
    + cbn [List.find]. rewrite (named_key name "spacefoo1"), (named_key name "spacefoo2") by done.
      do 2 (case_bool_decide; [subst; by rewrite (game_set Hty)|]). done.
    + intros k. by rewrite Hk, (storeOf_run gameEvent "aaa" _ p' _ (fun v => OGame (spaceGame "spacefoo1" v)) "default/spacefoo1").
    + repeat constructor; apply Hty.
  - destruct (reflects_mock sch received s podGVK i) as (l & ch & [= <-] & [= <-] & Hk); [apply Hty|done..|].
    destruct (Hp 1 podEvent pusher_Start) as [p' Hrun]; [by right; left|].
    set (node := latest "ccc" _).
    rewrite (ic_Get_stored s podGVK i [OPod (spacePod "podfoo1" node)]); try done; [|by apply Hty| |].
    + cbn [List.find]. rewrite (named_key name "podfoo1") by done. case_bool_decide; [subst; by rewrite (pod_set Hty)|done].
    + intros k. by rewrite Hk, (storeOf_run podEvent "ccc" _ p' _ (fun v => OPod (spacePod "podfoo1" v)) "default/podfoo1").
    + repeat constructor; apply Hty.
Qed.
End reads.

(** ** A witness *)

(** The world is the number of events received from each channel; informers hold
    what the mock server sent. *)
Module SpaceDemo.
Definition received (ch : nat) (w : nat * nat) : list WatchEvent :=
  match ch with
  | 0 => (fun i => gameEvent (wrap_int (Z.of_nat i))) <$> seq 1 w.1
  | _ => (fun i => podEvent (wrap_int (Z.of_nat i))) <$> seq 1 w.2
  end.
Definition mockList (i : nat) : SpaceList :=
  match x_listKind (match i with 0 => "GameList" | _ => "PodList" end) with inr l => l | inl _ => LOther "" end.
#[export] Instance informer : InformerLib (nat * nat) SpaceObject := {|
  GetIndexer := fun i w => mkIndexer (fun k => inr (CObject <$> storeOf (mockList i) (received i w) !! k)) (fun _ _ => inr []) [];
  HasSynced := fun _ _ => true;
  WaitForCacheSync := fun _ w => (w, true);
  AddIndexers := fun _ _ _ w => (w, None);
  NewTimeoutError := fun _ => extError "Timeout" "" [];
  createListWatcher := fun _ _ w => (w, None);
|}.
#[export] Instance meta : MetaLib SpaceObject SpaceList := {|
  ExtractList := fun l => inr (list_items l); Accessor := fun o => inr (obj_key o)
|}.
#[export] Instance lib : CacheLib SpaceObject SpaceList := {|
  go_type := fun o => match o with OGame _ => "*v1alpha1.Game" | OPod _ => "*v1.Pod" end;
  SetGroupVersionKind := fun k o => match o with
    | OGame g => OGame (mkGame k (g_ObjectMeta g) (g_Spec g) (g_Status g))
    | OPod p => OPod (mkPod k (p_ObjectMeta p) (NodeName p)) end;
  ObjLabels := fun _ => ∅;
  GVKFor := fun o => inr (match o with OGame _ => gameGVK | OPod _ => podGVK end);
  GVKForList := fun _ => inr zeroGVK;
  listElement := fun _ => inl (errors_New "");
  SetList := fun l _ => inr l;
  NewNotFound := fun g k n => extError "NotFound" n [];
|}.
Definition new (g : GVK) : error + SpaceList :=
  if bool_decide (gvk_Kind g = "GameList") then inr (LGame (mkGameList "" [])) else inr (LPod (mkPodList "" [])).
Definition convert (l : SpaceList) : error + string :=
  inr (match l with LGame _ => "GameList" | LPod _ => "PodList" | LOther k => k end).
Lemma types : space_types new (fun l => l) convert.
Proof. split; try done; eexists; done. Qed.

(** Both kinds are asked for, then the cache starts, and everyone goes on. *)
Definition final := schedule [0; 0; 1; 1; 2; 0; 1] (threads [gameGVK; podGVK], fresh "default" (3, 0)).
Lemma final_reflects : reflects (createSpaceCache (W := nat * nat) new (fun l => l) "scheme" convert).2 received final.2.
Proof.
  intros g i Hi _. destruct (schedule_inv "default" (3, 0) [gameGVK; podGVK] [0; 0; 1; 1; 2; 0; 1]) as [Hinv _].
  destruct (inv_entries _ _ Hinv g i Hi) as [Hc _]. change (created _) with [gameGVK; podGVK] in Hc.
  destruct (Informer i) as [|[|n]] eqn:Hn; cbn in Hc; simplify_eq; eexists _, _, _, _, (0, 0), _, _; done.
Qed.
End SpaceDemo.
Import SpaceDemo.

Lemma space_cache_reads_witness :
  ic_Get (OList := SpaceList) (mkNN "default" "spacefoo1") (OGame (spaceGame "" "")) final.2 =
    (final.2, (OGame (mkGame gameGVK (mkNN "default" "spacefoo1") (mkGameSpec "aaa3") (mkGameStatus [])), None)) /\
  ic_Get (OList := SpaceList) (mkNN "default" "podfoo1") (OPod (spacePod "" "")) final.2 =
    (final.2, (OPod (mkPod podGVK (mkNN "default" "podfoo1") "ccc"), None)).
Proof.
  assert (forall mk n, exists p, pusher_run mk ((fun i => mk (wrap_int (Z.of_nat i))) <$> seq 1 n) p) as Hrun.
  { intros mk n. destruct (pusher_lives mk n) as (evs & p & Hr & _ & Hl). exists p. rewrite <- Hl.
    destruct (pusher_run_inv mk evs p Hr) as [He _]. rewrite <- He. exact Hr. }
  destruct (space_cache_reads new (fun l => l) convert "scheme" (3, 0) [gameGVK; podGVK] [0; 0; 1; 1; 2; 0; 1] final.1 final.2 received
    types (surjective_pairing final) eq_refl final_reflects) as [Hg Hp].
  - intros ch mk p Hin. apply elem_of_cons in Hin as [[= -> -> ->]|Hin]; [apply Hrun|].
    apply elem_of_cons in Hin as [[= -> -> ->]|Hin]; [apply Hrun|by apply elem_of_nil in Hin].
  - split; [exact (Hg _ _ "spacefoo1" eq_refl eq_refl)|exact (Hp _ _ "podfoo1" eq_refl eq_refl)].
Defined.
