(* ===== verification/CertLifecycle.v ===== *)
(** The life of a webhook certificate: the certificate manager of [CertManager]
    with the secret writer of [Cert] over any number of refreshes, and any generator
    that keeps a promise.

    The cluster, the disk and the generator work ([cluster], [issuing]): calls
    succeed and do what they are documented to do.  What the manager sees of the
    world is a [View]: the secret, the webhook configurations and the files. *)
From S2P Require Import Prelude Cert CertManager.

(** ** What the manager sees *)

Inductive Kind := KMutating | KValidating | KCRD.
#[global] Instance Kind_eq_dec : EqDecision Kind.
Proof. solve_decision. Defined.
#[global] Instance Kind_countable : Countable Kind.
Proof.
  refine (inj_countable' (fun k => match k with KMutating => 0 | KValidating => 1 | KCRD => 2 end)
    (fun n => match n with 0 => KMutating | 1 => KValidating | _ => KCRD end) _).
  by intros [].
Defined.
Abbreviation Ref := (Kind * NamespacedName)%type.

(** The reference of an object, and an object that can be injected into: of a
    supported kind, and a CRD with a client config. *)
Definition obj_ref (o : WhObject) : option Ref :=
  match o with
  | MutatingWebhookConfiguration k _ => Some (KMutating, k)
  | ValidatingWebhookConfiguration k _ => Some (KValidating, k)
  | CustomResourceDefinition k _ => Some (KCRD, k)
  | OtherObject _ => None
  end.
Definition injectable (o : WhObject) : bool :=
  match o with
  | CustomResourceDefinition _ (Some (Some (Some _))) => true
  | CustomResourceDefinition _ _ | OtherObject _ => false
  | _ => true
  end.

Record View := mkView {
  v_secret : option (gmap string string); v_objs : gmap Ref WhObject; v_files : gmap string string;
}.
Definition with_secret (v : View) (d : option (gmap string string)) : View := mkView d (v_objs v) (v_files v).
Definition with_objs (v : View) (os : gmap Ref WhObject) : View := mkView (v_secret v) os (v_files v).
Definition with_files (v : View) (fs : gmap string string) : View := mkView (v_secret v) (v_objs v) fs.

(** ** Injection and updates *)

Definition setBundle (ca : string) (o : WhObject) : WhObject :=
  match o with
  | MutatingWebhookConfiguration k whs => MutatingWebhookConfiguration k (injectWebhooks ca whs)
  | ValidatingWebhookConfiguration k whs => ValidatingWebhookConfiguration k (injectWebhooks ca whs)
  | CustomResourceDefinition k (Some (Some (Some _))) => CustomResourceDefinition k (Some (Some (Some ca)))
  | _ => o
  end.

Lemma setBundle_ref ca o : obj_ref (setBundle ca o) = obj_ref o.
Proof. by destruct o as [| |? [[[]|]|]|]. Qed.
Lemma setBundle_injectable ca o : injectable (setBundle ca o) = injectable o.
Proof. by destruct o as [| |? [[[]|]|]|]. Qed.
Lemma setBundle_bundles ca o : injectable o -> Forall (eq ca) (bundles (setBundle ca o)).
Proof. destruct o as [| |? [[[]|]|]|]; cbn; try done; intros _; try apply injectWebhooks_bundles. by constructor. Qed.
Lemma setBundle_same ca o : Forall (eq ca) (bundles o) -> setBundle ca o = o.
Proof.
  assert (forall whs, Forall (eq ca) (wh_CABundle <$> whs) -> injectWebhooks ca whs = whs) as Hw.
  { intros whs Hf. induction whs as [|[r b] whs IH]; [done|]. cbn in *. apply Forall_cons in Hf as [<- Hf]. f_equal. by apply IH. }
  destruct o as [k whs|k whs|k [[[b|]|]|]|g]; cbn; intros Hf; try done; try by rewrite Hw.
  by apply Forall_singleton in Hf as <-.
Qed.

Lemma inject_loop_run ca objs : Forall injectable objs -> inject_loop ca objs = Done (setBundle ca <$> objs, None).
Proof.
  induction 1 as [|o objs Ho _ IH]; [done|]. cbn [inject_loop]. rewrite IH. by destruct o as [| |? [[[]|]|]|].
Qed.

(** The objects after a batch of updates. *)
Definition store (objs : list WhObject) (os : gmap Ref WhObject) : gmap Ref WhObject :=
  foldl (fun os o => match obj_ref o with Some r => <[r := o]> os | None => os end) os objs.

Lemma store_app l1 l2 os : store (l1 ++ l2) os = store l2 (store l1 os).
Proof. apply foldl_app. Qed.

Lemma store_spec objs os r : store objs os !! r = os !! r /\ r ∉ omap obj_ref objs \/
  exists o, o ∈ objs /\ obj_ref o = Some r /\ store objs os !! r = Some o.
Proof.
  induction objs as [|o objs IH] using rev_ind; [left; split; [done|apply not_elem_of_nil]|].
  rewrite store_app. cbn. destruct (obj_ref o) as [r'|] eqn:Ho.
  - destruct (decide (r' = r)) as [->|Hr].
    + right. exists o. rewrite lookup_insert_eq. set_solver.
    + rewrite lookup_insert_ne by done. rewrite omap_app. cbn. rewrite Ho.
      destruct IH as [[-> Hn]|(o' & Hin & Ho' & ->)]; [left; set_solver|right; exists o'; set_solver].
  - rewrite omap_app. cbn. rewrite Ho.
    destruct IH as [[-> Hn]|(o' & Hin & Ho' & ->)]; [left; set_solver|right; exists o'; set_solver].
Qed.

Lemma store_same objs os : (forall o r, o ∈ objs -> obj_ref o = Some r -> os !! r = Some o) -> store objs os = os.
Proof.
  induction objs as [|o objs IH]; [done|]. intros Ho. cbn. destruct (obj_ref o) as [r|] eqn:Hr.
  - rewrite insert_id by (apply Ho; set_solver). apply IH. set_solver.
  - apply IH. set_solver.
Qed.

(** ** The common bundle *)

(** After comparing objects all of whose bundles are [B]: the common bundle is
    [B], or still empty when no bundle was seen. *)
Definition common_of (B b : string) (seen : list string) : Prop := b = B \/ b = "" /\ seen = [].

Lemma compareCABundles_eq B b seen : common_of B b seen -> compareCABundles b B = (B, false).
Proof.
  unfold compareCABundles. intros [->|[-> _]].
  - by repeat case_bool_decide.
  - rewrite (bool_decide_true (String.length "" = 0)) by done. by rewrite bool_decide_true.
Qed.

Lemma compareWebhooks_eq B whs : forall b seen, Forall (eq B) (wh_CABundle <$> whs) -> common_of B b seen ->
  exists b', compareWebhooks whs b false = (b', false) /\ common_of B b' (seen ++ (wh_CABundle <$> whs)).
Proof.
  induction whs as [|wh whs IH]; intros b seen Hf Hb; cbn.
  - exists b. by rewrite app_nil_r.
  - apply Forall_cons in Hf as [<- Hf]. rewrite (compareCABundles_eq _ _ seen) by done. cbn.
    destruct (IH B [B] Hf) as (b' & -> & [->|[_ ?]]); [by left| |done].
    eexists. split; [done|]. by left.
Qed.

Section collect.
Context {W : Type} (cl : ManagerClient W) (w : W).

(** Reading configurations that are there. *)
Lemma collectWebhooks_run get mk (whs : NamespacedName -> list Webhook) refs : forall configs b d,
  (forall nn, nn ∈ refs -> get nn w = (w, inr (whs nn))) ->
  exists b' d', collectWebhooks get mk refs (configs, b, d) w = (w, inr (configs ++ ((fun nn => mk nn (whs nn)) <$> refs), b', d')) /\
    forall B seen, d = false -> common_of B b seen -> Forall (fun nn => Forall (eq B) (wh_CABundle <$> whs nn)) refs ->
      d' = false /\ common_of B b' (seen ++ concat ((fun nn => wh_CABundle <$> whs nn) <$> refs)).
Proof.
  induction refs as [|nn refs IH]; intros configs b d Hg; cbn.
  { exists b, d. rewrite app_nil_r. split; [done|]. intros B seen -> Hb _. by rewrite app_nil_r. }
  unfold mbind, M_bind. rewrite Hg by set_solver. destruct (compareWebhooks (whs nn) b d) as [b1 d1] eqn:Hc.
  destruct (IH (configs ++ [mk nn (whs nn)]) b1 d1) as (b' & d' & -> & Hb'); [set_solver|].
  exists b', d'. rewrite <- app_assoc. split; [done|]. intros B seen -> Hb Hf. apply Forall_cons in Hf as [Hf1 Hf].
  destruct (compareWebhooks_eq B _ b seen Hf1 Hb) as (b2 & Hc2 & Hb2). rewrite Hc in Hc2. injection Hc2 as -> ->.
  rewrite app_assoc. by apply Hb'.
Qed.

Lemma collectCRDs_run (bundle : NamespacedName -> string) refs : forall configs b d,
  (forall nn, nn ∈ refs -> getCRD cl nn w = (w, inr (Some (Some (Some (bundle nn)))))) ->
  exists b', collectCRDs cl refs (configs, b, d) w =
    (w, inr (configs ++ ((fun nn => CustomResourceDefinition nn (Some (Some (Some (bundle nn))))) <$> refs), b', d)) /\
    forall B seen, common_of B b seen -> Forall (fun nn => bundle nn = B) refs -> common_of B b' (seen ++ (bundle <$> refs)).
Proof.
  induction refs as [|nn refs IH]; intros configs b d Hg; cbn.
  { exists b. rewrite !app_nil_r. split; [done|]. intros B seen Hb _. by rewrite app_nil_r. }
  unfold mbind, M_bind. rewrite Hg by set_solver. destruct (compareCABundles b (bundle nn)) as [b1 d1] eqn:Hc.
  destruct (IH (configs ++ [CustomResourceDefinition nn (Some (Some (Some (bundle nn))))]) b1 d) as (b' & -> & Hb'); [set_solver|].
  exists b'. rewrite <- app_assoc. split; [done|]. intros B seen Hb Hf. apply Forall_cons in Hf as [<- Hf].
  rewrite (compareCABundles_eq _ _ seen) in Hc by done. injection Hc as <- <-.
  change (bundle nn :: (bundle <$> refs)) with ([bundle nn] ++ (bundle <$> refs)).
  destruct (Hb' (bundle nn) [bundle nn]) as [->|[_ ?]]; [by left|done|by left|done].
Qed.
End collect.

(** ** The environment *)

Section lifecycle.
Context `{NetLib} `{ErrorLib} `{CryptoLib} {W : Type}.
Context (host : HostOS W) (m : Options (W := W)) (gen : CertGenerator W) (clock : W -> Z) (ref : NamespacedName) (dns : string).
Context (view : W -> View) (good : W -> Prop) (issued : W -> Artifacts -> Prop).

Definition certPath : string := Join host (CertDir m) (CertName m).
Definition keyPath : string := Join host (CertDir m) (KeyName m).
Definition refs : list Ref :=
  (pair KMutating <$> MutatingWebhookConfigRefs m) ++ (pair KValidating <$> ValidatingWebhookConfigRefs m) ++ (pair KCRD <$> CRDRefs m).
Definition writer : secretCertWriter W := mkSecretCertWriter (secrets (mgr_Client m)) gen ref.
Definition stored (w : W) (c : Artifacts) : Prop := v_secret (view w) = sec_Data (certsToSecret c ref).

(** A step of the world that changes what is seen as given, keeps the generator
    working and forgets no certificate it issued. *)
Definition moves (w w' : W) (v : View) : Prop :=
  view w' = v /\ (good w -> good w') /\ forall c, issued w c -> issued w' c.

(** A cluster and a disk that work; reading does not change the world. *)
Record cluster : Prop := {
  read_mutating : forall nn whs w, v_objs (view w) !! (KMutating, nn) = Some (MutatingWebhookConfiguration nn whs) ->
    getMutating (mgr_Client m) nn w = (w, inr whs);
  read_validating : forall nn whs w, v_objs (view w) !! (KValidating, nn) = Some (ValidatingWebhookConfiguration nn whs) ->
    getValidating (mgr_Client m) nn w = (w, inr whs);
  read_crd : forall nn conv w, v_objs (view w) !! (KCRD, nn) = Some (CustomResourceDefinition nn conv) ->
    getCRD (mgr_Client m) nn w = (w, inr conv);
  update_object : forall o r w, obj_ref o = Some r -> is_Some (v_objs (view w) !! r) ->
    exists w', update (mgr_Client m) o w = (w', None) /\ moves w w' (with_objs (view w) (<[r := o]> (v_objs (view w))));
  read_secret : forall w d e, v_secret (view w) = Some d ->
    secGet (secrets (mgr_Client m)) ref e w = (w, (mkSecret ref (Some d), None));
  read_no_secret : forall w e, v_secret (view w) = None ->
    exists x, secGet (secrets (mgr_Client m)) ref e w = (w, (e, Some x)) /\ IsNotFound x = true;
  create_secret : forall w c, v_secret (view w) = None ->
    exists w', secCreate (secrets (mgr_Client m)) (certsToSecret c ref) w = (w', None) /\
      moves w w' (with_secret (view w) (sec_Data (certsToSecret c ref)));
  update_secret : forall w c, is_Some (v_secret (view w)) ->
    exists w', secUpdate (secrets (mgr_Client m)) (certsToSecret c ref) w = (w', None) /\
      moves w w' (with_secret (view w) (sec_Data (certsToSecret c ref)));
  stat_file : forall p w, is_Some (v_files (view w) !! p) -> Stat host p w = (w, None);
  stat_no_file : forall p w, v_files (view w) !! p = None -> exists e, Stat host p w = (w, Some e);
  make_dir : forall d w, exists w', MkdirAll host d w = (w', None) /\ moves w w' (view w);
  write_file : forall p d w, exists w', WriteFile host p d w = (w', None) /\
    moves w w' (with_files (view w) (<[p := d]> (v_files (view w))));
}.

(** What the manager needs of a generator.  [good] is an invariant of the
    generator, [issued] holds of the certificates it made: it issues certificates
    that are valid when it is asked for them, and can be given the CA of one. *)
Record issuing : Prop := {
  generate : forall w, good w -> exists w' c, Generate gen dns w = (w', inr c) /\ moves w w' (view w) /\
    issued w' c /\ validCert (clock w) (Some c) dns = true;
  set_CA : forall w c, good w -> issued w c -> exists w', SetCA gen (art_CAKey c) (art_CACert c) w = (w', tt) /\
    moves w w' (view w) /\ clock w' = clock w;
}.
Context (Henv : cluster) (Hgen : issuing).

Lemma moves_trans w1 w2 w3 v1 v2 : moves w1 w2 v1 -> moves w2 w3 v2 -> moves w1 w3 v2.
Proof. intros (_ & Hg1 & Hi1) (Hv & Hg2 & Hi2). split; [exact Hv|]. split; auto. Qed.
Lemma moves_refl w : moves w w (view w).
Proof. done. Qed.

(** *** Ensuring the certificate *)

Lemma scw_read_stored w c : good w -> stored w c -> issued w c -> 
  exists w', scw_read writer w = (w', (Some c, None)) /\ moves w w' (view w) /\ clock w' = clock w.
Proof.
  intros Hg Hs Hi. unfold scw_read, mbind, M_bind, writer. cbn [scw_Client scw_Secret].
  unfold stored in Hs. cbn in Hs. rewrite (read_secret Henv _ _ _ Hs).
  change (mkSecret ref (Some _)) with (certsToSecret c ref). rewrite secret_roundtrip. unfold storeCA, mbind, M_bind. cbn.
  destruct (set_CA Hgen w c Hg Hi) as (w' & -> & Hm). by exists w'.
Qed.

Lemma with_secret_same w c : stored w c -> with_secret (view w) (sec_Data (certsToSecret c ref)) = view w.
Proof. unfold stored. intros <-. by destruct (view w). Qed.

(** A new certificate is made and put into the secret. *)
Definition renewed (w w' : W) (c : Artifacts) : Prop :=
  moves w w' (with_secret (view w) (sec_Data (certsToSecret c ref))) /\ issued w' c /\ validCert (clock w) (Some c) dns = true.

Lemma scw_write_run w : good w -> v_secret (view w) = None ->
  exists w' c, scw_write writer dns w = (w', (Some c, None)) /\ renewed w w' c.
Proof.
  intros Hg Hs. unfold scw_write, buildSecret, mbind, M_bind, renewed. change (scw_CertGenerator writer) with gen.
  change (scw_Client writer) with (secrets (mgr_Client m)). change (scw_Secret writer) with ref.
  destruct (generate Hgen w Hg) as (w1 & c & -> & Hm1 & Hi1 & Hv). cbn [mret M_ret]. pose proof (proj1 Hm1) as Hv1. 
  destruct (create_secret Henv w1 c) as (w2 & Hc & Hm2); [by rewrite Hv1|]. cbn -[certsToSecret]. rewrite Hc.
  exists w2, c. rewrite Hv1 in Hm2. split; [done|]. split_and!; [by eapply moves_trans|by apply Hm2|done].
Qed.

Lemma scw_overwrite_run w : good w -> is_Some (v_secret (view w)) ->
  exists w' c, scw_overwrite writer dns w = (w', (Some c, None)) /\ renewed w w' c.
Proof.
  intros Hg Hs. unfold scw_overwrite, buildSecret, mbind, M_bind, renewed. change (scw_CertGenerator writer) with gen.
  change (scw_Client writer) with (secrets (mgr_Client m)). change (scw_Secret writer) with ref.
  destruct (generate Hgen w Hg) as (w1 & c & -> & Hm1 & Hi1 & Hv). cbn [mret M_ret]. pose proof (proj1 Hm1) as Hv1. 
  destruct (update_secret Henv w1 c) as (w2 & Hc & Hm2); [by rewrite Hv1|]. cbn -[certsToSecret]. rewrite Hc.
  exists w2, c. rewrite Hv1 in Hm2. split; [done|]. split_and!; [by eapply moves_trans|by apply Hm2|done].
Qed.

Lemma stored_inj w c c' : stored w c -> stored w c' -> c' = c.
Proof.
  unfold stored. intros -> Hs. assert (Some c' = Some c) as [= ->]; [|done].
  rewrite <- (secret_roundtrip c' ref), <- (secret_roundtrip c ref). unfold secretToCerts. by rewrite Hs.
Qed.

Lemma EnsureCert_run w : dns <> "" -> good w -> (v_secret (view w) = None \/ exists c, stored w c /\ issued w c) ->
  exists w' c ch, scw_EnsureCert (clock w) writer dns w = (w', (Some c, ch, None)) /\ renewed w w' c /\
    (ch = false -> stored w c) /\
    forall c0, stored w c0 -> validCert (clock w) (Some c0) dns = true -> c = c0 /\ ch = false.
Proof.
  intros Hd Hg Hs. unfold scw_EnsureCert, handleCommon, createIfNotExists, mbind, M_bind.
  rewrite bool_decide_false by (by destruct dns). cbn [read write overwrite].
  destruct Hs as [Hs|(c0 & Hs & Hi)].
  - unfold scw_read, mbind, M_bind. change (scw_Client writer) with (secrets (mgr_Client m)). change (scw_Secret writer) with ref.
    destruct (read_no_secret Henv w (mkSecret (mkNN "" "") None) Hs) as (x & -> & ->).
    unfold mret at 1, M_ret at 1. change (isNotFound (Some (notFoundError x))) with true. cbn -[scw_write].
    destruct (scw_write_run w Hg Hs) as (w1 & c & -> & Hr). cbn. unfold mret, M_ret. rewrite (proj2 (proj2 Hr)).
    exists w1, c, true. split; [done|]. split; [done|]. split; [done|]. unfold stored. by rewrite Hs.
  - destruct (scw_read_stored w c0 Hg Hs Hi) as (w1 & -> & Hm1 & Hc1). cbn -[scw_overwrite]. unfold mret, M_ret.
    destruct (validCert (clock w) (Some c0) dns) eqn:Hv; cbn -[scw_overwrite].
    + exists w1, c0, false. split; [done|]. unfold renewed. rewrite with_secret_same by done. split; [split_and!; [done|by apply Hm1|done]|].
      split; [done|]. intros c' ->%(stored_inj w c0) _; done.
    + pose proof Hm1 as (Hv1 & Hg1 & _). destruct (scw_overwrite_run w1) as (w2 & c & -> & Hm2 & Hi2 & Hc2);
        [auto|unfold stored in Hs; rewrite Hv1, Hs; by eexists|].
      exists w2, c, true. split; [done|]. rewrite Hv1 in Hm2. rewrite Hc1 in Hc2. split.
      * split_and!; [by eapply moves_trans|done|done].
      * split; [done|]. intros c' ->%(stored_inj w c0); [|done]. by rewrite Hv.
Qed.

(** *** Reading and writing the configurations *)

Definition configured (w : W) : Prop := forall r, r ∈ refs ->
  exists o, v_objs (view w) !! r = Some o /\ obj_ref o = Some r /\ injectable o.
Definition readObjs (w : W) : list WhObject := omap (fun r => v_objs (view w) !! r) refs.

Lemma omap_pair (os : gmap Ref WhObject) k (f : NamespacedName -> WhObject) (l : list NamespacedName) :
  (forall nn, nn ∈ l -> os !! (k, nn) = Some (f nn)) -> omap (fun r => os !! r) (pair k <$> l) = f <$> l.
Proof.
  induction l as [|nn l IH]; intros Hl; cbn; [done|]. rewrite Hl by set_solver. f_equal. apply IH. set_solver.
Qed.

(** The configurations of a world, by kind. *)
Definition mutatingOf (w : W) (nn : NamespacedName) : list Webhook :=
  match v_objs (view w) !! (KMutating, nn) with Some (MutatingWebhookConfiguration _ whs) => whs | _ => [] end.
Definition validatingOf (w : W) (nn : NamespacedName) : list Webhook :=
  match v_objs (view w) !! (KValidating, nn) with Some (ValidatingWebhookConfiguration _ whs) => whs | _ => [] end.
Definition crdOf (w : W) (nn : NamespacedName) : string :=
  match v_objs (view w) !! (KCRD, nn) with Some (CustomResourceDefinition _ (Some (Some (Some b)))) => b | _ => "" end.

Lemma configured_kinds w : configured w ->
  (forall nn, nn ∈ MutatingWebhookConfigRefs m ->
     v_objs (view w) !! (KMutating, nn) = Some (MutatingWebhookConfiguration nn (mutatingOf w nn))) /\
  (forall nn, nn ∈ ValidatingWebhookConfigRefs m ->
     v_objs (view w) !! (KValidating, nn) = Some (ValidatingWebhookConfiguration nn (validatingOf w nn))) /\
  (forall nn, nn ∈ CRDRefs m ->
     v_objs (view w) !! (KCRD, nn) = Some (CustomResourceDefinition nn (Some (Some (Some (crdOf w nn)))))).
Proof.
  intros Hc. unfold mutatingOf, validatingOf, crdOf. split_and!; intros nn Hn.
  - destruct (Hc (KMutating, nn)) as (o & -> & Hr & _); [unfold refs; set_solver|]. by destruct o; simplify_eq/=.
  - destruct (Hc (KValidating, nn)) as (o & -> & Hr & _); [unfold refs; set_solver|]. by destruct o; simplify_eq/=.
  - destruct (Hc (KCRD, nn)) as (o & -> & Hr & Hi); [unfold refs; set_solver|].
    by destruct o as [| |? [[[]|]|]|]; simplify_eq/=.
Qed.

Lemma readObjs_kinds w : configured w -> readObjs w =
  ((fun nn => MutatingWebhookConfiguration nn (mutatingOf w nn)) <$> MutatingWebhookConfigRefs m) ++
  ((fun nn => ValidatingWebhookConfiguration nn (validatingOf w nn)) <$> ValidatingWebhookConfigRefs m) ++
  ((fun nn => CustomResourceDefinition nn (Some (Some (Some (crdOf w nn))))) <$> CRDRefs m).
Proof.
  intros (HM & HV & HC)%configured_kinds. unfold readObjs, refs. rewrite !omap_app.
  by rewrite (omap_pair _ _ _ _ HM), (omap_pair _ _ _ _ HV), (omap_pair _ _ _ _ HC).
Qed.

Lemma collectConfigs_run w : configured w ->
  exists common d, collectConfigs m w = (w, inr (readObjs w, common, d)) /\
    forall B, Forall (fun o => Forall (eq B) (bundles o)) (readObjs w) -> common_of B common (concat (bundles <$> readObjs w)).
Proof.
  intros Hc. rewrite (readObjs_kinds w Hc). apply configured_kinds in Hc as (HM & HV & HC).
  unfold collectConfigs, mbind, M_bind.
  destruct (collectWebhooks_run w (getMutating (mgr_Client m)) MutatingWebhookConfiguration (mutatingOf w)
    (MutatingWebhookConfigRefs m) [] "" false) as (b1 & d1 & -> & H1'); [intros nn Hn; by apply (read_mutating Henv), HM|].
  match goal with |- context [collectWebhooks _ _ _ (?l, _, _)] =>
    destruct (collectWebhooks_run w (getValidating (mgr_Client m)) ValidatingWebhookConfiguration (validatingOf w)
      (ValidatingWebhookConfigRefs m) l b1 d1) as (b2 & d2 & -> & H2') end;
    [intros nn Hn; by apply (read_validating Henv), HV|].
  match goal with |- context [collectCRDs _ _ (?l, _, _)] =>
    destruct (collectCRDs_run (mgr_Client m) w (crdOf w) (CRDRefs m) l b2 d2) as (b3 & -> & H3') end;
    [intros nn Hn; by apply (read_crd Henv), HC|].
  exists b3, d2. rewrite <- app_assoc. split; [done|]. intros B. rewrite !Forall_app, !Forall_fmap. intros (F1 & F2 & F3).
  destruct (H1' B [] eq_refl (or_intror (conj eq_refl eq_refl)) F1) as [-> C1].
  destruct (H2' B _ eq_refl C1 F2) as [-> C2]. rewrite !fmap_app, !concat_app, <- !list_fmap_compose.
  eapply (eq_ind _ (common_of B b3)); [apply (H3' B _ C2)|].
  - eapply Forall_impl; [exact F3|]. cbn. intros nn Hf. by inversion Hf.
  - rewrite <- app_assoc. cbn. f_equal. f_equal. clear. induction (CRDRefs m) as [|nn l IH]; cbn; [done|]. f_equal. exact IH.
Qed.

Lemma batchUpdate_run objs : forall w, (forall o, o ∈ objs -> exists r, obj_ref o = Some r /\ is_Some (v_objs (view w) !! r)) ->
  exists w', batchUpdate (mgr_Client m) objs w = (w', None) /\ moves w w' (with_objs (view w) (store objs (v_objs (view w)))).
Proof.
  induction objs as [|o objs IH]; intros w Ho; cbn [batchUpdate].
  { exists w. split; [done|]. split; [by destruct (view w)|done]. }
  unfold mbind, M_bind. destruct (Ho o) as (r & Hr & Hs); [set_solver|].
  destruct (update_object Henv o r w Hr Hs) as (w1 & -> & Hm1). pose proof (proj1 Hm1) as Hv1.
  destruct (IH w1) as (w2 & -> & Hm2).
  { intros o' Hin. destruct (Ho o') as (r' & Hr' & Hs'); [set_solver|]. exists r'. split; [done|]. rewrite Hv1. cbn.
    destruct (decide (r = r')) as [->|Hne]; [rewrite lookup_insert_eq; by eexists|by rewrite lookup_insert_ne]. }
  exists w2. split; [done|]. cbn. rewrite Hr. rewrite Hv1 in Hm2. by eapply moves_trans.
Qed.


(** *** A refresh *)

(** The manager uses the secret writer, and its options name the server [dns]. *)
Record managed : Prop := {
  managed_writer : mgr_CertWriter m = Some (secretWriter clock writer);
  managed_secret : SecretRef m = Some ref;
  managed_config : exists cc, getClientConfig m = inr cc /\
    forall b, dnsNameFromClientConfig (Some (mkClientConfig (cc_Service cc) (cc_URL cc) b)) = inr dns;
  managed_dns : dns <> "";
  managed_paths : certPath <> keyPath;
}.
Context (Hmg : managed).

Definition on_disk (w : W) (c : Artifacts) : Prop :=
  v_files (view w) !! certPath = Some (art_Cert c) /\ v_files (view w) !! keyPath = Some (art_Key c).
Definition files_exist (w : W) : Prop := is_Some (v_files (view w) !! certPath) /\ is_Some (v_files (view w) !! keyPath).
Definition trusted (w : W) (bundle : string) : Prop :=
  forall r, r ∈ refs -> exists o, v_objs (view w) !! r = Some o /\ Forall (eq bundle) (bundles o).
(** Some configuration has a webhook. *)
Definition has_webhook (w : W) : Prop := concat (bundles <$> readObjs w) <> [].

(** Server certificate, trust and files are as they should be at time [t]. *)
Definition served (t : Z) (w : W) : Prop := exists c bundle,
  stored w c /\ validCert t (Some c) dns = true /\ on_disk w c /\ trusted w bundle /\ bytes_Contains bundle (art_CACert c) = true.

(** What the world must be for the manager to start: a working generator, the
    configurations present, and a secret that is absent or holds a certificate of
    the generator, which the files on disk, if there are any, are those of. *)
Definition ready (w : W) : Prop := good w /\ configured w /\
  (v_secret (view w) = None \/ exists c, stored w c /\ issued w c /\ (files_exist w -> on_disk w c)).

Lemma readObjs_spec w o : configured w -> o ∈ readObjs w -> exists r, r ∈ refs /\ v_objs (view w) !! r = Some o /\ obj_ref o = Some r /\ injectable o.
Proof.
  intros Hc (r & Hr & Ho)%list_elem_of_omap. destruct (Hc r Hr) as (o' & Ho' & Hr' & Hi). exists r.
  rewrite Ho in Ho'. by simplify_eq.
Qed.

(** The configurations after a refresh. *)
Definition injected (w : W) (bundle : string) : gmap Ref WhObject := store (setBundle bundle <$> readObjs w) (v_objs (view w)).

Lemma injected_lookup w bundle r : configured w -> r ∈ refs ->
  exists o, injected w bundle !! r = Some o /\ obj_ref o = Some r /\ injectable o /\ Forall (eq bundle) (bundles o).
Proof.
  intros Hc Hr. destruct (Hc r Hr) as (o & Ho & Hor & Hi).
  assert (o ∈ readObjs w) as Hin by (apply list_elem_of_omap; eauto).
  destruct (store_spec (setBundle bundle <$> readObjs w) (v_objs (view w)) r) as [[_ Hn]|(o' & Hin' & Hr' & Hl)].
  - destruct Hn. apply list_elem_of_omap. exists (setBundle bundle o). rewrite setBundle_ref. split; [|done].
    by apply list_elem_of_fmap_2.
  - apply list_elem_of_fmap in Hin' as (o2 & -> & Hin2). exists (setBundle bundle o2). split; [done|]. split; [done|].
    destruct (readObjs_spec w o2 Hc Hin2) as (_ & _ & _ & _ & Hi2). rewrite setBundle_injectable.
    split; [done|]. by apply setBundle_bundles.
Qed.

Lemma injected_same w bundle : configured w -> trusted w bundle -> injected w bundle = v_objs (view w).
Proof.
  intros Hc Ht. apply store_same. intros o r (o' & -> & Hin)%list_elem_of_fmap Hr.
  destruct (readObjs_spec w o' Hc Hin) as (r' & Hr' & Ho' & Hor & _). rewrite setBundle_ref, Hor in Hr. simplify_eq.
  destruct (Ht r Hr') as (o2 & Ho2 & Hf). rewrite Ho' in Ho2. simplify_eq. by rewrite setBundle_same.
Qed.

Lemma refreshCert_run w : good w -> configured w -> (v_secret (view w) = None \/ exists c, stored w c /\ issued w c) ->
  exists w' c ch bundle, refreshCert m w = Done (w', (ch, None)) /\
  moves w w' (mkView (sec_Data (certsToSecret c ref)) (injected w bundle) (v_files (view w))) /\ issued w' c /\
  validCert (clock w) (Some c) dns = true /\ bytes_Contains bundle (art_CACert c) = true /\ (ch = false -> stored w c) /\
  forall c0 b0, stored w c0 -> validCert (clock w) (Some c0) dns = true -> trusted w b0 ->
    bytes_Contains b0 (art_CACert c0) = true -> has_webhook w -> ch = false /\ c = c0 /\ bundle = b0.
Proof.
  intros Hg Hc Hs. destruct (managed_config Hmg) as (cc & Hcc & Hdns). unfold refreshCert. rewrite Hcc.
  destruct (collectConfigs_run w Hc) as (common & d & -> & Hcommon). rewrite (managed_writer Hmg). unfold Provision. rewrite Hdns.
  destruct (EnsureCert_run w) as (w1 & c & ch & He & (Hm1 & Hi1 & Hv1) & Hst1 & Hst); [apply Hmg|done|done|].
  cbn [EnsureCert secretWriter]. rewrite He. cbn [cc_CABundle cc_Service cc_URL]. set (bc := if negb _ then _ else _).
  assert (bytes_Contains bc.1 (art_CACert c) = true /\ (bc.2 = false -> ch = false)) as [Hb1 Hb2].
  { subst bc. destruct (bytes_Contains common (art_CACert c)) eqn:Hct; cbn; [done|]. by rewrite bytes_Contains_app. }
  assert (bytes_Contains common (art_CACert c) = true -> bc = (common, ch)) as Hbc by (subst bc; by intros ->).
  destruct bc as [bundle changed]. cbn in Hb1, Hb2. unfold inject. cbn [cc_CABundle].
  assert (Forall injectable (readObjs w)) as Hinj.
  { apply Forall_forall. intros o (_ & _ & _ & _ & Hi)%readObjs_spec; done. }
  rewrite inject_loop_run by done. cbn [Inject secretWriter mret M_ret]. pose proof (proj1 Hm1) as Hvw1.
  destruct (batchUpdate_run (setBundle bundle <$> readObjs w) w1) as (w2 & Hbu & Hm2).
  { intros o (o' & -> & Hin)%list_elem_of_fmap. destruct (readObjs_spec w o' Hc Hin) as (r & _ & Ho & Hr & _).
    exists r. rewrite setBundle_ref, Hvw1. cbn. eauto. }
  unfold mret, M_ret. rewrite Hbu. exists w2, c, changed, bundle. split; [done|].
  rewrite Hvw1 in Hm2. split; [by eapply moves_trans|]. split; [by apply Hm2|]. split; [done|]. split; [done|]. split.
  - intros ->. apply Hst1. auto.
  - intros c0 b0 Hs0 Hv0 Ht0 Hct0 Hw. destruct (Hst c0 Hs0 Hv0) as [-> ->].
    destruct (Hcommon b0) as [->|[_ ?]]; [|specialize (Hbc Hct0); by simplify_eq|done].
    apply Forall_forall. intros o (r & Hr & Ho & _)%readObjs_spec; [|done]. destruct (Ht0 r Hr) as (o2 & Ho2 & ?).
    rewrite Ho in Ho2. by simplify_eq.
Qed.

Lemma certExists_env w : certExists host m w = (w, bool_decide (files_exist w)).
Proof.
  unfold certExists, mbind, M_bind, files_exist. fold certPath keyPath. destruct (v_files (view w) !! certPath) as [c|] eqn:Hc.
  - rewrite (stat_file Henv) by by eexists. destruct (v_files (view w) !! keyPath) as [k|] eqn:Hk.
    + rewrite (stat_file Henv) by by eexists. rewrite bool_decide_true; [done|]. split; by eexists.
    + destruct (stat_no_file Henv keyPath w Hk) as [e ->]. by rewrite bool_decide_false by (by intros [_ []]).
  - destruct (stat_no_file Henv certPath w Hc) as [e ->]. by rewrite bool_decide_false by (by intros [[] _]).
Qed.

Lemma writeCertOnDisk_env w c : stored w c -> exists w', writeCertOnDisk host m w = Done (w', None) /\
  moves w w' (with_files (view w) (<[keyPath := art_Key c]> (<[certPath := art_Cert c]> (v_files (view w))))).
Proof.
  intros Hs. unfold writeCertOnDisk. rewrite (managed_secret Hmg). unfold stored in Hs. cbn in Hs.
  rewrite (read_secret Henv _ _ _ Hs). cbn [sec_Data default]. unfold mbind, M_bind.
  destruct (make_dir Henv (CertDir m) w) as (w1 & -> & Hm1). fold certPath keyPath.
  set (cert := default "" _). set (key := default "" _).
  assert (cert = art_Cert c /\ key = art_Key c) as [-> ->] by (split; subst cert key; by simplify_map_eq).
  destruct (write_file Henv certPath (art_Cert c) w1) as (w2 & -> & Hm2).
  destruct (write_file Henv keyPath (art_Key c) w2) as (w3 & -> & Hm3). exists w3. split; [done|].
  rewrite (proj1 Hm2), (proj1 Hm1) in Hm3. cbn in Hm3. eapply (moves_trans w w1); [done|]. by eapply (moves_trans w1 w2).
Qed.

(** A world after a refresh and with the certificate on disk. *)
Lemma refreshed w w' c bundle : configured w -> good w' -> issued w' c -> validCert (clock w) (Some c) dns = true ->
  bytes_Contains bundle (art_CACert c) = true -> stored w' c -> v_objs (view w') = injected w bundle -> on_disk w' c ->
  ready w' /\ served (clock w) w'.
Proof.
  intros Hc Hg Hi Hv Hct Hs Ho Hd. split.
  - split; [done|]. split; [|right; by exists c]. intros r Hr. rewrite Ho.
    destruct (injected_lookup w bundle r Hc Hr) as (o & ? & ? & ? & _). eauto.
  - exists c, bundle. split_and!; try done. intros r Hr. rewrite Ho.
    destruct (injected_lookup w bundle r Hc Hr) as (o & ? & _ & _ & ?). eauto.
Qed.

(** One run of the manager. *)
Lemma run_manager_env w : ready w -> exists w', run_manager host m w = Done (w', None) /\ ready w' /\ served (clock w) w'.
Proof.
  intros (Hg & Hc & Hs). unfold run_manager. rewrite certExists_env.
  destruct (refreshCert_run w Hg Hc) as (w1 & c & ch & bundle & -> & (Hvw1 & Hg1 & _) & Hi1 & Hv1 & Hct & Hch & _); [naive_solver|].
  destruct (ch || negb (bool_decide (files_exist w))) eqn:Hcond.
  - destruct (writeCertOnDisk_env w1 c) as (w2 & -> & Hvw2 & Hg2 & Hi2); [unfold stored; by rewrite Hvw1|].
    exists w2. split; [done|]. rewrite Hvw1 in Hvw2. cbn in Hvw2. apply (refreshed w w2 c bundle); auto.
    + unfold stored. by rewrite Hvw2.
    + by rewrite Hvw2.
    + unfold on_disk. rewrite Hvw2. cbn. rewrite lookup_insert_eq, lookup_insert_ne, lookup_insert_eq; [done|].
      intros ?. by apply (managed_paths Hmg).
  - apply orb_false_iff in Hcond as [-> Hf%negb_false_iff%bool_decide_eq_true]. specialize (Hch eq_refl).
    exists w1. split; [done|]. apply (refreshed w w1 c bundle); auto.
    + unfold stored. by rewrite Hvw1.
    + by rewrite Hvw1.
    + unfold on_disk. rewrite Hvw1. destruct Hs as [Hn|(c0 & Hs0 & _ & Hd)]; [unfold stored in Hch; by rewrite Hn in Hch|].
      rewrite (stored_inj w c0 c) by done. by apply Hd.
Qed.

(** While the stored certificate is valid and trusted, and there are files on
    disk, whatever they contain, a run changes nothing. *)
Lemma run_manager_stable w c bundle : good w -> configured w -> stored w c -> issued w c ->
  validCert (clock w) (Some c) dns = true -> trusted w bundle -> bytes_Contains bundle (art_CACert c) = true ->
  has_webhook w -> files_exist w -> exists w', run_manager host m w = Done (w', None) /\ moves w w' (view w).
Proof.
  intros Hg Hc Hs Hi Hv Ht Hct Hw Hf. unfold run_manager. rewrite certExists_env, bool_decide_true by done.
  destruct (refreshCert_run w) as (w1 & c1 & ch & b1 & -> & Hm1 & _ & _ & _ & _ & Hst); [done|done|naive_solver|].
  destruct (Hst c bundle) as (-> & -> & ->); try done. exists w1. split; [done|].
  rewrite injected_same in Hm1 by done. unfold stored in Hs. rewrite <- Hs in Hm1. by destruct (view w).
Qed.

(** *** The life of the manager *)

(** Waiting for a tick changes nothing the manager sees, but time passes. *)
Definition waits (wait : W -> W) : Prop := forall w, moves w (wait w) (view w).

Lemma ready_wait w wait : ready w -> waits wait -> ready (wait w).
Proof.
  intros (Hg & Hc & Hs) Hw. destruct (Hw w) as (Hv & Hg' & Hi). split; [auto|].
  unfold configured, stored, files_exist, on_disk in *. rewrite Hv. split; [done|]. naive_solver.
Qed.

Lemma refreshLoop_env ws : forall w, ready w -> Forall waits ws ->
  exists w', refreshLoop host m ws w = Done w' /\ ready w'.
Proof.
  induction ws as [|wait ws IH]; intros w Hr Hws; [by exists w|]. apply Forall_cons in Hws as [Hw Hws]. cbn [refreshLoop].
  destruct (run_manager_env (wait w)) as (w1 & -> & Hr1 & _); [by apply ready_wait|]. by apply IH.
Qed.

Lemma refreshLoop_app ws1 ws2 w w' : refreshLoop host m ws1 w = Done w' ->
  refreshLoop host m (ws1 ++ ws2) w = refreshLoop host m ws2 w'.
Proof.
  revert w. induction ws1 as [|wait ws1 IH]; intros w; cbn [refreshLoop app]; [by intros [= ->]|].
  destruct (run_manager host m (wait w)) as [[w1 e]| |]; [apply IH|done|done].
Qed.

(** Where calls succeed, a manager that starts without files on disk leaves,
    once it has started and after every one of any number of ticks, a certificate
    that was valid at that moment for six more months, the same in the secret and
    in the files of the server, and one bundle in all webhook configurations that
    contains its CA; time may pass as it likes between the ticks. *)
Lemma certificate_served ws w : ready w -> ~ files_exist w -> Forall waits ws ->
  exists w1 w2, Start host m w = Done (w1, (None, true)) /\ served (clock w) w1 /\
    refreshLoop host m ws w1 = Done w2 /\
    forall wait, waits wait -> exists w3, refreshLoop host m (ws ++ [wait]) w1 = Done w3 /\ served (clock (wait w2)) w3.
Proof.
  intros Hr Hf Hws. unfold Start. rewrite certExists_env, bool_decide_false by done.
  destruct (run_manager_env w Hr) as (w1 & -> & Hr1 & Hs1). destruct (refreshLoop_env ws w1 Hr1 Hws) as (w2 & Hl & Hr2).
  exists w1, w2. split_and!; try done. intros wait Hw. rewrite (refreshLoop_app _ _ _ _ Hl). cbn [refreshLoop].
  destruct (run_manager_env (wait w2)) as (w3 & -> & _ & Hs3); [by apply ready_wait|]. by exists w3.
Qed.

(** Files on disk that are not those of the stored certificate stay: as long
    as the certificate in the secret is valid and all configurations trust it, a
    run succeeds, changes nothing and leaves the old files to the server.  This
    is what follows an error between renewing the secret and writing the files. *)
Theorem stale_files_stay w c old bundle : good w -> configured w -> stored w c -> issued w c ->
  validCert (clock w) (Some c) dns = true -> trusted w bundle -> bytes_Contains bundle (art_CACert c) = true ->
  has_webhook w -> on_disk w old -> exists w', run_manager host m w = Done (w', None) /\ on_disk w' old /\ stored w' c.
Proof.
  intros Hg Hc Hs Hi Hv Ht Hct Hw Hd.
  destruct (run_manager_stable w c bundle) as (w' & Hrun & Hv' & _); try done; [destruct Hd; split; by eexists|].
  exists w'. unfold on_disk, stored in *. rewrite Hv'. done.
Qed.
End lifecycle.

(** ** A cluster in memory, and a witness *)

(** The world is the state of the generator and what the manager sees. *)
Module MemCluster.
Import RefErrors.
Definition NotFound : error := extError "NotFound" "" [].

Section memory.
Context {G : Type}.
Definition reading {A} (f : View -> A) : M (G * View) A := fun w => (w, f w.2).
Definition writing (f : View -> View) : M (G * View) err := fun '(g, v) => ((g, f v), None).
Definition memory : ManagerClient (G * View) :=
  mkManagerClient
    (fun nn => reading (fun v => match v_objs v !! (KMutating, nn) with
       | Some (MutatingWebhookConfiguration _ whs) => inr whs | _ => inl NotFound end))
    (fun nn => reading (fun v => match v_objs v !! (KValidating, nn) with
       | Some (ValidatingWebhookConfiguration _ whs) => inr whs | _ => inl NotFound end))
    (fun nn => reading (fun v => match v_objs v !! (KCRD, nn) with
       | Some (CustomResourceDefinition _ conv) => inr conv | _ => inl NotFound end))
    (mkSecretClient
       (fun nn s => reading (fun v => match v_secret v with Some d => (mkSecret nn (Some d), None) | None => (s, Some NotFound) end))
       (fun s => writing (fun v => with_secret v (sec_Data s))) (fun s => writing (fun v => with_secret v (sec_Data s))))
    (fun o => writing (fun v => match obj_ref o with Some r => with_objs v (<[r := o]> (v_objs v)) | None => v end)).
Definition memory_host : HostOS (G * View) :=
  mkHostOS (fun p => reading (fun v => match v_files v !! p with Some _ => None | None => Some NotFound end))
    (fun _ => writing id) (fun p d => writing (fun v => with_files v (<[p := d]> (v_files v))))
    (fun d f => d +:+ "/" +:+ f) "certs" 9443.

(** It works, for an invariant of the generator alone. *)
Context (good : G * View -> Prop) (issued : G * View -> Artifacts -> Prop).
Context (good_gen : forall g v v', good (g, v) -> good (g, v')) (issued_gen : forall g v v' c, issued (g, v) c -> issued (g, v') c).
Local Abbreviation view := (snd : G * View -> View).

Lemma writing_moves f w : exists w', writing f w = (w', None) /\ moves view good issued w w' (f (view w)).
Proof. destruct w as [g v]. eexists. split; [done|]. split; [done|]. eauto. Qed.

Lemma memory_cluster m ref : mgr_Client m = memory -> cluster memory_host m ref view good issued.
Proof.
  intros Hm. split; rewrite ?Hm; cbn; unfold reading.
  - intros nn whs w Hl. by rewrite Hl.
  - intros nn whs w Hl. by rewrite Hl.
  - intros nn whs w Hl. by rewrite Hl.
  - intros o r w Hr _. destruct (writing_moves (fun v => match obj_ref o with Some r => with_objs v (<[r := o]> (v_objs v)) | None => v end) w)
      as (w' & Hw & Hmv). exists w'. split; [done|]. by rewrite Hr in Hmv.
  - intros w d e Hl. by rewrite Hl.
  - intros w e Hl. rewrite Hl. by eexists.
  - intros w c _. apply writing_moves.
  - intros w c _. apply writing_moves.
  - intros p w [d Hl]. by rewrite Hl.
  - intros p w Hl. rewrite Hl. by eexists.
  - intros d w. apply writing_moves.
  - intros p d w. apply writing_moves.
Qed.
End memory.

(** Two configurations with a webhook. *)
Definition webhook_objs : gmap Ref WhObject :=
  {[(KMutating, mkNN "" "m") := MutatingWebhookConfiguration (mkNN "" "m") [mkWebhook "m" "CA"];
    (KValidating, mkNN "" "v") := ValidatingWebhookConfiguration (mkNN "" "v") [mkWebhook "v" "CA"]]}.
Definition secret_ref : NamespacedName := mkNN "ns" "cert".
End MemCluster.

Import RefErrors ManagerDemo CertDemo MemCluster.

(** A manager with the generator of [CertDemo], whose certificates are always
    valid, and a world with files of another certificate. *)
Definition demo_gen : CertGenerator (unit * View) :=
  mkCertGenerator (fun dns w => (w, inr (mkArtifacts dns dns "ca-key" "CA"))) (fun _ _ w => (w, tt)).
Definition demo_manager : Options (W := unit * View) :=
  mkOptions 0 (Some ("ns", "svc")) None 9443 [mkNN "" "m"] [mkNN "" "v"] [] memory
    (Some (secretWriter (fun _ => 0%Z) (mkSecretCertWriter (secrets memory) demo_gen secret_ref)))
    (Some secret_ref) "certs" "tls.crt" "tls.key" 0.
Definition current : Artifacts := mkArtifacts CertDemo.dns CertDemo.dns "ca-key" "CA".
Definition stale_world : unit * View :=
  (tt, mkView (sec_Data (certsToSecret current secret_ref)) webhook_objs
         {["certs/tls.crt" := "other"; "certs/tls.key" := "other"]}).

Lemma demo_issuing : issuing demo_gen (fun _ => 0%Z) CertDemo.dns snd (fun _ => True) (fun _ _ => True).
Proof. split; [|by eexists]. intros w _. eexists _, _. split; [reflexivity|]. split; [done|]. split; [done|]. vm_compute. reflexivity. Qed.
Lemma demo_managed : managed memory_host demo_manager demo_gen (fun _ => 0%Z) secret_ref CertDemo.dns.
Proof.
  split; [done|done| |discriminate|discriminate]. eexists. split; [reflexivity|]. reflexivity.
Qed.

Lemma stale_files_stay_witness : exists w', run_manager memory_host demo_manager stale_world = Done (w', None) /\
  on_disk memory_host demo_manager snd w' old /\ stored secret_ref snd w' current.
Proof.
  apply (stale_files_stay memory_host demo_manager demo_gen (fun _ => 0%Z) secret_ref CertDemo.dns snd (fun _ => True) (fun _ _ => True)
    (memory_cluster _ _ (fun _ _ _ _ => I) (fun _ _ _ _ _ => I) demo_manager secret_ref eq_refl) demo_issuing demo_managed
    stale_world current old "CA").
  - exact I.
  - intros r Hr. change (r ∈ [(KMutating, mkNN "" "m"); (KValidating, mkNN "" "v")]) in Hr. rewrite !elem_of_cons, elem_of_nil in Hr.
    destruct Hr as [->|[->|[]]]; eexists; (split; [vm_compute; reflexivity|]); done.
  - reflexivity.
  - exact I.
  - vm_compute. reflexivity.
  - intros r Hr. change (r ∈ [(KMutating, mkNN "" "m"); (KValidating, mkNN "" "v")]) in Hr. rewrite !elem_of_cons, elem_of_nil in Hr.
    destruct Hr as [->|[->|[]]]; eexists; (split; [vm_compute; reflexivity|]); repeat constructor.
  - vm_compute. reflexivity.
  - vm_compute. discriminate.
  - split; vm_compute; reflexivity.
Defined.

(** Without any webhook there is no bundle to find the CA in: every refresh
    reports a change, and the files are written again. *)
Definition bare_manager : Options (W := unit * View) :=
  mkOptions 0 (Some ("ns", "svc")) None 9443 [] [] [] memory
    (Some (secretWriter (fun _ => 0%Z) (mkSecretCertWriter (secrets memory) demo_gen secret_ref)))
    (Some secret_ref) "certs" "tls.crt" "tls.key" 0.
Example no_webhooks_always_changed : refreshCert bare_manager stale_world = Done (stale_world, (true, None)).
Proof. vm_compute. reflexivity. Qed.
