(* ===== verification/SelfSignedManager.v ===== *)
(** The certificate manager with the self-signed generator, as [newManager] of
    [webhook/cert/manager.go] puts them together: the generator of [SelfSigned]
    keeps the promise that [CertLifecycle] asks of a generator. *)
From S2P Require Import Prelude Pki SelfSigned Cert CertManager CertLifecycle.

(** The generator object of the manager, [&SelfSignedCertGenerator{Validity: v}]: it
    is still as it was made, [None], or has been changed by its methods. *)
Definition object (v : Z) (o : option SelfSignedCertGenerator) : SelfSignedCertGenerator := default (mkSelfSigned "" "" v) o.
(** That object as a generator, in a world that has other parts. *)
Definition allocate {W V : Type} `{X509Lib W} `{TlsLib} `{ErrorLib} (v : Z)
  : CertGenerator ((option SelfSignedCertGenerator * W) * V) :=
  mkCertGenerator
    (fun dns '((o, w), x) => let '((cp, w), r) := Generate selfSigned dns (object v o, w) in (((Some cp, w), x), r))
    (fun k c '((o, w), x) => let '((cp, w), u) := SetCA selfSigned k c (object v o, w) in (((Some cp, w), x), u)).
(** How long its certificates last: a year when no validity is set. *)
Definition lasting (v : Z) : Z := Validity (defaultValidity (mkSelfSigned "" "" v)).

Section self_signed_manager.
Context {W V : Type} `{HX : X509Lib W} `{HT : TlsLib} `{HE : ErrorLib} `{!X509Laws W} `{!SelfSignedLaws W} `{HN : NetLib}.
Local Abbreviation World := ((option SelfSignedCertGenerator * W) * V)%type.
Context (validity : Z) (dns : string) (view : V -> View).

Definition ss_clock (x : World) : Z := Now x.1.2.
Definition ss_view (x : World) : View := view x.2.

(** A CA of the generator: it may sign, and was made before [t]. *)
Definition own_CA (t : Z) (key cert : string) : Prop := exists k c,
  key = EncodePrivateKeyPEM k /\ cert = EncodeCertPEM c /\ parsed c /\ Public (RSAKey k) = cert_PublicKey c /\
  may_sign c /\ (NotBefore c <= t)%Z.

(** The generator has its validity, and no CA or one of its own. *)
Definition ss_good (x : World) : Prop := let cp := object validity x.1.1 in
  Validity (defaultValidity cp) = lasting validity /\ (caKey cp = "" \/ own_CA (ss_clock x) (caKey cp) (caCert cp)).
Definition ss_issued (x : World) (a : Artifacts) : Prop := own_CA (ss_clock x) (art_CAKey a) (art_CACert a).

Lemma own_CA_mono t t' k c : own_CA t k c -> (t <= t')%Z -> own_CA t' k c.
Proof. intros (k0 & c0 & ? & ? & ? & ? & ? & ?) Ht. exists k0, c0. split_and!; try done. lia. Qed.

(** The world moves on when the generator stays as it is and time does not go
    back. *)
Lemma ss_moves o (w w' : W) (v v' : V) : (Now w <= Now w')%Z ->
  moves ss_view ss_good ss_issued ((o, w), v) ((o, w'), v') (view v').
Proof.
  intros Ht. split; [done|]. unfold ss_good, ss_issued, ss_clock. cbn. split.
  - intros [Hv [Hk|Hk]]; (split; [done|]); [by left|right]. by eapply own_CA_mono.
  - intros c Hc. by eapply own_CA_mono.
Qed.

(** A CA of its own that the generator accepts is the stored one, valid then. *)
Lemma validCACert_own cp t k c time : own_CA t (caKey cp) (caCert cp) ->
  validCACert cp time = Some (k, c) -> may_sign c /\ (NotBefore c <= t)%Z /\ (time <= NotAfter c)%Z.
Proof.
  intros (k0 & c0 & Hk & Hc & Hp & Hpub & Hs & Hn). unfold validCACert, ValidCACert. rewrite Hk, Hc.
  destruct (cert_block c0 Hp) as [-> ->]. rewrite !bool_decide_false by apply PEM_length. cbn [orb].
  destruct (X509KeyPair _ _); [|done]. rewrite (cert_pool c0 Hp). cbn [negb].
  cbn [Verify x509_crypto]. rewrite pool_made by done. destruct (x509_Verify c0 _ _) eqn:Hv; [done|]. cbn [negb].
  unfold EncodePrivateKeyPEM. rewrite pkcs1_key, cert_pem by done. intros [= <- <-].
  apply verify_valid in Hv as [_ ?]. done.
Qed.

(** What is asked of the world beside the laws of the libraries: generating a
    certificate succeeds, and in less than six months; six months are shorter
    than the validity of certificates and than ten years, up to a second. *)
Record prompt : Prop := {
  generates : forall cp (w : W), exists x a, ss_Generate dns (cp, w) = (x, inr a) /\ (Now x.2 <= AddDate_months (Now w) 6)%Z;
  half_year : forall t, (AddDate_months t 6 <= t + Z.min (lasting validity) tenYears - second)%Z;
}.

Lemma defaultValidity_CA cp : caKey (defaultValidity cp) = caKey cp /\ caCert (defaultValidity cp) = caCert cp /\
  Validity (defaultValidity (defaultValidity cp)) = Validity (defaultValidity cp).
Proof.
  unfold defaultValidity. destruct (Z.eqb_spec (Validity cp) 0) as [He|Hn]; cbn; [done|].
  rewrite (proj2 (Z.eqb_neq _ _) Hn). done.
Qed.

Lemma defaultValidity_keyed cp k c : Validity (defaultValidity (mkSelfSigned k c (Validity cp))) = Validity (defaultValidity cp).
Proof. unfold defaultValidity. cbn. by destruct (Validity cp =? 0)%Z. Qed.

Lemma ss_good_accepted x k c time : ss_good x -> validCACert (defaultValidity (object validity x.1.1)) time = Some (k, c) ->
  may_sign c /\ (NotBefore c <= ss_clock x)%Z /\ (time <= NotAfter c)%Z.
Proof.
  destruct (defaultValidity_CA (object validity x.1.1)) as (Hk & Hc & _). intros [_ [He|Ho]].
  - unfold validCACert, ValidCACert. by rewrite Hk, He.
  - rewrite <- Hk, <- Hc in Ho. by apply validCACert_own.
Qed.

(** A generation: the CA it returns is one of the generator's own. *)
Lemma Generate_own o w v cp' w' a : let cp := object validity o in ss_good ((o, w), v) -> ss_Generate dns (cp, w) = ((cp', w'), inr a) ->
  (Now w <= Now w')%Z /\ cp' = defaultValidity cp /\ own_CA (Now w') (art_CAKey a) (art_CACert a).
Proof.
  intros cp Hgood Hg. apply Generate_run in Hg as (-> & sk & sc & key & c & w1 & -> & _ & Hp & Hk & _ & Hs & Hv).
  apply sign_clock in Hs. cbn [art_CAKey art_CACert].
  assert ((Now w <= Now w1)%Z /\ may_sign sc /\ (NotBefore sc <= Now w1)%Z) as (Ht & Hm & Hb).
  { destruct Hv as [[Hv ->]|[_ (Hm & t & Ht & Hb & _)]].
    - apply (ss_good_accepted _ _ _ _ Hgood) in Hv as (? & ? & _). split; [lia|done].
    - pose proof (to_seconds_bounds t). split_and!; [lia|done|lia]. }
  split; [lia|]. split; [done|]. exists sk, sc. split_and!; try done. lia.
Qed.

Lemma ss_issuing : prompt -> host_DNS dns = true ->
  issuing (allocate validity) ss_clock dns ss_view ss_good ss_issued.
Proof.
  intros Hp Hdns. split.
  - intros [[o w] v] Hgood. destruct (generates Hp (object validity o) w) as ([cp' w'] & a & Hg & Ht). cbn in Ht.
    cbn [Generate allocate selfSigned]. rewrite Hg. exists ((Some cp', w'), v), a. split; [done|].
    destruct (Generate_own _ _ _ _ _ _ Hgood Hg) as (Hle & -> & Hown). split; [|split; [exact Hown|]].
    + destruct (defaultValidity_CA (object validity o)) as (Hk & Hc & Hd). split; [done|]. split.
      * intros [Hv Hca]. split; [etrans; [exact Hd|exact Hv]|].
        destruct Hca as [He|Hca]; [left; etrans; [exact Hk|exact He]|right].
        change (own_CA (Now w') (caKey (defaultValidity (object validity o))) (caCert (defaultValidity (object validity o)))).
        rewrite Hk, Hc. by eapply own_CA_mono.
      * intros c Hc'. by eapply own_CA_mono.
    + pose proof (half_year Hp (Now w)) as Hy. pose proof Hgood as [Hval _].
      change (Validity (defaultValidity (object validity o)) = lasting validity) in Hval. unfold ss_clock, second in *.
      eapply Generate_passes; [exact Hg|done| |]; rewrite Hval; cbn [fst snd]; unfold second; [|lia].
      intros k c Hv. apply (ss_good_accepted _ _ _ _ Hgood) in Hv as (Hm & Hb & He). split; [done|].
      unfold valid_at, ss_clock in *. cbn [fst snd] in *. lia.
  - intros [[o w] v] c Hgood Hi. cbn [SetCA allocate selfSigned ss_SetCA]. eexists. split; [done|]. split; [|done].
    split; [done|]. split; [|done]. intros _. split; [|by right]. destruct Hgood as [Hval _].
    etrans; [exact (defaultValidity_keyed (object validity o) _ _)|exact Hval].
Qed.

(** A manager that is made without a certificate writer uses the secret writer
    with the self-signed generator. *)
Lemma newManager_managed (host : HostOS World) ops m ref sns sn :
  newManager host ss_clock allocate ops = inr m -> CertValidity ops = validity ->
  mgr_CertWriter ops = None -> SecretRef ops = Some ref -> Host ops = None -> Service ops = Some (sns, sn) ->
  dns = ServiceToCommonName sns sn -> certPath host m <> keyPath host m ->
  managed host m (allocate validity) ss_clock ref dns.
Proof.
  intros Hm <- Hw Hr Hh Hs -> Hp. unfold newManager in Hm. cbn in Hm. rewrite Hw, Hr in Hm. cbn in Hm. injection Hm as <-.
  split; cbn; try done.
  - eexists. unfold getClientConfig. cbn. rewrite Hh, Hs. split; [done|]. done.
  - unfold ServiceToCommonName. destruct sn as [|c sn]; discriminate.
Qed.
End self_signed_manager.

(** C8: a certificate manager with its default writer, the secret writer over the
    self-signed generator with the validity of its options, for a service and
    without a host, leaves once it has started and after every one of any number of
    ticks a certificate that was valid at that moment for six more months, the same
    in the secret and in the files of the server, and one bundle in all webhook
    configurations that contains its CA.  Certificates and CAs are renewed as they
    expire, however much time passes between the ticks.

    This holds when six months are shorter than the validity of certificates (a year
    when the options set none) and than ten years, up to a second; the name of the
    service is a DNS name; the options name a secret, and different files for the
    certificate and the key; all calls on the cluster and the disk succeed, a generation
    too, which takes less than six months; the configurations are there and nothing
    else writes them, the secret or the files; and at the start there are no files of
    the server on disk and the secret is absent or holds a certificate with a CA that
    the generator made. *)
Theorem selfsigned_certificate_served {W V : Type} `{HX : X509Lib W} `{HT : TlsLib} `{HE : ErrorLib} `{!X509Laws W}
  `{!SelfSignedLaws W} `{HN : NetLib} (sns sn : string) (view : V -> View)
  (host : HostOS ((option SelfSignedCertGenerator * W) * V)) ops m ref ws w :
  let dns := ServiceToCommonName sns sn in let good := ss_good (CertValidity ops) in
  newManager host ss_clock allocate ops = inr m ->
  mgr_CertWriter ops = None -> SecretRef ops = Some ref -> Host ops = None -> Service ops = Some (sns, sn) ->
  host_DNS dns = true -> certPath host m <> keyPath host m -> prompt (CertValidity ops) dns (W := W) ->
  cluster host m ref (ss_view view) good ss_issued ->
  ready host m ref (ss_view view) good ss_issued w -> ~ files_exist host m (ss_view view) w ->
  Forall (waits (ss_view view) good ss_issued) ws ->
  exists w1 w2, Start host m w = Done (w1, (None, true)) /\ served host m ref dns (ss_view view) (ss_clock w) w1 /\
    refreshLoop host m ws w1 = Done w2 /\
    forall wait, waits (ss_view view) good ss_issued wait ->
      exists w3, refreshLoop host m (ws ++ [wait]) w1 = Done w3 /\ served host m ref dns (ss_view view) (ss_clock (wait w2)) w3.
Proof.
  intros dns good Hm Hw Hr Hh Hs Hd Hp Hpr Hcl Hrd Hf Hws.
  apply (certificate_served host m (allocate (CertValidity ops)) ss_clock ref dns (ss_view view) good ss_issued); try done.
  - by apply ss_issuing.
  - by eapply newManager_managed.
Qed.

(** ** Witness *)

Module RefManager.
Import RefErrors RefPki RefTls ManagerDemo MemCluster.
Local Abbreviation World := ((option SelfSignedCertGenerator * world) * View)%type.

Definition ops : Options (W := World) :=
  mkOptions 0 (Some ("ns", "svc")) None 0 [mkNN "" "m"] [mkNN "" "v"] [] memory None (Some secret_ref) "" "" "" 0.
Definition manager : Options := match newManager memory_host ss_clock allocate ops with inr m => m | inl _ => ops end.
Definition world0 : World := ((None, start), mkView None webhook_objs ∅).

(** Waiting some days. *)
Definition sleep (days : nat) (x : World) : World :=
  let '((cp, w), v) := x in ((cp, RefPki.mkWorld (clock w + Z.of_nat days * 24 * hour) (keys w) (disk w)), v).

Local Abbreviation sgood := (ss_good 0).
Local Abbreviation sview := (ss_view (V := View) (fun v => v)).
Lemma sleep_waits days : waits sview sgood ss_issued (sleep days).
Proof. intros [[cp w] v]. apply (ss_moves 0 (fun v : View => v)). cbn. unfold hour, minute, second. lia. Qed.

(** Nothing fails in the reference instance, and no time passes. *)
Lemma ref_key (w : world) : GeneratePrivateKey x509_RSA w = (tick w, inr (RSAKey (pretty (keys w)))).
Proof. reflexivity. Qed.
Lemma ref_sign cn best sk sc (w : world) : cn <> "" -> exists w' a, sign cn best sk sc w = (w', inr a) /\ clock w' = clock w.
Proof.
  intros Hcn. unfold sign, ebind, on_error, mbind, M_bind. rewrite ref_key.
  unfold NewSignedCertWithValidity, mbind, M_bind, mret, M_ret. cbn -[parse_cert create].
  rewrite bool_decide_false by (by destruct cn). rewrite parse_created. eexists _, _. split; done.
Qed.
Lemma ref_newCA (w : world) : exists w' ca, newCA w = (w', inr ca) /\ clock w' = clock w.
Proof.
  unfold newCA, ebind, on_error, mbind, M_bind. rewrite ref_key. unfold mret, M_ret. cbn -[parse_cert create].
  rewrite parse_created. eexists _, _. split; done.
Qed.

Lemma memory_prompt dns : dns <> "" -> prompt 0 dns (W := world).
Proof.
  intros Hd. split.
  - intros cp w. unfold ss_Generate.
    assert (exists w' ca, match validCACert (defaultValidity cp) (Now w + Validity (defaultValidity cp)) with
      | Some ca => mret (inr ca) | None => newCA end w = (w', inr ca : error + string * Cert) /\ clock w' = clock w) as (w1 & [k c] & Hca & Hc1).
    { destruct (validCACert _ _) as [ca|]; [by exists w, ca|apply ref_newCA]. }
    unfold ebind, mbind, M_bind. rewrite Hca.
    destruct (ref_sign dns (Now w + Validity (defaultValidity cp)) k c w1 Hd) as (w2 & a & -> & Hc2).
    eexists _, a. split; [done|]. cbn. rewrite Hc2, Hc1. unfold hour, minute, second. lia.
  - intros t. cbn. unfold SelfSigned.tenYears, oneYear, hour, minute, second. lia.
Qed.

Lemma world0_ready : ready memory_host manager secret_ref sview sgood ss_issued world0.
Proof.
  split; [split; [done|by left]|]. split; [|by left].
  intros r Hr. change (r ∈ [(KMutating, mkNN "" "m"); (KValidating, mkNN "" "v")]) in Hr. rewrite !elem_of_cons, elem_of_nil in Hr.
  destruct Hr as [->|[->|[]]]; eexists; (split; [vm_compute; reflexivity|]); done.
Qed.
End RefManager.

Import RefErrors RefPki RefTls ManagerDemo MemCluster RefManager.

(** The manager starts in an empty cluster and is woken after 100 days and after
    another 200, when the certificate has to be renewed. *)
Lemma selfsigned_certificate_served_witness :
  exists w1 w2, Start memory_host manager world0 = Done (w1, (None, true)) /\
    served memory_host manager secret_ref "svc.ns.svc" (ss_view (fun v => v)) (ss_clock world0) w1 /\
    refreshLoop memory_host manager [sleep 100] w1 = Done w2 /\
    exists w3, refreshLoop memory_host manager [sleep 100; sleep 200] w1 = Done w3 /\
      served memory_host manager secret_ref "svc.ns.svc" (ss_view (fun v => v)) (ss_clock (sleep 200 w2)) w3.
Proof.
  destruct (selfsigned_certificate_served "ns" "svc" (fun v : View => v) memory_host ops manager secret_ref [sleep 100] world0)
    as (w1 & w2 & Hs & Hv & Hl & Hn).
  - reflexivity.
  - reflexivity.
  - reflexivity.
  - reflexivity.
  - reflexivity.
  - reflexivity.
  - vm_compute. discriminate.
  - apply memory_prompt. discriminate.
  - apply memory_cluster; done.
  - apply world0_ready.
  - intros [[x Hx] _]. vm_compute in Hx. discriminate.
  - constructor; [apply sleep_waits|constructor].
  - exists w1, w2. split; [exact Hs|]. split; [exact Hv|]. split; [exact Hl|]. apply (Hn (sleep 200)), sleep_waits.
Defined.

(** How files come to be stale: the update of a webhook configuration fails once
    while the certificate is renewed, 200 days after the start.  The CA is kept,
    so the bundles need no change, and the next runs leave the old files. *)
Definition conflict : ManagerClient ((option SelfSignedCertGenerator * world) * View) :=
  mkManagerClient (getMutating memory) (getValidating memory) (getCRD memory) (secrets memory) (fun _ w => (w, Some NotFound)).
Definition conflicting : Options :=
  mkOptions (CertRefreshInterval manager) (Service manager) (Host manager) (Port manager) (MutatingWebhookConfigRefs manager)
    (ValidatingWebhookConfigRefs manager) (CRDRefs manager) conflict (mgr_CertWriter manager) (SecretRef manager) (CertDir manager)
    (CertName manager) (KeyName manager) (CertValidity manager).
Example stale_files_reached :
  match Start memory_host manager world0 with
  | Done (w1, _) =>
    match run_manager memory_host conflicting (sleep 200 w1) with
    | Done (w2, Some _) =>
      match run_manager memory_host manager w2 with
      | Done (w3, None) => bool_decide (v_files w3.2 = v_files w1.2) && negb (bool_decide (v_secret w3.2 = v_secret w1.2))
      | _ => false
      end
    | _ => false
    end
  | _ => false
  end = true.
Proof. vm_compute. reflexivity. Qed.
