(* ===== verification/Ready.v ===== *)
(** Reconcilers as the controller manager uses them: [reconcile.Reconciler] of
    controller-runtime, implemented by the reconcilers of
    [controller/composite/v1], [controller/sync/v1] and
    [controller/stateless-action/v1].

    The manager calls a reconciler with one request after the other.  A nil
    controller, client or prototype would make it panic; a reconciler is [typed]
    when it has none of these, and [Init] with the options of its package makes
    typed reconcilers. *)
From S2P Require Import Prelude Object CompositeController Sync StatelessAction.

(** ** The interface *)

Class Reconciles (R S A : Type) := {
  reconcile : R -> NamespacedName -> S -> outcome (S * A);
  typed : R -> Prop;
  typed_progress : forall r req s, typed r -> exists s' a, reconcile r req s = Done (s', a);
}.

(** A manager that hands a reconciler one request after the other. *)
Fixpoint serve {R S A} `{Reconciles R S A} (r : R) (reqs : list NamespacedName) (s : S) : outcome (S * list A) :=
  match reqs with
  | [] => Done (s, [])
  | req :: reqs =>
    match reconcile r req s with
    | Done (s, a) =>
      match serve r reqs s with
      | Done (s, rest) => Done (s, a :: rest)
      | Panic p => Panic p
      | OutOfFuel => OutOfFuel
      end
    | Panic p => Panic p
    | OutOfFuel => OutOfFuel
    end
  end.

Lemma serve_total {R S A} `{Reconciles R S A} (r : R) reqs : typed r -> forall s,
  exists s' rs, serve r reqs s = Done (s', rs) /\ length rs = length reqs.
Proof.
  intros Hr. induction reqs as [|req reqs IH]; intros s; cbn [serve]; [by exists s, []|].
  destruct (typed_progress r req s Hr) as (s1 & a & ->). destruct (IH s1) as (s2 & rs & -> & Hl).
  exists s2, (a :: rs). cbn. by rewrite Hl.
Qed.

(** ** Composite reconcilers *)

Section composite.
Context {W Obj : Type} `{ErrorLib} `{Scheme Obj} `{ClientObject Obj}.
Local Abbreviation Rec := (CompositeReconciler (W := W) (Obj := Obj)).
Local Abbreviation St := (World W (CtrlCall Obj)).

(** The strategy is one of the constants, and a reconciler with a name has a
    finalizer. *)
Definition composite_typed (c : Rec) : Prop :=
  is_Some (CompositeController.ctrlr c) /\ is_Some (CompositeController.prototype c) /\ is_Some (CompositeController.client c) /\
  (cleanupStrategy c = OwnerReferenceCleanup \/ cleanupStrategy c = FinalizerCleanup) /\
  (CompositeController.name c <> "" -> finalizerName c <> "").

#[export] Program Instance composite_reconciles : Reconciles Rec St (Result * err) :=
  {| reconcile := CompositeController.Reconcile; typed := composite_typed |}.
Next Obligation.
  intros c req s ([k Hk] & [p Hp] & [cl Hcl] & _). unfold CompositeController.Reconcile. rewrite Hp, Hcl, Hk.
  destruct (logged (CGet req) (cl_Get cl req p) s) as [s1 [inst [e|]]]; [by eexists _, _|].
  destruct (reconcileFetched c k cl inst s1) as [s2 r]. by eexists _, _.
Qed.

(** The options of the package, with the strategies it declares. *)
Inductive composite_option : CompositeReconcilerOption (W := W) (Obj := Obj) -> Prop :=
| co_name n : composite_option (CompositeController.WithName n)
| co_client cl : composite_option (CompositeController.WithClient cl)
| co_prototype o : composite_option (CompositeController.WithPrototype o)
| co_condition d : composite_option (WithInitCondition d)
| co_finalizer f : composite_option (WithFinalizer f)
| co_owner : composite_option (WithCleanupStrategy OwnerReferenceCleanup)
| co_finalize : composite_option (WithCleanupStrategy FinalizerCleanup).

Definition composite_set (c : Rec) : Prop :=
  is_Some (CompositeController.ctrlr c) /\ is_Some (CompositeController.prototype c) /\ is_Some (CompositeController.client c) /\
  (cleanupStrategy c = OwnerReferenceCleanup \/ cleanupStrategy c = FinalizerCleanup).

Lemma composite_options_set opts : forall c, Forall composite_option opts -> composite_set c ->
  composite_set (foldl (fun c opt => opt c) c opts).
Proof.
  induction opts as [|opt opts IH]; intros c Hf Hc; [done|]. apply Forall_cons in Hf as [Ho Hf]. cbn. apply IH; [done|].
  destruct Hc as (? & ? & ? & ?). destruct Ho; split_and!; cbn; eauto.
Qed.

Lemma composite_Init_typed c0 mgr k proto opts : Forall composite_option opts ->
  CompositeController.Init c0 (Some mgr) (Some k) (Some proto) opts = ((CompositeController.Init c0 (Some mgr) (Some k) (Some proto) opts).1, None) /\
  typed (CompositeController.Init c0 (Some mgr) (Some k) (Some proto) opts).1.
Proof.
  intros Hf. split; [done|]. unfold CompositeController.Init. cbn [fst].
  match goal with |- context [foldl ?f ?c opts] => set (c1 := foldl f c opts) end.
  assert (composite_set c1) as (? & ? & ? & ?).
  { apply composite_options_set; [done|]. split_and!; cbn; eauto. }
  clearbody c1. cbn. unfold composite_typed. case_bool_decide as Hn; cbn; split_and!; eauto.
Qed.
End composite.

(** ** Sync reconcilers *)

Section sync.
Context {W Obj OList : Type} `{ErrorLib} `{ClientObject Obj}.
Local Abbreviation Rec := (Sync.Reconciler (W := W) (Obj := Obj) (OList := OList)).
Local Abbreviation St := (World W (SyncCall Obj)).

Definition sync_typed (s : Rec) : Prop := is_Some (Ctrlr s) /\ is_Some (Prototype s) /\ is_Some (Client s).

#[export] Program Instance sync_reconciles : Reconciles Rec St (Result * err) :=
  {| reconcile := Sync.Reconcile; typed := sync_typed |}.
Next Obligation.
  intros r req s ([k Hk] & [p Hp] & [cl Hcl]). unfold Sync.Reconcile, lookupObject. rewrite Hp, Hcl.
  destruct (logged (SGet req) (scl_Get cl req p) s) as [s1 [inst e]]. unfold finishReconcile.
  rewrite Hk.
  destruct (reconcileObject k req inst e s1) as [s2 x]. by eexists _, _.
Qed.

Inductive sync_option : Sync.ReconcilerOption (W := W) (Obj := Obj) (OList := OList) -> Prop :=
| so_name n : sync_option (Sync.WithName n)
| so_client cl : sync_option (Sync.WithClient cl)
| so_prototype o : sync_option (Sync.WithPrototype o)
| so_funcs sf : sync_option (WithSyncFuncs sf).

Lemma sync_Init_typed s0 mgr k proto protoList opts : Forall sync_option opts ->
  typed (Sync.Init s0 (Some mgr) (Some k) (Some proto) protoList opts).1.1.
Proof.
  intros Hf. unfold Sync.Init. cbn.
  match goal with |- context [foldl ?f ?c opts] => generalize c (ltac:(split_and!; eauto) : sync_typed c) end.
  induction opts as [|opt opts IH]; intros c Hc; [done|]. apply Forall_cons in Hf as [Ho Hf]. cbn. apply IH; [done|].
  destruct Hc as (? & ? & ?). destruct Ho; split_and!; cbn; eauto.
Qed.
End sync.

(** ** Action reconcilers *)

Section action.
Context {W O : Type} `{ErrorLib}.
Local Abbreviation Rec := (StatelessAction.Reconciler (W := W) (O := O)).
Local Abbreviation St := (World W (ActCall O)).

(** The periods may be zero: the package sets no defaults. *)
Definition action_typed (r : Rec) : Prop := is_Some (StatelessAction.ctrlr r).

#[export] Program Instance action_reconciles : Reconciles Rec St (Result * err * list (Manager W O * O)) :=
  {| reconcile := StatelessAction.Reconcile; typed := action_typed |}.
Next Obligation.
  intros r req s [k Hk]. unfold StatelessAction.Reconcile. rewrite Hk.
  destruct (reconcileWith k req s) as [s1 x]. by eexists _, _.
Qed.

Inductive action_option : StatelessAction.ReconcilerOption (W := W) (O := O) -> Prop :=
| ao_name n : action_option (StatelessAction.WithName n)
| ao_retry d : action_option (WithActionRetryPeriod d)
| ao_timeout d : action_option (WithActionTimeout d).

Lemma action_Init_typed r0 k opts : Forall action_option opts -> typed (StatelessAction.Init r0 (Some k) opts).
Proof.
  intros Hf. unfold StatelessAction.Init. cbn.
  match goal with |- context [foldl ?f ?c opts] => generalize c (ltac:(unfold action_typed; cbn; eauto) : action_typed c) end.
  induction opts as [|opt opts IH]; intros c Hc; [done|]. apply Forall_cons in Hf as [Ho Hf]. cbn. apply IH; [done|].
  destruct Ho; unfold action_typed; cbn; eauto.
Qed.
End action.


(** ** A witness *)

Module ReadyDemo.
Import ApiDemo CtrlDemo.
(** A sync controller and an action controller for the objects and the cluster of
    [CtrlDemo]: deleted objects are gone, and there is nothing to act on. *)
Definition syncer : SyncController (W := option obj) (Obj := obj) :=
  mkSyncController (fun o _ => (Some o, None)) (fun _ _ => (None, None)).
Definition reader : SyncClient (W := option obj) (Obj := obj) (OList := list obj) :=
  mkSyncClient (cl_Get cluster) (fun l w => (w, (l, None))).
Definition idle : StatelessAction.Controller (option obj) obj :=
  StatelessAction.mkController (fun _ w => (w, (w, None))) (fun _ w => (w, (false, None)))
    (fun _ w => (w, (mkManager (fun _ w => (w, ("", None))) (fun w => (w, ([], None))) (fun _ w => (w, (0%N, (false, None))))
       (fun _ w => (w, (0%N, None))) (fun _ w => (w, None)), None))).
Definition blank : CompositeReconciler (W := option obj) (Obj := obj) :=
  mkCompositeReconciler "" DefaultInitCondition "" 0%Z None None None.
End ReadyDemo.

Import RefErrors ApiDemo CtrlDemo ReadyDemo.

