(* ===== verification/Lifecycle.v ===== *)
(** The life of an object under the composite controller: [Reconcile] of
    [controller/composite/v1/reconcile.go] over any number of requests.

    A [phase] is what the controller has to know of an object; [next] is the
    abstract machine a reconciliation implements: initialize, add the finalizer,
    operate for as long as the object lives, clean up once and let it go.  Calls
    to the cluster and to the controller may fail while the world is not
    [healthy]. *)
From S2P Require Import Prelude Object CompositeController Ready.

(** ** The abstract machine *)

(** Whether the object is initialized, has the finalizer, is being deleted, and
    has finalizers of others; no phase stands for an object that is gone. *)
Record phase := mkPhase { initialized : bool; finalized : bool; deleting : bool; others : bool }.
#[global] Instance phase_eq_dec : EqDecision phase.
Proof. solve_decision. Defined.

(** What a reconciliation does that others can see. *)
Inductive event := EInit | EUpdate | EOperate | ECleanup.
#[global] Instance event_eq_dec : EqDecision event.
Proof. solve_decision. Defined.

Definition next (p : option phase) : list event * option phase :=
  match p with
  | None => ([], None)
  | Some (mkPhase false f d o) => ([EInit], Some (mkPhase true f d o))
  | Some (mkPhase true false false o) => ([EUpdate], Some (mkPhase true true false o))
  | Some (mkPhase true true false o) => ([EOperate], p)
  | Some (mkPhase true true true o) => ([ECleanup; EUpdate], if o then Some (mkPhase true false true o) else None)
  | Some (mkPhase true false true o) => ([], p)
  end.
Fixpoint lives (n : nat) (p : option phase) : list event * option phase :=
  match n with
  | 0 => ([], p)
  | S n => let '(evs, p) := next p in let '(evs', p) := lives n p in (evs ++ evs', p)
  end.

(** How far an object is. *)
Definition progress (p : option phase) : nat :=
  match p with
  | None => 4
  | Some (mkPhase i f d _) => (if i then 1 else 0) + (if d then 2 else 0) + (if xorb f d then 1 else 0)
  end.

Lemma progress_next p : progress p <= progress (next p).2.
Proof. destruct p as [[[] [] [] []]|]; cbn; lia. Qed.

(** The steps before an object is operated on, or before it is let go. *)
Definition setup_steps (p : phase) : nat :=
  (if initialized p then 0 else 1) + (if xorb (finalized p) (deleting p) then 0 else 1).

Lemma lives_idle n p : next p = ([], p) -> lives n p = ([], p).
Proof. intros Hp. induction n as [|n IH]; [done|]. cbn [lives]. by rewrite Hp, IH. Qed.
Lemma lives_operating n o : lives n (Some (mkPhase true true false o)) = (replicate n EOperate, Some (mkPhase true true false o)).
Proof. induction n as [|n IH]; [done|]. cbn [lives next]. by rewrite IH. Qed.

(** How often something happens. *)
Definition times (e : event) (evs : list event) : nat := length (filter (fun x => x = e) evs).
Lemma times_cons e x evs : times e (x :: evs) = (if decide (x = e) then 1 else 0) + times e evs.
Proof. unfold times. rewrite filter_cons. by destruct (decide (x = e)). Qed.
Lemma times_replicate e n : times e (replicate n e) = n.
Proof. induction n as [|n IH]; [done|]. cbn [replicate]. by rewrite times_cons, decide_True, IH. Qed.

(** An object that lives is operated on in every step after the first ones. *)
Lemma lives_alive n p : deleting p = false ->
  times EOperate (lives n (Some p)).1 = n - setup_steps p /\
  (setup_steps p <= n -> (lives n (Some p)).2 = Some (mkPhase true true false (others p))).
Proof.
  destruct p as [i f d o]. cbn. intros ->.
  destruct n as [|[|n]], i, f; cbn [lives next app fst snd]; rewrite ?lives_operating; cbn [fst snd app];
    rewrite ?times_cons, ?times_replicate; unfold times, setup_steps; cbn; (split; [repeat case_decide; try done; lia|intros; try done; lia]).
Qed.

(** One that is being deleted is cleaned up once, if it has the finalizer, and
    then let go; it is not operated on any more. *)
Lemma lives_deleting n p : deleting p = true ->
  times EOperate (lives n (Some p)).1 = 0 /\ times ECleanup (lives n (Some p)).1 <= 1 /\
  (setup_steps p <= n -> times ECleanup (lives n (Some p)).1 = (if finalized p then 1 else 0) /\
    match (lives n (Some p)).2 with Some p' => finalized p' = false /\ initialized p' = true | None => finalized p = true /\ others p = false end).
Proof.
  destruct p as [i f d o]. cbn. intros ->.
  destruct n as [|[|n]], i, f, o; cbn [lives next app fst snd]; rewrite ?(lives_idle n) by done; cbn [fst snd app];
    rewrite ?times_cons; unfold times, setup_steps; cbn; repeat case_decide; try done; split_and!; try done; try lia;
    intros; split_and!; try done; lia.
Qed.

(** ** Clusters and controllers that work while the world is healthy *)

Section lifecycle.
Context {W Obj : Type} `{ErrorLib} `{Scheme Obj} `{ClientObjectLaws Obj}.
Local Abbreviation St := (World W (CtrlCall Obj)).
Context (c : CompositeReconciler (W := W) (Obj := Obj)) (k : Controller W Obj) (cl : Client W Obj) (req : NamespacedName).
Context (view : W -> option Obj) (healthy : W -> Prop).

Definition phase_of (o : Obj) : phase :=
  mkPhase (IsInitialized o).1 (contains (GetFinalizers o) (finalizerName c)) (negb (DeletionTimestampIsZero o))
    (existsb (fun f => negb (bool_decide (f = finalizerName c))) (GetFinalizers o)).
Definition now (s : St) : option phase := phase_of <$> view (wst s).

(** Objects that agree in their finalizers and their deletion, and also in
    whether they are initialized. *)
Definition same_meta (o o' : Obj) : Prop :=
  GetFinalizers o' = GetFinalizers o /\ DeletionTimestampIsZero o' = DeletionTimestampIsZero o.
Definition same (o o' : Obj) : Prop := same_meta o o' /\ IsInitialized o' = IsInitialized o.

(** A call that does not fail in a healthy world, and leaves it healthy. *)
Definition stays (w w' : W) : Prop := healthy w -> healthy w'.
Definition fine (w w' : W) (e : err) : Prop := healthy w -> e = None /\ healthy w'.

(** The API server: an update writes the finalizers, and an object that is being
    deleted goes with its last one; a status update writes the status. *)
Record api_works : Prop := {
  api_get : forall proto w, let '(w', (o, e)) := cl_Get cl req proto w in
    view w' = view w /\ stays w w' /\
    match e with None => view w = Some o | Some x => healthy w -> view w = None /\ IsNotFound x = true end;
  api_update : forall o cur w, view w = Some cur -> let '(w', (_, e)) := cl_Update cl o w in
    fine w w' e /\
    match e with
    | Some _ => view w' = view w
    | None => if negb (DeletionTimestampIsZero cur) && bool_decide (GetFinalizers o = []) then view w' = None
              else exists o', view w' = Some o' /\ GetFinalizers o' = GetFinalizers o /\
                     DeletionTimestampIsZero o' = DeletionTimestampIsZero cur /\ IsInitialized o' = IsInitialized cur
    end;
  api_status : forall o cur w, view w = Some cur -> let '(w', (_, e)) := cl_StatusUpdate cl o w in
    fine w w' e /\
    match e with
    | Some _ => view w' = view w
    | None => exists o', view w' = Some o' /\ same_meta cur o' /\ (IsInitialized o').1 = (IsInitialized o).1
    end;
  api_readable : forall o w, view w = Some o -> (IsInitialized o).2 = None;
}.

(** The controller: it works on other objects, leaves the metadata of its own
    alone, and initialization initializes.  Operations may fail at any time. *)
Record controller_works : Prop := {
  k_default : forall o w, let '(w', o') := Default k o w in view w' = view w /\ stays w w' /\ same o o';
  k_validate : forall o w, let '(w', (o', e)) := Validate k o w in view w' = view w /\ fine w w' e /\ same o o';
  k_initialize : forall o w, let '(w', (o', e)) := Initialize k o (initCondition c) w in
    view w' = view w /\ fine w w' e /\ same_meta o o' /\ (e = None -> IsInitialized o' = (true, None));
  k_operate : forall o w, let '(w', (o', _)) := Operate k o w in view w' = view w /\ stays w w' /\ same o o';
  k_cleanup : forall o w, let '(w', (o', (_, e))) := ctrl_Cleanup k o w in view w' = view w /\ fine w w' e /\ same o o';
  k_status : forall o w, let '(w', (o', _)) := UpdateStatus k o w in view w' = view w /\ stays w w' /\ same o o';
}.

Context (Hapi : api_works) (Hk : controller_works).

(** ** One reconciliation *)

Definition event_of (x : CtrlCall Obj) : option event :=
  match x with
  | CInitialize _ _ => Some EInit
  | CUpdate _ => Some EUpdate
  | COperate _ => Some EOperate
  | CCleanup _ => Some ECleanup
  | _ => None
  end.

(** What code does to the world: the calls [l] it makes, with the events [evs]
    and the phase [p'] when the world is healthy, and otherwise the phase it
    found or [p']. *)
Definition moves (s s' : St) (evs : list event) (p' : option phase) : Prop :=
  exists l, wlog s' = wlog s ++ l /\ (now s' = now s \/ now s' = p') /\
    (healthy (wst s) -> healthy (wst s') /\ omap event_of l = evs /\ now s' = p').

Lemma same_phase o o' : same o o' -> phase_of o' = phase_of o.
Proof. intros [[Hf Hd] Hi]. unfold phase_of. by rewrite Hf, Hd, Hi. Qed.

Lemma same_trans o1 o2 o3 : same o1 o2 -> same o2 o3 -> same o1 o3.
Proof. intros [[??]?] [[??]?]. unfold same, same_meta. split_and!; congruence. Qed.

(** The deferred status update changes no phase. *)
Lemma deferredStatus_moves skip old o res e s cur : view (wst s) = Some cur -> (IsInitialized o).1 = (IsInitialized cur).1 ->
  exists s' r, deferredStatus k cl skip old o res e s = (s', r) /\ moves s s' [] (now s).
Proof.
  intros Hv Hi. unfold deferredStatus. destruct skip.
  { eexists _, _. split; [done|]. exists []. rewrite app_nil_r. auto. }
  unfold mbind, M_bind, logged. pose proof (k_status Hk o (wst s)) as Hu. destruct (UpdateStatus k o (wst s)) as [w1 [o1 [ue|]]].
  all: destruct Hu as (Hv1 & Hs1 & [Hm1 Hi1]).
  { eexists _, _. split; [done|]. exists [CUpdateStatus o]. unfold now. cbn. rewrite Hv1. auto. }
  destruct (StatusChanged old o1) as [[] se]; cbn.
  - pose proof (api_status Hapi o1 cur w1) as Hst. rewrite Hv1 in Hst. specialize (Hst Hv).
    destruct (cl_StatusUpdate cl o1 w1) as [w2 [o2 se2]]. destruct Hst as [Hf Heff]. eexists _, _. split; [done|].
    exists [CUpdateStatus o; CStatusUpdate o1]. unfold now. cbn. rewrite <- app_assoc.
    assert (phase_of <$> view w2 = phase_of <$> view (wst s)) as ->.
    { destruct se2; [by rewrite Heff|]. destruct Heff as (o3 & -> & [Hf3 Hd3] & Hi3). rewrite Hv. cbn. f_equal.
      unfold phase_of. rewrite Hf3, Hd3, Hi3, Hi1, Hi. done. }
    split; [done|]. split; [auto|]. intros Hh. destruct (Hf (Hs1 Hh)). auto.
  - eexists _, _. split; [done|]. exists [CUpdateStatus o]. unfold now. cbn. rewrite Hv1. auto.
Qed.

(** Code after code: the second part keeps the phase. *)
Lemma moves_then s1 s2 s3 evs p : moves s1 s2 evs p -> moves s2 s3 [] (now s2) -> moves s1 s3 evs p.
Proof.
  intros (l1 & Hl1 & Hn1 & Hh1) (l2 & Hl2 & Hn2 & Hh2). exists (l1 ++ l2). rewrite Hl2, Hl1, app_assoc. split; [done|].
  assert (now s3 = now s2) as -> by tauto. split; [done|]. intros Hh. destruct (Hh1 Hh) as (Hh' & He & Hp).
  destruct (Hh2 Hh') as (? & He2 & _). by rewrite omap_app, He, He2, app_nil_r.
Qed.

(** A call that leaves the phase and is not an event. *)
Lemma moves_call (x : CtrlCall Obj) s w : view w = view (wst s) -> stays (wst s) w ->
  moves s (mkWorld w (wlog s ++ [x])) (option_list (event_of x)) (now s).
Proof.
  intros Hv Hs. exists [x]. unfold now. cbn. rewrite Hv. split; [done|]. split; [auto|]. intros Hh. split; [auto|].
  by destruct (event_of x).
Qed.

Lemma others_spec o : others (phase_of o) = true <-> exists f, f ∈ GetFinalizers o /\ f <> finalizerName c.
Proof.
  cbn. rewrite existsb_exists. setoid_rewrite <- list_elem_of_In. setoid_rewrite negb_true_iff.
  by setoid_rewrite bool_decide_eq_false.
Qed.

Lemma RemoveFinalizer_phase o o' : GetFinalizers o' = GetFinalizers (RemoveFinalizer o (finalizerName c)) ->
  finalized (phase_of o') = false /\ others (phase_of o') = others (phase_of o) /\
  (GetFinalizers o' = [] <-> others (phase_of o) = false).
Proof.
  intros Hf. assert (forall f, f ∈ GetFinalizers o' <-> f ∈ GetFinalizers o /\ f <> finalizerName c) as Hin.
  { intros f. rewrite Hf. apply RemoveFinalizer_spec. }
  split; [|split].
  - cbn. apply contains_false. intros [_ ?]%Hin. done.
  - apply eq_bool_prop_intro. rewrite !Is_true_true, !others_spec. setoid_rewrite Hin. naive_solver.
  - rewrite <- not_true_iff_false, others_spec. split.
    + intros Hn (f & Hff). apply Hin in Hff. rewrite Hn in Hff. by apply elem_of_nil in Hff.
    + intros Hn. apply elem_of_nil_inv. intros f Hff%Hin. eauto.
Qed.

Lemma AddFinalizer_phase o o' : ContainsFinalizer o (finalizerName c) = false ->
  GetFinalizers o' = GetFinalizers (AddFinalizer o (finalizerName c)) ->
  finalized (phase_of o') = true /\ others (phase_of o') = others (phase_of o).
Proof.
  intros Hc Hf. rewrite AddFinalizer_spec in Hf by done. split.
  - cbn. apply contains_spec. rewrite Hf. set_solver.
  - cbn. rewrite Hf, existsb_app. cbn. rewrite bool_decide_true by done. by rewrite orb_false_r.
Qed.

(** An update, or code that ends in one. *)
Lemma moves_update l evs s w e p' : omap event_of l = evs -> fine (wst s) w e ->
  (e <> None -> view w = view (wst s)) -> (e = None -> phase_of <$> view w = p') ->
  moves s (mkWorld w (wlog s ++ l)) evs p'.
Proof.
  intros He Hf Hs Hn. exists l. unfold now. cbn. split; [done|]. split.
  - destruct e; [left; by rewrite Hs|right; auto].
  - intros Hh. destruct (Hf Hh) as [-> ?]. auto.
Qed.

Lemma phase_eta o : phase_of o = mkPhase (IsInitialized o).1 (finalized (phase_of o)) (negb (DeletionTimestampIsZero o)) (others (phase_of o)).
Proof. done. Qed.

(** Adding the finalizer to an object that lives. *)
Lemma add_moves o s cur : view (wst s) = Some cur -> same cur o -> (IsInitialized cur).1 = true ->
  DeletionTimestampIsZero o = true -> ContainsFinalizer o (finalizerName c) = false ->
  let '(w, _) := cl_Update cl (AddFinalizer o (finalizerName c)) (wst s) in
  moves s (mkWorld w (wlog s ++ [CUpdate (AddFinalizer o (finalizerName c))])) (next (now s)).1 (next (now s)).2.
Proof.
  intros Hv Hsm Hi Hd Hc. pose proof (same_phase _ _ Hsm) as Hph. destruct Hsm as [[Hfin Hdel] Hini].
  pose proof (api_update Hapi (AddFinalizer o (finalizerName c)) cur (wst s) Hv) as Hu.
  destruct (cl_Update cl _ (wst s)) as [w1 [o1 e]]. destruct Hu as [Hf Heff].
  assert (next (now s) = ([EUpdate], Some (mkPhase true true false (others (phase_of cur))))) as ->.
  { unfold now. rewrite Hv. cbn [fmap option_fmap option_map]. rewrite <- Hph, (phase_eta o), Hini, Hi, Hd.
    rewrite ContainsFinalizer_spec in Hc. cbn [finalized phase_of]. by rewrite Hc. }
  apply (moves_update [_] _ s w1 e); [done|done|by destruct e|]. intros ->.
  rewrite <- Hdel, Hd in Heff. cbn [negb andb] in Heff. destruct Heff as (o2 & -> & Hf2 & Hd2 & Hi2). cbn [fmap option_fmap option_map].
  destruct (AddFinalizer_phase o o2 Hc Hf2) as [Hfin2 Ho2]. by rewrite (phase_eta o2), Hfin2, Ho2, Hi2, Hi, Hd2, Hph.
Qed.

(** Taking it off after a cleanup. *)
Lemma remove_moves o o1 s w1 cur : view (wst s) = Some cur -> same cur o -> (IsInitialized cur).1 = true ->
  DeletionTimestampIsZero o = false -> contains (GetFinalizers o) (finalizerName c) = true ->
  view w1 = view (wst s) -> stays (wst s) w1 -> same o o1 ->
  let '(w, _) := cl_Update cl (RemoveFinalizer o1 (finalizerName c)) w1 in
  moves s (mkWorld w (wlog s ++ [CCleanup o; CUpdate (RemoveFinalizer o1 (finalizerName c))])) (next (now s)).1 (next (now s)).2.
Proof.
  intros Hv Hsm Hi Hd Hc Hv1 Hs1 Hsm1. pose proof (same_phase _ _ Hsm) as Hph. pose proof (same_phase _ _ Hsm1) as Hph1.
  destruct Hsm as [[Hfin Hdel] Hini]. pose proof (api_update Hapi (RemoveFinalizer o1 (finalizerName c)) cur w1) as Hu.
  rewrite Hv1 in Hu. specialize (Hu Hv). destruct (cl_Update cl _ w1) as [w2 [o2 e]]. destruct Hu as [Hf Heff].
  set (others_ := others (phase_of cur)).
  assert (next (now s) = ([ECleanup; EUpdate], if others_ then Some (mkPhase true false true others_) else None)) as ->.
  { unfold now. rewrite Hv. cbn [fmap option_fmap option_map]. rewrite <- Hph, (phase_eta o), Hini, Hi, Hd.
    cbn [finalized phase_of]. rewrite Hc. cbn [next]. by rewrite Hph. }
  destruct (RemoveFinalizer_phase o1 (RemoveFinalizer o1 (finalizerName c)) eq_refl) as (_ & _ & Hempty).
  rewrite Hph1, Hph in Hempty. fold others_ in Hempty.
  apply (moves_update [_; _] _ s w2 e); [done|intros Hh; auto|by destruct e|]. intros ->. rewrite <- Hdel, Hd in Heff. cbn [negb andb] in Heff.
  destruct others_ eqn:Ho.
  - rewrite bool_decide_false in Heff by (by rewrite Hempty). destruct Heff as (o3 & -> & Hf3 & Hd3 & Hi3). cbn [fmap option_fmap option_map].
    destruct (RemoveFinalizer_phase o1 o3 Hf3) as (Hfin3 & Ho3 & _). f_equal.
    rewrite (phase_eta o3), Hfin3, Ho3, Hi3, Hi, Hd3, Hph1, Hph. subst others_. by rewrite Ho.
  - rewrite bool_decide_true in Heff by (by apply Hempty). by rewrite Heff.
Qed.

Lemma now_is o s cur d f : view (wst s) = Some cur -> same cur o -> (IsInitialized cur).1 = true ->
  DeletionTimestampIsZero o = d -> contains (GetFinalizers o) (finalizerName c) = f ->
  now s = Some (mkPhase true f (negb d) (others (phase_of o))).
Proof.
  intros Hv Hsm Hi Hd Hf. unfold now. rewrite Hv. cbn [fmap option_fmap option_map]. rewrite <- (same_phase _ _ Hsm).
  destruct Hsm as [_ Hini]. rewrite (phase_eta o), Hini, Hi, Hd. cbn [finalized phase_of]. by rewrite Hf.
Qed.

(** A reconciliation of an initialized object: the operation, then the status. *)
Lemma operate_moves old o s cur : view (wst s) = Some cur -> same cur o -> now s = Some (mkPhase true true false (others (phase_of o))) ->
  exists s' r, ('(o1, (res, e)) ← logged (COperate o) (Operate k o); deferredStatus k cl false old o1 res e) s = (s', r) /\
    moves s s' (next (now s)).1 (next (now s)).2.
Proof.
  intros Hv [_ Hini] Hnow. unfold mbind, M_bind, logged.
  pose proof (k_operate Hk o (wst s)) as Ho. destruct (Operate k o (wst s)) as [w1 [o1 [res e]]]. destruct Ho as (Hv1 & Hs1 & [_ Hi1]).
  destruct (deferredStatus_moves false old o1 res e (mkWorld w1 (wlog s ++ [COperate o])) cur) as (s' & r & Hdef & Hmv);
    [exact (eq_trans Hv1 Hv)|by rewrite Hi1, Hini|]. exists s', r. split; [exact Hdef|]. eapply moves_then; [|exact Hmv].
  assert (next (now s) = ([EOperate], now s)) as -> by by rewrite Hnow. by apply (moves_call (COperate o)).
Qed.

(** A cleanup, and then the finalizer or the status. *)
Lemma cleanup_moves old o s cur : view (wst s) = Some cur -> same cur o -> (IsInitialized cur).1 = true ->
  DeletionTimestampIsZero o = false -> contains (GetFinalizers o) (finalizerName c) = true ->
  exists s' r, ('(o1, del, upd, res, e) ← cleanupHandler c k cl o;
    deferredStatus k cl upd old o1 res e) s = (s', r) /\ moves s s' (next (now s)).1 (next (now s)).2.
Proof.
  intros Hv Hsm Hi Hd Hc. unfold cleanupHandler, mbind, M_bind, mret, M_ret. rewrite Hd, Hc. unfold logged at 1.
  pose proof (k_cleanup Hk o (wst s)) as Ho.
  destruct (ctrl_Cleanup k o (wst s)) as [w1 [o1 [res [e|]]]]; destruct Ho as (Hv1 & Hf1 & Hsm1).
  - destruct (deferredStatus_moves false old o1 res (Some e) (mkWorld w1 (wlog s ++ [CCleanup o])) cur) as (s' & r & Hdef & Hmv);
      [exact (eq_trans Hv1 Hv)|by rewrite (proj2 Hsm1), (proj2 Hsm)|]. exists s', r. split; [exact Hdef|]. eapply moves_then; [|exact Hmv].
    exists [CCleanup o]. split; [done|]. unfold now. cbn. rewrite Hv1. split; [by left|]. intros Hh. by destruct (Hf1 Hh).
  - pose proof (remove_moves o o1 s w1 cur Hv Hsm Hi Hd Hc Hv1 (fun Hh => proj2 (Hf1 Hh)) Hsm1) as Ha. unfold logged. cbn [wst wlog].
    destruct (cl_Update cl _ w1) as [w2 [o2 e]]. eexists _, _. split; [done|]. cbn. by rewrite <- app_assoc.
Qed.

(** A reconciliation of an initialized object, by its finalizers and its
    deletion. *)
Lemma reconcileInstance_moves old o s cur : cleanupStrategy c = FinalizerCleanup -> view (wst s) = Some cur -> same cur o ->
  (IsInitialized cur).1 = true ->
  exists s' r, reconcileInstance c k cl old o s = (s', r) /\ moves s s' (next (now s)).1 (next (now s)).2.
Proof.
  intros Hstr Hv Hsm Hi. unfold reconcileInstance. rewrite Hstr. change (FinalizerCleanup =? FinalizerCleanup)%Z with true. cbv match.
  destruct (DeletionTimestampIsZero o) eqn:Hd; destruct (contains (GetFinalizers o) (finalizerName c)) eqn:Hc.
  - pose proof (now_is o s cur true true Hv Hsm Hi Hd Hc) as Hnow. destruct (operate_moves old o s cur Hv Hsm Hnow) as (s' & r & Ho & Hm).
    exists s', r. split; [|done]. rewrite <- Ho. unfold cleanupHandler. rewrite Hd, ContainsFinalizer_spec, Hc. reflexivity.
  - rewrite <- ContainsFinalizer_spec in Hc. pose proof (add_moves o s cur Hv Hsm Hi Hd Hc) as Ha.
    unfold cleanupHandler. rewrite Hd, Hc. cbn [negb]. unfold mbind, M_bind, logged at 1.
    destruct (cl_Update cl _ (wst s)) as [w1 [o1 e]]. eexists _, _. split; [reflexivity|]. exact Ha.
  - destruct (cleanup_moves old o s cur Hv Hsm Hi Hd Hc) as (s' & r & Ho & Hm). exists s', r. split; [|done]. rewrite <- Ho.
    unfold cleanupHandler. rewrite Hd, Hc. unfold mbind, M_bind, logged. destruct (ctrl_Cleanup k o (wst s)) as [w1 [o1 [res [e|]]]]; [done|].
    cbn [wst wlog]. by destruct (cl_Update cl _ w1) as [w2 [o2 e2]].
  - unfold cleanupHandler. rewrite Hd, Hc. change (exists s' r, deferredStatus k cl false old o emptyResult None s = (s', r) /\
      moves s s' (next (now s)).1 (next (now s)).2).
    destruct (deferredStatus_moves false old o emptyResult None s cur Hv) as (s' & r & Hdef & Hmv); [by rewrite (proj2 Hsm)|].
    exists s', r. split; [done|]. by rewrite (now_is o s cur false false Hv Hsm Hi Hd Hc) in *.
Qed.

(** Code before code: the first part keeps the phase. *)
Lemma moves_after s1 s2 s3 evs p : moves s1 s2 [] (now s1) -> moves s2 s3 evs p -> moves s1 s3 evs p.
Proof.
  intros (l1 & Hl1 & Hn1 & Hh1) (l2 & Hl2 & Hn2 & Hh2). exists (l1 ++ l2). rewrite Hl2, Hl1, app_assoc. split; [done|].
  assert (now s2 = now s1) as Hn by tauto. rewrite Hn in Hn2. split; [done|]. intros Hh. destruct (Hh1 Hh) as (Hh' & He & _).
  destruct (Hh2 Hh') as (? & He2 & ?). by rewrite omap_app, He, He2.
Qed.

(** Initialization of an object that is not initialized. *)
Lemma init_moves o s cur : view (wst s) = Some cur -> same cur o -> (IsInitialized cur).1 = false ->
  exists s' r, ('(o1, e) ← logged (CInitialize o (initCondition c)) (Initialize k o (initCondition c));
    match e with
    | Some _ => mret (emptyResult, e)
    | None => '(_, _) ← logged (CStatusUpdate o1) (cl_StatusUpdate cl o1); mret (requeueResult, None)
    end) s = (s', r) /\ moves s s' (next (now s)).1 (next (now s)).2.
Proof.
  intros Hv Hsm Hi. pose proof (same_phase _ _ Hsm) as Hph. unfold mbind, M_bind, logged at 1.
  pose proof (k_initialize Hk o (wst s)) as Hini. destruct (Initialize k o _ (wst s)) as [w1 [o1 e]]. destruct Hini as (Hv1 & Hf1 & Hm1 & Hi1).
  assert (next (now s) = ([EInit], Some (mkPhase true (finalized (phase_of cur)) (deleting (phase_of cur)) (others (phase_of cur))))) as ->.
  { unfold now. rewrite Hv. cbn [fmap option_fmap option_map]. rewrite (phase_eta cur), Hi. done. }
  destruct e as [e|].
  - eexists _, _. split; [done|]. exists [CInitialize o (initCondition c)]. split; [done|]. unfold now. cbn. rewrite Hv1. split; [by left|].
    intros Hh. by destruct (Hf1 Hh).
  - unfold logged. cbn [wst wlog]. pose proof (api_status Hapi o1 cur w1) as Hst. rewrite Hv1 in Hst. specialize (Hst Hv).
    destruct (cl_StatusUpdate cl o1 w1) as [w2 [o2 e2]]. destruct Hst as [Hf2 Heff]. eexists _, _. split; [done|]. rewrite <- app_assoc.
    apply (moves_update [_; _] _ s w2 e2); [done|intros Hh; by apply Hf2, Hf1|by destruct e2|]. intros ->.
    destruct Heff as (o3 & -> & [Hf3 Hd3] & Hi3). cbn [fmap option_fmap option_map]. unfold phase_of. cbn. by rewrite Hf3, Hd3, Hi3, Hi1.
Qed.

Lemma reconcileFetched_moves o s : cleanupStrategy c = FinalizerCleanup -> view (wst s) = Some o ->
  exists s' r, reconcileFetched c k cl o s = (s', r) /\ moves s s' (next (now s)).1 (next (now s)).2.
Proof.
  intros Hstr Hv. unfold reconcileFetched, mbind, M_bind. unfold logged at 1 2.
  pose proof (k_default Hk o (wst s)) as Hd. destruct (Default k o (wst s)) as [w1 o1]. destruct Hd as (Hv1 & Hs1 & Hsm1). cbn [wst wlog].
  pose proof (k_validate Hk o1 w1) as Hva. destruct (Validate k o1 w1) as [w2 [o2 e]]. destruct Hva as (Hv2 & Hf2 & Hsm2).
  set (s2 := mkWorld w2 _). assert (view (wst s2) = view (wst s)) as Hvs by exact (eq_trans Hv2 Hv1).
  assert (now s2 = now s) as Hns by (unfold now; by rewrite Hvs).
  assert (wlog s2 = wlog s ++ [CDefault o; CValidate o1]) as Hl by (cbn; by rewrite <- app_assoc).
  destruct e as [e|].
  { exists s2. eexists. split; [done|]. eexists. split; [exact Hl|]. rewrite Hns. split; [by left|]. intros Hh. by destruct (Hf2 (Hs1 Hh)). }
  assert (moves s s2 [] (now s)) as Hpre.
  { eexists. split; [exact Hl|]. split; [by left|]. intros Hh. split; [|done]. exact (proj2 (Hf2 (Hs1 Hh))). }
  pose proof (same_trans _ _ _ Hsm1 Hsm2) as Hsm. pose proof (api_readable Hapi o (wst s) Hv) as Hr.
  assert (IsInitialized o2 = ((IsInitialized o).1, None)) as Hi by (rewrite (proj2 Hsm); destruct (IsInitialized o); cbn in *; by subst).
  rewrite Hi. rewrite <- Hns. destruct (IsInitialized o).1 eqn:Hb.
  - destruct (reconcileInstance_moves o2 o2 s2 o Hstr (eq_trans Hvs Hv) Hsm Hb) as (s' & r & Hrec & Hm).
    exists s', r. split; [exact Hrec|]. eapply moves_after; [exact Hpre|exact Hm].
  - destruct (init_moves o2 s2 o (eq_trans Hvs Hv) Hsm Hb) as (s' & r & Hrec & Hm).
    exists s', r. split; [exact Hrec|]. eapply moves_after; [exact Hpre|exact Hm].
Qed.

(** One reconciliation is a step of the abstract machine; when calls fail it may
    leave the phase instead. *)
Lemma Reconcile_moves s : typed c -> ctrlr c = Some k -> client c = Some cl -> cleanupStrategy c = FinalizerCleanup ->
  exists s' r, Reconcile c req s = Done (s', r) /\ moves s s' (next (now s)).1 (next (now s)).2.
Proof.
  intros (_ & [proto Hp] & _) Hkk Hcl Hstr. unfold Reconcile. rewrite Hp, Hcl, Hkk. unfold logged.
  pose proof (api_get Hapi proto (wst s)) as Hg. destruct (cl_Get cl req proto (wst s)) as [w1 [o e]]. destruct Hg as (Hv1 & Hs1 & Hg).
  set (s1 := mkWorld w1 _). assert (now s1 = now s) as Hn by (unfold now; cbn; by rewrite Hv1).
  assert (moves s s1 [] (now s)) as Hpre.
  { exists [CGet req]. split; [done|]. split; [by left|]. intros Hh. split; [exact (Hs1 Hh)|done]. }
  destruct e as [x|].
  - exists s1. eexists. split; [done|]. destruct Hpre as (l & Hl & _ & Hh1). exists l. split; [done|]. split; [by left|].
    intros Hh. destruct (Hg Hh) as [Hnone _]. destruct (Hh1 Hh) as (? & ? & Hn1). assert (now s = None) as Hns by (unfold now; by rewrite Hnone).
    rewrite Hn, Hns. done.
  - destruct (reconcileFetched_moves o s1 Hstr) as (s' & r & Hrec & Hm); [exact (eq_trans Hv1 Hg)|].
    exists s', r. split; [by rewrite Hrec|]. rewrite <- Hn. eapply moves_after; [|exact Hm]. exact Hpre.
Qed.

(** ** Many reconciliations *)

Context (Hc : typed c) (Hck : ctrlr c = Some k) (Hccl : client c = Some cl) (Hstr : cleanupStrategy c = FinalizerCleanup).

Lemma serve_moves n : forall s, exists s' rs l, serve c (replicate n req) s = Done (s', rs) /\ length rs = n /\ wlog s' = wlog s ++ l /\
  progress (now s) <= progress (now s') /\
  (healthy (wst s) -> healthy (wst s') /\ omap event_of l = (lives n (now s)).1 /\ now s' = (lives n (now s)).2).
Proof.
  induction n as [|n IH]; intros s; cbn [replicate serve lives].
  { exists s, [], []. rewrite app_nil_r. by split_and!. }
  destruct (Reconcile_moves s Hc Hck Hccl Hstr) as (s1 & r & Hr & l1 & Hl1 & Hn1 & Hh1). cbn [reconcile composite_reconciles]. rewrite Hr.
  destruct (IH s1) as (s2 & rs & l2 & -> & Hlen & Hl2 & Hp & Hh2). exists s2, (r :: rs), (l1 ++ l2).
  split; [done|]. split; [cbn; by rewrite Hlen|]. split; [by rewrite Hl2, Hl1, app_assoc|]. split.
  - etransitivity; [|exact Hp]. destruct Hn1 as [->| ->]; [done|apply progress_next].
  - intros Hh. destruct (Hh1 Hh) as (Hh' & He1 & Hp1). destruct (Hh2 Hh') as (? & He2 & Hp2).
    rewrite Hp1 in He2, Hp2. destruct (next (now s)) as [evs p]. cbn in *. destruct (lives n p) as [evs' p']. cbn in *.
    by rewrite omap_app, He1, He2.
Qed.


End lifecycle.

(** ** A witness *)

(** A cluster with one object: whether it is initialized, its finalizers, and
    whether it lives; beside it the number of calls that will still fail. *)
Module LifeDemo.
Import ApiDemo RefErrors.
Definition stored : Type := bool * list string * bool.
Definition content (init : bool) : list (string * value) :=
  [("kind", VStr "Game"); ("status", VMap (if init then [("conditions", VList [])] else []))].
Definition to_obj (x : stored) : obj := let '(i, f, l) := x in mkObj (mkNN "default" "g") f l (content i).
Definition world : Type := nat * option stored.
Definition view (w : world) : option obj := to_obj <$> w.2.
Definition healthy (w : world) : Prop := w.1 = 0.

Definition outage {A} (x : A) (f : stored -> option stored) : M world (A * err) := fun '(n, o) =>
  match n, o with
  | S n, _ => ((n, o), (x, Some (errors_New "connection refused")))
  | 0, None => ((0, None), (x, Some NotFound))
  | 0, Some cur => ((0, f cur), (x, None))
  end.
Definition cluster : Client world obj :=
  mkClient
    (fun _ proto '(n, o) => match n, o with
       | S n, _ => ((n, o), (proto, Some (errors_New "connection refused")))
       | 0, None => ((0, None), (proto, Some NotFound))
       | 0, Some x => ((0, o), (to_obj x, None)) end)
    (fun o => outage o (fun '(i, _, l) => if negb l && bool_decide (fins o = []) then None else Some (i, fins o, l)))
    (fun o => outage o (fun '(_, f, l) => Some ((IsInitialized o).1, f, l))).
Definition controller : Controller world obj :=
  mkController (fun o w => (w, o)) (fun o w => (w, (o, None)))
    (fun o _ w => (w, (mkObj (nsname o) (fins o) (live o) (content true), None)))
    (fun o w => (w, (o, None))) (fun o w => (w, (o, (emptyResult, None)))) (fun o w => (w, (o, (emptyResult, None)))).
Definition reconciler : CompositeReconciler (W := world) (Obj := obj) :=
  fst (Init (mkCompositeReconciler "" DefaultInitCondition "" 0%Z None None None) (Some cluster) (Some controller)
         (Some (to_obj (false, [], true))) [WithName "life"; WithCleanupStrategy FinalizerCleanup]).
Definition key : NamespacedName := mkNN "default" "g".

Lemma readable i f l : IsInitialized (to_obj (i, f, l)) = (i, None).
Proof. by destruct i. Qed.

Lemma cluster_works : api_works cluster key view healthy.
Proof.
  split.
  - intros proto [[|n] [x|]]; cbn; unfold stays, healthy, view; cbn; (split_and!; try done; try (intros; lia)).
  - intros o cur [[|n] [[[i f] l]|]] Hv; unfold view in Hv; cbn in *; simplify_eq; unfold fine, healthy, view; cbn.
    + split; [done|]. destruct (negb l && bool_decide (fins o = [])) eqn:Hg; [done|]. eexists. split; [done|].
      by split_and!.
    + split; [intros; lia|done].
  - intros o cur [[|n] [[[i f] l]|]] Hv; unfold view in Hv; cbn in *; simplify_eq; unfold fine, healthy, view; cbn.
    + split; [done|]. eexists. split; [done|]. split_and!; try done.
      change ((IsInitialized (to_obj ((IsInitialized o).1, f, l))).1 = (IsInitialized o).1). by rewrite readable.
    + split; [intros; lia|done].
  - intros o [n [[[i f] l]|]] Hv; unfold view in Hv; cbn in Hv; simplify_eq. change ((IsInitialized (to_obj (i, f, l))).2 = None). by rewrite readable.
Qed.

Lemma demo_controller : controller_works reconciler controller view healthy.
Proof. split; intros o w; cbn; unfold stays, fine, healthy; by split_and!. Qed.

(** A new object, and one that is being deleted with the finalizer and another. *)
Definition born : World world (CtrlCall obj) := mkWorld (0, Some (false, [], true)) [].
Definition dying : World world (CtrlCall obj) := mkWorld (0, Some (true, ["other"; "life"], false)) [].
Lemma demo_typed : typed reconciler.
Proof. split_and!; try by eexists. - by right. - done. Qed.
End LifeDemo.

Import ApiDemo RefErrors LifeDemo.



(** After three calls that fail, the life of an object begins. *)
Example outage_survived :
  match serve reconciler (replicate 6 LifeDemo.key) (mkWorld (3, Some (false, [], true)) []) with
  | Done (s', rs) => omap event_of (wlog s') = [EInit; EUpdate; EOperate] /\ length (filter (fun r => r.2 = None) rs) = 3
  | _ => False
  end.
Proof. vm_compute. split; reflexivity. Qed.
