(* ===== verification/DeepCopy.v ===== *)
(** Deep copies of the API types: [example/api/v1alpha1/zz_generated.deepcopy.go].

    The reconcilers copy an object before they work on it, and compare the copy
    with what has become of the object; caches give copies to their readers.
    This only works if nothing that is done to one of them shows in the other.
    Slices and maps live in a memory; a structure holds their addresses. *)
From S2P Require Import Prelude CompositeController Space.

(** ** Memory *)

(** What an address holds: a slice of conditions, a slice of games, or what the
    metadata of an object points to. *)
Inductive cell (Meta Cell : Type) :=
| CConditions (cs : list Condition)
| CGames (gs : list (GVK * Meta * GameSpec * option nat))
| CMeta (c : Cell).
Arguments CConditions {Meta Cell}. Arguments CGames {Meta Cell}. Arguments CMeta {Meta Cell}.
Abbreviation memory Meta Cell := (gmap nat (cell Meta Cell)).

(** [type Game] in memory: the slice of the conditions is nil or an address. *)
Abbreviation MGame Meta := (GVK * Meta * GameSpec * option nat)%type.
Record MGameList LMeta := mkMGameList { ml_TypeMeta : GVK; ml_ListMeta : LMeta; ml_Items : option nat }.
Arguments mkMGameList {LMeta}. Arguments ml_TypeMeta {LMeta}. Arguments ml_ListMeta {LMeta}. Arguments ml_Items {LMeta}.

(** A metadata type [T], [metav1.ObjectMeta] or [metav1.ListMeta]: its plain
    fields, the addresses of its slices, maps and pointers, and [DeepCopyInto]. *)
Class MetaCopy (T Meta Cell : Type) := {
  meta_fields : Type;
  meta_plain : T -> meta_fields;
  meta_refs : T -> list nat;
  meta_DeepCopyInto : T -> M (memory Meta Cell) T;
}.

Section copies.
Context {Meta LMeta Cell : Type} `{!MetaCopy Meta Meta Cell, !MetaCopy LMeta Meta Cell}.
Local Abbreviation mem := (memory Meta Cell).

(** [make] with the contents given to it. *)
Definition alloc (c : cell Meta Cell) : M mem nat := fun m => let l := fresh (dom m) in (<[l := c]> m, l).

(** [GameSpec.DeepCopyInto] and [DeepCopy]; pointers may be nil. *)
Definition GameSpec_DeepCopyInto (in_ : GameSpec) : GameSpec := in_.
Definition GameSpec_DeepCopy (in_ : option GameSpec) : option GameSpec :=
  match in_ with None => None | Some s => Some (GameSpec_DeepCopyInto s) end.

(** [GameStatus.DeepCopyInto], on its only field, and [DeepCopy]; a condition has
    no slices, so its own copy is the value. *)
Definition GameStatus_DeepCopyInto (conditions : option nat) : M mem (option nat) := fun m =>
  match conditions with
  | None => (m, None)
  | Some l =>
    match m !! l with
    | Some (CConditions cs) => let '(m, l') := alloc (CConditions cs) m in (m, Some l')
    | _ => (m, Some l)
    end
  end.
Definition GameStatus_DeepCopy (in_ : option (option nat)) : M mem (option (option nat)) :=
  match in_ with None => mret None | Some s => s ← GameStatus_DeepCopyInto s; mret (Some s) end.

(** [Game.DeepCopyInto], [DeepCopy] and [DeepCopyObject]. *)
Definition Game_DeepCopyInto (in_ : MGame Meta) : M mem (MGame Meta) :=
  let '(typeMeta, objectMeta, spec, status) := in_ in
  objectMeta ← meta_DeepCopyInto objectMeta;
  status ← GameStatus_DeepCopyInto status;
  mret (typeMeta, objectMeta, spec, status).
Definition Game_DeepCopy (in_ : option (MGame Meta)) : M mem (option (MGame Meta)) :=
  match in_ with None => mret None | Some g => g ← Game_DeepCopyInto g; mret (Some g) end.
Definition Game_DeepCopyObject (in_ : option (MGame Meta)) : M mem (option (MGame Meta)) :=
  c ← Game_DeepCopy in_;
  match c with Some c => mret (Some c) | None => mret None end.

(** The loop of [GameList.DeepCopyInto]; the new slice is filled with its result. *)
Fixpoint copyItems (items : list (MGame Meta)) : M mem (list (MGame Meta)) :=
  match items with
  | [] => mret []
  | g :: items => g ← Game_DeepCopyInto g; items ← copyItems items; mret (g :: items)
  end.
Definition GameList_DeepCopyInto (in_ : MGameList LMeta) : M mem (MGameList LMeta) := fun m =>
  let '(m, listMeta) := meta_DeepCopyInto (ml_ListMeta in_) m in
  match ml_Items in_ with
  | None => (m, mkMGameList (ml_TypeMeta in_) listMeta None)
  | Some l =>
    match m !! l with
    | Some (CGames gs) =>
      let '(m, gs) := copyItems gs m in
      let '(m, l') := alloc (CGames gs) m in
      (m, mkMGameList (ml_TypeMeta in_) listMeta (Some l'))
    | _ => (m, mkMGameList (ml_TypeMeta in_) listMeta (Some l))
    end
  end.
Definition GameList_DeepCopy (in_ : option (MGameList LMeta)) : M mem (option (MGameList LMeta)) :=
  match in_ with None => mret None | Some l => l ← GameList_DeepCopyInto l; mret (Some l) end.
Definition GameList_DeepCopyObject (in_ : option (MGameList LMeta)) : M mem (option (MGameList LMeta)) :=
  c ← GameList_DeepCopy in_;
  match c with Some c => mret (Some c) | None => mret None end.

(** ** What a structure is worth *)

(** The addresses a game uses, and whether they hold what they should. *)
Definition game_refs (g : MGame Meta) : list nat := let '(_, om, _, st) := g in meta_refs om ++ option_list st.
Definition conditions_at (m : mem) (l : nat) : option (list Condition) :=
  match m !! l with Some (CConditions cs) => Some cs | _ => None end.
Definition game_wf (m : mem) (g : MGame Meta) : Prop := let '(_, om, _, st) := g in
  Forall (fun l => is_Some (m !! l)) (meta_refs om) /\ (forall l, st = Some l -> is_Some (conditions_at m l)).

(** Its value: everything that can be read from it. *)
Definition game_value (m : mem) (g : MGame Meta) :=
  let '(tm, om, spec, st) := g in (tm, meta_plain om, (fun l => m !! l) <$> meta_refs om, spec, conditions_at m <$> st).

(** Two memories that agree on some addresses. *)
Definition agree (ls : list nat) (m m' : mem) : Prop := forall l, l ∈ ls -> m' !! l = m !! l.

Lemma game_value_agree m m' g : agree (game_refs g) m m' -> game_value m' g = game_value m g.
Proof.
  destruct g as [[[tm om] spec] st]. intros Ha. cbn. f_equal; [f_equal; f_equal|].
  - apply list_fmap_ext. intros i l Hl. apply Ha. cbn. apply elem_of_app. left. by eapply list_elem_of_lookup_2.
  - destruct st as [l|]; [|done]. cbn. f_equal. unfold conditions_at. rewrite Ha; [done|]. cbn. set_solver.
Qed.
Lemma game_wf_agree m m' g : agree (game_refs g) m m' -> game_wf m g -> game_wf m' g.
Proof.
  destruct g as [[[tm om] spec] st]. intros Ha [Hm Hs]. split.
  - rewrite Forall_forall in *. intros l Hl. rewrite Ha; [auto|]. cbn. set_solver.
  - intros l ->. unfold conditions_at. rewrite Ha; [by apply Hs|]. cbn. set_solver.
Qed.
Lemma game_wf_refs m g l : game_wf m g -> l ∈ game_refs g -> is_Some (m !! l).
Proof.
  destruct g as [[[tm om] spec] st]. intros [Hm Hs] [Hl|Hl]%elem_of_app; [rewrite Forall_forall in Hm; auto|].
  destruct st as [l'|]; [|by apply elem_of_nil in Hl]. apply list_elem_of_singleton in Hl as ->.
  destruct (Hs l' eq_refl) as [cs Hc]. unfold conditions_at in Hc. by destruct (m !! l').
Qed.
End copies.

(** ** Copies share nothing *)

(** Documented behaviour of the copy of the metadata: it leaves the memory as it
    is, has the same plain fields, and new slices and maps with the same
    contents. *)
Class MetaCopyLaws (T Meta Cell : Type) `{MetaCopy T Meta Cell} : Prop := {
  meta_copied : forall (om : T) m, Forall (fun l => is_Some (m !! l)) (meta_refs om) ->
    let '(m', om') := meta_DeepCopyInto om m in
    m ⊆ m' /\ meta_plain om' = meta_plain om /\ Forall (fun l => m !! l = None) (meta_refs om') /\
    (fun l => m' !! l) <$> meta_refs om' = (fun l => m !! l) <$> meta_refs om;
}.

Section copies_claims.
Context {Meta LMeta Cell : Type} `{!MetaCopy Meta Meta Cell, !MetaCopy LMeta Meta Cell}.
Context `{!MetaCopyLaws Meta Meta Cell, !MetaCopyLaws LMeta Meta Cell}.
Local Abbreviation mem := (memory Meta Cell).

Lemma alloc_spec (c : cell Meta Cell) (m : mem) :
  exists l, alloc c m = (<[l := c]> m, l) /\ m !! l = None /\ m ⊆ <[l := c]> m.
Proof.
  exists (fresh (dom m)). split; [done|]. assert (m !! fresh (dom m) = None) as Hf by apply not_elem_of_dom, is_fresh.
  split; [done|]. by apply insert_subseteq.
Qed.

Lemma agree_subseteq (m m' : mem) ls : m ⊆ m' -> (forall l, l ∈ ls -> is_Some (m !! l)) -> agree ls m m'.
Proof. intros Hm Hs l Hl. destruct (Hs l Hl) as [x Hx]. rewrite Hx. by eapply lookup_weaken. Qed.

(** Copied metadata: the new addresses are in use, and later allocations leave
    what is there. *)
Lemma meta_copied_wf {T} `{!MetaCopy T Meta Cell, !MetaCopyLaws T Meta Cell} (om : T) (m : mem) :
  Forall (fun l => is_Some (m !! l)) (meta_refs om) -> exists m' om', meta_DeepCopyInto om m = (m', om') /\
  m ⊆ m' /\ meta_plain om' = meta_plain om /\ (forall l, l ∈ meta_refs om' -> m !! l = None /\ is_Some (m' !! l)) /\
  forall m2, m' ⊆ m2 -> (fun l => m2 !! l) <$> meta_refs om' = (fun l => m !! l) <$> meta_refs om.
Proof.
  intros Hm. pose proof (meta_copied om m Hm) as Hc. destruct (meta_DeepCopyInto om m) as [m' om']. destruct Hc as (Hsub & Hpl & Hfr & Hval).
  rewrite Forall_forall in Hm, Hfr. assert (forall l, l ∈ meta_refs om' -> is_Some (m' !! l)) as Hwf.
  { intros l Hl. pose proof (list_elem_of_fmap_2 (fun l => m' !! l) _ l Hl) as Hin. cbn in Hin.
    rewrite Hval in Hin. apply list_elem_of_fmap in Hin as (l0 & -> & Hl0). auto. }
  exists m', om'. split_and!; try done; [by auto|]. intros m2 Hm2. rewrite <- Hval. apply list_fmap_ext. intros i l Hl.
  by apply (agree_subseteq m' m2 (meta_refs om')), (list_elem_of_lookup_2 _ i).
Qed.

(** A game and its copy: the memory is only extended, the values agree and the
    copy uses addresses that were free. *)
Definition copied (m : mem) (g : MGame Meta) (m' : mem) (g' : MGame Meta) : Prop :=
  m ⊆ m' /\ game_value m' g' = game_value m g /\ (forall l, l ∈ game_refs g' -> m !! l = None) /\ game_wf m' g'.

Lemma Game_copied m g : game_wf m g -> exists m' g', Game_DeepCopyInto g m = (m', g') /\ copied m g m' g'.
Proof.
  destruct g as [[[tm om] spec] st]. intros [Hm Hs]. unfold Game_DeepCopyInto, mbind, M_bind, mret, M_ret.
  destruct (meta_copied_wf om m Hm) as (m1 & om' & -> & Hsub & Hpl & Hwf1 & Hval). destruct st as [l|]; cbn [GameStatus_DeepCopyInto].
  - destruct (Hs l eq_refl) as [cs Hcs]. assert (m !! l = Some (CConditions cs)) as Hl.
    { unfold conditions_at in Hcs. destruct (m !! l) as [[]|]; by simplify_eq. }
    rewrite (lookup_weaken _ _ _ _ Hl Hsub). destruct (alloc_spec (CConditions cs) m1) as (l' & -> & Hn & Hsub').
    eexists _, _. split; [done|]. split_and!.
    + by etransitivity.
    + cbn. rewrite Hpl, Hcs, (Hval _ Hsub'). unfold conditions_at. by rewrite lookup_insert_eq.
    + intros x [Hin|Hin]%elem_of_app; [by apply Hwf1|]. apply list_elem_of_singleton in Hin as ->. by eapply lookup_weaken_None.
    + split; [apply Forall_forall; intros x Hin; eapply lookup_weaken_is_Some; [by apply Hwf1|done]|].
      intros x [= <-]. unfold conditions_at. rewrite lookup_insert_eq. by eexists.
  - eexists _, _. split; [done|]. split_and!; try done.
    + cbn. by rewrite Hpl, (Hval m1).
    + intros x [Hin|Hin]%elem_of_app; [by apply Hwf1|by apply elem_of_nil in Hin].
    + split; [|done]. apply Forall_forall. intros x Hin. by apply Hwf1.
Qed.

(** The games of a slice, and what a list is worth. *)
Definition games_at (m : mem) (l : nat) : option (list (MGame Meta)) :=
  match m !! l with Some (CGames gs) => Some gs | _ => None end.
Definition items_refs (gs : list (MGame Meta)) : list nat := gs ≫= game_refs.
Definition list_refs (m : mem) (x : MGameList LMeta) : list nat :=
  meta_refs (ml_ListMeta x) ++ match ml_Items x with Some l => l :: default [] (items_refs <$> games_at m l) | None => [] end.
Definition list_wf (m : mem) (x : MGameList LMeta) : Prop :=
  Forall (fun l => is_Some (m !! l)) (meta_refs (ml_ListMeta x)) /\
  forall l, ml_Items x = Some l -> exists gs, games_at m l = Some gs /\ Forall (game_wf m) gs.
Definition list_value (m : mem) (x : MGameList LMeta) :=
  (ml_TypeMeta x, meta_plain (ml_ListMeta x), map (fun l => m !! l) (meta_refs (ml_ListMeta x)),
   match ml_Items x with
   | Some l => Some (match games_at m l with Some gs => Some (map (game_value m) gs) | None => None end)
   | None => None
   end).

Lemma items_value_agree m m' gs : agree (items_refs gs) m m' -> game_value m' <$> gs = game_value m <$> gs.
Proof.
  intros Ha. apply list_fmap_ext. intros i g Hg. apply game_value_agree. intros l Hl. apply Ha.
  apply list_elem_of_bind. exists g. split; [done|]. by eapply list_elem_of_lookup_2.
Qed.

Lemma list_wf_agree m m' gs : m ⊆ m' -> Forall (game_wf m) gs -> Forall (game_wf m') gs /\ game_value m' <$> gs = game_value m <$> gs.
Proof.
  intros Hsub Hwf. assert (forall g, g ∈ gs -> agree (game_refs g) m m') as Ha.
  { intros g Hg. apply agree_subseteq; [done|]. rewrite Forall_forall in Hwf. intros l. by apply game_wf_refs, Hwf. }
  split.
  - rewrite Forall_forall in *. intros g Hg. eapply game_wf_agree; [by apply Ha|auto].
  - apply items_value_agree. intros l (g & Hl & Hg)%list_elem_of_bind. by apply (Ha g).
Qed.

Lemma copyItems_copied gs : forall m, Forall (game_wf m) gs -> exists m' gs', copyItems gs m = (m', gs') /\ m ⊆ m' /\
  game_value m' <$> gs' = game_value m <$> gs /\ (forall l, l ∈ items_refs gs' -> m !! l = None) /\ Forall (game_wf m') gs'.
Proof.
  induction gs as [|g gs IH]; intros m Hwf; cbn [copyItems].
  { exists m, []. split_and!; try done. intros l Hl. by apply elem_of_nil in Hl. }
  apply Forall_cons in Hwf as [Hg Hgs]. destruct (Game_copied m g Hg) as (m1 & g' & Hc & Hsub & Hval & Hfr & Hwf').
  destruct (list_wf_agree m m1 gs Hsub Hgs) as [Hgs1 Hv1]. destruct (IH m1 Hgs1) as (m2 & gs' & Hcs & Hsub2 & Hval2 & Hfr2 & Hwf2).
  assert (agree (game_refs g') m1 m2) as Hag'.
  { apply agree_subseteq; [done|]. intros l. by apply game_wf_refs. }
  unfold mbind, M_bind, mret, M_ret. rewrite Hc, Hcs. exists m2, (g' :: gs'). split; [done|]. split; [by etransitivity|]. split_and!.
  - cbn. rewrite (game_value_agree m1 m2 g' Hag'), Hval, Hval2. by f_equal.
  - intros l [Hl|Hl]%elem_of_app; [auto|]. eapply lookup_weaken_None; [by apply Hfr2|done].
  - constructor; [|done]. by eapply game_wf_agree.
Qed.

Lemma GameList_copied m x : list_wf m x -> exists m' x', GameList_DeepCopyInto x m = (m', x') /\ m ⊆ m' /\
  list_value m' x' = list_value m x /\ (forall l, l ∈ list_refs m' x' -> m !! l = None).
Proof.
  intros [Hm Hwf]. unfold GameList_DeepCopyInto, list_value, list_refs.
  destruct (meta_copied_wf (ml_ListMeta x) m Hm) as (m1 & lm & -> & Hsub & Hpl & Hwf1 & Hlv).
  change (forall m2, m1 ⊆ m2 -> map (fun l => m2 !! l) (meta_refs lm) = map (fun l => m !! l) (meta_refs (ml_ListMeta x))) in Hlv.
  destruct (ml_Items x) as [l|] eqn:Hi.
  - destruct (Hwf l eq_refl) as (gs & Hgs & Hall). assert (m !! l = Some (CGames gs)) as Hl.
    { unfold games_at in Hgs. destruct (m !! l) as [[]|]; by simplify_eq. }
    rewrite (lookup_weaken _ _ _ _ Hl Hsub). destruct (list_wf_agree m m1 gs Hsub Hall) as [Hall1 Hval1].
    destruct (copyItems_copied gs m1 Hall1) as (m2 & gs' & -> & Hsub2 & Hval & Hfr & Hwf').
    destruct (alloc_spec (CGames gs') m2) as (l' & -> & Hn & Hsub'). eexists _, _. split; [done|]. cbn [ml_TypeMeta ml_ListMeta ml_Items].
    assert (games_at (<[l' := CGames gs']> m2) l' = Some gs') as Hat by (unfold games_at; by rewrite lookup_insert_eq).
    assert (m ⊆ m2) as Hsub3 by by etransitivity. rewrite Hat. split_and!; [by etransitivity| |].
    + rewrite Hpl, Hlv, Hgs by (by etransitivity). do 3 f_equal. destruct (list_wf_agree _ _ gs' Hsub' Hwf') as [_ Hv].
      change (map ?f gs' = map ?h gs) with (f <$> gs' = h <$> gs). congruence.
    + cbn. intros a [Ha|[->|Ha]%elem_of_cons]%elem_of_app; [by apply Hwf1|by eapply lookup_weaken_None|].
      eapply lookup_weaken_None; [by apply Hfr|done].
  - eexists _, _. split; [done|]. cbn [ml_TypeMeta ml_ListMeta ml_Items]. split_and!; [done| |].
    + by rewrite Hpl, (Hlv m1).
    + intros a [Ha|Ha]%elem_of_app; [by apply Hwf1|by apply elem_of_nil in Ha].
Qed.

(** Only what is written at the addresses of a structure shows in its value. *)
Definition written_through (ls : list nat) (m m' : mem) : Prop := forall l, l ∉ ls -> m' !! l = m !! l.

Lemma list_value_agree m m' x : agree (list_refs m x) m m' -> list_value m' x = list_value m x.
Proof.
  unfold list_value, list_refs. intros Ha. f_equal; [f_equal|].
  - apply list_fmap_ext. intros i l Hl. apply Ha, elem_of_app. left. by eapply list_elem_of_lookup_2.
  - destruct (ml_Items x) as [l|]; [|done].
    assert (games_at m' l = games_at m l) as Hg by (unfold games_at; rewrite Ha; set_solver).
    rewrite Hg. destruct (games_at m l) as [gs|]; [|done]. do 2 f_equal. apply items_value_agree. intros a Hin. apply Ha. set_solver.
Qed.

Lemma list_wf_refs m x l : list_wf m x -> l ∈ list_refs m x -> is_Some (m !! l).
Proof.
  unfold list_refs, list_wf. rewrite Forall_forall. intros [Hm Hwf] [Hl|Hl]%elem_of_app; [auto|].
  destruct (ml_Items x) as [l0|]; [|by apply elem_of_nil in Hl].
  destruct (Hwf l0 eq_refl) as (gs & Hgs & Hall). rewrite Hgs in Hl. apply elem_of_cons in Hl as [->|Hl].
  - unfold games_at in Hgs. by destruct (m !! l0).
  - cbn in Hl. apply list_elem_of_bind in Hl as (g & Hl & Hg). rewrite Forall_forall in Hall. by eapply game_wf_refs; [apply Hall|].
Qed.

(** What separates a structure from its copy: nothing that is written through one
    of them reaches the other. *)
Lemma separated (refs refs' : list nat) (m m' : mem) : m ⊆ m' -> (forall l, l ∈ refs -> is_Some (m !! l)) -> (forall l, l ∈ refs' -> m !! l = None) ->
  (forall m2, written_through refs' m' m2 -> agree refs m m2) /\ (forall m2, written_through refs m' m2 -> agree refs' m' m2).
Proof.
  intros Hsub Hr Hf. split; intros m2 Hw l Hl.
  - rewrite Hw; [by apply (agree_subseteq _ _ _ Hsub Hr)|]. intros Hl'. destruct (Hr l Hl). rewrite Hf in *; done.
  - apply Hw. intros Hl'. destruct (Hr l Hl') as [? Hx]. by rewrite Hf in Hx.
Qed.

(** C31: a deep copy of a game, or of a list of games, has the value of what was
    copied, and shares nothing with it: whatever is written through the copy, the
    original keeps its value, and the other way round; copying writes to nothing
    that was there, and a nil pointer has a nil copy. *)
Theorem deepcopy_isolated (m : mem) :
  (forall g, game_wf m g -> exists m' g', Game_DeepCopyObject (Some g) m = (m', Some g') /\ m ⊆ m' /\
     game_value m' g' = game_value m g /\
     (forall m2, written_through (game_refs g') m' m2 -> game_value m2 g = game_value m g) /\
     (forall m2, written_through (game_refs g) m' m2 -> game_value m2 g' = game_value m g)) /\
  (forall x, list_wf m x -> exists m' x', GameList_DeepCopyObject (Some x) m = (m', Some x') /\ m ⊆ m' /\
     list_value m' x' = list_value m x /\
     (forall m2, written_through (list_refs m' x') m' m2 -> list_value m2 x = list_value m x) /\
     (forall m2, written_through (list_refs m x) m' m2 -> list_value m2 x' = list_value m x)) /\
  Game_DeepCopyObject None m = (m, None) /\ GameList_DeepCopyObject None m = (m, None).
Proof.
  split; [|split; [|done]].
  - intros g Hwf. destruct (Game_copied m g Hwf) as (m' & g' & Hc & Hsub & Hval & Hfr & _). exists m', g'.
    destruct (separated (game_refs g) (game_refs g') m m' Hsub (fun l => game_wf_refs m g l Hwf) Hfr) as [Ha Hb].
    split; [unfold Game_DeepCopyObject, Game_DeepCopy, mbind, M_bind; by rewrite Hc|]. split_and!; try done.
    + intros m2 Hw. by apply game_value_agree, Ha.
    + intros m2 Hw. rewrite <- Hval. by apply game_value_agree, Hb.
  - intros x Hwf. destruct (GameList_copied m x Hwf) as (m' & x' & Hc & Hsub & Hval & Hfr). exists m', x'.
    destruct (separated (list_refs m x) (list_refs m' x') m m' Hsub (fun l => list_wf_refs m x l Hwf) Hfr) as [Ha Hb].
    split; [unfold GameList_DeepCopyObject, GameList_DeepCopy, mbind, M_bind; by rewrite Hc|]. split_and!; try done.
    + intros m2 Hw. by apply list_value_agree, Ha.
    + intros m2 Hw. rewrite <- Hval. by apply list_value_agree, Hb.
Qed.
End copies_claims.

(** ** A witness *)

(** Metadata of an object with a slice of finalizers, and of a list with a pointer
    to the number of remaining items. *)
Module CopyDemo.
Definition meta : Type := NamespacedName * option nat.
Definition listMeta : Type := string * option nat.
Definition copyRef {T} (om : T * option nat) : M (memory meta (list string)) (T * option nat) := fun m =>
  match om.2 with
  | None => (m, om)
  | Some l => match m !! l with Some c => let '(m, l') := alloc c m in (m, (om.1, Some l')) | None => (m, om) end
  end.
#[export] Instance copy : MetaCopy meta meta (list string) := {|
  meta_fields := NamespacedName; meta_plain := fst; meta_refs := fun om => option_list om.2; meta_DeepCopyInto := copyRef |}.
#[export] Instance list_copy : MetaCopy listMeta meta (list string) := {|
  meta_fields := string; meta_plain := fst; meta_refs := fun om => option_list om.2; meta_DeepCopyInto := copyRef |}.
Lemma copyRef_copied {T} (om : T * option nat) m : Forall (fun l => is_Some (m !! l)) (option_list om.2) ->
  let '(m', om') := copyRef om m in
  m ⊆ m' /\ om'.1 = om.1 /\ Forall (fun l => m !! l = None) (option_list om'.2) /\
  (fun l => m' !! l) <$> option_list om'.2 = (fun l => m !! l) <$> option_list om.2.
Proof.
  destruct om as [n [l|]]; intros Hr; [|done]. apply Forall_cons in Hr as [[c Hc] _]. unfold copyRef. cbn [snd]. rewrite Hc.
  destruct (alloc_spec c m) as (l' & -> & Hn & Hsub). cbn. rewrite lookup_insert_eq, Hc. split_and!; try done. by repeat constructor.
Qed.
#[export] Instance copy_laws : MetaCopyLaws meta meta (list string).
Proof. split. intros om m. apply copyRef_copied. Qed.
#[export] Instance list_copy_laws : MetaCopyLaws listMeta meta (list string).
Proof. split. intros om m. apply copyRef_copied. Qed.
Definition m0 : memory meta (list string) := {[0 := CMeta ["f"]; 1 := CConditions [DefaultInitCondition]]}.
Definition g0 : MGame meta := (gameGVK, (mkNN "default" "g", Some 0), mkGameSpec "foo", Some 1).
Definition l0 : MGameList listMeta := mkMGameList zeroGVK ("1", Some 3) (Some 2).
Definition m1 : memory meta (list string) := <[2 := CGames [g0]]> (<[3 := CMeta ["9"]]> m0).
End CopyDemo.
Import CopyDemo.

(** The conditions of the game are overwritten after it was copied; a list is
    emptied after it was copied. *)
Lemma deepcopy_isolated_witness :
  (exists m' g', Game_DeepCopyObject (Some g0) m0 = (m', Some g') /\ game_value (<[1 := CConditions []]> m') g' = game_value m0 g0) /\
  (exists m' x', GameList_DeepCopyObject (Some l0) m1 = (m', Some x') /\ list_value (<[2 := CGames []]> m') x' = list_value m1 l0).
Proof.
  assert (game_wf m0 g0) as Hg.
  { split; [constructor; [by eexists|constructor]|]. intros l [= <-]. by eexists. }
  split.
  - destruct (proj1 (deepcopy_isolated m0) g0 Hg) as (m' & g' & Hc & _ & _ & _ & Hw). exists m', g'. split; [exact Hc|].
    apply Hw. intros l Hl. apply lookup_insert_ne. intros <-. apply Hl. apply elem_of_app. right. by left.
  - assert (list_wf m1 l0) as Hl.
    { split; [constructor; [by eexists|constructor]|]. intros l [= <-]. exists [g0]. split; [done|]. constructor; [|constructor]. split; [constructor; [by eexists|constructor]|]. intros l [= <-]. by eexists. }
    destruct (proj1 (proj2 (deepcopy_isolated m1)) l0 Hl) as (m' & x' & Hc & _ & _ & _ & Hw). exists m', x'. split; [exact Hc|].
    apply Hw. intros l Hn. apply lookup_insert_ne. intros <-. apply Hn. apply elem_of_app. right. by left.
Defined.
