(* ===== verification/Main.v ===== *)
(** The example program: [main] and [init] of [example/main.go].

    It puts the parts of the toolkit together: telemetry, the certificate manager,
    the space cache, the controllers and the webhooks, and starts the controller
    manager.  Each step that fails ends the program. *)
From S2P Require Import Prelude Platform Cert CertManager Space Pki SelfSigned CertLifecycle SelfSignedManager.

(** ** Calls *)

(** The flags, with their defaults, and [ctrl.Options] as the program fills them. *)
Record Flags := mkFlags { metricsAddr : string; probeAddr : string; enableLeaderElection : bool }.
Definition defaultFlags : Flags := mkFlags ":8080" ":8081" false.
Record ManagerOptions := mkManagerOptions {
  MetricsBindAddress : string; mo_Port : Z; HealthProbeBindAddress : string; LeaderElection : bool; LeaderElectionID : string;
}.

(** The steps of [main] that call other code, in a log. *)
Inductive MainCall :=
| MTelemetry (name : string)
| MGetConfig
| MNewManager (o : ManagerOptions)
| MClient
| MCert
| MAddCache
| MSetup (controller : string)
| MDiscovery
| MWebhook (name : string)
| MHealthz (name : string)
| MReadyz (name : string)
| MStart
| MShutdown.

(** How the program ends: [os.Exit] with a code, after a message, which skips
    deferred calls; or [main] returns. *)
Inductive Exit := OsExit (code : Z) (msg : string) | Returned.

(** ** The program *)

Section main.
Context {W Mgr : Type} `{NetLib} `{ErrorLib} `{CryptoLib}.
Local Abbreviation St := (World W MainCall).
Local Abbreviation spaceCacheT := (list (nat * (Z -> WatchEvent) * Pusher) * (string * Z * Cache.InformersMap) *
  (GVK -> string -> error + M W (error + SpaceList) * M W (error + nat)))%type.

(** What [main] calls of controller-runtime and client-go. *)
Record MainLib := mkMainLib {
  GetConfigOrDie : M W err;
  ctrl_NewManager : ManagerOptions -> M W (error + Mgr);
  client_New : Mgr -> M W (error + ManagerClient W);
  mgr_Add : Mgr -> spaceCacheT -> M W err;
  NewDiscoveryClientForConfig : Mgr -> M W (error + DiscoveryClient W);
  AddHealthzCheck : Mgr -> string -> M W err;
  AddReadyzCheck : Mgr -> string -> M W err;
  mgr_Start : Mgr -> M W err;
  runShutdown : Shutdown -> M W unit;
}.

(** The [SetupWithManager] methods of the controllers and webhooks, each modelled
    in the file of its component: [Game], [ExternalGame], [Example], [Space] and
    [ConfigMapWebhook]. *)
Record Setups := mkSetups {
  setupGame : Mgr -> W -> outcome (W * err);
  setupExternalGameSync : Mgr -> M W err;
  setupSpace : Mgr -> M W err;
  setupSpaceInformer1 : Mgr -> spaceCacheT -> M W err;
  setupSpaceInformer2 : Mgr -> spaceCacheT -> M W err;
  setupPodInformer1 : Mgr -> spaceCacheT -> M W err;
  setupNamespaceRecorder : Mgr -> M W err;
  setupConfigMap : string -> Mgr -> DiscoveryClient W -> M W err;
  setupGameWebhook : Mgr -> M W err;
}.

Context (lib : MainLib) (setups : Setups) (host : HostOS W) (clock : W -> Z) (selfSigned : Z -> CertGenerator W).
(** The exporters and the environment, and the scheme: [New], [DeepCopyObject]
    and the kind an object converts to. *)
Context (exporters : ExporterLib W) (environ : gmap string string).
Context (new : GVK -> error + SpaceList) (copy : SpaceList -> SpaceList) (convert : SpaceList -> error + string).

(** [init]: [utilruntime.Must] panics on an error of one of the two [AddToScheme]. *)
Definition main_init (clientgo app : err) : outcome unit :=
  match clientgo, app with
  | None, None => Done tt
  | _, _ => Panic "utilruntime.Must"
  end.

(** A call whose error ends the program. *)
Definition must {A} (c : MainCall) (msg : string) (m : W -> outcome (W * (error + A))) (k : A -> St -> outcome (St * Exit))
  : St -> outcome (St * Exit) := fun w =>
  match m (wst w) with
  | Done (s, inl e) => Done (mkWorld s (wlog w ++ [c]), OsExit 1 msg)
  | Done (s, inr a) => k a (mkWorld s (wlog w ++ [c]))
  | Panic p => Panic p
  | OutOfFuel => OutOfFuel
  end.
Definition value {A} (m : M W (error + A)) : W -> outcome (W * (error + A)) := fun w => Done (m w).
Definition error_of (m : M W err) : W -> outcome (W * (error + unit)) := fun w =>
  let '(w, e) := m w in Done (w, match e with Some e => inl e | None => inr tt end).

(** [certOpts]. *)
Definition certOpts (cli : ManagerClient W) : Options :=
  mkOptions (10 * second) (Some ("system", "webhook-service")) None 0
    [mkNN "" "mutating-webhook-configuration"] [mkNN "" "validating-webhook-configuration"] []
    cli None (Some (mkNN "system" "webhook-secret")) "" "" "" 0.
Definition managerOptions (flags : Flags) : ManagerOptions :=
  mkManagerOptions (metricsAddr flags) 9443 (probeAddr flags) (enableLeaderElection flags) "f4d65789.example.com".

(** [cert.NewManager(nil, certOpts)], whose error ends the program. *)
Definition provision (cli : ManagerClient W) (w : W) : outcome (W * (error + unit)) :=
  match NewManager host clock selfSigned None (certOpts cli) w with
  | Done (w, (e, _)) => Done (w, match e with Some e => inl e | None => inr tt end)
  | Panic p => Panic p
  | OutOfFuel => OutOfFuel
  end.
Definition setup_game (mgr : Mgr) (w : W) : outcome (W * (error + unit)) :=
  match setupGame setups mgr w with
  | Done (w, e) => Done (w, match e with Some e => inl e | None => inr tt end)
  | Panic p => Panic p
  | OutOfFuel => OutOfFuel
  end.

(** The end of [main]: the manager runs until it is stopped, and the deferred
    shutdown of the telemetry runs when [main] returns. *)
Definition startManager (mgr : Mgr) (telemetryShutdown : Shutdown) : St -> outcome (St * Exit) :=
  must MStart "problem running manager" (error_of (mgr_Start lib mgr)) (fun _ w =>
    let '(w, _) := logged MShutdown (runShutdown lib telemetryShutdown) w in Done (w, Returned)).

(** The controllers, from [spaceCache] on. *)
Definition setupControllers (mgr : Mgr) (k : St -> outcome (St * Exit)) : St -> outcome (St * Exit) :=
  let spaceCache := createSpaceCache (W := W) new copy "scheme" convert in
  must MAddCache "unable to start space cache" (error_of (mgr_Add lib mgr spaceCache)) (fun _ =>
  must (MSetup "Game") "unable to create controller" (setup_game mgr) (fun _ =>
  must (MSetup "ExternalGameSync") "unable to create controller" (error_of (setupExternalGameSync setups mgr)) (fun _ =>
  must (MSetup "Space") "unable to create controller" (error_of (setupSpace setups mgr)) (fun _ =>
  must (MSetup "SpaceInformer1") "unable to create controller" (error_of (setupSpaceInformer1 setups mgr spaceCache)) (fun _ =>
  must (MSetup "SpaceInformer2") "unable to create controller" (error_of (setupSpaceInformer2 setups mgr spaceCache)) (fun _ =>
  must (MSetup "PodInformer1") "unable to create controller" (error_of (setupPodInformer1 setups mgr spaceCache)) (fun _ =>
  must (MSetup "NamespaceRecorder") "unable to create controller" (error_of (setupNamespaceRecorder setups mgr)) (fun _ => k)))))))).

(** The webhooks and the health checks. *)
Definition setupWebhooks (mgr : Mgr) (k : St -> outcome (St * Exit)) : St -> outcome (St * Exit) :=
  must MDiscovery "unable to create discovery client" (value (NewDiscoveryClientForConfig lib mgr)) (fun dc =>
  must (MSetup "configmap-admission-controller") "unable to create admission controller"
    (error_of (setupConfigMap setups "configmap-admission-webhook-controller" mgr dc)) (fun _ =>
  must (MWebhook "Game") "unable to create webhook" (error_of (setupGameWebhook setups mgr)) (fun _ =>
  must (MHealthz "health") "unable to set up health check" (error_of (AddHealthzCheck lib mgr "health")) (fun _ =>
  must (MReadyz "check") "unable to set up ready check" (error_of (AddReadyzCheck lib mgr "check")) (fun _ => k))))).

(** [main]. *)
Definition main (flags : Flags) : St -> outcome (St * Exit) :=
  must (MTelemetry "game-operator") "unable to setup telemetry exporter"
    (value (InstallJaegerExporter exporters environ "game-operator")) (fun telemetryShutdown =>
  must MGetConfig "unable to get kubeconfig" (error_of (GetConfigOrDie lib)) (fun _ =>
  must (MNewManager (managerOptions flags)) "unable to start manager" (value (ctrl_NewManager lib (managerOptions flags))) (fun mgr =>
  must MClient "failed to create raw client" (value (client_New lib mgr)) (fun cli =>
  must MCert "unable to provision certificate" (provision cli) (fun _ =>
  setupControllers mgr (setupWebhooks mgr (startManager mgr telemetryShutdown))))))).
End main.
Arguments MainLib : clear implicits. Arguments Setups : clear implicits.

(** ** The order of the start *)

(** The steps before the manager is started. *)
Definition startup (flags : Flags) : list MainCall :=
  [MTelemetry "game-operator"; MGetConfig; MNewManager (managerOptions flags); MClient; MCert; MAddCache;
   MSetup "Game"; MSetup "ExternalGameSync"; MSetup "Space"; MSetup "SpaceInformer1"; MSetup "SpaceInformer2"; MSetup "PodInformer1";
   MSetup "NamespaceRecorder"; MDiscovery; MSetup "configmap-admission-controller"; MWebhook "Game"; MHealthz "health"; MReadyz "check"].

Section main_claims.
Context {W Mgr : Type} `{NetLib} `{ErrorLib} `{CryptoLib}.
Context (lib : MainLib W Mgr) (setups : Setups W Mgr) (host : HostOS W) (clock : W -> Z) (selfSigned : Z -> CertGenerator W).
Context (exporters : ExporterLib W) (environ : gmap string string).
Context (new : GVK -> error + SpaceList) (copy : SpaceList -> SpaceList) (convert : SpaceList -> error + string).
Context (on_disk : W -> gset string).
Local Abbreviation St := (World W MainCall).
Local Abbreviation run_main := (main lib setups host clock selfSigned exporters environ new copy convert).

(** The files of the certificate, where the server looks for them. *)
Definition cert_files (w : W) : Prop :=
  Join host (defaultCertDir host) "tls.crt" ∈ on_disk w /\ Join host (defaultCertDir host) "tls.key" ∈ on_disk w.

Lemma Start_on_disk m w w' b : disk_works host on_disk -> Start host m w = Done (w', (None, b)) ->
  Join host (CertDir m) (CertName m) ∈ on_disk w' /\ Join host (CertDir m) (KeyName m) ∈ on_disk w'.
Proof.
  intros Hd. unfold Start. rewrite (certExists_run _ _ _ _ Hd). case_bool_decide as Hex; [by intros [= <- _]|].
  unfold run_manager. rewrite (certExists_run _ _ _ _ Hd), (bool_decide_false _ Hex). cbn [negb].
  destruct (refreshCert m w) as [[w2 [ch [e|]]]| |]; try done. rewrite orb_true_r.
  destruct (writeCertOnDisk host m w2) as [[w3 [e|]]| |] eqn:Hw; try done. intros [= <- _].
  by apply (writeCertOnDisk_run _ _ _ _ _ Hd) in Hw.
Qed.

Lemma provision_on_disk cli w w' a : disk_works host on_disk ->
  provision host clock selfSigned cli w = Done (w', inr a) -> cert_files w'.
Proof.
  intros Hd. unfold provision, NewManager. cbn.
  match goal with |- context [Start host ?m w] => destruct (Start host m w) as [[w1 [[e|] b]]| |] eqn:Hs end; try done.
  intros [= <- _]. by apply (Start_on_disk _ _ _ _ Hd) in Hs.
Qed.

(** Code that leaves the files on disk. *)
Definition keeps {A} (m : M W A) : Prop := forall w w' a, m w = (w', a) -> on_disk w ⊆ on_disk w'.
Record keep_files : Prop := {
  keep_Add : forall mgr c, keeps (mgr_Add lib mgr c);
  keep_Game : forall mgr w w' e, setupGame setups mgr w = Done (w', e) -> on_disk w ⊆ on_disk w';
  keep_ExternalGameSync : forall mgr, keeps (setupExternalGameSync setups mgr);
  keep_Space : forall mgr, keeps (setupSpace setups mgr);
  keep_SpaceInformer1 : forall mgr c, keeps (setupSpaceInformer1 setups mgr c);
  keep_SpaceInformer2 : forall mgr c, keeps (setupSpaceInformer2 setups mgr c);
  keep_PodInformer1 : forall mgr c, keeps (setupPodInformer1 setups mgr c);
  keep_NamespaceRecorder : forall mgr, keeps (setupNamespaceRecorder setups mgr);
  keep_Discovery : forall mgr, keeps (NewDiscoveryClientForConfig lib mgr);
  keep_ConfigMap : forall n mgr dc, keeps (setupConfigMap setups n mgr dc);
  keep_GameWebhook : forall mgr, keeps (setupGameWebhook setups mgr);
  keep_Healthz : forall mgr n, keeps (AddHealthzCheck lib mgr n);
  keep_Readyz : forall mgr n, keeps (AddReadyzCheck lib mgr n);
}.

(** *** What a step does *)

(** What the steps so far have obtained. *)
Record Handles := mkHandles {
  h_shutdown : option Shutdown; h_mgr : option Mgr; h_client : option (ManagerClient W); h_discovery : option (DiscoveryClient W);
}.
Definition none : Handles := mkHandles None None None None.

(** The end of a step: its error, or what is at hand after it. *)
Definition failing (h : Handles) (r : W * err) : outcome (W * (error + Handles)) :=
  Done (fst r, match snd r with Some e => inl e | None => inr h end).
Definition obtaining {A} (f : A -> Handles) (r : W * (error + A)) : outcome (W * (error + Handles)) :=
  Done (fst r, match snd r with inl e => inl e | inr a => inr (f a) end).

(** The setup of a controller, by the name it has in the log. *)
Definition setup_of (name : string) (mgr : Mgr) (h : Handles) (s : W) : outcome (W * (error + Handles)) :=
  let spaceCache := createSpaceCache (W := W) new copy "scheme" convert in
  if bool_decide (name = "Game") then match setupGame setups mgr s with Done r => failing h r | Panic p => Panic p | OutOfFuel => OutOfFuel end
  else if bool_decide (name = "ExternalGameSync") then failing h (setupExternalGameSync setups mgr s)
  else if bool_decide (name = "Space") then failing h (setupSpace setups mgr s)
  else if bool_decide (name = "SpaceInformer1") then failing h (setupSpaceInformer1 setups mgr spaceCache s)
  else if bool_decide (name = "SpaceInformer2") then failing h (setupSpaceInformer2 setups mgr spaceCache s)
  else if bool_decide (name = "PodInformer1") then failing h (setupPodInformer1 setups mgr spaceCache s)
  else if bool_decide (name = "NamespaceRecorder") then failing h (setupNamespaceRecorder setups mgr s)
  else match h_discovery h with
       | Some dc => failing h (setupConfigMap setups "configmap-admission-webhook-controller" mgr dc s)
       | None => Panic "no discovery client"
       end.

(** The step behind a call of the log, with its error. *)
Definition perform (c : MainCall) (h : Handles) (s : W) : outcome (W * (error + Handles)) :=
  match c, h_mgr h with
  | MTelemetry name, _ => obtaining (fun sd => mkHandles (Some sd) (h_mgr h) (h_client h) (h_discovery h))
      (InstallJaegerExporter exporters environ name s)
  | MGetConfig, _ => failing h (GetConfigOrDie lib s)
  | MNewManager o, _ => obtaining (fun mgr => mkHandles (h_shutdown h) (Some mgr) (h_client h) (h_discovery h)) (ctrl_NewManager lib o s)
  | MClient, Some mgr => obtaining (fun cli => mkHandles (h_shutdown h) (h_mgr h) (Some cli) (h_discovery h)) (client_New lib mgr s)
  | MCert, _ =>
    match h_client h with
    | Some cli => match NewManager host clock selfSigned None (certOpts cli) s with
                  | Done (s, (e, _)) => failing h (s, e) | Panic p => Panic p | OutOfFuel => OutOfFuel end
    | None => Panic "no client"
    end
  | MAddCache, Some mgr => failing h (mgr_Add lib mgr (createSpaceCache (W := W) new copy "scheme" convert) s)
  | MSetup name, Some mgr => setup_of name mgr h s
  | MDiscovery, Some mgr => obtaining (fun dc => mkHandles (h_shutdown h) (h_mgr h) (h_client h) (Some dc)) (NewDiscoveryClientForConfig lib mgr s)
  | MWebhook _, Some mgr => failing h (setupGameWebhook setups mgr s)
  | MHealthz name, Some mgr => failing h (AddHealthzCheck lib mgr name s)
  | MReadyz name, Some mgr => failing h (AddReadyzCheck lib mgr name s)
  | MStart, Some mgr => failing h (mgr_Start lib mgr s)
  | MShutdown, _ => match h_shutdown h with Some sd => Done (fst (runShutdown lib sd s), inr h) | None => Panic "no shutdown" end
  | _, None => Panic "no manager"
  end.

(** Steps that have all succeeded, from the state [s0]. *)
Inductive succeeded (s0 : W) : list MainCall -> Handles -> W -> Prop :=
| succeeded_none : succeeded s0 [] none s0
| succeeded_step did c h s h' s' : succeeded s0 did h s -> perform c h s = Done (s', inr h') -> succeeded s0 (did ++ [c]) h' s'.

(** The message of a step that fails. *)
Definition message (c : MainCall) : string :=
  match c with
  | MTelemetry _ => "unable to setup telemetry exporter"
  | MGetConfig => "unable to get kubeconfig"
  | MNewManager _ => "unable to start manager"
  | MClient => "failed to create raw client"
  | MCert => "unable to provision certificate"
  | MAddCache => "unable to start space cache"
  | MSetup name => if bool_decide (name = "configmap-admission-controller") then "unable to create admission controller" else "unable to create controller"
  | MDiscovery => "unable to create discovery client"
  | MWebhook _ => "unable to create webhook"
  | MHealthz _ => "unable to set up health check"
  | MReadyz _ => "unable to set up ready check"
  | MStart => "problem running manager"
  | MShutdown => ""
  end.

(** How the program ends.  Either a step fails: then all steps before it, which are
    the first ones of the list, have succeeded, no step follows, and the program
    exits with 1 and the message of the step.  Or all steps succeed, the last of them
    the manager's run, and the telemetry is shut down.  In either case the files of
    the certificate are there when the manager is started. *)
Inductive ending (flags : Flags) (w w' : St) : Exit -> Prop :=
| ending_failed did c h s x : did ++ [c] `prefix_of` startup flags ++ [MStart] -> succeeded (wst w) did h s ->
    perform c h s = Done (wst w', inl x) -> wlog w' = wlog w ++ did ++ [c] -> (c = MStart -> did = startup flags /\ cert_files s) ->
    ending flags w w' (OsExit 1 (message c))
| ending_returned h s s1 h1 h2 : succeeded (wst w) (startup flags) h s -> cert_files s ->
    perform MStart h s = Done (s1, inr h1) -> perform MShutdown h1 s1 = Done (wst w', inr h2) ->
    wlog w' = wlog w ++ startup flags ++ [MStart; MShutdown] ->
    ending flags w w' Returned.

(** What is left of the program after the steps [did], in a world with [I]. *)
Definition stage (flags : Flags) (did : list MainCall) (h : Handles) (I : W -> Prop) (k : St -> outcome (St * Exit)) : Prop :=
  forall w0 w w' r, wlog w = wlog w0 ++ did -> succeeded (wst w0) did h (wst w) -> I (wst w) -> k w = Done (w', r) -> ending flags w0 w' r.

(** A step of the program is the one of the log. *)
Definition performs {A} (c : MainCall) (h : Handles) (m : W -> outcome (W * (error + A))) (f : A -> Handles) : Prop :=
  forall s s' r, m s = Done (s', r) -> perform c h s = Done (s', match r with inl e => inl e | inr a => inr (f a) end).

Lemma performs_error c h (m : M W err) : (forall s, perform c h s = failing h (m s)) -> performs c h (error_of m) (fun _ => h).
Proof. intros Hp s s' r. unfold error_of. rewrite Hp. destruct (m s) as [s1 [e|]]; intros [= <- <-]; done. Qed.
Lemma performs_value {A} c h (m : M W (error + A)) f : (forall s, perform c h s = obtaining f (m s)) -> performs c h (value m) f.
Proof. intros Hp s s' r. unfold value. rewrite Hp. by intros [= ->]. Qed.

Lemma performs_game h mgr : h_mgr h = Some mgr -> performs (MSetup "Game") h (setup_game setups mgr) (fun _ => h).
Proof.
  intros Hm s s' r. unfold setup_game, perform. rewrite Hm. unfold setup_of. rewrite bool_decide_true by done.
  destruct (setupGame setups mgr s) as [[s1 [e|]]| |]; intros [= <- <-]; done.
Qed.
Lemma performs_cert h cli : h_client h = Some cli -> performs MCert h (provision host clock selfSigned cli) (fun _ => h).
Proof.
  intros Hc s s' r. unfold provision, perform. rewrite Hc.
  destruct (NewManager _ _ _ _ _ s) as [[s1 [[e|] b]]| |]; intros [= <- <-]; done.
Qed.

Lemma stage_must {A} flags did h (I J : W -> Prop) c msg (m : W -> outcome (W * (error + A))) k f :
  did ++ [c] `prefix_of` startup flags -> msg = message c -> performs c h m f ->
  (forall w w' a, I w -> m w = Done (w', inr a) -> J w') ->
  (forall a, stage flags (did ++ [c]) (f a) J (k a)) -> stage flags did h I (must c msg m k).
Proof.
  intros Hp -> Hpf Hm Hk w0 w w' r Hl Hsu HI. unfold must. destruct (m (wst w)) as [[s [e|a]]| |] eqn:Hs; try done.
  - intros [= <- <-]. eapply (ending_failed _ _ _ did c h (wst w)); [by apply prefix_app_r|done|exact (Hpf _ _ _ Hs)|cbn; by rewrite Hl, <- app_assoc|].
    intros ->. exfalso. assert (MStart ∈ startup flags) as Hin; [|unfold startup in Hin; rewrite !elem_of_cons, elem_of_nil in Hin; naive_solver].
    destruct Hp as [l ->]. set_solver.
  - apply (Hk a w0); [cbn; by rewrite Hl, <- app_assoc|cbn; by eapply succeeded_step, (Hpf _ _ _ Hs)|by eapply Hm].
Qed.

Lemma keeps_files_on (m : M W err) w w' a : keeps m -> cert_files w -> error_of m w = Done (w', inr a) -> cert_files w'.
Proof.
  intros Hm [Hc Hk]. unfold error_of. destruct (m w) as [w1 e] eqn:Hs. intros [= <- _]. apply Hm in Hs. split; by apply Hs.
Qed.

Lemma stage_start flags mgr sd cli dc : stage flags (startup flags) (mkHandles (Some sd) (Some mgr) (Some cli) (Some dc)) cert_files (startManager lib mgr sd).
Proof.
  intros w0 w w' r Hl Hsu Hf. set (h := mkHandles _ _ _ _) in *. unfold startManager, must, error_of.
  assert (perform MStart h (wst w) = failing h (mgr_Start lib mgr (wst w))) as Hst by done.
  destruct (mgr_Start lib mgr (wst w)) as [s [e|]] eqn:Hs.
  - intros [= <- <-]. by eapply (ending_failed _ _ _ (startup flags) MStart h (wst w)); [|done|exact Hst|cbn; rewrite Hl, <- app_assoc|].
  - unfold logged. cbn. assert (perform MShutdown h s = Done (fst (runShutdown lib sd s), inr h)) as Hsd by done.
    destruct (runShutdown lib sd s) as [s2 u]. intros [= <- <-].
    by eapply (ending_returned _ _ _ h (wst w) s h); [| |exact Hst|exact Hsd|cbn; rewrite Hl, <- !app_assoc].
Qed.

Ltac stage_step I :=
  eapply (stage_must _ _ _ _ I); [by eexists|done|first [apply performs_error; done|apply performs_value; done|idtac]| |intros ?; cbn [app h_shutdown h_mgr h_client h_discovery none]].

Lemma stage_webhooks flags mgr k sd cli : keep_files ->
  (forall dc, stage flags (startup flags) (mkHandles (Some sd) (Some mgr) (Some cli) (Some dc)) cert_files k) ->
  stage flags (take 13 (startup flags)) (mkHandles (Some sd) (Some mgr) (Some cli) None) cert_files (setupWebhooks lib setups mgr k).
Proof.
  intros Hkeep Hk. unfold setupWebhooks. cbn [take startup].
  stage_step cert_files.
  { intros w w' a [Hc Hy]. unfold value. destruct (NewDiscoveryClientForConfig lib mgr w) as [w1 r] eqn:Hs. intros [= <- _].
    apply (keep_Discovery Hkeep) in Hs. split; by apply Hs. }
  do 4 (stage_step cert_files; [intros w w' a'; apply keeps_files_on, Hkeep|]). apply Hk.
Qed.

Lemma stage_controllers flags mgr k h : keep_files -> h_mgr h = Some mgr ->
  stage flags (take 13 (startup flags)) h cert_files k ->
  stage flags (take 5 (startup flags)) h cert_files (setupControllers lib setups new copy convert mgr k).
Proof.
  destruct h as [sd m0 cli dc]. cbn. intros Hkeep -> Hk. unfold setupControllers. cbn [take startup].
  stage_step cert_files; [intros w w' a; apply keeps_files_on, Hkeep|].
  stage_step cert_files.
  { by apply performs_game. }
  { intros w w' a' [Hc Hy]. unfold setup_game. destruct (setupGame setups mgr w) as [[w1 e]| |] eqn:Hs; try done. intros [= <- _].
    apply (keep_Game Hkeep) in Hs. split; by apply Hs. }
  do 6 (stage_step cert_files; [intros w w' a'; apply keeps_files_on, Hkeep|]). exact Hk.
Qed.

(** C27: the program starts its manager, and with it the webhook server, only after
    every other step has returned without an error, in the order of the source, and
    with the files of the certificate on disk.  The first step that fails ends the
    program with exit code 1 and the message of that step, and no later step is made.
    The telemetry is shut down, with what installing it has returned, only when the
    manager returns without an error.  A file that was written stays on disk: the disk
    works and no step removes files. *)
Theorem main_start_order flags w w' r : disk_works host on_disk -> keep_files ->
  run_main flags w = Done (w', r) -> ending flags w w' r.
Proof.
  intros Hd Hkeep. assert (stage flags [] none (fun _ => True) (run_main flags)) as Hst.
  2:{ apply Hst; [by rewrite app_nil_r|constructor|done]. }
  unfold main. do 4 (stage_step (fun _ : W => True); [done|]). stage_step cert_files.
  { by apply performs_cert. }
  { intros w1 w2 a5 _. by apply provision_on_disk. }
  apply stage_controllers; [done|done|]. apply stage_webhooks; [done|]. intros dc. apply stage_start.
Qed.
End main_claims.

(** ** A witness *)

(** The program in memory: the certificate manager with the self-signed generator
    and the cluster of [MemCluster], and controllers that are set up at once. *)
Module MainDemo.
Import RefErrors RefPki RefTls ManagerDemo MemCluster RefManager SpaceDemo.
Local Abbreviation World := ((option SelfSignedCertGenerator * RefPki.world) * View)%type.

Definition ok : M World err := fun w => (w, None).
Definition library (startErr : err) : MainLib World unit :=
  mkMainLib ok (fun _ w => (w, inr tt)) (fun _ w => (w, inr memory)) (fun _ _ => ok)
    (fun _ w => (w, inr (mkDiscoveryClient (fun w => (w, inr "v1.20.0")) (fun w => (w, inr []))))) (fun _ _ => ok) (fun _ _ => ok)
    (fun _ w => (w, startErr)) (fun _ w => (w, tt)).
Definition controllers : Setups World unit :=
  mkSetups (fun _ w => Done (ok w)) (fun _ => ok) (fun _ => ok) (fun _ _ => ok) (fun _ _ => ok) (fun _ _ => ok) (fun _ => ok)
    (fun _ _ _ => ok) (fun _ => ok).
Definition exporter : ExporterLib World :=
  mkExporterLib (fun w => (w, inr "jaeger")) (fun w => (w, inr "otlp")) (fun _ w => (w, inr "res")) (fun _ w => (w, tt)) (fun w => (w, tt))
    (fun _ w => (w, None)).
Definition whs : gmap Ref WhObject :=
  {[(KMutating, mkNN "" "mutating-webhook-configuration") :=
      MutatingWebhookConfiguration (mkNN "" "mutating-webhook-configuration") [mkWebhook "m" ""];
    (KValidating, mkNN "" "validating-webhook-configuration") :=
      ValidatingWebhookConfiguration (mkNN "" "validating-webhook-configuration") [mkWebhook "v" ""]]}.
Definition w0 : Prelude.World World MainCall := Prelude.mkWorld ((None, start), mkView None whs ∅) [].
Definition program (startErr : err) (environ : gmap string string) :=
  main (library startErr) controllers memory_host ss_clock allocate exporter environ SpaceDemo.new (fun l => l) convert
    defaultFlags w0.
Definition files (w : World) : gset string := dom (v_files w.2).

Lemma disk : disk_works memory_host files.
Proof.
  split; cbn; unfold reading, writing, files.
  - intros p w [d Hd]%elem_of_dom. by rewrite Hd.
  - intros p w Hd%not_elem_of_dom. rewrite Hd. by eexists.
  - intros p d [g v] w' [= <-]. cbn. by rewrite dom_insert_L.
Qed.
Lemma kept startErr : keep_files (library startErr) controllers files.
Proof. split; repeat intro; cbn in *; unfold ok in *; by simplify_eq. Qed.
End MainDemo.

Import RefErrors RefPki RefTls ManagerDemo MemCluster RefManager MainDemo.

Definition calls_of (r : outcome (Prelude.World ((option SelfSignedCertGenerator * RefPki.world) * View) MainCall * Exit)) : option (list MainCall * Exit) :=
  match r with Done (w, x) => Some (wlog w, x) | _ => None end.

(** The program runs and returns when its manager does. *)
Lemma main_start_order_witness : exists w',
  program None ∅ = Done (w', Returned) /\ wlog w' = startup defaultFlags ++ [MStart; MShutdown] /\
  ending (library None) controllers memory_host ss_clock allocate exporter ∅ SpaceDemo.new (fun l => l) SpaceDemo.convert files defaultFlags w0 w' Returned.
Proof.
  assert (calls_of (program None ∅) = Some (startup defaultFlags ++ [MStart; MShutdown], Returned)) as Hc by (vm_compute; reflexivity).
  destruct (program None ∅) as [[w' r]| |] eqn:Hp; [|discriminate Hc|discriminate Hc]. cbn in Hc. injection Hc as Hl ->.
  exists w'. split; [reflexivity|]. split; [exact Hl|].
  exact (main_start_order (library None) controllers memory_host ss_clock allocate exporter ∅ SpaceDemo.new
    (fun l => l) SpaceDemo.convert files defaultFlags w0 w' Returned disk (kept None) Hp).
Defined.

(** A tracer that was installed is not shut down when the manager fails. *)
Example exit_skips_shutdown : calls_of (program (Some (errors_New "no leader")) {["DISABLE_TRACING" := "false"]}) =
  Some (startup defaultFlags ++ [MStart], OsExit 1 "problem running manager").
Proof. vm_compute. reflexivity. Qed.
